(** * Move generation of the Glaurung chess engine (src/movegen.cpp)

    A shallow embedding of the move generator: bitboards are 64-bit
    unsigned integers carried by [Z], the move buffer is a list of moves
    in the order in which the generator writes them, and the [Position]
    the generator consults is a record of the capabilities it calls. *)

From Stdlib Require Import ZArith List Bool Lia Permutation.
Import ListNotations.
Local Open Scope Z_scope.

(** ** Squares, colours, pieces *)

Definition Square := Z.
Definition Bitboard := Z.

Inductive Color := WHITE | BLACK.
Inductive PieceType := PAWN | KNIGHT | BISHOP | ROOK | QUEEN | KING.
Inductive Piece := EMPTY | Pc (c : Color) (pt : PieceType).

Definition Color_eqb (a b : Color) : bool :=
  match a, b with WHITE, WHITE | BLACK, BLACK => true | _, _ => false end.

Definition PieceType_eqb (a b : PieceType) : bool :=
  match a, b with
  | PAWN, PAWN | KNIGHT, KNIGHT | BISHOP, BISHOP
  | ROOK, ROOK | QUEEN, QUEEN | KING, KING => true
  | _, _ => false
  end.

Definition Piece_eqb (a b : Piece) : bool :=
  match a, b with
  | EMPTY, EMPTY => true
  | Pc c1 t1, Pc c2 t2 => Color_eqb c1 c2 && PieceType_eqb t1 t2
  | _, _ => false
  end.

Definition opposite_color (c : Color) : Color :=
  match c with WHITE => BLACK | BLACK => WHITE end.

Definition color_of_piece (p : Piece) : option Color :=
  match p with EMPTY => None | Pc c _ => Some c end.

Definition type_of_piece (p : Piece) : option PieceType :=
  match p with EMPTY => None | Pc _ t => Some t end.

Definition pawn_of_color (c : Color) := Pc c PAWN.
Definition rook_of_color (c : Color) := Pc c ROOK.
Definition queen_of_color (c : Color) := Pc c QUEEN.
Definition king_of_color (c : Color) := Pc c KING.

Definition SQ_NONE : Square := 64.
Definition SQ_A1 : Square := 0.
Definition SQ_C1 : Square := 2.
Definition SQ_D1 : Square := 3.
Definition SQ_F1 : Square := 5.
Definition SQ_G1 : Square := 6.

Definition DELTA_N : Z := 8.
Definition DELTA_S : Z := -8.
Definition DELTA_E : Z := 1.
Definition DELTA_W : Z := -1.
Definition DELTA_NE : Z := 9.
Definition DELTA_NW : Z := 7.
Definition DELTA_SE : Z := -7.
Definition DELTA_SW : Z := -9.
Definition DELTA_NN : Z := 16.
Definition DELTA_SS : Z := -16.

Definition FILE_A : Z := 0.
Definition FILE_B : Z := 1.
Definition FILE_H : Z := 7.
Definition RANK_1 : Z := 0.
Definition RANK_4 : Z := 3.
Definition RANK_5 : Z := 4.
Definition RANK_8 : Z := 7.

Definition square_file (s : Square) : Z := s mod 8.
Definition square_rank (s : Square) : Z := s / 8.
Definition make_square (f r : Z) : Square := f + 8 * r.

Definition on_board (s : Square) : bool := (0 <=? s) && (s <? 64).

(** Ranks are mirrored for Black: the square seen from [c]'s side. *)
Definition relative_square (c : Color) (s : Square) : Square :=
  match c with WHITE => s | BLACK => Z.lxor s 56 end.

Definition relative_rank (c : Color) (s : Square) : Z :=
  match c with WHITE => square_rank s | BLACK => 7 - square_rank s end.

Definition pawn_push (c : Color) : Z :=
  match c with WHITE => DELTA_N | BLACK => DELTA_S end.

(** ** Bitboards: 64-bit unsigned integers *)

Definition BB_FULL : Bitboard := 2 ^ 64 - 1.
Definition EmptyBoardBB : Bitboard := 0.

Definition bb_ok (b : Bitboard) : Prop := 0 <= b < 2 ^ 64.

Definition bb_and (a b : Bitboard) : Bitboard := Z.land a b.
Definition bb_or (a b : Bitboard) : Bitboard := Z.lor a b.
Definition bb_xor (a b : Bitboard) : Bitboard := Z.lxor a b.
(** [~b] on a 64-bit word. *)
Definition bb_not (b : Bitboard) : Bitboard := Z.lxor b BB_FULL.
(** [b << n] on a 64-bit word: the bits shifted out at the top are lost. *)
Definition bb_shl (b : Bitboard) (n : Z) : Bitboard := Z.land (Z.shiftl b n) BB_FULL.
Definition bb_shr (b : Bitboard) (n : Z) : Bitboard := Z.shiftr b n.

Definition bit_is_set (b : Bitboard) (s : Square) : bool := Z.testbit b s.
Definition set_mask (s : Square) : Bitboard := Z.shiftl 1 s.
Definition clear_bit (b : Bitboard) (s : Square) : Bitboard :=
  Z.land b (bb_not (set_mask s)).

Declare Scope bb_scope.
Delimit Scope bb_scope with bb.
Infix "&" := bb_and (at level 40, left associativity) : bb_scope.
Infix ":|" := bb_or (at level 50, left associativity) : bb_scope.
Notation "~~ b" := (bb_not b) (at level 35, right associativity) : bb_scope.
Infix "<<" := bb_shl (at level 38, left associativity) : bb_scope.
Infix ">>" := bb_shr (at level 38, left associativity) : bb_scope.
Local Open Scope bb_scope.

Definition all_squares : list Square := map Z.of_nat (seq 0 64).

(** The bitboard of the squares that satisfy [f]. *)
Definition bb_of_pred (f : Square -> bool) : Bitboard :=
  fold_right (fun s acc => Z.lor (if f s then set_mask s else 0) acc) 0 all_squares.

Definition bb_of_list (l : list Square) : Bitboard :=
  fold_right (fun s acc => Z.lor (set_mask s) acc) 0 l.

(** Index of the lowest set bit. *)
Fixpoint lsb_pos (p : positive) : Z :=
  match p with
  | xO q => 1 + lsb_pos q
  | _ => 0
  end.

Definition first_1 (b : Bitboard) : Square :=
  match b with
  | Zpos p => lsb_pos p
  | _ => 0
  end.

(** [pop_1st_bit(&b)]: returns the lowest set square and clears it. *)
Definition pop_1st_bit (b : Bitboard) : Square * Bitboard :=
  (first_1 b, Z.land b (b - 1)).

(** [while (b) { s = pop_1st_bit(&b); ... }]: the squares visited, in
    order.  A 64-bit word is exhausted after at most 64 rounds. *)
Fixpoint pop_loop (fuel : nat) (b : Bitboard) : list Square :=
  match fuel with
  | O => []
  | S k =>
      if b =? 0 then []
      else let '(s, b') := pop_1st_bit b in s :: pop_loop k b'
  end.

Definition bb_squares (b : Bitboard) : list Square := pop_loop 64 b.

(** ** Board constants *)

Definition FileABB : Bitboard := 0x0101010101010101.
Definition FileHBB : Bitboard := 0x8080808080808080.
Definition Rank1BB : Bitboard := 0xFF.
Definition Rank3BB : Bitboard := 0xFF0000.
Definition Rank6BB : Bitboard := 0xFF0000000000.
Definition Rank8BB : Bitboard := 0xFF00000000000000.

Definition file_bb (s : Square) : Bitboard :=
  bb_of_pred (fun t => square_file t =? square_file s).

Definition neighboring_files_bb (s : Square) : Bitboard :=
  bb_of_pred (fun t => Z.abs (square_file t - square_file s) =? 1).

(** ** Attack tables

    Modelled from the spec: the attack tables and the occupancy-parameterised
    slider attacks ([knight_attacks], [king_attacks], [pawn_attacks],
    [bishop_attacks_bb], [rook_attacks_bb], [QueenPseudoAttacks],
    [squares_between]) live in the bitboard module, which is not part of
    this file's source; they are given here by the movement rules of the
    pieces, on file and rank coordinates. *)

Definition Direction := (Z * Z)%type.

Definition bishop_dirs : list Direction := [(1, 1); (1, -1); (-1, 1); (-1, -1)].
Definition rook_dirs : list Direction := [(1, 0); (-1, 0); (0, 1); (0, -1)].
Definition queen_dirs : list Direction := bishop_dirs ++ rook_dirs.
Definition knight_steps : list Direction :=
  [(1, 2); (2, 1); (2, -1); (1, -2); (-1, -2); (-2, -1); (-2, 1); (-1, 2)].

Definition coord_ok (x : Z) : bool := (0 <=? x) && (x <=? 7).

(** The square [k] steps from [s] in direction [d], if it is on the board. *)
Definition ray_valid (s : Square) (d : Direction) (k : Z) : bool :=
  coord_ok (square_file s + k * fst d) && coord_ok (square_rank s + k * snd d).

Definition ray_target (s : Square) (d : Direction) (k : Z) : Square :=
  make_square (square_file s + k * fst d) (square_rank s + k * snd d).

Definition steps_upto (k : Z) : list Z := map Z.of_nat (seq 1 (Z.to_nat k)).

(** [t] is one step of [steps] away from [s]. *)
Definition step_reaches (steps : list Direction) (s t : Square) : bool :=
  existsb (fun d => ray_valid s d 1 && (ray_target s d 1 =? t)) steps.

Definition knight_attacks_bb (s : Square) : Bitboard :=
  bb_of_pred (step_reaches knight_steps s).

Definition king_attacks_bb (s : Square) : Bitboard :=
  bb_of_pred (step_reaches queen_dirs s).

(** Squares attacked by a pawn of colour [c] standing on [s]. *)
Definition pawn_attacks_bb (c : Color) (s : Square) : Bitboard :=
  bb_of_pred (step_reaches
    (match c with WHITE => [(1, 1); (-1, 1)] | BLACK => [(1, -1); (-1, -1)] end) s).

(** The first [k - 1] squares of the ray from [s] in direction [d] are
    unoccupied. *)
Definition ray_clear (occ : Bitboard) (s : Square) (d : Direction) (k : Z) : bool :=
  forallb (fun j => negb (Z.testbit occ (ray_target s d j))) (steps_upto (k - 1)).

(** A slider on [s] reaches [t] along [d]: every square before [t] is
    unoccupied ([t] itself may hold a piece). *)
Definition slides_to (occ : Bitboard) (s : Square) (d : Direction) (t : Square) : bool :=
  existsb (fun k => ray_valid s d k && (ray_target s d k =? t) && ray_clear occ s d k)
          (steps_upto 7).

Definition slider_attacks_bb (dirs : list Direction) (s : Square) (occ : Bitboard) : Bitboard :=
  bb_of_pred (fun t => existsb (fun d => slides_to occ s d t) dirs).

Definition bishop_attacks_bb := slider_attacks_bb bishop_dirs.
Definition rook_attacks_bb := slider_attacks_bb rook_dirs.
Definition queen_attacks_bb (s : Square) (occ : Bitboard) : Bitboard :=
  bishop_attacks_bb s occ :| rook_attacks_bb s occ.

Definition QueenPseudoAttacks (s : Square) : Bitboard := queen_attacks_bb s EmptyBoardBB.

(** The open segment between two squares on a common line; empty when
    they are not aligned. *)
Definition squares_between (a b : Square) : Bitboard :=
  bb_of_pred (fun t =>
    existsb (fun d =>
      existsb (fun k =>
        ray_valid a d k && (ray_target a d k =? b) &&
        existsb (fun j => ray_target a d j =? t) (steps_upto (k - 1)))
      (steps_upto 7))
    queen_dirs).

(** ** Moves

    Modelled from the spec: the move encoding belongs to the move module,
    which is not part of this file's source.  A move is (from, to, kind,
    promotion?), with the constructors and accessors the generator uses;
    [MOVE_NONE] is the sentinel. *)

Inductive MoveKind :=
| MK_NORMAL
| MK_PROMOTION (pt : PieceType)
| MK_EP
| MK_SHORT_CASTLE
| MK_LONG_CASTLE.

Record Move := mkMove { move_from : Square; move_to : Square; move_kind : MoveKind }.

Definition MOVE_NONE : Move := mkMove 0 0 MK_NORMAL.

Definition make_move (from to : Square) : Move := mkMove from to MK_NORMAL.
Definition make_promotion_move (from to : Square) (pt : PieceType) : Move :=
  mkMove from to (MK_PROMOTION pt).
Definition make_ep_move (from to : Square) : Move := mkMove from to MK_EP.
(** A castle is encoded king square -> rook square; it is the short one
    when the rook stands on the king's right. *)
Definition make_castle_move (ksq rsq : Square) : Move :=
  mkMove ksq rsq (if ksq <? rsq then MK_SHORT_CASTLE else MK_LONG_CASTLE).

Definition move_is_ep (m : Move) : bool :=
  match move_kind m with MK_EP => true | _ => false end.
Definition move_is_short_castle (m : Move) : bool :=
  match move_kind m with MK_SHORT_CASTLE => true | _ => false end.
Definition move_is_long_castle (m : Move) : bool :=
  match move_kind m with MK_LONG_CASTLE => true | _ => false end.
Definition move_promotion (m : Move) : option PieceType :=
  match move_kind m with MK_PROMOTION pt => Some pt | _ => None end.
Definition move_is_promotion (m : Move) : bool :=
  match move_promotion m with Some _ => true | None => false end.
Definition move_is_ok (m : Move) : bool := negb (move_from m =? move_to m).

Definition MoveKind_eqb (a b : MoveKind) : bool :=
  match a, b with
  | MK_NORMAL, MK_NORMAL | MK_EP, MK_EP => true
  | MK_SHORT_CASTLE, MK_SHORT_CASTLE | MK_LONG_CASTLE, MK_LONG_CASTLE => true
  | MK_PROMOTION p, MK_PROMOTION q => PieceType_eqb p q
  | _, _ => false
  end.

Definition Move_eqb (a b : Move) : bool :=
  (move_from a =? move_from b) && (move_to a =? move_to b)
  && MoveKind_eqb (move_kind a) (move_kind b).

(** ** The position, as the generator sees it

    Modelled from the spec: the Position class is not part of this file's
    source.  The record holds the board, the piece lists and the state a
    position carries, together with the queries whose computation is the
    Position's own business (checkers, pins, discovered-check candidates,
    attack and legality tests).  Bitboards by colour and type are read off
    the board. *)

Record Position := mkPosition {
  side_to_move : Color;
  piece_on : Square -> Piece;
  piece_list : Color -> PieceType -> list Square;
  king_square : Color -> Square;
  ep_square : Square;
  can_castle_kingside : Color -> bool;
  can_castle_queenside : Color -> bool;
  initial_kr_square : Color -> Square;
  initial_qr_square : Color -> Square;
  checkers : Bitboard;
  pinned_pieces : Color -> Bitboard;
  discovered_check_candidates : Color -> Bitboard;
  square_is_attacked : Square -> Color -> bool;
  move_is_legal_pinned : Move -> Bitboard -> bool
}.

Section Capabilities.
Variable pos : Position.

Definition color_of_piece_on (s : Square) : option Color :=
  color_of_piece (piece_on pos s).
Definition square_is_empty (s : Square) : bool := Piece_eqb (piece_on pos s) EMPTY.
Definition square_is_occupied (s : Square) : bool := negb (square_is_empty s).

Definition pieces_of_color (c : Color) : Bitboard :=
  bb_of_pred (fun s => match piece_on pos s with Pc c' _ => Color_eqb c' c | EMPTY => false end).
Definition pieces_of_color_and_type (c : Color) (pt : PieceType) : Bitboard :=
  bb_of_pred (fun s => Piece_eqb (piece_on pos s) (Pc c pt)).
Definition occupied_squares : Bitboard := bb_of_pred square_is_occupied.
Definition empty_squares : Bitboard := ~~ occupied_squares.

Definition pawns (c : Color) := pieces_of_color_and_type c PAWN.
Definition knights (c : Color) := pieces_of_color_and_type c KNIGHT.
Definition bishops (c : Color) := pieces_of_color_and_type c BISHOP.
Definition rooks (c : Color) := pieces_of_color_and_type c ROOK.
Definition queens (c : Color) := pieces_of_color_and_type c QUEEN.
Definition kings (c : Color) := pieces_of_color_and_type c KING.
Definition bishops_and_queens (c : Color) := bishops c :| queens c.
Definition rooks_and_queens (c : Color) := rooks c :| queens c.
Definition sliders : Bitboard :=
  bb_of_pred (fun s => match piece_on pos s with
                       | Pc _ BISHOP | Pc _ ROOK | Pc _ QUEEN => true
                       | _ => false
                       end).

Definition piece_count (c : Color) (pt : PieceType) : nat := length (piece_list pos c pt).

Definition can_castle (c : Color) : bool :=
  can_castle_kingside pos c || can_castle_queenside pos c.

Definition is_check : bool := negb (checkers pos =? EmptyBoardBB).

Definition pawn_attacks (c : Color) (s : Square) := pawn_attacks_bb c s.
Definition white_pawn_attacks (s : Square) := pawn_attacks_bb WHITE s.
Definition black_pawn_attacks (s : Square) := pawn_attacks_bb BLACK s.
Definition knight_attacks (s : Square) := knight_attacks_bb s.
Definition king_attacks (s : Square) := king_attacks_bb s.
Definition bishop_attacks (s : Square) := bishop_attacks_bb s occupied_squares.
Definition rook_attacks (s : Square) := rook_attacks_bb s occupied_squares.
Definition queen_attacks (s : Square) := queen_attacks_bb s occupied_squares.

(** [piece_attacks_fn[pt]] *)
Definition piece_attacks_fn (pt : PieceType) : Square -> Bitboard :=
  match pt with
  | KNIGHT => knight_attacks
  | BISHOP => bishop_attacks
  | ROOK => rook_attacks
  | QUEEN => queen_attacks
  | KING => king_attacks
  | PAWN => fun _ => EmptyBoardBB
  end.

(** Does the piece standing on [from] attack [to]? *)
Definition piece_attacks_square (from to : Square) : bool :=
  match piece_on pos from with
  | Pc c PAWN => bit_is_set (pawn_attacks c from) to
  | Pc _ KNIGHT => bit_is_set (knight_attacks from) to
  | Pc _ BISHOP => bit_is_set (bishop_attacks from) to
  | Pc _ ROOK => bit_is_set (rook_attacks from) to
  | Pc _ QUEEN => bit_is_set (queen_attacks from) to
  | Pc _ KING => bit_is_set (king_attacks from) to
  | EMPTY => false
  end.

(** [move_is_legal(m)] is [move_is_legal(m, pinned_pieces(side_to_move()))]. *)
Definition move_is_legal (m : Move) : bool :=
  move_is_legal_pinned pos m (pinned_pieces pos (side_to_move pos)).
End Capabilities.

(** ** The generators

    A generator appends to the caller's buffer and returns the number of
    moves written; here it returns the moves written, in order, and the
    count is the length of the list. *)

(** [while (b) { sq = pop_1st_bit(&b); mlist[n++].move = ...; }] *)
Definition emit (b : Bitboard) (f : Square -> list Move) : list Move :=
  flat_map f (bb_squares b).

Definition emit1 (b : Bitboard) (f : Square -> Move) : list Move :=
  emit b (fun sq => [f sq]).

(** [for (s = lo; s <= hi; s++)] *)
Definition sq_range (lo hi : Square) : list Square :=
  map (fun i => lo + Z.of_nat i) (seq 0 (Z.to_nat (hi + 1 - lo))).

(** [for (...) if (cond) illegal = true;] *)
Definition flag_loop (cond : Square -> bool) (l : list Square) (illegal : bool) : bool :=
  fold_left (fun ill s => if cond s then true else ill) l illegal.

Section Generators.
Variable pos : Position.

Definition generate_white_pawn_captures : list Move :=
  let pawns := pawns pos WHITE in
  let enemyPieces := pieces_of_color pos BLACK in
  (* Captures in the a1-h8 direction *)
  let b1 := (pawns << 9) & ~~ FileABB & enemyPieces in
  emit1 (b1 & Rank8BB) (fun sq => make_promotion_move (sq - DELTA_NE) sq QUEEN)
  ++ emit1 (b1 & ~~ Rank8BB) (fun sq => make_move (sq - DELTA_NE) sq)
  ++
  (* Captures in the h1-a8 direction *)
  (let b1 := (pawns << 7) & ~~ FileHBB & enemyPieces in
   emit1 (b1 & Rank8BB) (fun sq => make_promotion_move (sq - DELTA_NW) sq QUEEN)
   ++ emit1 (b1 & ~~ Rank8BB) (fun sq => make_move (sq - DELTA_NW) sq))
  ++
  (* Non-capturing promotions *)
  emit1 ((pawns << 8) & empty_squares pos & Rank8BB)
        (fun sq => make_promotion_move (sq - DELTA_N) sq QUEEN)
  ++
  (* En passant captures *)
  (if negb (ep_square pos =? SQ_NONE) then
     emit1 (pawns & black_pawn_attacks (ep_square pos))
           (fun sq => make_ep_move sq (ep_square pos))
   else []).

Definition generate_black_pawn_captures : list Move :=
  let pawns := pawns pos BLACK in
  let enemyPieces := pieces_of_color pos WHITE in
  (* Captures in the a8-h1 direction *)
  let b1 := (pawns >> 7) & ~~ FileABB & enemyPieces in
  emit1 (b1 & Rank1BB) (fun sq => make_promotion_move (sq - DELTA_SE) sq QUEEN)
  ++ emit1 (b1 & ~~ Rank1BB) (fun sq => make_move (sq - DELTA_SE) sq)
  ++
  (* Captures in the h8-a1 direction *)
  (let b1 := (pawns >> 9) & ~~ FileHBB & enemyPieces in
   emit1 (b1 & Rank1BB) (fun sq => make_promotion_move (sq - DELTA_SW) sq QUEEN)
   ++ emit1 (b1 & ~~ Rank1BB) (fun sq => make_move (sq - DELTA_SW) sq))
  ++
  (* Non-capturing promotions *)
  emit1 ((pawns >> 8) & empty_squares pos & Rank1BB)
        (fun sq => make_promotion_move (sq - DELTA_S) sq QUEEN)
  ++
  (* En passant captures *)
  (if negb (ep_square pos =? SQ_NONE) then
     emit1 (pawns & white_pawn_attacks (ep_square pos))
           (fun sq => make_ep_move sq (ep_square pos))
   else []).

(** The three under-promotions written for one pawn move. *)
Definition underpromotions (from to : Square) : list Move :=
  [make_promotion_move from to ROOK;
   make_promotion_move from to BISHOP;
   make_promotion_move from to KNIGHT].

Definition generate_white_pawn_noncaptures : list Move :=
  let pawns := pawns pos WHITE in
  let enemyPieces := pieces_of_color pos BLACK in
  let emptySquares := empty_squares pos in
  (* Underpromotion captures in the a1-h8 direction *)
  emit ((pawns << 9) & ~~ FileABB & enemyPieces & Rank8BB)
       (fun sq => underpromotions (sq - DELTA_NE) sq)
  ++
  (* Underpromotion captures in the h1-a8 direction *)
  emit ((pawns << 7) & ~~ FileHBB & enemyPieces & Rank8BB)
       (fun sq => underpromotions (sq - DELTA_NW) sq)
  ++
  (* Single pawn pushes *)
  (let b1 := (pawns << 8) & emptySquares in
   emit (b1 & Rank8BB) (fun sq => underpromotions (sq - DELTA_N) sq)
   ++ emit1 (b1 & ~~ Rank8BB) (fun sq => make_move (sq - DELTA_N) sq)
   ++
   (* Double pawn pushes *)
   emit1 (((b1 & Rank3BB) << 8) & emptySquares)
         (fun sq => make_move (sq - DELTA_N - DELTA_N) sq)).

Definition generate_black_pawn_noncaptures : list Move :=
  let pawns := pawns pos BLACK in
  let enemyPieces := pieces_of_color pos WHITE in
  let emptySquares := empty_squares pos in
  (* Underpromotion captures in the a8-h1 direction *)
  emit ((pawns >> 7) & ~~ FileABB & enemyPieces & Rank1BB)
       (fun sq => underpromotions (sq - DELTA_SE) sq)
  ++
  (* Underpromotion captures in the h8-a1 direction *)
  emit ((pawns >> 9) & ~~ FileHBB & enemyPieces & Rank1BB)
       (fun sq => underpromotions (sq - DELTA_SW) sq)
  ++
  (* Single pawn pushes *)
  (let b1 := (pawns >> 8) & emptySquares in
   emit (b1 & Rank1BB) (fun sq => underpromotions (sq - DELTA_S) sq)
   ++ emit1 (b1 & ~~ Rank1BB) (fun sq => make_move (sq - DELTA_S) sq)
   ++
   (* Double pawn pushes *)
   emit1 (((b1 & Rank6BB) >> 8) & emptySquares)
         (fun sq => make_move (sq - DELTA_S - DELTA_S) sq)).

Definition generate_piece_moves (piece : PieceType) (side : Color) (target : Bitboard)
  : list Move :=
  flat_map (fun from => emit1 (piece_attacks_fn pos piece from & target) (make_move from))
           (piece_list pos side piece).

Definition generate_king_moves (from : Square) (target : Bitboard) : list Move :=
  emit1 (king_attacks from & target) (make_move from).

(** One side of [generate_castle_moves]: [kend] and [rend] are the
    king's and the rook's destination squares. *)
Definition castle_path_illegal (them : Color) (ksq rsq kend rend : Square) : bool :=
  let illegal := false in
  let illegal :=
    flag_loop (fun s => ((negb (s =? ksq)) && (negb (s =? rsq)) && square_is_occupied pos s)
                        || square_is_attacked pos s them)
              (sq_range (Z.min ksq kend) (Z.max ksq kend)) illegal in
  flag_loop (fun s => (negb (s =? ksq)) && (negb (s =? rsq)) && square_is_occupied pos s)
            (sq_range (Z.min rsq rend) (Z.max rsq rend)) illegal.

Definition generate_castle_moves (us : Color) : list Move :=
  if can_castle pos us then
    let them := opposite_color us in
    let ksq := king_square pos us in
    (if can_castle_kingside pos us then
       let rsq := initial_kr_square pos us in
       let g1 := relative_square us SQ_G1 in
       let f1 := relative_square us SQ_F1 in
       let illegal := castle_path_illegal them ksq rsq g1 f1 in
       if negb illegal then [make_castle_move ksq rsq] else []
     else [])
    ++
    (if can_castle_queenside pos us then
       let rsq := initial_qr_square pos us in
       let c1 := relative_square us SQ_C1 in
       let d1 := relative_square us SQ_D1 in
       let illegal := castle_path_illegal them ksq rsq c1 d1 in
       let illegal :=
         if (square_file rsq =? FILE_B)
            && (Piece_eqb (piece_on pos (relative_square us SQ_A1)) (rook_of_color them)
                || Piece_eqb (piece_on pos (relative_square us SQ_A1)) (queen_of_color them))
         then true else illegal in
       if negb illegal then [make_castle_move ksq rsq] else []
     else [])
  else [].

(** [for (PieceType pce = KNIGHT; pce < KING; pce++)] *)
Definition piece_types_knight_to_queen : list PieceType := [KNIGHT; BISHOP; ROOK; QUEEN].

Definition generate_captures : list Move :=
  let us := side_to_move pos in
  let target := pieces_of_color pos (opposite_color us) in
  (match us with
   | WHITE => generate_white_pawn_captures
   | BLACK => generate_black_pawn_captures
   end)
  ++ flat_map (fun pce => generate_piece_moves pce us target) piece_types_knight_to_queen
  ++ generate_king_moves (king_square pos us) target.

Definition generate_noncaptures : list Move :=
  let us := side_to_move pos in
  let target := empty_squares pos in
  (match us with
   | WHITE => generate_white_pawn_noncaptures
   | BLACK => generate_black_pawn_noncaptures
   end)
  ++ flat_map (fun pce => generate_piece_moves pce us target) piece_types_knight_to_queen
  ++ generate_king_moves (king_square pos us) target
  ++ generate_castle_moves us.
End Generators.

Section CheckGenerator.
Variable pos : Position.

(** The pawn part of [generate_checks], one block per colour.  The two
    discovered-check loops come first, then the two direct-check loops. *)
Definition checks_white_pawn_discovered (ksq : Square) (dc empty : Bitboard) : list Move :=
  let b1 := pawns pos WHITE & ~~ file_bb ksq in
  let b2 := ((b1 & dc) << 8) & ~~ Rank8BB & empty in
  emit1 b2 (fun to => make_move (to - DELTA_N) to)
  ++ emit1 (((b2 & Rank3BB) << 8) & empty)
           (fun to => make_move (to - DELTA_N - DELTA_N) to).

Definition checks_white_pawn_direct_single (ksq : Square) (dc empty : Bitboard) : list Move :=
  let b1 := pawns pos WHITE & ~~ file_bb ksq in
  let b1 := b1 & (~~ dc & neighboring_files_bb ksq) in
  let b2 := (b1 << 8) & empty in
  emit1 (b2 & black_pawn_attacks ksq) (fun to => make_move (to - DELTA_N) to).

Definition checks_white_pawn_direct_double (ksq : Square) (dc empty : Bitboard) : list Move :=
  let b1 := pawns pos WHITE & ~~ file_bb ksq in
  let b1 := b1 & (~~ dc & neighboring_files_bb ksq) in
  let b2 := (b1 << 8) & empty in
  emit1 (((b2 & Rank3BB) << 8) & empty & black_pawn_attacks ksq)
        (fun to => make_move (to - DELTA_N - DELTA_N) to).

Definition checks_black_pawn_discovered (ksq : Square) (dc empty : Bitboard) : list Move :=
  let b1 := pawns pos BLACK & ~~ file_bb ksq in
  let b2 := ((b1 & dc) >> 8) & ~~ Rank1BB & empty in
  emit1 b2 (fun to => make_move (to - DELTA_S) to)
  ++ emit1 (((b2 & Rank6BB) >> 8) & empty)
           (fun to => make_move (to - DELTA_S - DELTA_S) to).

Definition checks_black_pawn_direct_single (ksq : Square) (dc empty : Bitboard) : list Move :=
  let b1 := pawns pos BLACK & ~~ file_bb ksq in
  let b1 := b1 & (~~ dc & neighboring_files_bb ksq) in
  let b2 := (b1 >> 8) & empty in
  emit1 (b2 & white_pawn_attacks ksq) (fun to => make_move (to - DELTA_S) to).

Definition checks_black_pawn_direct_double (ksq : Square) (dc empty : Bitboard) : list Move :=
  let b1 := pawns pos BLACK & ~~ file_bb ksq in
  let b1 := b1 & (~~ dc & neighboring_files_bb ksq) in
  let b2 := (b1 >> 8) & empty in
  emit1 (((b2 & Rank6BB) >> 8) & empty & black_pawn_attacks ksq)
        (fun to => make_move (to - DELTA_S - DELTA_S) to).

Definition checks_pawn_direct_single (us : Color) (ksq : Square) (dc empty : Bitboard) :=
  match us with
  | WHITE => checks_white_pawn_direct_single ksq dc empty
  | BLACK => checks_black_pawn_direct_single ksq dc empty
  end.

Definition checks_pawn_direct_double (us : Color) (ksq : Square) (dc empty : Bitboard) :=
  match us with
  | WHITE => checks_white_pawn_direct_double ksq dc empty
  | BLACK => checks_black_pawn_direct_double ksq dc empty
  end.

Definition checks_pawn_discovered (us : Color) (ksq : Square) (dc empty : Bitboard) :=
  match us with
  | WHITE => checks_white_pawn_discovered ksq dc empty
  | BLACK => checks_black_pawn_discovered ksq dc empty
  end.

(** Knights, bishops and rooks: discovered checks by the pieces in [dc],
    direct checks by the others. *)
Definition checks_piece (b1 : Bitboard) (attacks : Square -> Bitboard)
           (ksq : Square) (dc empty : Bitboard) : list Move :=
  if negb (b1 =? 0) then
    emit (b1 & dc) (fun from => emit1 (attacks from & empty) (make_move from))
    ++
    (let checkSqs := attacks ksq & empty in
     emit (b1 & ~~ dc) (fun from => emit1 (attacks from & checkSqs) (make_move from)))
  else [].

Definition checks_queen (b1 : Bitboard) (ksq : Square) (empty : Bitboard) : list Move :=
  if negb (b1 =? 0) then
    let checkSqs := queen_attacks pos ksq & empty in
    emit b1 (fun from => emit1 (queen_attacks pos from & checkSqs) (make_move from))
  else [].

Definition checks_king (us : Color) (ksq : Square) (dc empty : Bitboard) : list Move :=
  let from := king_square pos us in
  if bit_is_set dc from then
    emit1 (king_attacks from & empty & ~~ QueenPseudoAttacks ksq) (make_move from)
  else [].

(** [generate_checks(pos, mlist, dc)].  The parameter [dc] is assigned
    before its first use. *)
Definition generate_checks (dc : Bitboard) : list Move :=
  let us := side_to_move pos in
  let them := opposite_color us in
  let ksq := king_square pos them in
  let dc := discovered_check_candidates pos us in
  let empty := empty_squares pos in
  checks_pawn_discovered us ksq dc empty
  ++ checks_pawn_direct_single us ksq dc empty
  ++ checks_pawn_direct_double us ksq dc empty
  ++ checks_piece (knights pos us) knight_attacks ksq dc empty
  ++ checks_piece (bishops pos us) (bishop_attacks pos) ksq dc empty
  ++ checks_piece (rooks pos us) (rook_attacks pos) ksq dc empty
  ++ checks_queen (queens pos us) ksq empty
  ++ checks_king us ksq dc empty.
End CheckGenerator.

Section EvasionGenerator.
Variable pos : Position.

Definition all_promotions (from to : Square) : list Move :=
  [make_promotion_move from to QUEEN;
   make_promotion_move from to ROOK;
   make_promotion_move from to BISHOP;
   make_promotion_move from to KNIGHT].

(** The test made on a king destination: not attacked by the other side,
    sliders seen through the occupancy [b2] (the king taken off). *)
Definition king_escape_ok (us : Color) (b2 : Bitboard) (to : Square) : bool :=
  let them := opposite_color us in
  ((pawn_attacks us to & pawns pos them) =? EmptyBoardBB)
  && ((knight_attacks to & knights pos them) =? EmptyBoardBB)
  && ((king_attacks to & kings pos them) =? EmptyBoardBB)
  && ((bishop_attacks_bb to b2 & bishops_and_queens pos them) =? EmptyBoardBB)
  && ((rook_attacks_bb to b2 & rooks_and_queens pos them) =? EmptyBoardBB).

Definition evasions_king (us : Color) (ksq : Square) : list Move :=
  let b1 := king_attacks ksq & ~~ pieces_of_color pos us in
  let b2 := clear_bit (occupied_squares pos) ksq in
  emit b1 (fun to => if king_escape_ok us b2 to then [make_move ksq to] else []).

Definition evasions_capture_checker (us : Color) (checksq : Square) (pinned : Bitboard)
  : list Move :=
  let them := opposite_color us in
  (* Pawn captures *)
  emit (pawn_attacks them checksq & pawns pos us & ~~ pinned)
       (fun from => if relative_rank us checksq =? RANK_8
                    then all_promotions from checksq
                    else [make_move from checksq])
  (* Knight captures *)
  ++ emit1 (knight_attacks checksq & knights pos us & ~~ pinned)
           (fun from => make_move from checksq)
  (* Bishop and queen captures *)
  ++ emit1 (bishop_attacks pos checksq & bishops_and_queens pos us & ~~ pinned)
           (fun from => make_move from checksq)
  (* Rook and queen captures *)
  ++ emit1 (rook_attacks pos checksq & rooks_and_queens pos us & ~~ pinned)
           (fun from => make_move from checksq).

Definition evasions_block_pawn (us : Color) (pinned blockSquares : Bitboard) : list Move :=
  match us with
  | WHITE =>
      let b1 := pawns pos WHITE & ~~ pinned in
      emit ((b1 << 8) & blockSquares)
           (fun to => if square_rank to =? RANK_8
                      then all_promotions (to - DELTA_N) to
                      else [make_move (to - DELTA_N) to])
      ++ emit1 ((((b1 << 8) & empty_squares pos & Rank3BB) << 8) & blockSquares)
               (fun to => make_move (to - DELTA_N - DELTA_N) to)
  | BLACK =>
      let b1 := pawns pos BLACK & ~~ pinned in
      emit ((b1 >> 8) & blockSquares)
           (fun to => if square_rank to =? RANK_1
                      then all_promotions (to - DELTA_S) to
                      else [make_move (to - DELTA_S) to])
      ++ emit1 ((((b1 >> 8) & empty_squares pos & Rank6BB) >> 8) & blockSquares)
               (fun to => make_move (to - DELTA_S - DELTA_S) to)
  end.

Definition evasions_block_piece (b1 : Bitboard) (attacks : Square -> Bitboard)
           (blockSquares : Bitboard) : list Move :=
  emit b1 (fun from => emit1 (attacks from & blockSquares) (make_move from)).

Definition evasions_block (us : Color) (ksq checksq : Square) (pinned : Bitboard)
  : list Move :=
  if negb ((checkers pos & sliders pos) =? 0) then
    let blockSquares := squares_between checksq ksq in
    evasions_block_pawn us pinned blockSquares
    ++ evasions_block_piece (knights pos us & ~~ pinned) knight_attacks blockSquares
    ++ evasions_block_piece (bishops pos us & ~~ pinned) (bishop_attacks pos) blockSquares
    ++ evasions_block_piece (rooks pos us & ~~ pinned) (rook_attacks pos) blockSquares
    ++ evasions_block_piece (queens pos us & ~~ pinned) (queen_attacks pos) blockSquares
  else [].

(** The test made on an en passant evasion by the pawn on [from]: with
    both pawns off the board no slider reaches the king. *)
Definition ep_evasion_ok (us : Color) (ksq checksq from : Square) : bool :=
  let them := opposite_color us in
  let b2 := occupied_squares pos in
  let b2 := clear_bit b2 from in
  let b2 := clear_bit b2 checksq in
  ((bishop_attacks_bb ksq b2 & bishops_and_queens pos them) =? EmptyBoardBB)
  && ((rook_attacks_bb ksq b2 & rooks_and_queens pos them) =? EmptyBoardBB).

Definition evasions_ep (us : Color) (ksq checksq : Square) (pinned : Bitboard)
  : list Move :=
  let them := opposite_color us in
  if negb (ep_square pos =? SQ_NONE) && negb ((checkers pos & pawns pos them) =? 0) then
    let to := ep_square pos in
    let b1 := pawn_attacks them to & pawns pos us in
    let b1 := b1 & ~~ pinned in
    emit b1 (fun from => if ep_evasion_ok us ksq checksq from
                         then [make_ep_move from to] else [])
  else [].

Definition generate_evasions : list Move :=
  let checkers := checkers pos in
  let us := side_to_move pos in
  let ksq := king_square pos us in
  evasions_king us ksq
  ++
  (* Other pieces only if not double check *)
  (if (checkers & (checkers - 1)) =? 0 then
     let checksq := first_1 checkers in
     let pinned := pinned_pieces pos us in
     evasions_capture_checker us checksq pinned
     ++ evasions_block us ksq checksq pinned
     ++ evasions_ep us ksq checksq pinned
   else []).
End EvasionGenerator.

(** ** The legal move list and the single-move probe *)

Definition list_set {A} (l : list A) (i : nat) (x : A) : list A :=
  firstn i l ++ match skipn i l with [] => [] | _ :: t => x :: t end.

(** [for (i = 0; i < n; i++) if (!legal(mlist[i])) mlist[i--] = mlist[--n];]
    Every round either advances [i] or lowers [n]. *)
Fixpoint compact_loop (legal : Move -> bool) (fuel : nat) (mlist : list Move) (i n : nat)
  : list Move * nat :=
  match fuel with
  | O => (mlist, n)
  | S k =>
      if (i <? n)%nat then
        if negb (legal (nth i mlist MOVE_NONE)) then
          let n := (n - 1)%nat in
          let mlist := list_set mlist i (nth n mlist MOVE_NONE) in
          compact_loop legal k mlist i n
        else compact_loop legal k mlist (i + 1)%nat n
      else (mlist, n)
  end.

Definition generate_legal_moves (pos : Position) : list Move :=
  if is_check pos then generate_evasions pos
  else
    let mlist := generate_captures pos in
    let n := length mlist in
    let mlist := mlist ++ generate_noncaptures pos in
    let n := (n + length (generate_noncaptures pos))%nat in
    let pinned := pinned_pieces pos (side_to_move pos) in
    let '(mlist, n) := compact_loop (fun m => move_is_legal_pinned pos m pinned) n mlist 0 n in
    firstn n mlist.

Definition option_Color_eqb (a : option Color) (b : Color) : bool :=
  match a with Some c => Color_eqb c b | None => false end.

Definition option_PieceType_eqb (a : option PieceType) (b : PieceType) : bool :=
  match a with Some c => PieceType_eqb c b | None => false end.

Definition generate_move_if_legal (pos : Position) (m : Move) (pinned : Bitboard) : Move :=
  let us := side_to_move pos in
  let them := opposite_color us in
  let from := move_from m in
  let pc := piece_on pos from in
  if negb (option_Color_eqb (color_of_piece pc) us) then MOVE_NONE
  else
  let to := move_to m in
  if move_is_ep m then
    if negb (option_PieceType_eqb (type_of_piece pc) PAWN) || negb (to =? ep_square pos)
    then MOVE_NONE
    else if move_is_legal pos m then m else MOVE_NONE
  else if move_is_short_castle m then
    if negb (option_PieceType_eqb (type_of_piece pc) KING)
       || negb (can_castle_kingside pos us)
    then MOVE_NONE
    else
      let g1 := relative_square us SQ_G1 in
      let f1 := relative_square us SQ_F1 in
      let illegal := false in
      let illegal :=
        flag_loop (fun s => ((negb (s =? from)) && (negb (s =? to))
                             && negb (square_is_empty pos s))
                            || square_is_attacked pos s them)
                  (sq_range (Z.min from g1) (Z.max from g1)) illegal in
      let illegal :=
        flag_loop (fun s => (negb (s =? from)) && (negb (s =? to))
                            && negb (square_is_empty pos s))
                  (sq_range (Z.min to f1) (Z.max to f1)) illegal in
      if negb illegal then m else MOVE_NONE
  else if move_is_long_castle m then
    if negb (option_PieceType_eqb (type_of_piece pc) KING)
       || negb (can_castle_queenside pos us)
    then MOVE_NONE
    else
      let c1 := relative_square us SQ_C1 in
      let d1 := relative_square us SQ_D1 in
      let illegal := false in
      let illegal :=
        flag_loop (fun s => ((negb (s =? from)) && (negb (s =? to))
                             && negb (square_is_empty pos s))
                            || square_is_attacked pos s them)
                  (sq_range (Z.min from c1) (Z.max from c1)) illegal in
      let illegal :=
        flag_loop (fun s => (negb (s =? from)) && (negb (s =? to))
                            && negb (square_is_empty pos s))
                  (sq_range (Z.min to d1) (Z.max to d1)) illegal in
      let illegal :=
        if (square_file to =? FILE_B)
           && (Piece_eqb (piece_on pos (to + DELTA_W)) (rook_of_color them)
               || Piece_eqb (piece_on pos (to + DELTA_W)) (queen_of_color them))
        then true else illegal in
      if negb illegal then m else MOVE_NONE
  (* Normal moves *)
  else if option_Color_eqb (color_of_piece_on pos to) us then MOVE_NONE
  else if option_PieceType_eqb (type_of_piece pc) PAWN then
    if (((square_rank to =? RANK_8) && Color_eqb us WHITE)
        || ((square_rank to =? RANK_1) && negb (Color_eqb us WHITE)))
       && negb (move_is_promotion m)
    then MOVE_NONE
    else
      let delta := to - from in
      let pseudo_legal :=
        if (delta =? DELTA_NW) || (delta =? DELTA_NE)
           || (delta =? DELTA_SW) || (delta =? DELTA_SE) then
          (* Capture: the destination must hold an enemy piece *)
          option_Color_eqb (color_of_piece_on pos to) them
        else if (delta =? DELTA_N) || (delta =? DELTA_S) then
          (* Pawn push: the destination must be empty *)
          square_is_empty pos to
        else if delta =? DELTA_NN then
          negb (negb (square_rank to =? RANK_4)
                || negb (square_is_empty pos to)
                || negb (square_is_empty pos (from + DELTA_N)))
        else if delta =? DELTA_SS then
          negb (negb (square_rank to =? RANK_5)
                || negb (square_is_empty pos to)
                || negb (square_is_empty pos (from + DELTA_S)))
        else false in
      if negb pseudo_legal then MOVE_NONE
      else if move_is_legal pos m then m else MOVE_NONE
  else
    if piece_attacks_square pos from to && move_is_legal pos m && negb (move_is_promotion m)
    then m else MOVE_NONE.

(** ** Boards and the rules of attack

    Modelled from the spec: what the Position computes behind [checkers],
    [pinned_pieces], [discovered_check_candidates], [square_is_attacked]
    and [move_is_legal] is not part of this file's source.  The definitions
    below state these notions on a board, from the movement rules, the way
    the spec words them; they serve to build concrete positions and to say
    when a [Position] record agrees with its board. *)

Definition Board := Square -> Piece.

Definition board_of (l : list (Square * Piece)) : Board :=
  fun s => match find (fun e => fst e =? s) l with
           | Some e => snd e
           | None => EMPTY
           end.

Definition board_occupied (b : Board) : Bitboard :=
  bb_of_pred (fun s => negb (Piece_eqb (b s) EMPTY)).

(** A slider of the given directions standing on [x] reaches [t]. *)
Definition slider_reaches (dirs : list Direction) (occ : Bitboard) (x t : Square) : bool :=
  existsb (fun d => slides_to occ x d t) dirs.

(** The piece [p] standing on [x] attacks the square [t]. *)
Definition attacks_from (occ : Bitboard) (p : Piece) (x t : Square) : bool :=
  match p with
  | EMPTY => false
  | Pc c PAWN => step_reaches (match c with
                               | WHITE => [(1, 1); (-1, 1)]
                               | BLACK => [(1, -1); (-1, -1)]
                               end) x t
  | Pc _ KNIGHT => step_reaches knight_steps x t
  | Pc _ BISHOP => slider_reaches bishop_dirs occ x t
  | Pc _ ROOK => slider_reaches rook_dirs occ x t
  | Pc _ QUEEN => slider_reaches queen_dirs occ x t
  | Pc _ KING => step_reaches queen_dirs x t
  end.

(** The pieces of colour [c] that attack [t]. *)
Definition attackers (b : Board) (c : Color) (t : Square) : Bitboard :=
  let occ := board_occupied b in
  bb_of_pred (fun x => option_Color_eqb (color_of_piece (b x)) c
                       && attacks_from occ (b x) x t).

Definition attacked (b : Board) (c : Color) (t : Square) : bool :=
  negb (attackers b c t =? EmptyBoardBB).

Definition is_diagonal (d : Direction) : bool :=
  negb (fst d =? 0) && negb (snd d =? 0).

(** [p] is a slider of colour [c] that moves along [d]. *)
Definition slider_along (p : Piece) (c : Color) (d : Direction) : bool :=
  match p with
  | Pc c' QUEEN => Color_eqb c' c
  | Pc c' BISHOP => Color_eqb c' c && is_diagonal d
  | Pc c' ROOK => Color_eqb c' c && negb (is_diagonal d)
  | _ => false
  end.

(** [x] is the only occupied square strictly inside the first [k] steps of
    the ray from [ksq] along [d]. *)
Definition sole_blocker (b : Board) (ksq : Square) (d : Direction) (k : Z) (x : Square) : bool :=
  existsb (fun j => ray_target ksq d j =? x) (steps_upto (k - 1))
  && forallb (fun j => (ray_target ksq d j =? x) || Piece_eqb (b (ray_target ksq d j)) EMPTY)
             (steps_upto (k - 1)).

(** The pieces of colour [xc] that alone stand between the square [ksq] and
    a slider of colour [sc] on a line of that slider. *)
Definition sole_blockers (b : Board) (xc sc : Color) (ksq : Square) : Bitboard :=
  bb_of_pred (fun x =>
    option_Color_eqb (color_of_piece (b x)) xc
    && existsb (fun d =>
         existsb (fun k => ray_valid ksq d k
                           && slider_along (b (ray_target ksq d k)) sc d
                           && sole_blocker b ksq d k x)
                 (steps_upto 7))
       queen_dirs).

(** [a] and [b] lie on one ray that starts at [ksq]. *)
Definition on_common_ray (ksq a b : Square) : bool :=
  existsb (fun d =>
    existsb (fun j => ray_valid ksq d j && (ray_target ksq d j =? a)) (steps_upto 7)
    && existsb (fun k => ray_valid ksq d k && (ray_target ksq d k =? b)) (steps_upto 7))
  queen_dirs.

Definition board_set (b : Board) (s : Square) (p : Piece) : Board :=
  fun t => if t =? s then p else b t.

(** The board after [us] has played [m]. *)
Definition apply_move (b : Board) (us : Color) (m : Move) : Board :=
  let from := move_from m in
  let to := move_to m in
  match move_kind m with
  | MK_NORMAL => board_set (board_set b from EMPTY) to (b from)
  | MK_PROMOTION pt => board_set (board_set b from EMPTY) to (Pc us pt)
  | MK_EP =>
      board_set (board_set (board_set b from EMPTY) (to - pawn_push us) EMPTY) to (b from)
  | MK_SHORT_CASTLE =>
      let b := board_set (board_set b from EMPTY) to EMPTY in
      board_set (board_set b (relative_square us SQ_G1) (Pc us KING))
                (relative_square us SQ_F1) (Pc us ROOK)
  | MK_LONG_CASTLE =>
      let b := board_set (board_set b from EMPTY) to EMPTY in
      board_set (board_set b (relative_square us SQ_C1) (Pc us KING))
                (relative_square us SQ_D1) (Pc us ROOK)
  end.

(** Where the king of [us], who stood on [ksq], stands after [m]. *)
Definition king_square_after (us : Color) (ksq : Square) (m : Move) : Square :=
  match move_kind m with
  | MK_SHORT_CASTLE => relative_square us SQ_G1
  | MK_LONG_CASTLE => relative_square us SQ_C1
  | _ => if move_from m =? ksq then move_to m else ksq
  end.

(** After [m] the king of [us] is not attacked by the other side. *)
Definition leaves_king_safe (b : Board) (us : Color) (ksq : Square) (m : Move) : bool :=
  negb (attacked (apply_move b us m) (opposite_color us) (king_square_after us ksq m)).

(** [move_is_legal(m, pinned)], as the spec words it: a king move must go
    to a square that is not attacked once the king is taken off the
    board; an en passant capture must not open a bishop/queen or
    rook/queen ray to the king when both pawns are taken off; any other
    move must be made by a piece that is not pinned, or stay on the ray
    from the king.  Castles were tested when they were generated. *)
Definition board_move_is_legal (b : Board) (us : Color) (ksq : Square)
           (m : Move) (pinned : Bitboard) : bool :=
  let them := opposite_color us in
  let from := move_from m in
  let to := move_to m in
  match move_kind m with
  | MK_SHORT_CASTLE | MK_LONG_CASTLE => true
  | MK_EP =>
      let occ := clear_bit (clear_bit (board_occupied b) from) (to - pawn_push us) in
      negb (existsb (fun y => slider_along (b y) them (1, 1)
                              && slider_reaches bishop_dirs occ ksq y) all_squares)
      && negb (existsb (fun y => slider_along (b y) them (1, 0)
                                 && slider_reaches rook_dirs occ ksq y) all_squares)
  | _ =>
      if from =? ksq then negb (attacked (board_set b ksq EMPTY) them to)
      else negb (Z.testbit pinned from) || on_common_ray ksq from to
  end.

(** The position that stands on a board. *)
Definition find_king (b : Board) (c : Color) : Square :=
  match find (fun s => Piece_eqb (b s) (Pc c KING)) all_squares with
  | Some s => s
  | None => SQ_NONE
  end.

Record CastleState := mkCastleState {
  cs_kingside : Color -> bool;
  cs_queenside : Color -> bool;
  cs_kr_square : Color -> Square;
  cs_qr_square : Color -> Square
}.

Definition no_castling : CastleState :=
  mkCastleState (fun _ => false) (fun _ => false)
                (fun c => relative_square c 7) (fun c => relative_square c 0).

Definition position_of_board (stm : Color) (b : Board) (ep : Square) (cs : CastleState)
  : Position :=
  let ksq := find_king b in
  {| side_to_move := stm;
     piece_on := b;
     piece_list := fun c pt => filter (fun s => Piece_eqb (b s) (Pc c pt)) all_squares;
     king_square := ksq;
     ep_square := ep;
     can_castle_kingside := cs_kingside cs;
     can_castle_queenside := cs_queenside cs;
     initial_kr_square := cs_kr_square cs;
     initial_qr_square := cs_qr_square cs;
     checkers := attackers b (opposite_color stm) (ksq stm);
     pinned_pieces := fun c => sole_blockers b c (opposite_color c) (ksq c);
     discovered_check_candidates := fun c => sole_blockers b c c (ksq (opposite_color c));
     square_is_attacked := fun s c => attacked b c s;
     move_is_legal_pinned := fun m pinned => board_move_is_legal b stm (ksq stm) m pinned |}.

(** A normal move [m] starts on a pawn, knight, bishop, rook or queen of
    [us] (used to tell the king's evasions from the others). *)
Definition from_nonking (pos : Position) (us : Color) (m : Move) : Prop :=
  move_kind m = MK_NORMAL ->
  exists pt, pt <> KING /\ piece_on pos (move_from m) = Pc us pt.

(** ** Sample positions *)

(** White king e1, pawn e2; black rook d8, king a8; no check. *)
Definition pos_quiet : Position :=
  position_of_board WHITE
    (board_of [(4, Pc WHITE KING); (12, Pc WHITE PAWN);
               (59, Pc BLACK ROOK); (56, Pc BLACK KING)])
    SQ_NONE no_castling.

(** After ...c7-c5+: white king d4, white pawn d5, black pawn c5, black
    king h8; the en passant square is c6. *)
Definition pos_ep_check : Position :=
  position_of_board WHITE
    (board_of [(27, Pc WHITE KING); (35, Pc WHITE PAWN);
               (34, Pc BLACK PAWN); (63, Pc BLACK KING)])
    42 no_castling.

(** Black to move: black pawn d7, black king a8, white king e6. *)
Definition pos_black_double_push : Position :=
  position_of_board BLACK
    (board_of [(44, Pc WHITE KING); (51, Pc BLACK PAWN); (56, Pc BLACK KING)])
    SQ_NONE no_castling.

(** Black to move: black pawn d7, black king a8, white king e4; ...d7-d5
    is check. *)
Definition pos_black_double_push_check : Position :=
  position_of_board BLACK
    (board_of [(28, Pc WHITE KING); (51, Pc BLACK PAWN); (56, Pc BLACK KING)])
    SQ_NONE no_castling.

(** White king e1, white pawns e2 and e4 (h-pawn on h2); black king e8,
    black knight a4. *)
Definition pos_pawns : Position :=
  position_of_board WHITE
    (board_of [(4, Pc WHITE KING); (12, Pc WHITE PAWN); (28, Pc WHITE PAWN);
               (15, Pc WHITE PAWN); (24, Pc BLACK KNIGHT); (60, Pc BLACK KING)])
    SQ_NONE no_castling.

(** White king e1 and queenside rook b1, with the right to castle long;
    black king e8. *)
Definition castle_b_file : CastleState :=
  mkCastleState (fun _ => false)
                (fun c => match c with WHITE => true | BLACK => false end)
                (fun c => relative_square c 7) (fun c => relative_square c 1).

Definition pos_castle_b : Position :=
  position_of_board WHITE
    (board_of [(4, Pc WHITE KING); (1, Pc WHITE ROOK); (60, Pc BLACK KING)])
    SQ_NONE castle_b_file.

(** ** Well-formed positions

    Modelled from the spec: [Position::is_ok] is not part of this file's
    source.  It is taken to say what the spec lists as the Position's
    invariants: the piece lists agree with the board and list every piece
    once, each side has one king and [king_square] names its square, the
    en passant square is a square of the board or [SQ_NONE], and a side
    that may castle has its king between its rooks, which stand on the
    board. *)

Fixpoint nodupb (l : list Square) : bool :=
  match l with
  | [] => true
  | x :: t => negb (existsb (Z.eqb x) t) && nodupb t
  end.

Definition all_piece_types : list PieceType := [PAWN; KNIGHT; BISHOP; ROOK; QUEEN; KING].

Definition piece_list_ok (pos : Position) (c : Color) (pt : PieceType) : bool :=
  let l := piece_list pos c pt in
  nodupb l
  && forallb (fun s => on_board s && Piece_eqb (piece_on pos s) (Pc c pt)) l
  && forallb (fun s => negb (Piece_eqb (piece_on pos s) (Pc c pt)) || existsb (Z.eqb s) l)
             all_squares.

Definition side_ok (pos : Position) (c : Color) : bool :=
  forallb (piece_list_ok pos c) all_piece_types
  && on_board (king_square pos c)
  && Piece_eqb (piece_on pos (king_square pos c)) (Pc c KING)
  && (length (piece_list pos c KING) =? 1)%nat
  && (negb (can_castle_kingside pos c)
      || ((king_square pos c <? initial_kr_square pos c)
          && on_board (initial_kr_square pos c)))
  && (negb (can_castle_queenside pos c)
      || ((initial_qr_square pos c <? king_square pos c)
          && on_board (initial_qr_square pos c))).

Definition is_ok (pos : Position) : bool :=
  side_ok pos WHITE && side_ok pos BLACK
  && ((ep_square pos =? SQ_NONE) || on_board (ep_square pos)).

(** ** Pseudo-legal moves

    Modelled from the spec: a pseudo-legal move "satisfies piece-movement
    rules and basic target constraints but may leave the mover's king in
    check": its from-square holds a piece of the side to move, its
    to-square is reachable by the movement rules of that piece, a capture
    lands on an enemy piece (or on the en passant square), a pawn that
    reaches the last rank promotes, and a castle obeys the rules of the
    castle generator (section 4.4 of the spec; the corner square of the
    b-file rule is the one the source tests). *)

Definition RANK_2 : Z := 1.

Definition pawn_push_ok (pos : Position) (us : Color) (from to : Square) : Prop :=
  to = from + pawn_push us /\ square_is_empty pos to = true.

Definition pawn_double_ok (pos : Position) (us : Color) (from to : Square) : Prop :=
  to = from + 2 * pawn_push us
  /\ relative_rank us from = RANK_2
  /\ square_is_empty pos (from + pawn_push us) = true
  /\ square_is_empty pos to = true.

Definition pawn_capture_ok (pos : Position) (us : Color) (from to : Square) : Prop :=
  Z.testbit (pawn_attacks us from) to = true
  /\ color_of_piece_on pos to = Some (opposite_color us).

Definition castle_rule (pos : Position) (us : Color) (ksq rsq kend rend : Square) : Prop :=
  (forall s, Z.min ksq kend <= s <= Z.max ksq kend ->
             (s = ksq \/ s = rsq \/ square_is_empty pos s = true)
             /\ square_is_attacked pos s (opposite_color us) = false)
  /\ (forall s, Z.min rsq rend <= s <= Z.max rsq rend ->
                s = ksq \/ s = rsq \/ square_is_empty pos s = true).

(** The square [s] holds neither a rook nor a queen of colour [c]. *)
Definition no_rook_or_queen (pos : Position) (c : Color) (s : Square) : Prop :=
  piece_on pos s <> rook_of_color c /\ piece_on pos s <> queen_of_color c.

Definition pseudo_legal (pos : Position) (m : Move) : Prop :=
  let us := side_to_move pos in
  let them := opposite_color us in
  let from := move_from m in
  let to := move_to m in
  0 <= from < 64 /\ 0 <= to < 64 /\
  match move_kind m with
  | MK_NORMAL =>
      match piece_on pos from with
      | EMPTY => False
      | Pc c PAWN =>
          c = us /\ relative_rank us to <> RANK_8
          /\ (pawn_push_ok pos us from to \/ pawn_double_ok pos us from to
              \/ pawn_capture_ok pos us from to)
      | Pc c pt =>
          c = us /\ Z.testbit (piece_attacks_fn pos pt from) to = true
          /\ color_of_piece_on pos to <> Some us
      end
  | MK_PROMOTION pt =>
      piece_on pos from = Pc us PAWN
      /\ (pt = QUEEN \/ pt = ROOK \/ pt = BISHOP \/ pt = KNIGHT)
      /\ relative_rank us to = RANK_8
      /\ (pawn_push_ok pos us from to \/ pawn_capture_ok pos us from to)
  | MK_EP =>
      piece_on pos from = Pc us PAWN
      /\ to = ep_square pos
      /\ Z.testbit (pawn_attacks us from) to = true
  | MK_SHORT_CASTLE =>
      can_castle_kingside pos us = true
      /\ from = king_square pos us /\ to = initial_kr_square pos us
      /\ castle_rule pos us from to (relative_square us SQ_G1) (relative_square us SQ_F1)
  | MK_LONG_CASTLE =>
      can_castle_queenside pos us = true
      /\ from = king_square pos us /\ to = initial_qr_square pos us
      /\ castle_rule pos us from to (relative_square us SQ_C1) (relative_square us SQ_D1)
      /\ (square_file to = FILE_B -> no_rook_or_queen pos them (relative_square us SQ_A1))
  end.

(** The starting position. *)
Definition start_board : Board :=
  board_of
    ([(0, Pc WHITE ROOK); (1, Pc WHITE KNIGHT); (2, Pc WHITE BISHOP); (3, Pc WHITE QUEEN);
      (4, Pc WHITE KING); (5, Pc WHITE BISHOP); (6, Pc WHITE KNIGHT); (7, Pc WHITE ROOK);
      (56, Pc BLACK ROOK); (57, Pc BLACK KNIGHT); (58, Pc BLACK BISHOP); (59, Pc BLACK QUEEN);
      (60, Pc BLACK KING); (61, Pc BLACK BISHOP); (62, Pc BLACK KNIGHT); (63, Pc BLACK ROOK)]
     ++ map (fun f => (8 + f, Pc WHITE PAWN)) [0; 1; 2; 3; 4; 5; 6; 7]
     ++ map (fun f => (48 + f, Pc BLACK PAWN)) [0; 1; 2; 3; 4; 5; 6; 7]).

Definition all_castling : CastleState :=
  mkCastleState (fun _ => true) (fun _ => true)
                (fun c => relative_square c 7) (fun c => relative_square c 0).

Definition pos_start : Position :=
  position_of_board WHITE start_board SQ_NONE all_castling.

(** Apart from the en passant block, the evasion generator writes normal
    moves and promotions only. *)
Definition normal_or_promotion (m : Move) : Prop :=
  match move_kind m with
  | MK_NORMAL | MK_PROMOTION _ => True
  | _ => False
  end.

(** The pawn attack table in square arithmetic: the two capture deltas,
    guarded against the wrap around the board edge. *)
Definition pawn_attack_arith (c : Color) (from to : Square) : bool :=
  match c with
  | WHITE => ((to =? from + 9) && negb (square_file to =? 0))
             || ((to =? from + 7) && negb (square_file to =? 7))
  | BLACK => ((to =? from - 7) && negb (square_file to =? 0))
             || ((to =? from - 9) && negb (square_file to =? 7))
  end.

Definition pawn_steps (c : Color) : list Direction :=
  match c with
  | WHITE => [(1, 1); (-1, 1)]
  | BLACK => [(1, -1); (-1, -1)]
  end.

Definition delta_class (d : Z) : Z :=
  if Z.abs d =? 9 then 1 else if Z.abs d =? 7 then 2 else if Z.abs d =? 8 then 3
  else if Z.abs d =? 16 then 4 else 0.

Definition move_tag (pos : Position) (m : Move) : Z :=
  let d := delta_class (move_to m - move_from m) in
  match move_kind m with
  | MK_EP => 1
  | MK_SHORT_CASTLE | MK_LONG_CASTLE => 2
  | MK_PROMOTION QUEEN => 10 + d
  | MK_PROMOTION _ => 20 + d
  | MK_NORMAL =>
      let e := if square_is_empty pos (move_to m) then 1 else 0 in
      match piece_on pos (move_from m) with
      | EMPTY => 0
      | Pc _ PAWN => 30 + d
      | Pc _ KNIGHT => 40 + e
      | Pc _ BISHOP => 50 + e
      | Pc _ ROOK => 60 + e
      | Pc _ QUEEN => 70 + e
      | Pc _ KING => 80 + e
      end
  end.

Definition tagged_blocks (pos : Position) (tags : list Z) (l : list Move) : Prop :=
  exists bs : list (Z * list Move),
    l = concat (map snd bs) /\ map fst bs = tags
    /\ forall k b, In (k, b) bs -> NoDup b /\ forall m, In m b -> move_tag pos m = k.

Definition piece_tag (pt : PieceType) : Z :=
  match pt with
  | PAWN => 30 | KNIGHT => 40 | BISHOP => 50 | ROOK => 60 | QUEEN => 70 | KING => 80
  end.

Definition empty_flag (pos : Position) (s : Square) : Z :=
  if square_is_empty pos s then 1 else 0.

(** The tags of the blocks of the two pseudo-legal generators, in the
    order in which the blocks are written. *)
Definition captures_tags (us : Color) : list Z :=
  (match us with
   | WHITE => [11] ++ [31] ++ ([12] ++ [32]) ++ [13] ++ [1]
   | BLACK => [12] ++ [32] ++ ([11] ++ [31]) ++ [13] ++ [1]
   end)
  ++ ([piece_tag KNIGHT + 0] ++ [piece_tag BISHOP + 0] ++ [piece_tag ROOK + 0]
      ++ [piece_tag QUEEN + 0] ++ [])
  ++ [80 + 0].

Definition noncaptures_tags (us : Color) : list Z :=
  (match us with
   | WHITE => [21] ++ [22] ++ [23] ++ [33] ++ [34]
   | BLACK => [22] ++ [21] ++ [23] ++ [33] ++ [34]
   end)
  ++ ([piece_tag KNIGHT + 1] ++ [piece_tag BISHOP + 1] ++ [piece_tag ROOK + 1]
      ++ [piece_tag QUEEN + 1] ++ [])
  ++ [80 + 1] ++ [2].

Definition Move_eq_dec (a b : Move) : {a = b} + {a <> b}.
Proof.
  decide equality.
  - decide equality. decide equality.
  - apply Z.eq_dec.
  - apply Z.eq_dec.
Defined.

(** What a move of the evasion generator other than a king move does:
    it starts on a piece that is not in [pinned] and takes the checker,
    lands between the checker and the king, or takes en passant. *)
Definition evasion_answer (pos : Position) (ksq checksq : Square) (pinned : Bitboard)
           (m : Move) : Prop :=
  Z.testbit pinned (move_from m) = false
  /\ (move_to m = checksq
      \/ Z.testbit (squares_between checksq ksq) (move_to m) = true
      \/ (move_kind m = MK_EP /\ move_to m = ep_square pos)).

(** White king e1 in check by the rook e8 and the knight d3 at once; the
    pawn c2 could take the knight. *)
Definition pos_double_check : Position :=
  position_of_board WHITE
    (board_of [(4, Pc WHITE KING); (10, Pc WHITE PAWN);
               (60, Pc BLACK ROOK); (19, Pc BLACK KNIGHT); (56, Pc BLACK KING)])
    SQ_NONE no_castling.

(** A middle-game position, White to move and not in check: the pawn a7
    can promote on a8 or take the rook b8, the pawn d5 can take on c6,
    the knight f3 can take on e5. *)
Definition pos_middle : Position :=
  position_of_board WHITE
    (board_of [(6, Pc WHITE KING); (5, Pc WHITE ROOK); (21, Pc WHITE KNIGHT);
               (26, Pc WHITE BISHOP); (28, Pc WHITE PAWN); (35, Pc WHITE PAWN);
               (48, Pc WHITE PAWN); (15, Pc WHITE PAWN);
               (60, Pc BLACK KING); (57, Pc BLACK ROOK); (45, Pc BLACK KNIGHT);
               (36, Pc BLACK PAWN); (42, Pc BLACK PAWN)])
    SQ_NONE no_castling.

(** White to move: the pawn d6, the knight e4 and the rook a1 can each
    give check to the king e8 (d6-d7, Ne4-f6, Ra1-a8). *)
Definition pos_checks : Position :=
  position_of_board WHITE
    (board_of [(6, Pc WHITE KING); (28, Pc WHITE KNIGHT); (0, Pc WHITE ROOK);
               (43, Pc WHITE PAWN); (60, Pc BLACK KING)])
    SQ_NONE no_castling.

(** The queen's rook of a side that may castle queenside stands on that
    side's first rank. *)
Definition queen_rook_home (pos : Position) (c : Color) : Prop :=
  can_castle_queenside pos c = true ->
  square_rank (initial_qr_square pos c) = square_rank (relative_square c SQ_A1).

(** White king e1 in check by the rook e8; the rook a3 can interpose on
    e3, the bishop h5 can take the checker; black king h8. *)
Definition pos_block_check : Position :=
  position_of_board WHITE
    (board_of [(4, Pc WHITE KING); (16, Pc WHITE ROOK); (39, Pc WHITE BISHOP);
               (60, Pc BLACK ROOK); (63, Pc BLACK KING)])
    SQ_NONE no_castling.

(** A pseudo-legal normal move onto an empty square. *)
Definition quiet_pseudo_legal (pos : Position) (m : Move) : Prop :=
  pseudo_legal pos m /\ move_kind m = MK_NORMAL /\ square_is_empty pos (move_to m) = true.

(** ** Rays, read backwards *)

Definition opp_dir (d : Direction) : Direction := (- fst d, - snd d).

Definition Direction_eqb (a b : Direction) : bool :=
  (fst a =? fst b) && (snd a =? snd b).

(** The ray of [k] steps from [s] along [d], read from its far end: it
    ends on the board, comes back to [s] along the opposite direction in
    [k] steps, and its inner squares are those of the ray read backwards,
    all on the board and off the two ends. *)
Definition ray_reverse_ok (s : Square) (d : Direction) (k : Z) : bool :=
  negb (ray_valid s d k)
  || (let t := ray_target s d k in
      on_board t && negb (t =? s)
      && ray_valid t (opp_dir d) k && (ray_target t (opp_dir d) k =? s)
      && forallb (fun j =>
                    ray_valid s d j
                    && (ray_target t (opp_dir d) (k - j) =? ray_target s d j)
                    && on_board (ray_target s d j)
                    && negb (ray_target s d j =? t)
                    && negb (ray_target s d j =? s))
                 (steps_upto (k - 1))).

(** Two rays from [s] that end on the same square are the same ray. *)
Definition ray_unique_ok (s : Square) (d : Direction) (k : Z) : bool :=
  negb (ray_valid s d k)
  || forallb (fun d' =>
       forallb (fun k' =>
                  negb (ray_valid s d' k' && (ray_target s d' k' =? ray_target s d k))
                  || (Direction_eqb d' d && (k' =? k)))
               (steps_upto 7))
     queen_dirs.

(** A knight's step never lies along a line of the queen. *)
Definition knight_off_ray_ok (s : Square) (d : Direction) (k : Z) : bool :=
  negb (ray_valid s d k) || negb (step_reaches knight_steps s (ray_target s d k)).

(** The directions along which a piece slides. *)
Definition slider_dirs (pt : PieceType) : list Direction :=
  match pt with
  | BISHOP => bishop_dirs
  | ROOK => rook_dirs
  | QUEEN => queen_dirs
  | _ => []
  end.

(** The steps of a piece that does not slide. *)
Definition stepper_steps (c : Color) (pt : PieceType) : list Direction :=
  match pt with
  | PAWN => pawn_steps c
  | KNIGHT => knight_steps
  | KING => queen_dirs
  | _ => []
  end.

(** The move [m] starts on a pawn, knight, bishop, rook or queen of [us]. *)
Definition evasion_mover (pos : Position) (us : Color) (m : Move) : Prop :=
  exists pt, pt <> KING /\ 0 <= move_from m < 64 /\ piece_on pos (move_from m) = Pc us pt.

(** Modelled from the spec: [checkers()] is the set of enemy pieces that
    attack the king of the side to move, and [pinned_pieces(us)] the set
    of own pieces that alone stand between the own king and an enemy
    slider; the Position class computes both from the board.  The two
    predicates say that the record's fields are what its board gives. *)
Definition checkers_on_board (pos : Position) : Prop :=
  let us := side_to_move pos in
  checkers pos = attackers (piece_on pos) (opposite_color us) (king_square pos us).

Definition pinned_on_board (pos : Position) : Prop :=
  let us := side_to_move pos in
  pinned_pieces pos us
  = sole_blockers (piece_on pos) us (opposite_color us) (king_square pos us).

(** When an en passant square is set and a pawn gives check, that pawn
    is the one that has just made the double step: it stands one step
    behind the en passant square. *)
Definition ep_checker_pushed (pos : Position) : Prop :=
  let us := side_to_move pos in
  ep_square pos <> SQ_NONE ->
  checkers pos & pawns pos (opposite_color us) <> 0 ->
  ep_square pos = first_1 (checkers pos) + pawn_push us.

(** Modelled from the spec: [discovered_check_candidates(us)] is the set
    of own pieces that alone stand between the enemy king and an own
    slider.  The predicate says that the record's field is what its
    board gives. *)
Definition dc_on_board (pos : Position) : Prop :=
  let us := side_to_move pos in
  discovered_check_candidates pos us
  = sole_blockers (piece_on pos) us us (king_square pos (opposite_color us)).

(** After [m] the king of the other side is attacked. *)
Definition gives_check (pos : Position) (m : Move) : bool :=
  let us := side_to_move pos in
  attacked (apply_move (piece_on pos) us m) us (king_square pos (opposite_color us)).

(** Modelled from the spec: [square_is_attacked(s, c)] says whether a
    piece of colour [c] attacks [s]; the predicate says that the record's
    field is what its board gives. *)
Definition attacked_on_board (pos : Position) : Prop :=
  forall s c, square_is_attacked pos s c = attacked (piece_on pos) c s.

(** ** Lists written block by block

    [keyed_blocks key keys l]: the list [l] is the concatenation of
    blocks, the i-th of which holds no move twice and only moves whose
    key is the i-th of [keys]. *)
Definition keyed_blocks (key : Move -> Z) (keys : list Z) (l : list Move) : Prop :=
  exists bs : list (Z * list Move),
    l = concat (map snd bs) /\ map fst bs = keys
    /\ forall k b, In (k, b) bs -> NoDup b /\ forall m, In m b -> key m = k.

(** The block of [generate_evasions] a move belongs to: king moves,
    en passant, captures of the checker on [c] by piece kind, and
    interpositions by piece kind. *)
Definition evasion_tag (pos : Position) (ksq c : Square) (m : Move) : Z :=
  if move_from m =? ksq then 0
  else match move_kind m with
       | MK_EP => 1
       | _ =>
           if move_to m =? c then
             match piece_on pos (move_from m) with
             | Pc _ PAWN => 10
             | Pc _ KNIGHT => 11
             | Pc _ BISHOP => 12
             | Pc _ ROOK => 13
             | Pc _ QUEEN =>
                 if Z.testbit (bishop_attacks pos c) (move_from m) then 12 else 13
             | _ => 2
             end
           else
             match piece_on pos (move_from m) with
             | Pc _ PAWN => if Z.abs (move_to m - move_from m) =? 8 then 20 else 21
             | Pc _ KNIGHT => 22
             | Pc _ BISHOP => 23
             | Pc _ ROOK => 24
             | Pc _ QUEEN => 25
             | _ => 2
             end
       end.

(** The loop of [generate_checks] a move belongs to: by the kind of the
    moving piece, by whether it stands in [dc], and for a pawn by the
    length of the push. *)
Definition check_tag (pos : Position) (dc : Bitboard) (m : Move) : Z :=
  let d := if Z.abs (move_to m - move_from m) =? 8 then 0 else 1 in
  let x := if Z.testbit dc (move_from m) then 0 else 1 in
  match piece_on pos (move_from m) with
  | EMPTY => 0
  | Pc _ PAWN => 10 + 2 * x + d
  | Pc _ KNIGHT => 20 + x
  | Pc _ BISHOP => 30 + x
  | Pc _ ROOK => 40 + x
  | Pc _ QUEEN => 50
  | Pc _ KING => 60
  end.

(** Modelled from the spec: "the occupancy bitboard with ksq removed",
    read square by square: the occupied squares other than those in
    [gone]. *)
Definition occupied_except (pos : Position) (gone : list Square) : Bitboard :=
  bb_of_pred (fun s => square_is_occupied pos s && negb (existsb (Z.eqb s) gone)).

(** White king e2 checked by the rook on e8; black king a8.  The square
    e1 is behind the king on the rook's file. *)
Definition pos_king_on_file : Position :=
  position_of_board WHITE
    (board_of [(12, Pc WHITE KING); (60, Pc BLACK ROOK); (56, Pc BLACK KING)])
    SQ_NONE no_castling.

(** White king d4 checked by the pawn on c5, en passant square c6, white
    pawn b5; the black bishop a7 stands behind the checking pawn on the
    king's diagonal; black king h8. *)
Definition pos_ep_uncovers : Position :=
  position_of_board WHITE
    (board_of [(27, Pc WHITE KING); (33, Pc WHITE PAWN); (34, Pc BLACK PAWN);
               (48, Pc BLACK BISHOP); (63, Pc BLACK KING)])
    42 no_castling.

(** White king g1, pawn e2; black king d5.  The double push e2-e4 gives
    check. *)
Definition pos_pawn_double_check : Position :=
  position_of_board WHITE
    (board_of [(6, Pc WHITE KING); (12, Pc WHITE PAWN); (35, Pc BLACK KING)])
    SQ_NONE no_castling.

(** * Properties *)

(** ** Decidable equalities *)

Lemma Color_eqb_eq a b : Color_eqb a b = true <-> a = b.
Proof. destruct a, b; simpl; split; congruence. Qed.

Lemma PieceType_eqb_eq a b : PieceType_eqb a b = true <-> a = b.
Proof. destruct a, b; simpl; split; congruence. Qed.

Lemma Piece_eqb_eq a b : Piece_eqb a b = true <-> a = b.
Proof.
  destruct a as [|c1 t1], b as [|c2 t2]; simpl; split; try congruence.
  - rewrite andb_true_iff, Color_eqb_eq, PieceType_eqb_eq. intros [-> ->]; reflexivity.
  - intros E; injection E as -> ->.
    rewrite andb_true_iff, Color_eqb_eq, PieceType_eqb_eq. split; reflexivity.
Qed.

Lemma Piece_eqb_refl a : Piece_eqb a a = true.
Proof. apply Piece_eqb_eq; reflexivity. Qed.

(** ** Bits of a bitboard *)

Lemma set_mask_bit s i : 0 <= s -> Z.testbit (set_mask s) i = (s =? i).
Proof.
  intros Hs. unfold set_mask. rewrite Z.shiftl_1_l.
  rewrite Z.pow2_bits_eqb by assumption. reflexivity.
Qed.

Lemma testbit_true_nonneg b i : Z.testbit b i = true -> 0 <= i.
Proof.
  intros H. destruct (Z.leb_spec 0 i) as [|Hneg]; [assumption|].
  rewrite Z.testbit_neg_r in H by assumption. discriminate.
Qed.

Lemma bb_ok_bit_range b i : bb_ok b -> Z.testbit b i = true -> 0 <= i < 64.
Proof.
  intros [H0 H1] Hb. split; [eapply testbit_true_nonneg; eassumption|].
  destruct (Z.ltb_spec i 64) as [|Hge]; [assumption|exfalso].
  destruct (Z.eq_dec b 0) as [->|Hnz]; [rewrite Z.bits_0 in Hb; discriminate|].
  assert (Hlog : Z.log2 b < 64) by (apply Z.log2_lt_pow2; lia).
  rewrite Z.bits_above_log2 in Hb by lia. discriminate.
Qed.

Lemma bb_ok_of_bits b :
  0 <= b -> (forall i, 64 <= i -> Z.testbit b i = false) -> bb_ok b.
Proof.
  intros H0 Hhi. split; [assumption|].
  destruct (Z.eq_dec b 0) as [->|Hnz]; [reflexivity|].
  assert (Hpos : 0 < b) by lia.
  destruct (Z.ltb_spec (Z.log2 b) 64) as [Hlt|Hge].
  - apply Z.log2_lt_pow2; assumption.
  - specialize (Hhi (Z.log2 b) Hge). rewrite Z.bit_log2 in Hhi by assumption. discriminate.
Qed.

Lemma BB_FULL_bit i : Z.testbit BB_FULL i = (0 <=? i) && (i <? 64).
Proof.
  unfold BB_FULL. change (2 ^ 64 - 1) with (Z.ones 64).
  destruct (Z.leb_spec 0 i) as [H0|H0]; simpl.
  - destruct (Z.ltb_spec i 64).
    + apply Z.ones_spec_low; lia.
    + apply Z.ones_spec_high; lia.
  - apply Z.testbit_neg_r; assumption.
Qed.

Lemma bb_and_bit a b i : Z.testbit (a & b) i = Z.testbit a i && Z.testbit b i.
Proof. apply Z.land_spec. Qed.

Lemma bb_or_bit a b i : Z.testbit (a :| b) i = Z.testbit a i || Z.testbit b i.
Proof. apply Z.lor_spec. Qed.

Lemma bb_not_bit b i :
  0 <= i < 64 -> Z.testbit (~~ b) i = negb (Z.testbit b i).
Proof.
  intros Hi. unfold bb_not. rewrite Z.lxor_spec, BB_FULL_bit.
  replace ((0 <=? i) && (i <? 64)) with true.
  - destruct (Z.testbit b i); reflexivity.
  - symmetry. apply andb_true_iff. split; [apply Z.leb_le|apply Z.ltb_lt]; lia.
Qed.

Lemma bb_shl_bit b n i :
  0 <= n -> Z.testbit (b << n) i = Z.testbit b (i - n) && (i <? 64).
Proof.
  intros Hn. unfold bb_shl. rewrite Z.land_spec, BB_FULL_bit.
  destruct (Z.leb_spec 0 i) as [H0|H0]; simpl.
  - rewrite Z.shiftl_spec by assumption. reflexivity.
  - rewrite (Z.testbit_neg_r _ i) by assumption. simpl.
    rewrite Z.testbit_neg_r by lia. reflexivity.
Qed.

Lemma bb_shr_bit b n i :
  0 <= i -> Z.testbit (b >> n) i = Z.testbit b (i + n).
Proof. intros Hi. unfold bb_shr. apply Z.shiftr_spec; assumption. Qed.

Lemma bb_and_ok_l a b : bb_ok a -> bb_ok (a & b).
Proof.
  intros Ha. apply bb_ok_of_bits.
  - apply Z.land_nonneg. left. apply Ha.
  - intros i Hi. rewrite bb_and_bit.
    destruct (Z.testbit a i) eqn:E; [|reflexivity].
    apply (bb_ok_bit_range _ _ Ha) in E. lia.
Qed.

Lemma bb_and_ok_r a b : bb_ok b -> bb_ok (a & b).
Proof.
  intros Hb. unfold bb_and. rewrite Z.land_comm. apply bb_and_ok_l; assumption.
Qed.

Lemma bb_or_ok a b : bb_ok a -> bb_ok b -> bb_ok (a :| b).
Proof.
  intros Ha Hb. apply bb_ok_of_bits.
  - apply Z.lor_nonneg. split; [apply Ha|apply Hb].
  - intros i Hi. rewrite bb_or_bit. apply orb_false_iff. split.
    + destruct (Z.testbit a i) eqn:E; [|reflexivity].
      apply (bb_ok_bit_range _ _ Ha) in E. lia.
    + destruct (Z.testbit b i) eqn:E; [|reflexivity].
      apply (bb_ok_bit_range _ _ Hb) in E. lia.
Qed.

Lemma BB_FULL_ok : bb_ok BB_FULL.
Proof. unfold bb_ok, BB_FULL. lia. Qed.

Lemma bb_not_ok b : bb_ok b -> bb_ok (~~ b).
Proof.
  intros Hb. apply bb_ok_of_bits.
  - unfold bb_not. apply Z.lxor_nonneg. split; intros _; [apply BB_FULL_ok|apply Hb].
  - intros i Hi. unfold bb_not. rewrite Z.lxor_spec, BB_FULL_bit.
    destruct (Z.testbit b i) eqn:E.
    + apply (bb_ok_bit_range _ _ Hb) in E. lia.
    + replace (i <? 64) with false by (symmetry; apply Z.ltb_ge; lia).
      rewrite andb_false_r. reflexivity.
Qed.

Lemma bb_shl_ok b n : bb_ok (b << n).
Proof.
  apply bb_ok_of_bits.
  - unfold bb_shl. apply Z.land_nonneg. right. apply BB_FULL_ok.
  - intros i Hi. unfold bb_shl. rewrite Z.land_spec, BB_FULL_bit.
    replace (i <? 64) with false by (symmetry; apply Z.ltb_ge; lia).
    rewrite !andb_false_r. reflexivity.
Qed.

Lemma bb_shr_ok b n : bb_ok b -> 0 <= n -> bb_ok (b >> n).
Proof.
  intros Hb Hn. apply bb_ok_of_bits.
  - unfold bb_shr. apply Z.shiftr_nonneg. apply Hb.
  - intros i Hi. rewrite bb_shr_bit by lia.
    destruct (Z.testbit b (i + n)) eqn:E; [|reflexivity].
    apply (bb_ok_bit_range _ _ Hb) in E. lia.
Qed.

Lemma clear_bit_bit b s i :
  0 <= s -> bb_ok b -> Z.testbit (clear_bit b s) i = Z.testbit b i && negb (s =? i).
Proof.
  intros Hs Hb. unfold clear_bit. rewrite Z.land_spec.
  destruct (Z.testbit b i) eqn:E; [|reflexivity]. simpl.
  rewrite bb_not_bit by (eapply bb_ok_bit_range; eassumption).
  rewrite set_mask_bit by assumption. reflexivity.
Qed.

Lemma all_squares_In s : In s all_squares <-> 0 <= s < 64.
Proof.
  unfold all_squares. rewrite in_map_iff. split.
  - intros [n [<- Hn]]. apply in_seq in Hn. lia.
  - intros Hs. exists (Z.to_nat s). split; [lia|]. apply in_seq. lia.
Qed.

Lemma all_squares_NoDup : NoDup all_squares.
Proof.
  unfold all_squares. apply Finite.Injective_map_NoDup.
  - intros a b H. lia.
  - apply seq_NoDup.
Qed.

Lemma bb_fold_bit (f : Square -> bool) (l : list Square) i :
  (forall s, In s l -> 0 <= s) ->
  Z.testbit (fold_right (fun s acc => Z.lor (if f s then set_mask s else 0) acc) 0 l) i
  = existsb (fun s => (s =? i) && f s) l.
Proof.
  induction l as [|a l IH]; intros Hl; simpl.
  - apply Z.bits_0.
  - assert (Ha : 0 <= a) by (apply Hl; left; reflexivity).
    assert (Hl' : forall s, In s l -> 0 <= s) by (intros s Hs; apply Hl; right; assumption).
    rewrite Z.lor_spec, IH by assumption. f_equal.
    destruct (f a).
    + rewrite set_mask_bit by assumption. rewrite andb_true_r. reflexivity.
    + rewrite Z.bits_0, andb_false_r. reflexivity.
Qed.

Lemma bb_fold_nonneg (f : Square -> bool) (l : list Square) :
  (forall s, In s l -> 0 <= s) ->
  0 <= fold_right (fun s acc => Z.lor (if f s then set_mask s else 0) acc) 0 l.
Proof.
  induction l as [|a l IH]; intros Hl; simpl; [lia|].
  assert (Hl' : forall s, In s l -> 0 <= s) by (intros s Hs; apply Hl; right; assumption).
  apply Z.lor_nonneg. split; [|apply IH; assumption].
  destruct (f a); [|lia]. unfold set_mask. apply Z.shiftl_nonneg. lia.
Qed.

Lemma bb_of_pred_bit f i :
  Z.testbit (bb_of_pred f) i = on_board i && f i.
Proof.
  unfold bb_of_pred. rewrite bb_fold_bit by (intros s Hs; apply all_squares_In in Hs; lia).
  unfold on_board. destruct ((0 <=? i) && (i <? 64) && f i) eqn:E.
  - apply existsb_exists. exists i.
    apply andb_true_iff in E. destruct E as [E1 E2]. apply andb_true_iff in E1.
    split; [apply all_squares_In; lia|]. rewrite Z.eqb_refl, E2. reflexivity.
  - match goal with |- ?x = false => destruct x eqn:E' end; [|reflexivity].
    apply existsb_exists in E'. destruct E' as [s [Hs Hsi]].
    apply andb_true_iff in Hsi. destruct Hsi as [Hsi Hf].
    apply Z.eqb_eq in Hsi. subst s. apply all_squares_In in Hs.
    rewrite Hf in E. rewrite andb_true_r in E.
    apply andb_false_iff in E. destruct E as [E|E]; [apply Z.leb_gt in E|apply Z.ltb_ge in E]; lia.
Qed.

Lemma bb_of_pred_ok f : bb_ok (bb_of_pred f).
Proof.
  apply bb_ok_of_bits.
  - apply bb_fold_nonneg. intros s Hs. apply all_squares_In in Hs. lia.
  - intros i Hi. rewrite bb_of_pred_bit. unfold on_board.
    replace (i <? 64) with false by (symmetry; apply Z.ltb_ge; lia).
    rewrite andb_false_r. reflexivity.
Qed.

Lemma bb_of_pred_true f s :
  Z.testbit (bb_of_pred f) s = true <-> 0 <= s < 64 /\ f s = true.
Proof.
  rewrite bb_of_pred_bit. unfold on_board. rewrite !andb_true_iff, Z.leb_le, Z.ltb_lt. tauto.
Qed.

Lemma bb_of_list_bit l i :
  (forall s, In s l -> 0 <= s) ->
  Z.testbit (bb_of_list l) i = existsb (fun s => s =? i) l.
Proof.
  unfold bb_of_list. induction l as [|a l IH]; intros Hl; simpl.
  - apply Z.bits_0.
  - rewrite Z.lor_spec, set_mask_bit by (apply Hl; left; reflexivity).
    rewrite IH by (intros s Hs; apply Hl; right; assumption). reflexivity.
Qed.

(** *** Lowest set bit and the pop loop *)

Lemma lsb_pos_nonneg p : 0 <= lsb_pos p.
Proof. induction p; cbn [lsb_pos]; lia. Qed.

Lemma lsb_pos_set p : Z.testbit (Zpos p) (lsb_pos p) = true.
Proof.
  induction p as [q IH|q IH|]; try reflexivity.
  cbn [lsb_pos]. pose proof (lsb_pos_nonneg q).
  replace (1 + lsb_pos q) with (Z.succ (lsb_pos q)) by lia.
  change (Zpos q~0) with (2 * Zpos q).
  rewrite Z.testbit_even_succ by assumption. exact IH.
Qed.

Lemma lsb_pos_least p i : 0 <= i < lsb_pos p -> Z.testbit (Zpos p) i = false.
Proof.
  revert i. induction p as [q IH|q IH|]; intros i Hi; cbn [lsb_pos] in Hi; try lia.
  change (Zpos q~0) with (2 * Zpos q).
  destruct (Z.eq_dec i 0) as [->|Hnz].
  - apply Z.testbit_even_0.
  - replace i with (Z.succ (i - 1)) by lia.
    rewrite Z.testbit_even_succ by lia. apply IH. lia.
Qed.

Lemma pop_pos_bit p i :
  Z.testbit (Z.land (Zpos p) (Zpos p - 1)) i
  = Z.testbit (Zpos p) i && negb (i =? lsb_pos p).
Proof.
  revert i. induction p as [q IH|q IH|]; intros i.
  - (* odd: the lowest bit goes *)
    cbn [lsb_pos]. rewrite Z.land_spec.
    replace (Zpos q~1 - 1) with (2 * Zpos q) by lia.
    change (Zpos q~1) with (2 * Zpos q + 1).
    destruct (Z.ltb_spec i 0) as [Hneg|Hnn].
    + rewrite !Z.testbit_neg_r by assumption. reflexivity.
    + destruct (Z.eq_dec i 0) as [->|Hnz].
      * rewrite Z.testbit_odd_0, Z.testbit_even_0. reflexivity.
      * replace i with (Z.succ (i - 1)) by lia.
        rewrite Z.testbit_odd_succ, Z.testbit_even_succ by lia.
        replace (Z.succ (i - 1) =? 0) with false by (symmetry; apply Z.eqb_neq; lia).
        simpl. rewrite andb_true_r. apply andb_diag.
  - (* even: recurse on the upper bits *)
    cbn [lsb_pos]. rewrite Z.land_spec.
    replace (Zpos q~0 - 1) with (2 * (Zpos q - 1) + 1) by lia.
    change (Zpos q~0) with (2 * Zpos q).
    pose proof (lsb_pos_nonneg q) as Hl.
    destruct (Z.ltb_spec i 0) as [Hneg|Hnn].
    + rewrite !Z.testbit_neg_r by assumption. reflexivity.
    + destruct (Z.eq_dec i 0) as [->|Hnz].
      * rewrite Z.testbit_even_0. reflexivity.
      * replace i with (Z.succ (i - 1)) by lia.
        rewrite Z.testbit_odd_succ, Z.testbit_even_succ by lia.
        rewrite <- Z.land_spec, IH.
        replace (Z.succ (i - 1) =? 1 + lsb_pos q) with (i - 1 =? lsb_pos q); [reflexivity|].
        destruct (Z.eqb_spec (i - 1) (lsb_pos q)); symmetry;
          [apply Z.eqb_eq|apply Z.eqb_neq]; lia.
  - simpl. rewrite Z.bits_0. destruct i as [|i|i]; reflexivity.
Qed.

Lemma pop_1st_bit_bit b i :
  0 < b ->
  Z.testbit (snd (pop_1st_bit b)) i = Z.testbit b i && negb (i =? first_1 b).
Proof.
  intros Hb. destruct b as [|p|p]; try lia. apply pop_pos_bit.
Qed.

Lemma first_1_set b : 0 < b -> Z.testbit b (first_1 b) = true.
Proof. intros Hb. destruct b as [|p|p]; try lia. apply lsb_pos_set. Qed.

Lemma first_1_least b i : 0 < b -> Z.testbit b i = true -> first_1 b <= i.
Proof.
  intros Hb Hi. destruct b as [|p|p]; try lia. simpl.
  destruct (Z.leb_spec (lsb_pos p) i) as [|Hlt]; [assumption|exfalso].
  rewrite lsb_pos_least in Hi; [discriminate|].
  split; [eapply testbit_true_nonneg; eassumption|assumption].
Qed.

Lemma pop_loop_In k b :
  0 <= b ->
  (forall i, Z.testbit b i = true -> 64 - Z.of_nat k <= i < 64) ->
  forall s, In s (pop_loop k b) <-> Z.testbit b s = true.
Proof.
  revert b. induction k as [|k IH]; intros b Hb Hrange s.
  - simpl. split; [tauto|]. intros H. apply Hrange in H. lia.
  - cbn [pop_loop]. destruct (Z.eqb_spec b 0) as [->|Hnz].
    + rewrite Z.bits_0. simpl. split; [tauto|discriminate].
    + assert (Hpos : 0 < b) by lia.
      unfold pop_1st_bit. cbn [In].
      pose proof (first_1_set b Hpos) as Hset.
      assert (Hb' : 0 <= Z.land b (b - 1)) by (apply Z.land_nonneg; lia).
      rewrite IH; [| assumption |].
      * change (Z.land b (b - 1)) with (snd (pop_1st_bit b)).
        rewrite pop_1st_bit_bit by assumption.
        destruct (Z.eqb_spec s (first_1 b)) as [->|Hne].
        -- rewrite Hset. simpl. split; [reflexivity|]. intros _. left. reflexivity.
        -- rewrite andb_true_r. split; [intros [H|H]; [congruence|exact H]|].
           intros H. right. exact H.
      * intros i Hi. change (Z.land b (b - 1)) with (snd (pop_1st_bit b)) in Hi.
        rewrite pop_1st_bit_bit in Hi by assumption.
        apply andb_true_iff in Hi. destruct Hi as [Hi Hne].
        apply negb_true_iff, Z.eqb_neq in Hne.
        pose proof (first_1_least b i Hpos Hi).
        pose proof (Hrange _ Hi). pose proof (Hrange _ Hset). lia.
Qed.

Lemma pop_loop_lower k b s :
  0 <= b -> In s (pop_loop k b) -> Z.testbit b s = true.
Proof.
  revert b. induction k as [|k IH]; intros b Hb; simpl; [tauto|].
  destruct (Z.eqb_spec b 0) as [->|Hnz]; [simpl; tauto|].
  assert (Hpos : 0 < b) by lia.
  intros [<-|H].
  - apply first_1_set; assumption.
  - apply IH in H; [|apply Z.land_nonneg; lia].
    change (Z.land b (b - 1)) with (snd (pop_1st_bit b)) in H.
    rewrite pop_1st_bit_bit in H by assumption.
    apply andb_true_iff in H. apply H.
Qed.

Lemma pop_loop_NoDup k b : 0 <= b -> NoDup (pop_loop k b).
Proof.
  revert b. induction k as [|k IH]; intros b Hb; simpl; [constructor|].
  destruct (Z.eqb_spec b 0) as [->|Hnz]; [constructor|].
  assert (Hpos : 0 < b) by lia.
  assert (Hb' : 0 <= Z.land b (b - 1)) by (apply Z.land_nonneg; lia).
  constructor; [|apply IH; assumption].
  intros Hin. apply pop_loop_lower in Hin; [|assumption].
  change (Z.land b (b - 1)) with (snd (pop_1st_bit b)) in Hin.
  rewrite pop_1st_bit_bit in Hin by assumption.
  rewrite Z.eqb_refl in Hin. rewrite andb_false_r in Hin. discriminate.
Qed.

Lemma bb_squares_In b s :
  bb_ok b -> (In s (bb_squares b) <-> Z.testbit b s = true).
Proof.
  intros Hb. unfold bb_squares. apply pop_loop_In; [apply Hb|].
  intros i Hi. apply (bb_ok_bit_range _ _ Hb) in Hi. lia.
Qed.

Lemma bb_squares_range b s : bb_ok b -> In s (bb_squares b) -> 0 <= s < 64.
Proof.
  intros Hb Hs. apply bb_squares_In in Hs; [|assumption].
  eapply bb_ok_bit_range; eassumption.
Qed.

Lemma bb_squares_NoDup b : bb_ok b -> NoDup (bb_squares b).
Proof. intros Hb. apply pop_loop_NoDup. apply Hb. Qed.

(** ** The legal move list *)

Section Compaction.
Variable legal : Move -> bool.

Lemma nth_middle_app (A T : list Move) x :
  nth (length A) (A ++ x :: T) MOVE_NONE = x.
Proof. rewrite app_nth2 by lia. rewrite Nat.sub_diag. reflexivity. Qed.

Lemma list_set_middle (A T : list Move) x y :
  list_set (A ++ x :: T) (length A) y = A ++ y :: T.
Proof.
  unfold list_set. rewrite firstn_app, firstn_all, Nat.sub_diag. simpl.
  rewrite skipn_app, skipn_all, Nat.sub_diag. simpl. rewrite app_nil_r. reflexivity.
Qed.

Lemma filter_Permutation (l l' : list Move) :
  Permutation l l' -> Permutation (filter legal l) (filter legal l').
Proof.
  induction 1 as [|x l l' _ IH|x y l|l l' l'' _ IH1 _ IH2]; simpl.
  - constructor.
  - destruct (legal x); [constructor|]; assumption.
  - destruct (legal x), (legal y); try reflexivity. constructor.
  - etransitivity; eassumption.
Qed.

(** The loop over the live window [T] of the buffer [A ++ T ++ B]: the
    prefix stays, and the window shrinks to a rearrangement of its legal
    moves. *)
Lemma compact_loop_window fuel :
  forall A T B : list Move,
    (length T <= fuel)%nat ->
    exists T' B',
      compact_loop legal fuel (A ++ T ++ B) (length A) (length A + length T)
      = (A ++ T' ++ B', (length A + length T')%nat)
      /\ Permutation T' (filter legal T).
Proof.
  induction fuel as [|k IH]; intros A T B Hfuel.
  - destruct T; [|simpl in Hfuel; lia].
    exists [], B. split; [reflexivity|constructor].
  - destruct T as [|x T1].
    + exists [], B. cbn [compact_loop length]. rewrite Nat.add_0_r, Nat.ltb_irrefl.
      split; [reflexivity|constructor].
    + cbn [compact_loop length].
      replace (length A <? length A + S (length T1))%nat with true
        by (symmetry; apply Nat.ltb_lt; lia).
      change ((x :: T1) ++ B) with (x :: (T1 ++ B)).
      rewrite nth_middle_app. simpl in Hfuel.
      destruct (legal x) eqn:Ex; cbn [negb].
      * (* the move stays: i advances *)
        destruct (IH (A ++ [x]) T1 B ltac:(lia)) as [T' [B' [Hrun Hperm]]].
        rewrite <- !app_assoc in Hrun. simpl in Hrun.
        rewrite length_app in Hrun. simpl in Hrun.
        replace (length A + 1 + length T1)%nat with (length A + S (length T1))%nat
          in Hrun by lia.
        exists (x :: T'), B'. rewrite Hrun. simpl. rewrite Ex. split.
        -- f_equal. simpl. lia.
        -- constructor. assumption.
      * (* the move goes: the last live move takes its place *)
        replace (length A + S (length T1) - 1)%nat with (length A + length T1)%nat by lia.
        destruct T1 as [|y T2 _] using rev_ind.
        -- simpl. rewrite Nat.add_0_r, nth_middle_app, list_set_middle.
           destruct (IH A [] (x :: B) ltac:(simpl; lia)) as [T' [B' [Hrun Hperm]]].
           simpl in Hrun. rewrite Nat.add_0_r in Hrun.
           exists T', B'. rewrite Hrun. simpl. rewrite Ex. split; [reflexivity|assumption].
        -- rewrite length_app. simpl.
           replace (nth (length A + (length T2 + 1)) (A ++ x :: (T2 ++ [y]) ++ B) MOVE_NONE)
             with y.
           2:{ replace (A ++ x :: (T2 ++ [y]) ++ B) with ((A ++ x :: T2) ++ y :: B)
                 by (rewrite <- !app_assoc; reflexivity).
               replace (length A + (length T2 + 1))%nat with (length (A ++ x :: T2))
                 by (rewrite length_app; simpl; lia).
               rewrite nth_middle_app. reflexivity. }
           rewrite list_set_middle.
           destruct (IH A (y :: T2) (y :: B)) as [T' [B' [Hrun Hperm]]].
           { rewrite length_app in Hfuel. simpl in Hfuel |- *. lia. }
           replace (A ++ y :: (T2 ++ [y]) ++ B) with (A ++ (y :: T2) ++ y :: B)
             by (simpl; rewrite <- !app_assoc; reflexivity).
           replace (length A + (length T2 + 1))%nat with (length A + length (y :: T2))%nat
             by (simpl; lia).
           exists T', B'. rewrite Hrun. split; [reflexivity|].
           simpl. rewrite Ex. etransitivity; [exact Hperm|].
           apply filter_Permutation.
           change (y :: T2) with ([y] ++ T2). apply Permutation_app_comm.
Qed.

Lemma compact_loop_filter (l : list Move) :
  let r := compact_loop legal (length l) l 0 (length l) in
  Permutation (firstn (snd r) (fst r)) (filter legal l).
Proof.
  destruct (compact_loop_window (length l) [] l [] (Nat.le_refl _)) as [T' [B' [Hrun Hperm]]].
  simpl in Hrun. rewrite app_nil_r in Hrun. simpl. rewrite Hrun. simpl.
  rewrite firstn_app, firstn_all, Nat.sub_diag. simpl. rewrite app_nil_r. assumption.
Qed.
End Compaction.

(** C1. [generate_legal_moves] returns the evasions when the side to move
    is in check; otherwise it returns the captures followed by the
    non-captures, compacted in place: what is left is a rearrangement of
    exactly the moves that pass [move_is_legal(m, pinned)], each kept as
    often as it was generated. *)
Theorem generate_legal_moves_spec (pos : Position) :
  if is_check pos then
    generate_legal_moves pos = generate_evasions pos
  else
    let pinned := pinned_pieces pos (side_to_move pos) in
    let pseudo := generate_captures pos ++ generate_noncaptures pos in
    Permutation (generate_legal_moves pos)
                (filter (fun m => move_is_legal_pinned pos m pinned) pseudo)
    /\ (forall m, In m (generate_legal_moves pos)
                  <-> In m pseudo /\ move_is_legal_pinned pos m pinned = true).
Proof.
  unfold generate_legal_moves. destruct (is_check pos); [reflexivity|].
  cbv zeta.
  set (legal := fun m => move_is_legal_pinned pos m (pinned_pieces pos (side_to_move pos))).
  set (l := generate_captures pos ++ generate_noncaptures pos).
  replace (length (generate_captures pos) + length (generate_noncaptures pos))%nat
    with (length l) by (unfold l; rewrite length_app; reflexivity).
  pose proof (compact_loop_filter legal l) as Hperm. cbv zeta in Hperm.
  destruct (compact_loop legal (length l) l 0 (length l)) as [ml n]. simpl in Hperm.
  split; [exact Hperm|].
  intros m. split; intros H.
  - apply (filter_In legal). eapply Permutation_in; eassumption.
  - apply (filter_In legal) in H.
    eapply Permutation_in; [apply Permutation_sym|]; eassumption.
Qed.

(** ** The check generator ignores its [dc] argument *)

(** C10. [generate_checks(pos, mlist, dc)] writes the same moves, and
    as many, whatever bitboard is passed as [dc]: the parameter is
    overwritten with [pos.discovered_check_candidates(us)] before use. *)
Theorem generate_checks_dc_irrelevant (pos : Position) (dc1 dc2 : Bitboard) :
  generate_checks pos dc1 = generate_checks pos dc2
  /\ length (generate_checks pos dc1) = length (generate_checks pos dc2).
Proof. split; reflexivity. Qed.

(** ** Well-formed bitboards and the moves a loop writes *)

Lemma bb_zero_ok : bb_ok 0.
Proof. unfold bb_ok. lia. Qed.

Lemma slider_attacks_bb_ok dirs s occ : bb_ok (slider_attacks_bb dirs s occ).
Proof. apply bb_of_pred_ok. Qed.

Lemma queen_attacks_bb_ok s occ : bb_ok (queen_attacks_bb s occ).
Proof. apply bb_or_ok; apply slider_attacks_bb_ok. Qed.

Lemma pieces_of_color_and_type_ok pos c pt : bb_ok (pieces_of_color_and_type pos c pt).
Proof. apply bb_of_pred_ok. Qed.

Lemma pawn_attacks_bb_ok c s : bb_ok (pawn_attacks_bb c s).
Proof. apply bb_of_pred_ok. Qed.

Lemma knight_attacks_bb_ok s : bb_ok (knight_attacks_bb s).
Proof. apply bb_of_pred_ok. Qed.

Lemma king_attacks_bb_ok s : bb_ok (king_attacks_bb s).
Proof. apply bb_of_pred_ok. Qed.

Lemma squares_between_ok a b : bb_ok (squares_between a b).
Proof. apply bb_of_pred_ok. Qed.

Lemma occupied_squares_ok pos : bb_ok (occupied_squares pos).
Proof. apply bb_of_pred_ok. Qed.

Lemma empty_squares_ok pos : bb_ok (empty_squares pos).
Proof. apply bb_not_ok, occupied_squares_ok. Qed.

Lemma pieces_of_color_ok pos c : bb_ok (pieces_of_color pos c).
Proof. apply bb_of_pred_ok. Qed.

Lemma clear_bit_ok b s : bb_ok b -> bb_ok (clear_bit b s).
Proof. intros Hb. apply bb_and_ok_l. assumption. Qed.

Lemma piece_attacks_fn_ok pos pt s : bb_ok (piece_attacks_fn pos pt s).
Proof.
  destruct pt; simpl;
    first [apply bb_zero_ok | apply bb_of_pred_ok | apply queen_attacks_bb_ok].
Qed.

Ltac bb_ok_tac :=
  lazymatch goal with
  | |- bb_ok (_ & _) => first [apply bb_and_ok_l; bb_ok_tac | apply bb_and_ok_r; bb_ok_tac]
  | |- bb_ok (_ :| _) => apply bb_or_ok; bb_ok_tac
  | |- bb_ok (_ << _) => apply bb_shl_ok
  | |- bb_ok (_ >> _) => apply bb_shr_ok; [bb_ok_tac | lia]
  | |- bb_ok (~~ _) => apply bb_not_ok; bb_ok_tac
  | |- bb_ok (clear_bit _ _) => apply clear_bit_ok; bb_ok_tac
  | |- _ => first [ apply bb_of_pred_ok | apply bb_zero_ok | apply queen_attacks_bb_ok
                  | apply piece_attacks_fn_ok | apply bb_or_ok; apply bb_of_pred_ok
                  | assumption ]
  end.

Lemma emit_In b f m :
  bb_ok b -> (In m (emit b f) <-> exists s, Z.testbit b s = true /\ In m (f s)).
Proof.
  intros Hb. unfold emit. rewrite in_flat_map. split.
  - intros [s [Hs Hm]]. exists s. split; [apply bb_squares_In in Hs|]; assumption.
  - intros [s [Hs Hm]]. exists s. split; [apply bb_squares_In|]; assumption.
Qed.

Lemma emit1_In b f m :
  bb_ok b -> (In m (emit1 b f) <-> exists s, Z.testbit b s = true /\ m = f s).
Proof.
  intros Hb. unfold emit1. rewrite emit_In by assumption.
  split; intros [s [Hs Hm]]; exists s; (split; [assumption|]).
  - destruct Hm as [Hm|[]]. symmetry. assumption.
  - left. symmetry. assumption.
Qed.

Ltac split_bits :=
  repeat match goal with
  | H : Z.testbit (_ & _) _ = true |- _ =>
      rewrite bb_and_bit in H; apply andb_true_iff in H; destruct H
  | H : Z.testbit (_ << _) _ = true |- _ =>
      rewrite bb_shl_bit in H by lia; apply andb_true_iff in H; destruct H as [H _]
  | H : Z.testbit (_ >> _) _ = true |- _ =>
      let Hnn := fresh "Hnn" in
      pose proof (testbit_true_nonneg _ _ H) as Hnn;
      rewrite bb_shr_bit in H by exact Hnn
  end.

Lemma piece_bit pos c pt s :
  Z.testbit (pieces_of_color_and_type pos c pt) s = true <->
  0 <= s < 64 /\ piece_on pos s = Pc c pt.
Proof.
  unfold pieces_of_color_and_type. rewrite bb_of_pred_true, Piece_eqb_eq. reflexivity.
Qed.

Lemma pieces_of_color_bit pos c s :
  Z.testbit (pieces_of_color pos c) s = true <->
  0 <= s < 64 /\ color_of_piece (piece_on pos s) = Some c.
Proof.
  unfold pieces_of_color. rewrite bb_of_pred_true.
  destruct (piece_on pos s) as [|c' pt]; simpl.
  - split; intros [_ H]; discriminate.
  - rewrite Color_eqb_eq. split; intros [H1 H2]; (split; [assumption|congruence]).
Qed.

Lemma occupied_bit pos s :
  Z.testbit (occupied_squares pos) s = true <-> 0 <= s < 64 /\ piece_on pos s <> EMPTY.
Proof.
  unfold occupied_squares, square_is_occupied, square_is_empty.
  rewrite bb_of_pred_true, negb_true_iff. split; intros [H1 H2]; (split; [assumption|]).
  - intros E. rewrite E in H2. discriminate.
  - destruct (Piece_eqb (piece_on pos s) EMPTY) eqn:E; [|reflexivity].
    apply Piece_eqb_eq in E. contradiction.
Qed.

(** ** The evasion generator, block by block *)

Section EvasionBlocks.
Variable pos : Position.
Variable us : Color.

Lemma from_nonking_piece pt from to :
  pt <> KING ->
  Z.testbit (pieces_of_color_and_type pos us pt) from = true ->
  from_nonking pos us (make_move from to).
Proof.
  intros Hpt Hbit _. exists pt. split; [assumption|]. apply piece_bit in Hbit. apply Hbit.
Qed.

Lemma from_nonking_promotions from to m :
  In m (all_promotions from to) -> from_nonking pos us m.
Proof.
  intros Hm Hk. simpl in Hm.
  destruct Hm as [<-|[<-|[<-|[<-|[]]]]]; discriminate.
Qed.

Lemma capture_checker_from checksq pinned m :
  In m (evasions_capture_checker pos us checksq pinned) -> from_nonking pos us m.
Proof.
  unfold evasions_capture_checker. rewrite !in_app_iff.
  intros [H|[H|[H|H]]].
  - apply emit_In in H; [|bb_ok_tac]. destruct H as [s [Hs Hm]]. split_bits.
    destruct (relative_rank us checksq =? RANK_8).
    + eapply from_nonking_promotions; eassumption.
    + destruct Hm as [<-|[]]. eapply from_nonking_piece; [|eassumption]. discriminate.
  - apply emit1_In in H; [|bb_ok_tac]. destruct H as [s [Hs ->]]. split_bits.
    eapply from_nonking_piece; [|eassumption]. discriminate.
  - apply emit1_In in H; [|bb_ok_tac]. destruct H as [s [Hs ->]]. split_bits.
    match goal with
    | Hb : Z.testbit (bishops_and_queens _ _) _ = true |- _ =>
        unfold bishops_and_queens in Hb; rewrite bb_or_bit in Hb;
        apply orb_true_iff in Hb; destruct Hb as [Hb|Hb]
    end; (eapply from_nonking_piece; [|eassumption]; discriminate).
  - apply emit1_In in H; [|bb_ok_tac]. destruct H as [s [Hs ->]]. split_bits.
    match goal with
    | Hb : Z.testbit (rooks_and_queens _ _) _ = true |- _ =>
        unfold rooks_and_queens in Hb; rewrite bb_or_bit in Hb;
        apply orb_true_iff in Hb; destruct Hb as [Hb|Hb]
    end; (eapply from_nonking_piece; [|eassumption]; discriminate).
Qed.

Lemma block_piece_from pt attacks pinned blockSquares m :
  pt <> KING ->
  (forall s, bb_ok (attacks s)) ->
  In m (evasions_block_piece (pieces_of_color_and_type pos us pt & ~~ pinned)
                             attacks blockSquares) ->
  from_nonking pos us m.
Proof.
  intros Hpt Hok H. unfold evasions_block_piece in H.
  apply emit_In in H; [|bb_ok_tac]. destruct H as [from [Hfrom Hm]].
  apply emit1_In in Hm; [|apply bb_and_ok_l, Hok]. destruct Hm as [to [_ ->]].
  split_bits. eapply from_nonking_piece; eassumption.
Qed.
End EvasionBlocks.

Lemma block_pawn_from pos us pinned blockSquares m :
  In m (evasions_block_pawn pos us pinned blockSquares) -> from_nonking pos us m.
Proof.
  unfold evasions_block_pawn. destruct us; rewrite in_app_iff; intros [H|H].
  - apply emit_In in H; [|bb_ok_tac]. destruct H as [to [Hto Hm]]. split_bits.
    destruct (square_rank to =? RANK_8).
    + eapply from_nonking_promotions; eassumption.
    + destruct Hm as [<-|[]]. eapply from_nonking_piece; [|eassumption]. discriminate.
  - apply emit1_In in H; [|bb_ok_tac]. destruct H as [to [Hto ->]]. split_bits.
    unfold DELTA_N. replace (to - 8 - 8) with (to - 8 - 8) by reflexivity.
    eapply from_nonking_piece; [|eassumption]. discriminate.
  - apply emit_In in H; [|bb_ok_tac]. destruct H as [to [Hto Hm]]. split_bits.
    destruct (square_rank to =? RANK_1).
    + eapply from_nonking_promotions; eassumption.
    + destruct Hm as [<-|[]]. unfold DELTA_S.
      replace (to - -8) with (to + 8) by lia.
      eapply from_nonking_piece; [|eassumption]. discriminate.
  - apply emit1_In in H; [|bb_ok_tac]. destruct H as [to [Hto ->]]. split_bits.
    unfold DELTA_S. replace (to - -8 - -8) with (to + 8 + 8) by lia.
    eapply from_nonking_piece; [|eassumption]. discriminate.
Qed.

Lemma evasions_block_from pos us ksq checksq pinned m :
  In m (evasions_block pos us ksq checksq pinned) -> from_nonking pos us m.
Proof.
  unfold evasions_block. destruct (negb _); [|intros []].
  rewrite !in_app_iff. intros [H|[H|[H|[H|H]]]].
  - eapply block_pawn_from; eassumption.
  - eapply (block_piece_from pos us KNIGHT); [discriminate| |exact H]. intros; bb_ok_tac.
  - eapply (block_piece_from pos us BISHOP); [discriminate| |exact H]. intros; bb_ok_tac.
  - eapply (block_piece_from pos us ROOK); [discriminate| |exact H]. intros; bb_ok_tac.
  - eapply (block_piece_from pos us QUEEN); [discriminate| |exact H]. intros; bb_ok_tac.
Qed.

Lemma evasions_ep_kind pos us ksq checksq pinned m :
  In m (evasions_ep pos us ksq checksq pinned) ->
  move_kind m = MK_EP /\ move_to m = ep_square pos.
Proof.
  unfold evasions_ep. destruct (_ && _); [|intros []].
  intros H. apply emit_In in H; [|bb_ok_tac]. destruct H as [from [_ Hm]].
  destruct (ep_evasion_ok pos us ksq checksq from); [|destruct Hm].
  destruct Hm as [<-|[]]. split; reflexivity.
Qed.

Lemma evasions_king_In pos us ksq m :
  In m (evasions_king pos us ksq) <->
  exists to, m = make_move ksq to
             /\ Z.testbit (king_attacks ksq & ~~ pieces_of_color pos us) to = true
             /\ king_escape_ok pos us (clear_bit (occupied_squares pos) ksq) to = true.
Proof.
  unfold evasions_king. rewrite emit_In by bb_ok_tac. split.
  - intros [to [Hto Hm]]. exists to.
    destruct (king_escape_ok pos us (clear_bit (occupied_squares pos) ksq) to); [|destruct Hm].
    destruct Hm as [<-|[]]. repeat split; assumption.
  - intros [to [-> [Hto Hok]]]. exists to. split; [assumption|].
    rewrite Hok. left. reflexivity.
Qed.

(** *** The en passant evasion *)

Lemma all_promotions_kind from to m :
  In m (all_promotions from to) -> normal_or_promotion m.
Proof.
  simpl. intros [<-|[<-|[<-|[<-|[]]]]]; exact I.
Qed.

Lemma evasions_king_kind pos us ksq m :
  In m (evasions_king pos us ksq) -> normal_or_promotion m.
Proof.
  intros H. apply evasions_king_In in H. destruct H as [to [-> _]]. exact I.
Qed.

Lemma capture_checker_kind pos us checksq pinned m :
  In m (evasions_capture_checker pos us checksq pinned) -> normal_or_promotion m.
Proof.
  unfold evasions_capture_checker. rewrite !in_app_iff.
  intros [H|[H|[H|H]]].
  - apply emit_In in H; [|bb_ok_tac]. destruct H as [s [_ Hm]].
    destruct (relative_rank us checksq =? RANK_8).
    + eapply all_promotions_kind; eassumption.
    + destruct Hm as [<-|[]]. exact I.
  - apply emit1_In in H; [|bb_ok_tac]. destruct H as [s [_ ->]]. exact I.
  - apply emit1_In in H; [|bb_ok_tac]. destruct H as [s [_ ->]]. exact I.
  - apply emit1_In in H; [|bb_ok_tac]. destruct H as [s [_ ->]]. exact I.
Qed.

Lemma block_piece_kind b1 attacks blockSquares m :
  In m (evasions_block_piece b1 attacks blockSquares) -> normal_or_promotion m.
Proof.
  unfold evasions_block_piece, emit, emit1, emit. rewrite in_flat_map.
  intros [from [_ H]]. apply in_flat_map in H. destruct H as [to [_ [<-|[]]]]. exact I.
Qed.

Lemma block_pawn_kind pos us pinned blockSquares m :
  In m (evasions_block_pawn pos us pinned blockSquares) -> normal_or_promotion m.
Proof.
  unfold evasions_block_pawn, emit1, emit.
  destruct us; rewrite in_app_iff, !in_flat_map; intros [[to [_ H]]|[to [_ H]]].
  - destruct (square_rank to =? RANK_8);
      [eapply all_promotions_kind; eassumption | destruct H as [<-|[]]; exact I].
  - destruct H as [<-|[]]. exact I.
  - destruct (square_rank to =? RANK_1);
      [eapply all_promotions_kind; eassumption | destruct H as [<-|[]]; exact I].
  - destruct H as [<-|[]]. exact I.
Qed.

Lemma evasions_block_kind pos us ksq checksq pinned m :
  In m (evasions_block pos us ksq checksq pinned) -> normal_or_promotion m.
Proof.
  unfold evasions_block. destruct (negb _); [|intros []].
  rewrite !in_app_iff. intros [H|[H|[H|[H|H]]]];
    first [eapply block_pawn_kind; eassumption | eapply block_piece_kind; eassumption].
Qed.

Lemma evasions_ep_In pos us ksq checksq pinned m :
  In m (evasions_ep pos us ksq checksq pinned) <->
  ep_square pos <> SQ_NONE
  /\ checkers pos & pawns pos (opposite_color us) <> 0
  /\ exists from,
       m = make_ep_move from (ep_square pos)
       /\ Z.testbit (pawn_attacks (opposite_color us) (ep_square pos) & pawns pos us
                     & ~~ pinned) from = true
       /\ ep_evasion_ok pos us ksq checksq from = true.
Proof.
  unfold evasions_ep.
  destruct (Z.eqb_spec (ep_square pos) SQ_NONE) as [Hep|Hep]; cbn [negb andb].
  - split; [intros []|]. intros [H _]. contradiction.
  - destruct (Z.eqb_spec (checkers pos & pawns pos (opposite_color us)) 0) as [Hc|Hc];
      cbn [negb].
    + split; [intros []|]. intros [_ [H _]]. contradiction.
    + rewrite emit_In by bb_ok_tac. split.
      * intros [from [Hfrom Hm]]. split; [assumption|]. split; [assumption|].
        exists from. destruct (ep_evasion_ok pos us ksq checksq from); [|destruct Hm].
        destruct Hm as [<-|[]]. repeat split; assumption.
      * intros [_ [_ [from [-> [Hfrom Hok]]]]]. exists from. split; [assumption|].
        rewrite Hok. left. reflexivity.
Qed.

(** ** Direct pawn checks *)

Lemma checks_pawn_direct_single_target pos us ksq dc empty m :
  In m (checks_pawn_direct_single pos us ksq dc empty) ->
  Z.testbit empty (move_to m) = true
  /\ Z.testbit (pawn_attacks (opposite_color us) ksq) (move_to m) = true.
Proof.
  unfold checks_pawn_direct_single,
    checks_white_pawn_direct_single, checks_black_pawn_direct_single.
  destruct us; cbv zeta; intros H;
    (apply emit1_In in H; [|bb_ok_tac]); destruct H as [to [Hto ->]];
    split_bits; simpl; split; assumption.
Qed.

Lemma checks_white_pawn_direct_double_target pos ksq dc empty m :
  In m (checks_white_pawn_direct_double pos ksq dc empty) ->
  Z.testbit empty (move_to m) = true
  /\ Z.testbit (pawn_attacks BLACK ksq) (move_to m) = true.
Proof.
  unfold checks_white_pawn_direct_double. cbv zeta. intros H.
  apply emit1_In in H; [|bb_ok_tac]. destruct H as [to [Hto ->]].
  split_bits. simpl. split; assumption.
Qed.

(** What the black double-push loop tests is the attack set of a black
    pawn standing on the king's square. *)
Lemma checks_black_pawn_direct_double_target pos ksq dc empty m :
  In m (checks_black_pawn_direct_double pos ksq dc empty) ->
  Z.testbit empty (move_to m) = true
  /\ Z.testbit (pawn_attacks BLACK ksq) (move_to m) = true.
Proof.
  unfold checks_black_pawn_direct_double. cbv zeta. intros H.
  apply emit1_In in H; [|bb_ok_tac]. destruct H as [to [Hto ->]].
  split_bits. simpl. split; assumption.
Qed.

(** What the mask of the black double-push loop lets through.  Black to
    move, pawn d7, white king e6 (attacked by that pawn): the loop writes
    d7-d5, and d5 is not a square from which a black pawn attacks e6
    (those are d7 and f7). *)
Remark generate_checks_black_double_push_off_target :
  let pos := pos_black_double_push in
  let ksq := king_square pos WHITE in
  let m := make_move 51 35 in
  side_to_move pos = BLACK
  /\ is_check pos = false
  /\ In m (checks_pawn_direct_double pos BLACK ksq
             (discovered_check_candidates pos BLACK) (empty_squares pos))
  /\ In m (generate_checks pos 0)
  /\ Z.testbit (pawn_attacks WHITE ksq) (move_to m) = false.
Proof.
  cbv zeta.
  split; [vm_compute; reflexivity|].
  split; [vm_compute; reflexivity|].
  split; [vm_compute; left; reflexivity|].
  split; [vm_compute; left; reflexivity|].
  vm_compute; reflexivity.
Qed.

(** The same mask where the white king is not attacked: with the white
    king on e4 the push d7-d5 gives check, and the generator does not
    write it. *)
Lemma generate_checks_black_double_push_missed :
  let pos := pos_black_double_push_check in
  is_check pos = false
  /\ In (make_move 51 35) (generate_noncaptures pos)
  /\ Z.testbit (pawn_attacks WHITE (king_square pos WHITE)) 35 = true
  /\ generate_checks pos 0 = [].
Proof.
  cbv zeta.
  split; [vm_compute; reflexivity|].
  split; [vm_compute; right; left; reflexivity|].
  split; vm_compute; reflexivity.
Qed.

(** ** The single-move probe *)

Lemma generate_move_if_legal_cases pos m pinned :
  generate_move_if_legal pos m pinned = m \/ generate_move_if_legal pos m pinned = MOVE_NONE.
Proof.
  unfold generate_move_if_legal. cbv zeta.
  repeat match goal with
         | |- context [if ?b then _ else _] => destruct b
         end; auto.
Qed.

(** C6 (the code departs from the claim).  White pawn e2, not in check:
    the move e2-e3 carrying a queen promotion is returned, although e3 is
    not on the last rank. *)
Theorem generate_move_if_legal_keeps_promotion_flag :
  let pos := pos_pawns in
  let m := make_promotion_move 12 20 QUEEN in
  is_check pos = false
  /\ piece_on pos (move_from m) = pawn_of_color (side_to_move pos)
  /\ move_is_promotion m = true
  /\ relative_rank (side_to_move pos) (move_to m) <> RANK_8
  /\ generate_move_if_legal pos m (pinned_pieces pos (side_to_move pos)) = m
  /\ m <> MOVE_NONE.
Proof.
  cbv zeta.
  split; [vm_compute; reflexivity|].
  split; [vm_compute; reflexivity|].
  split; [vm_compute; reflexivity|].
  split; [vm_compute; discriminate|].
  split; [vm_compute; reflexivity|].
  vm_compute; discriminate.
Qed.

(** C4 (the code departs from the claim).  The probe returns a move, or
    [MOVE_NONE]; but it returns moves that are not in the legal list: a
    pawn stepping backwards (e4-e3), and a pawn capturing across the
    board edge (h2 x a4, the delta being that of a capture). *)
Theorem generate_move_if_legal_not_in_legal_list :
  let pos := pos_pawns in
  let pinned := pinned_pieces pos (side_to_move pos) in
  is_check pos = false
  /\ (forall m, generate_move_if_legal pos m pinned = m
                \/ generate_move_if_legal pos m pinned = MOVE_NONE)
  /\ generate_move_if_legal pos (make_move 28 20) pinned = make_move 28 20
  /\ ~ In (make_move 28 20) (generate_legal_moves pos)
  /\ generate_move_if_legal pos (make_move 15 24) pinned = make_move 15 24
  /\ ~ In (make_move 15 24) (generate_legal_moves pos).
Proof.
  cbv zeta. split; [vm_compute; reflexivity|].
  split; [intros m; apply generate_move_if_legal_cases|].
  split; [vm_compute; reflexivity|].
  split; [vm_compute; intuition discriminate|].
  split; [vm_compute; reflexivity|].
  vm_compute; intuition discriminate.
Qed.

(** ** Castling *)

Lemma flag_loop_existsb cond l illegal :
  flag_loop cond l illegal = illegal || existsb cond l.
Proof.
  unfold flag_loop. revert illegal. induction l as [|s l IH]; intros illegal; simpl.
  - rewrite orb_false_r. reflexivity.
  - rewrite IH. destruct (cond s), illegal; reflexivity.
Qed.

Lemma sq_range_In lo hi s : In s (sq_range lo hi) <-> lo <= s <= hi.
Proof.
  unfold sq_range. rewrite in_map_iff. split.
  - intros [i [<- Hi]]. apply in_seq in Hi. lia.
  - intros Hs. exists (Z.to_nat (s - lo)). split; [lia|]. apply in_seq. lia.
Qed.

Lemma flag_loop_false cond lo hi :
  flag_loop cond (sq_range lo hi) false = false ->
  forall s, lo <= s <= hi -> cond s = false.
Proof.
  rewrite flag_loop_existsb. simpl. intros H s Hs.
  destruct (cond s) eqn:E; [|reflexivity].
  assert (Hex : existsb cond (sq_range lo hi) = true).
  { apply existsb_exists. exists s. split; [apply sq_range_In|]; assumption. }
  congruence.
Qed.

Lemma empty_no_rook_or_queen pos c s :
  square_is_empty pos s = true -> no_rook_or_queen pos c s.
Proof.
  unfold square_is_empty, no_rook_or_queen. rewrite Piece_eqb_eq. intros E.
  rewrite E. split; discriminate.
Qed.

Lemma king_no_rook_or_queen pos c c' s :
  piece_on pos s = king_of_color c' -> no_rook_or_queen pos c s.
Proof. unfold no_rook_or_queen. intros E. rewrite E. split; discriminate. Qed.

Lemma eqb_false_no_rook_or_queen pos c s :
  Piece_eqb (piece_on pos s) (rook_of_color c)
  || Piece_eqb (piece_on pos s) (queen_of_color c) = false ->
  no_rook_or_queen pos c s.
Proof.
  intros H. apply orb_false_iff in H. destruct H as [H1 H2].
  split; intros E.
  - rewrite E, Piece_eqb_refl in H1. discriminate.
  - rewrite E, Piece_eqb_refl in H2. discriminate.
Qed.

(** C7. With the right to castle queenside and the queenside rook on the
    b-file, the queenside castle is written by [generate_castle_moves],
    and returned by [generate_move_if_legal], only if the square one file
    left of the rook's destination (the c-file square) holds no enemy rook
    or queen.  That square lies on the king's path and must be empty or
    hold the king; the test the code adds for a b-file rook is on the
    a-file square, one file left of the rook itself, which holds no enemy
    rook or queen either. *)
Theorem queenside_castle_b_file_rook (pos : Position) (pinned : Bitboard) (m : Move) :
  let us := side_to_move pos in
  let them := opposite_color us in
  let ksq := king_square pos us in
  let rsq := initial_qr_square pos us in
  let left_of_rook_destination := relative_square us SQ_D1 + DELTA_W in
  can_castle_queenside pos us = true ->
  square_file rsq = FILE_B ->
  piece_on pos ksq = king_of_color us ->
  initial_kr_square pos us <> rsq ->
  (In (make_castle_move ksq rsq) (generate_castle_moves pos us) ->
   no_rook_or_queen pos them left_of_rook_destination
   /\ no_rook_or_queen pos them (relative_square us SQ_A1))
  /\ (move_is_long_castle m = true ->
      move_to m = rsq ->
      generate_move_if_legal pos m pinned = m ->
      no_rook_or_queen pos them left_of_rook_destination
      /\ no_rook_or_queen pos them (rsq + DELTA_W)).
Proof.
  intros us them ksq rsq c1 Hright Hfile Hking Hrooks.
  assert (Hc1 : c1 = relative_square us SQ_C1) by (unfold c1; destruct us; reflexivity).
  assert (Hc1file : square_file c1 = 2) by (unfold c1; destruct us; reflexivity).
  assert (Hc1rsq : c1 <> rsq).
  { intros E. rewrite E in Hc1file. unfold FILE_B in Hfile. lia. }
  split.
  - (* the generator *)
    unfold generate_castle_moves. fold them. fold ksq. fold rsq.
    unfold can_castle. rewrite Hright, orb_true_r. rewrite in_app_iff.
    intros [H|H].
    + exfalso. destruct (can_castle_kingside pos us); [|destruct H].
      destruct (negb _); [|destruct H]. destruct H as [H|[]].
      unfold make_castle_move in H. injection H as H _. contradiction.
    + cbv zeta in H. rewrite Hfile, Z.eqb_refl in H. cbn [andb] in H.
      destruct (Piece_eqb (piece_on pos (relative_square us SQ_A1)) (rook_of_color them)
                || Piece_eqb (piece_on pos (relative_square us SQ_A1)) (queen_of_color them))
        eqn:Ecorner; [destruct H|].
      destruct (castle_path_illegal pos them ksq rsq (relative_square us SQ_C1)
                                    (relative_square us SQ_D1)) eqn:Epath; [destruct H|].
      clear H. split; [|apply eqb_false_no_rook_or_queen; assumption].
      unfold castle_path_illegal in Epath. cbv zeta in Epath.
      rewrite (flag_loop_existsb _ _ (flag_loop _ _ _)) in Epath.
      apply orb_false_iff in Epath. destruct Epath as [Epath _].
      pose proof (flag_loop_false _ _ _ Epath c1 ltac:(rewrite Hc1; lia)) as Hc.
      apply orb_false_iff in Hc. destruct Hc as [Hc _].
      destruct (Z.eqb_spec c1 ksq) as [->|Hne].
      * eapply king_no_rook_or_queen; eassumption.
      * destruct (Z.eqb_spec c1 rsq) as [|_]; [contradiction|].
        cbn [negb andb] in Hc. unfold square_is_occupied in Hc.
        apply negb_false_iff in Hc. apply empty_no_rook_or_queen; assumption.
  - (* the probe *)
    intros Hlong Hto. unfold generate_move_if_legal. fold us. fold them.
    assert (Hkind : move_kind m = MK_LONG_CASTLE).
    { unfold move_is_long_castle in Hlong. destruct (move_kind m); congruence. }
    assert (Hnone : m <> MOVE_NONE).
    { intros E. rewrite E in Hkind. discriminate. }
    unfold move_is_ep, move_is_short_castle, move_is_long_castle. rewrite Hkind.
    destruct (negb (option_Color_eqb _ us)) eqn:Ecol; [congruence|].
    cbv zeta.
    destruct (negb (option_PieceType_eqb _ KING) || negb (can_castle_queenside pos us))
      eqn:Eking; [congruence|].
    rewrite Hto. rewrite Hfile, Z.eqb_refl. cbn [andb].
    destruct (Piece_eqb (piece_on pos (rsq + DELTA_W)) (rook_of_color them)
              || Piece_eqb (piece_on pos (rsq + DELTA_W)) (queen_of_color them))
      eqn:Ecorner; [cbn [negb]; congruence|].
    match goal with
    | |- (if negb ?ill then _ else _) = _ -> _ => destruct ill eqn:Epath
    end; [cbn [negb]; congruence|].
    intros _. split; [|apply eqb_false_no_rook_or_queen; assumption].
    rewrite (flag_loop_existsb _ _ (flag_loop _ _ _)) in Epath.
    apply orb_false_iff in Epath. destruct Epath as [Epath _].
    pose proof (flag_loop_false _ _ _ Epath c1 ltac:(rewrite Hc1; lia)) as Hc.
    apply orb_false_iff in Hc. destruct Hc as [Hc _].
    (* the from-square holds the king of the side to move *)
    apply negb_false_iff in Ecol. apply orb_false_iff in Eking.
    destruct Eking as [Eking _]. apply negb_false_iff in Eking.
    assert (Hfrom : piece_on pos (move_from m) = king_of_color us).
    { destruct (piece_on pos (move_from m)) as [|c pt]; [discriminate|].
      simpl in Ecol, Eking. apply Color_eqb_eq in Ecol. apply PieceType_eqb_eq in Eking.
      subst. reflexivity. }
    destruct (Z.eqb_spec c1 (move_from m)) as [->|Hne].
    + eapply king_no_rook_or_queen; eassumption.
    + destruct (Z.eqb_spec c1 rsq) as [|_]; [contradiction|].
      cbn [negb andb] in Hc. apply negb_false_iff in Hc.
      apply empty_no_rook_or_queen; assumption.
Qed.

Lemma queenside_castle_b_file_rook_witness :
  In (make_castle_move 4 1) (generate_castle_moves pos_castle_b WHITE)
  /\ generate_move_if_legal pos_castle_b (make_castle_move 4 1) 0 = make_castle_move 4 1
  /\ no_rook_or_queen pos_castle_b BLACK 2
  /\ no_rook_or_queen pos_castle_b BLACK 0.
Proof.
  assert (Hg : In (make_castle_move 4 1) (generate_castle_moves pos_castle_b WHITE))
    by (vm_compute; left; reflexivity).
  assert (Hp : generate_move_if_legal pos_castle_b (make_castle_move 4 1) 0
               = make_castle_move 4 1) by (vm_compute; reflexivity).
  split; [exact Hg|]. split; [exact Hp|].
  refine (proj2 (queenside_castle_b_file_rook pos_castle_b 0 (make_castle_move 4 1)
                   _ _ _ _) _ _ Hp).
  - vm_compute; reflexivity.
  - vm_compute; reflexivity.
  - vm_compute; reflexivity.
  - vm_compute; discriminate.
  - vm_compute; reflexivity.
  - vm_compute; reflexivity.
Defined.

(** ** Facts of the board, checked on all 64 squares *)

Lemma forall_squares (P : Square -> bool) :
  forallb P all_squares = true -> forall s, 0 <= s < 64 -> P s = true.
Proof.
  intros H s Hs. rewrite forallb_forall in H. apply H. apply all_squares_In. assumption.
Qed.

Lemma forall_squares2 (P : Square -> Square -> bool) :
  forallb (fun s => forallb (P s) all_squares) all_squares = true ->
  forall s t, 0 <= s < 64 -> 0 <= t < 64 -> P s t = true.
Proof.
  intros H s t Hs Ht.
  apply (forall_squares (P s)); [|assumption].
  apply (forall_squares (fun s => forallb (P s) all_squares)); assumption.
Qed.

Lemma FileABB_bit s : 0 <= s < 64 -> Z.testbit FileABB s = (square_file s =? 0).
Proof.
  intros Hs. apply eqb_prop.
  apply (forall_squares (fun s => eqb (Z.testbit FileABB s) (square_file s =? 0)));
    [vm_compute; reflexivity|assumption].
Qed.

Lemma FileHBB_bit s : 0 <= s < 64 -> Z.testbit FileHBB s = (square_file s =? 7).
Proof.
  intros Hs. apply eqb_prop.
  apply (forall_squares (fun s => eqb (Z.testbit FileHBB s) (square_file s =? 7)));
    [vm_compute; reflexivity|assumption].
Qed.

Lemma Rank1BB_bit s : 0 <= s < 64 -> Z.testbit Rank1BB s = (square_rank s =? 0).
Proof.
  intros Hs. apply eqb_prop.
  apply (forall_squares (fun s => eqb (Z.testbit Rank1BB s) (square_rank s =? 0)));
    [vm_compute; reflexivity|assumption].
Qed.

Lemma Rank3BB_bit s : 0 <= s < 64 -> Z.testbit Rank3BB s = (square_rank s =? 2).
Proof.
  intros Hs. apply eqb_prop.
  apply (forall_squares (fun s => eqb (Z.testbit Rank3BB s) (square_rank s =? 2)));
    [vm_compute; reflexivity|assumption].
Qed.

Lemma Rank6BB_bit s : 0 <= s < 64 -> Z.testbit Rank6BB s = (square_rank s =? 5).
Proof.
  intros Hs. apply eqb_prop.
  apply (forall_squares (fun s => eqb (Z.testbit Rank6BB s) (square_rank s =? 5)));
    [vm_compute; reflexivity|assumption].
Qed.

Lemma Rank8BB_bit s : 0 <= s < 64 -> Z.testbit Rank8BB s = (square_rank s =? 7).
Proof.
  intros Hs. apply eqb_prop.
  apply (forall_squares (fun s => eqb (Z.testbit Rank8BB s) (square_rank s =? 7)));
    [vm_compute; reflexivity|assumption].
Qed.

Lemma on_board_true s : 0 <= s < 64 -> on_board s = true.
Proof.
  intros Hs. unfold on_board. apply andb_true_iff.
  split; [apply Z.leb_le|apply Z.ltb_lt]; lia.
Qed.

Lemma pawn_steps_arith c from to :
  0 <= from < 64 -> 0 <= to < 64 ->
  step_reaches (pawn_steps c) from to = pawn_attack_arith c from to.
Proof.
  intros Hf Ht. apply eqb_prop. revert from to Hf Ht.
  apply (forall_squares2
           (fun from to => eqb (step_reaches (pawn_steps c) from to)
                               (pawn_attack_arith c from to))).
  destruct c; vm_compute; reflexivity.
Qed.

Lemma pawn_attacks_steps c from to :
  Z.testbit (pawn_attacks_bb c from) to = on_board to && step_reaches (pawn_steps c) from to.
Proof.
  unfold pawn_attacks_bb. rewrite bb_of_pred_bit. destruct c; reflexivity.
Qed.

Lemma pawn_attacks_bit c from to :
  0 <= from < 64 -> 0 <= to < 64 ->
  Z.testbit (pawn_attacks_bb c from) to = pawn_attack_arith c from to.
Proof.
  intros Hf Ht. rewrite pawn_attacks_steps, on_board_true by assumption.
  apply pawn_steps_arith; assumption.
Qed.

Lemma pawn_attack_arith_sym c from to :
  0 <= from < 64 -> 0 <= to < 64 ->
  pawn_attack_arith c from to = pawn_attack_arith (opposite_color c) to from.
Proof.
  intros Hf Ht. apply eqb_prop. revert from to Hf Ht.
  apply (forall_squares2
           (fun from to => eqb (pawn_attack_arith c from to)
                               (pawn_attack_arith (opposite_color c) to from))).
  destruct c; vm_compute; reflexivity.
Qed.

Lemma pawn_attacks_sym c from to :
  0 <= from < 64 -> 0 <= to < 64 ->
  Z.testbit (pawn_attacks_bb c from) to
  = Z.testbit (pawn_attacks_bb (opposite_color c) to) from.
Proof.
  intros Hf Ht. rewrite !pawn_attacks_bit by assumption.
  apply pawn_attack_arith_sym; assumption.
Qed.

Lemma empty_bit pos s :
  Z.testbit (empty_squares pos) s = true <-> 0 <= s < 64 /\ square_is_empty pos s = true.
Proof.
  split.
  - intros H. pose proof (bb_ok_bit_range _ _ (empty_squares_ok pos) H) as Hs.
    split; [assumption|]. unfold empty_squares in H. rewrite bb_not_bit in H by assumption.
    apply negb_true_iff in H. unfold occupied_squares in H.
    rewrite bb_of_pred_bit in H. unfold on_board in H.
    replace (0 <=? s) with true in H by (symmetry; apply Z.leb_le; lia).
    replace (s <? 64) with true in H by (symmetry; apply Z.ltb_lt; lia).
    simpl in H. unfold square_is_occupied in H. apply negb_false_iff in H. assumption.
  - intros [Hs He]. unfold empty_squares. rewrite bb_not_bit by assumption.
    apply negb_true_iff. unfold occupied_squares. rewrite bb_of_pred_bit.
    unfold square_is_occupied. rewrite He. apply andb_false_r.
Qed.

(** ** Bits as propositions *)

Lemma bit_and_iff a b s :
  Z.testbit (a & b) s = true <-> Z.testbit a s = true /\ Z.testbit b s = true.
Proof. rewrite bb_and_bit. apply andb_true_iff. Qed.

Lemma bit_or_iff a b s :
  Z.testbit (a :| b) s = true <-> Z.testbit a s = true \/ Z.testbit b s = true.
Proof. rewrite bb_or_bit. apply orb_true_iff. Qed.

Lemma bit_shl_iff a n s :
  0 <= n -> (Z.testbit (a << n) s = true <-> Z.testbit a (s - n) = true /\ s < 64).
Proof.
  intros Hn. rewrite bb_shl_bit by assumption. rewrite andb_true_iff, Z.ltb_lt. reflexivity.
Qed.

Lemma bit_shr_iff a n s :
  Z.testbit (a >> n) s = true <-> Z.testbit a (s + n) = true /\ 0 <= s.
Proof.
  split.
  - intros H. pose proof (testbit_true_nonneg _ _ H) as Hs.
    rewrite bb_shr_bit in H by assumption. split; assumption.
  - intros [H Hs]. rewrite bb_shr_bit by assumption. assumption.
Qed.

Lemma bit_not_iff b s :
  bb_ok b -> (Z.testbit (~~ b) s = true <-> 0 <= s < 64 /\ Z.testbit b s = false).
Proof.
  intros Hb. split.
  - intros H. pose proof (bb_ok_bit_range _ _ (bb_not_ok _ Hb) H) as Hs.
    rewrite bb_not_bit in H by assumption. apply negb_true_iff in H. split; assumption.
  - intros [Hs H]. rewrite bb_not_bit by assumption. rewrite H. reflexivity.
Qed.

Lemma bit_not_any_iff b s :
  0 <= s < 64 -> (Z.testbit (~~ b) s = true <-> Z.testbit b s = false).
Proof. intros Hs. rewrite bb_not_bit by assumption. apply negb_true_iff. Qed.

Lemma mask_ok_FileABB : bb_ok FileABB. Proof. unfold bb_ok, FileABB. lia. Qed.
Lemma mask_ok_FileHBB : bb_ok FileHBB. Proof. unfold bb_ok, FileHBB. lia. Qed.
Lemma mask_ok_Rank1BB : bb_ok Rank1BB. Proof. unfold bb_ok, Rank1BB. lia. Qed.
Lemma mask_ok_Rank3BB : bb_ok Rank3BB. Proof. unfold bb_ok, Rank3BB. lia. Qed.
Lemma mask_ok_Rank6BB : bb_ok Rank6BB. Proof. unfold bb_ok, Rank6BB. lia. Qed.
Lemma mask_ok_Rank8BB : bb_ok Rank8BB. Proof. unfold bb_ok, Rank8BB. lia. Qed.

Lemma mask_iff (mask : Bitboard) (f : Square -> bool) s :
  bb_ok mask ->
  (forall s, 0 <= s < 64 -> Z.testbit mask s = f s) ->
  (Z.testbit mask s = true <-> 0 <= s < 64 /\ f s = true).
Proof.
  intros Hok Hbit. split.
  - intros H. pose proof (bb_ok_bit_range _ _ Hok H) as Hs.
    rewrite Hbit in H by assumption. split; assumption.
  - intros [Hs H]. rewrite Hbit by assumption. assumption.
Qed.

Lemma not_mask_iff (mask : Bitboard) (f : Square -> bool) s :
  bb_ok mask ->
  (forall s, 0 <= s < 64 -> Z.testbit mask s = f s) ->
  (Z.testbit (~~ mask) s = true <-> 0 <= s < 64 /\ f s = false).
Proof.
  intros Hok Hbit. rewrite bit_not_iff by assumption. split.
  - intros [Hs H]. rewrite Hbit in H by assumption. split; assumption.
  - intros [Hs H]. rewrite Hbit by assumption. split; assumption.
Qed.

Lemma bit_Rank8 s : Z.testbit Rank8BB s = true <-> 0 <= s < 64 /\ square_rank s = 7.
Proof.
  rewrite (mask_iff _ _ s mask_ok_Rank8BB Rank8BB_bit), Z.eqb_eq. reflexivity.
Qed.

Lemma bit_Rank1 s : Z.testbit Rank1BB s = true <-> 0 <= s < 64 /\ square_rank s = 0.
Proof.
  rewrite (mask_iff _ _ s mask_ok_Rank1BB Rank1BB_bit), Z.eqb_eq. reflexivity.
Qed.

Lemma bit_Rank3 s : Z.testbit Rank3BB s = true <-> 0 <= s < 64 /\ square_rank s = 2.
Proof.
  rewrite (mask_iff _ _ s mask_ok_Rank3BB Rank3BB_bit), Z.eqb_eq. reflexivity.
Qed.

Lemma bit_Rank6 s : Z.testbit Rank6BB s = true <-> 0 <= s < 64 /\ square_rank s = 5.
Proof.
  rewrite (mask_iff _ _ s mask_ok_Rank6BB Rank6BB_bit), Z.eqb_eq. reflexivity.
Qed.

Lemma bit_not_Rank8 s : Z.testbit (~~ Rank8BB) s = true <-> 0 <= s < 64 /\ square_rank s <> 7.
Proof.
  rewrite (not_mask_iff _ _ s mask_ok_Rank8BB Rank8BB_bit), Z.eqb_neq. reflexivity.
Qed.

Lemma bit_not_Rank1 s : Z.testbit (~~ Rank1BB) s = true <-> 0 <= s < 64 /\ square_rank s <> 0.
Proof.
  rewrite (not_mask_iff _ _ s mask_ok_Rank1BB Rank1BB_bit), Z.eqb_neq. reflexivity.
Qed.

Lemma bit_not_FileA s : Z.testbit (~~ FileABB) s = true <-> 0 <= s < 64 /\ square_file s <> 0.
Proof.
  rewrite (not_mask_iff _ _ s mask_ok_FileABB FileABB_bit), Z.eqb_neq. reflexivity.
Qed.

Lemma bit_not_FileH s : Z.testbit (~~ FileHBB) s = true <-> 0 <= s < 64 /\ square_file s <> 7.
Proof.
  rewrite (not_mask_iff _ _ s mask_ok_FileHBB FileHBB_bit), Z.eqb_neq. reflexivity.
Qed.

Lemma bit_pawns pos c s :
  Z.testbit (pawns pos c) s = true <-> 0 <= s < 64 /\ piece_on pos s = Pc c PAWN.
Proof. apply piece_bit. Qed.

Lemma bit_pawn_attacks c from to :
  0 <= from < 64 ->
  (Z.testbit (pawn_attacks_bb c from) to = true <->
   0 <= to < 64 /\ pawn_attack_arith c from to = true).
Proof.
  intros Hf. split.
  - intros H. pose proof (bb_ok_bit_range _ _ (pawn_attacks_bb_ok c from) H) as Ht.
    rewrite pawn_attacks_bit in H by assumption. split; assumption.
  - intros [Ht H]. rewrite pawn_attacks_bit by assumption. assumption.
Qed.

(** ** Reading [is_ok] *)

Lemma nodupb_NoDup l : nodupb l = true -> NoDup l.
Proof.
  induction l as [|x l IH]; simpl; intros H; [constructor|].
  apply andb_true_iff in H. destruct H as [Hx Hl]. constructor; [|apply IH; assumption].
  intros Hin. apply negb_true_iff in Hx.
  assert (He : existsb (Z.eqb x) l = true).
  { apply existsb_exists. exists x. split; [assumption|apply Z.eqb_refl]. }
  congruence.
Qed.

Lemma piece_list_ok_spec pos c pt :
  piece_list_ok pos c pt = true ->
  NoDup (piece_list pos c pt)
  /\ forall s, In s (piece_list pos c pt) <-> 0 <= s < 64 /\ piece_on pos s = Pc c pt.
Proof.
  unfold piece_list_ok. cbv zeta. rewrite !andb_true_iff. intros [[Hnd Hin] Hall].
  split; [apply nodupb_NoDup; assumption|]. intros s. split.
  - intros Hs. rewrite forallb_forall in Hin. specialize (Hin s Hs).
    apply andb_true_iff in Hin. destruct Hin as [Hb Hp].
    unfold on_board in Hb. apply andb_true_iff in Hb.
    rewrite Z.leb_le, Z.ltb_lt in Hb. apply Piece_eqb_eq in Hp. split; [lia|assumption].
  - intros [Hs Hp]. pose proof (forall_squares _ Hall s Hs) as H. cbv beta in H.
    rewrite Hp, Piece_eqb_refl in H. simpl in H.
    apply existsb_exists in H. destruct H as [x [Hx Hsx]].
    apply Z.eqb_eq in Hsx. subst x. assumption.
Qed.

Lemma is_ok_side pos c : is_ok pos = true -> side_ok pos c = true.
Proof.
  unfold is_ok. rewrite !andb_true_iff. intros [[Hw Hb] _]. destruct c; assumption.
Qed.

Lemma is_ok_piece_list pos c pt :
  is_ok pos = true ->
  NoDup (piece_list pos c pt)
  /\ forall s, In s (piece_list pos c pt) <-> 0 <= s < 64 /\ piece_on pos s = Pc c pt.
Proof.
  intros H. apply (is_ok_side pos c) in H. unfold side_ok in H.
  rewrite !andb_true_iff in H. destruct H as [[[[[Hl _] _] _] _] _].
  apply piece_list_ok_spec. rewrite forallb_forall in Hl. apply Hl.
  destruct pt; simpl; tauto.
Qed.

Lemma is_ok_king pos c :
  is_ok pos = true ->
  0 <= king_square pos c < 64
  /\ piece_on pos (king_square pos c) = Pc c KING
  /\ forall s, 0 <= s < 64 -> piece_on pos s = Pc c KING -> s = king_square pos c.
Proof.
  intros Hok. destruct (is_ok_piece_list pos c KING Hok) as [_ Hin].
  apply (is_ok_side pos c) in Hok. unfold side_ok in Hok.
  rewrite !andb_true_iff in Hok. destruct Hok as [[[[[_ Hb] Hk] Hlen] _] _].
  apply Piece_eqb_eq in Hk. apply Nat.eqb_eq in Hlen.
  unfold on_board in Hb. apply andb_true_iff in Hb. rewrite Z.leb_le, Z.ltb_lt in Hb.
  split; [lia|]. split; [assumption|]. intros s Hs Hp.
  assert (H1 : In s (piece_list pos c KING)) by (apply Hin; split; assumption).
  assert (H2 : In (king_square pos c) (piece_list pos c KING))
    by (apply Hin; split; [lia|assumption]).
  destruct (piece_list pos c KING) as [|x [|y l]]; simpl in Hlen; try discriminate.
  destruct H1 as [<-|[]]. destruct H2 as [<-|[]]. reflexivity.
Qed.

Lemma is_ok_castle pos c :
  is_ok pos = true ->
  (can_castle_kingside pos c = true -> king_square pos c < initial_kr_square pos c)
  /\ (can_castle_queenside pos c = true -> initial_qr_square pos c < king_square pos c).
Proof.
  intros Hok. apply (is_ok_side pos c) in Hok. unfold side_ok in Hok.
  rewrite !andb_true_iff in Hok. destruct Hok as [[_ Hk] Hq].
  split; intros E; rewrite E in *; simpl in *.
  - apply andb_true_iff in Hk. apply Z.ltb_lt. apply Hk.
  - apply andb_true_iff in Hq. apply Z.ltb_lt. apply Hq.
Qed.

Lemma is_ok_castle_squares pos c :
  is_ok pos = true ->
  (can_castle_kingside pos c = true -> 0 <= initial_kr_square pos c < 64)
  /\ (can_castle_queenside pos c = true -> 0 <= initial_qr_square pos c < 64).
Proof.
  intros Hok. apply (is_ok_side pos c) in Hok. unfold side_ok in Hok.
  rewrite !andb_true_iff in Hok. destruct Hok as [[_ Hk] Hq].
  unfold on_board in *.
  split; intros E; rewrite E in *; simpl in *.
  - rewrite !andb_true_iff, Z.leb_le, !Z.ltb_lt in Hk. lia.
  - rewrite !andb_true_iff, Z.leb_le, !Z.ltb_lt in Hq. lia.
Qed.

Lemma is_ok_ep pos :
  is_ok pos = true -> ep_square pos = SQ_NONE \/ 0 <= ep_square pos < 64.
Proof.
  unfold is_ok. rewrite !andb_true_iff, orb_true_iff. intros [_ [H|H]].
  - left. apply Z.eqb_eq. assumption.
  - right. unfold on_board in H. apply andb_true_iff in H.
    rewrite Z.leb_le, Z.ltb_lt in H. lia.
Qed.

Lemma pawn_attack_arith_white from to :
  pawn_attack_arith WHITE from to = true <->
  (to = from + 9 /\ square_file to <> 0) \/ (to = from + 7 /\ square_file to <> 7).
Proof.
  unfold pawn_attack_arith.
  rewrite orb_true_iff, !andb_true_iff, !negb_true_iff, !Z.eqb_eq, !Z.eqb_neq. reflexivity.
Qed.

Lemma pawn_attack_arith_black from to :
  pawn_attack_arith BLACK from to = true <->
  (to = from - 7 /\ square_file to <> 0) \/ (to = from - 9 /\ square_file to <> 7).
Proof.
  unfold pawn_attack_arith.
  rewrite orb_true_iff, !andb_true_iff, !negb_true_iff, !Z.eqb_eq, !Z.eqb_neq. reflexivity.
Qed.

Ltac bits_in H :=
  repeat first
    [ rewrite bit_and_iff in H
    | rewrite bit_shl_iff in H by lia
    | rewrite bit_shr_iff in H
    | rewrite bit_not_FileA in H
    | rewrite bit_not_FileH in H
    | rewrite bit_not_Rank8 in H
    | rewrite bit_not_Rank1 in H
    | rewrite bit_Rank8 in H
    | rewrite bit_Rank1 in H
    | rewrite bit_Rank3 in H
    | rewrite bit_Rank6 in H
    | rewrite bit_pawns in H
    | rewrite pieces_of_color_bit in H
    | rewrite empty_bit in H ].

Ltac sq_arith :=
  unfold relative_rank, pawn_push, RANK_1, RANK_2, RANK_4, RANK_5,
    RANK_8, DELTA_N, DELTA_S, DELTA_NE, DELTA_NW, DELTA_SE, DELTA_SW, DELTA_NN, DELTA_SS,
    FILE_A, FILE_B, FILE_H in *;
  unfold square_file, square_rank in *;
  Z.div_mod_to_equations; lia.

Ltac unpack H := repeat match type of H with
  | _ /\ _ => let H1 := fresh H in let H2 := fresh H in destruct H as [H1 H2]; unpack H1; unpack H2
  end.

Lemma pawn_capture_ok_white pos from to :
  0 <= from < 64 -> 0 <= to < 64 ->
  (to = from + 9 /\ square_file to <> 0) \/ (to = from + 7 /\ square_file to <> 7) ->
  color_of_piece (piece_on pos to) = Some BLACK ->
  pawn_capture_ok pos WHITE from to.
Proof.
  intros Hf Ht Hd Hc. split; [|exact Hc].
  unfold pawn_attacks. apply bit_pawn_attacks; [assumption|].
  split; [assumption|]. apply pawn_attack_arith_white. assumption.
Qed.

Lemma pawn_capture_ok_black pos from to :
  0 <= from < 64 -> 0 <= to < 64 ->
  (to = from - 7 /\ square_file to <> 0) \/ (to = from - 9 /\ square_file to <> 7) ->
  color_of_piece (piece_on pos to) = Some WHITE ->
  pawn_capture_ok pos BLACK from to.
Proof.
  intros Hf Ht Hd Hc. split; [|exact Hc].
  unfold pawn_attacks. apply bit_pawn_attacks; [assumption|].
  split; [assumption|]. apply pawn_attack_arith_black. assumption.
Qed.

Ltac pl_start Hstm :=
  unfold pseudo_legal, make_promotion_move, make_move, make_ep_move, underpromotions;
  cbn [move_from move_to move_kind]; rewrite Hstm; cbv zeta.

Ltac pawn_block Hstm H to Hto :=
  first [ apply emit1_In in H; [|bb_ok_tac]; destruct H as [to [Hto ->]]
        | apply emit_In in H; [|bb_ok_tac]; destruct H as [to [Hto H]];
          unfold underpromotions in H; cbn [In] in H ];
  bits_in Hto; unpack Hto.

Ltac pl_pawn Hstm :=
  pl_start Hstm;
  unfold DELTA_N, DELTA_S, DELTA_NE, DELTA_NW, DELTA_SE, DELTA_SW;
  repeat match goal with Hp : piece_on _ _ = _ |- _ => rewrite Hp end.
Lemma white_pawn_captures_sound pos m :
  side_to_move pos = WHITE -> is_ok pos = true ->
  In m (generate_white_pawn_captures pos) ->
  pseudo_legal pos m /\ piece_on pos (move_from m) = Pc WHITE PAWN.
Proof.
  intros Hstm Hok H. unfold generate_white_pawn_captures in H. cbv zeta in H.
  rewrite !in_app_iff in H.
  destruct H as [H|[H|[[H|H]|[H|H]]]].
  - pawn_block Hstm H to Hto. pl_pawn Hstm.
    split; [|reflexivity]. split; [lia|]. split; [lia|]. split; [reflexivity|].
    split; [tauto|]. split; [sq_arith|]. right.
    apply pawn_capture_ok_white; try lia; assumption.
  - pawn_block Hstm H to Hto. pl_pawn Hstm.
    split; [|reflexivity]. split; [lia|]. split; [lia|].
    split; [reflexivity|]. split; [sq_arith|]. right. right.
    apply pawn_capture_ok_white; try lia; assumption.
  - pawn_block Hstm H to Hto. pl_pawn Hstm.
    split; [|reflexivity]. split; [lia|]. split; [lia|]. split; [reflexivity|].
    split; [tauto|]. split; [sq_arith|]. right.
    apply pawn_capture_ok_white; try lia; assumption.
  - pawn_block Hstm H to Hto. pl_pawn Hstm.
    split; [|reflexivity]. split; [lia|]. split; [lia|].
    split; [reflexivity|]. split; [sq_arith|]. right. right.
    apply pawn_capture_ok_white; try lia; assumption.
  - pawn_block Hstm H to Hto. pl_pawn Hstm.
    split; [|reflexivity]. split; [lia|]. split; [lia|]. split; [reflexivity|].
    split; [tauto|]. split; [sq_arith|]. left. split; [sq_arith|assumption].
  - destruct (Z.eqb_spec (ep_square pos) SQ_NONE) as [|Hep]; [destruct H|]. cbn [negb] in H.
    destruct (is_ok_ep pos Hok) as [|Hepr]; [contradiction|].
    apply emit1_In in H; [|bb_ok_tac]. destruct H as [from [Hfrom ->]].
    apply bit_and_iff in Hfrom. destruct Hfrom as [Hp Ha]. apply bit_pawns in Hp.
    destruct Hp as [Hfr Hp]. pl_pawn Hstm.
    split; [|reflexivity]. split; [lia|]. split; [lia|]. split; [reflexivity|].
    split; [reflexivity|]. unfold pawn_attacks, black_pawn_attacks in *.
    rewrite pawn_attacks_sym by lia. exact Ha.
Qed.

Lemma white_pawn_noncaptures_sound pos m :
  side_to_move pos = WHITE -> is_ok pos = true ->
  In m (generate_white_pawn_noncaptures pos) ->
  pseudo_legal pos m /\ piece_on pos (move_from m) = Pc WHITE PAWN.
Proof.
  intros Hstm Hok H. unfold generate_white_pawn_noncaptures in H. cbv zeta in H.
  rewrite !in_app_iff in H.
  destruct H as [H|[H|[H|[H|H]]]].
  - pawn_block Hstm H to Hto.
    destruct H as [<-|[<-|[<-|[]]]]; pl_pawn Hstm;
      (split; [|reflexivity]; split; [lia|]; split; [lia|]; split; [reflexivity|];
       split; [tauto|]; split; [sq_arith|]; right;
       apply pawn_capture_ok_white; try lia; assumption).
  - pawn_block Hstm H to Hto.
    destruct H as [<-|[<-|[<-|[]]]]; pl_pawn Hstm;
      (split; [|reflexivity]; split; [lia|]; split; [lia|]; split; [reflexivity|];
       split; [tauto|]; split; [sq_arith|]; right;
       apply pawn_capture_ok_white; try lia; assumption).
  - pawn_block Hstm H to Hto.
    destruct H as [<-|[<-|[<-|[]]]]; pl_pawn Hstm;
      (split; [|reflexivity]; split; [lia|]; split; [lia|]; split; [reflexivity|];
       split; [tauto|]; split; [sq_arith|]; left; split; [sq_arith|assumption]).
  - pawn_block Hstm H to Hto. pl_pawn Hstm.
    split; [|reflexivity]. split; [lia|]. split; [lia|].
    split; [reflexivity|]. split; [sq_arith|]. left. split; [sq_arith|assumption].
  - pawn_block Hstm H to Hto. pl_pawn Hstm.
    split; [|reflexivity]. split; [lia|]. split; [lia|].
    split; [reflexivity|]. split; [sq_arith|]. right. left.
    split; [sq_arith|]. split; [sq_arith|].
    unfold pawn_push. replace (to - 8 - 8 + DELTA_N) with (to - 8) by (unfold DELTA_N; lia).
    split; assumption.
Qed.

Ltac norm_neg :=
  repeat match goal with
  | |- context [?x - -7] => replace (x - -7) with (x + 7) by lia
  | |- context [?x - -8] => replace (x - -8) with (x + 8) by lia
  | |- context [?x - -9] => replace (x - -9) with (x + 9) by lia
  end.

Ltac pl_pawn_b Hstm :=
  pl_start Hstm;
  unfold DELTA_N, DELTA_S, DELTA_NE, DELTA_NW, DELTA_SE, DELTA_SW; norm_neg;
  repeat match goal with Hp : piece_on _ _ = _ |- _ => rewrite Hp end.
Lemma black_pawn_captures_sound pos m :
  side_to_move pos = BLACK -> is_ok pos = true ->
  In m (generate_black_pawn_captures pos) ->
  pseudo_legal pos m /\ piece_on pos (move_from m) = Pc BLACK PAWN.
Proof.
  intros Hstm Hok H. unfold generate_black_pawn_captures in H. cbv zeta in H.
  rewrite !in_app_iff in H.
  destruct H as [H|[H|[[H|H]|[H|H]]]].
  - pawn_block Hstm H to Hto. pl_pawn_b Hstm.
    split; [|reflexivity]. split; [lia|]. split; [lia|]. split; [reflexivity|].
    split; [tauto|]. split; [sq_arith|]. right.
    apply pawn_capture_ok_black; try lia; assumption.
  - pawn_block Hstm H to Hto. pl_pawn_b Hstm.
    split; [|reflexivity]. split; [lia|]. split; [lia|].
    split; [reflexivity|]. split; [sq_arith|]. right. right.
    apply pawn_capture_ok_black; try lia; assumption.
  - pawn_block Hstm H to Hto. pl_pawn_b Hstm.
    split; [|reflexivity]. split; [lia|]. split; [lia|]. split; [reflexivity|].
    split; [tauto|]. split; [sq_arith|]. right.
    apply pawn_capture_ok_black; try lia; assumption.
  - pawn_block Hstm H to Hto. pl_pawn_b Hstm.
    split; [|reflexivity]. split; [lia|]. split; [lia|].
    split; [reflexivity|]. split; [sq_arith|]. right. right.
    apply pawn_capture_ok_black; try lia; assumption.
  - pawn_block Hstm H to Hto. pl_pawn_b Hstm.
    split; [|reflexivity]. split; [lia|]. split; [lia|]. split; [reflexivity|].
    split; [tauto|]. split; [sq_arith|]. left. split; [sq_arith|assumption].
  - destruct (Z.eqb_spec (ep_square pos) SQ_NONE) as [|Hep]; [destruct H|]. cbn [negb] in H.
    destruct (is_ok_ep pos Hok) as [|Hepr]; [contradiction|].
    apply emit1_In in H; [|bb_ok_tac]. destruct H as [from [Hfrom ->]].
    apply bit_and_iff in Hfrom. destruct Hfrom as [Hp Ha]. apply bit_pawns in Hp.
    destruct Hp as [Hfr Hp]. pl_pawn_b Hstm.
    split; [|reflexivity]. split; [lia|]. split; [lia|]. split; [reflexivity|].
    split; [reflexivity|]. unfold pawn_attacks, white_pawn_attacks in *.
    rewrite pawn_attacks_sym by lia. exact Ha.
Qed.

Lemma black_pawn_noncaptures_sound pos m :
  side_to_move pos = BLACK -> is_ok pos = true ->
  In m (generate_black_pawn_noncaptures pos) ->
  pseudo_legal pos m /\ piece_on pos (move_from m) = Pc BLACK PAWN.
Proof.
  intros Hstm Hok H. unfold generate_black_pawn_noncaptures in H. cbv zeta in H.
  rewrite !in_app_iff in H.
  destruct H as [H|[H|[H|[H|H]]]].
  - pawn_block Hstm H to Hto.
    destruct H as [<-|[<-|[<-|[]]]]; pl_pawn_b Hstm;
      (split; [|reflexivity]; split; [lia|]; split; [lia|]; split; [reflexivity|];
       split; [tauto|]; split; [sq_arith|]; right;
       apply pawn_capture_ok_black; try lia; assumption).
  - pawn_block Hstm H to Hto.
    destruct H as [<-|[<-|[<-|[]]]]; pl_pawn_b Hstm;
      (split; [|reflexivity]; split; [lia|]; split; [lia|]; split; [reflexivity|];
       split; [tauto|]; split; [sq_arith|]; right;
       apply pawn_capture_ok_black; try lia; assumption).
  - pawn_block Hstm H to Hto.
    destruct H as [<-|[<-|[<-|[]]]]; pl_pawn_b Hstm;
      (split; [|reflexivity]; split; [lia|]; split; [lia|]; split; [reflexivity|];
       split; [tauto|]; split; [sq_arith|]; left; split; [sq_arith|assumption]).
  - pawn_block Hstm H to Hto. pl_pawn_b Hstm.
    split; [|reflexivity]. split; [lia|]. split; [lia|].
    split; [reflexivity|]. split; [sq_arith|]. left. split; [sq_arith|assumption].
  - pawn_block Hstm H to Hto. pl_pawn_b Hstm.
    split; [|reflexivity]. split; [lia|]. split; [lia|].
    split; [reflexivity|]. split; [sq_arith|]. right. left.
    split; [sq_arith|]. split; [sq_arith|].
    unfold pawn_push. replace (to + 8 + 8 + DELTA_S) with (to + 8) by (unfold DELTA_S; lia).
    split; assumption.
Qed.

Ltac bits_goal :=
  repeat first
    [ rewrite bit_and_iff
    | rewrite bit_shl_iff by lia
    | rewrite bit_shr_iff
    | rewrite bit_not_FileA
    | rewrite bit_not_FileH
    | rewrite bit_not_Rank8
    | rewrite bit_not_Rank1
    | rewrite bit_Rank8
    | rewrite bit_Rank1
    | rewrite bit_Rank3
    | rewrite bit_Rank6
    | rewrite bit_pawns
    | rewrite pieces_of_color_bit
    | rewrite empty_bit ].

Ltac props_done := repeat split; first [assumption | lia | sq_arith].

Lemma pawn_capture_ok_white_inv pos from to :
  0 <= from < 64 -> 0 <= to < 64 ->
  pawn_capture_ok pos WHITE from to ->
  ((to = from + 9 /\ square_file to <> 0) \/ (to = from + 7 /\ square_file to <> 7))
  /\ color_of_piece (piece_on pos to) = Some BLACK.
Proof.
  intros Hf Ht [Ha Hc]. split; [|exact Hc]. unfold pawn_attacks in Ha.
  apply bit_pawn_attacks in Ha; [|assumption]. destruct Ha as [_ Ha].
  apply pawn_attack_arith_white. assumption.
Qed.

Lemma pawn_capture_ok_black_inv pos from to :
  0 <= from < 64 -> 0 <= to < 64 ->
  pawn_capture_ok pos BLACK from to ->
  ((to = from - 7 /\ square_file to <> 0) \/ (to = from - 9 /\ square_file to <> 7))
  /\ color_of_piece (piece_on pos to) = Some WHITE.
Proof.
  intros Hf Ht [Ha Hc]. split; [|exact Hc]. unfold pawn_attacks in Ha.
  apply bit_pawn_attacks in Ha; [|assumption]. destruct Ha as [_ Ha].
  apply pawn_attack_arith_black. assumption.
Qed.
Lemma white_pawn_complete pos m :
  side_to_move pos = WHITE -> is_ok pos = true ->
  pseudo_legal pos m -> piece_on pos (move_from m) = Pc WHITE PAWN ->
  In m (generate_white_pawn_captures pos) \/ In m (generate_white_pawn_noncaptures pos).
Proof.
  intros Hstm Hok Hpl Hp. destruct m as [from to kind].
  unfold pseudo_legal in Hpl. cbn [move_from move_to move_kind] in *.
  rewrite Hstm in Hpl. cbv zeta in Hpl. destruct Hpl as [Hf [Ht Hk]].
  unfold generate_white_pawn_captures, generate_white_pawn_noncaptures. cbv zeta.
  rewrite !in_app_iff.
  destruct kind as [|pt| | |].
  - (* normal moves *)
    rewrite Hp in Hk. destruct Hk as [_ [Hrr [Hpush|[Hdbl|Hcap]]]].
    + destruct Hpush as [Hto He]. unfold pawn_push, DELTA_N in Hto.
      assert (from = to - 8) by lia. subst from.
      right. right. right. right. left.
      apply emit1_In; [bb_ok_tac|]. exists to. split; [|reflexivity].
      bits_goal. props_done.
    + destruct Hdbl as [Hto [Hr2 [He1 He2]]]. unfold pawn_push, DELTA_N in Hto, He1.
      assert (from = to - 8 - 8) by lia. subst from.
      replace (to - 8 - 8 + 8) with (to - 8) in He1 by lia.
      right. right. right. right. right.
      apply emit1_In; [bb_ok_tac|]. exists to. split; [|reflexivity].
      bits_goal. props_done.
    + apply pawn_capture_ok_white_inv in Hcap; [|assumption|assumption].
      destruct Hcap as [[[Hto Hfile]|[Hto Hfile]] Hc].
      * assert (from = to - 9) by lia. subst from.
        left. right. left.
        apply emit1_In; [bb_ok_tac|]. exists to. split; [|reflexivity].
        bits_goal. props_done.
      * assert (from = to - 7) by lia. subst from.
        left. right. right. left. right.
        apply emit1_In; [bb_ok_tac|]. exists to. split; [|reflexivity].
        bits_goal. props_done.
  - (* promotions *)
    destruct Hk as [_ [Hpt [Hrr [Hpush|Hcap]]]].
    + destruct Hpush as [Hto He]. unfold pawn_push, DELTA_N in Hto.
      assert (from = to - 8) by lia. subst from.
      destruct Hpt as [->|Hpt].
      * left. right. right. right. left.
        apply emit1_In; [bb_ok_tac|]. exists to. split; [|reflexivity].
        bits_goal. props_done.
      * right. right. right. left.
        apply emit_In; [bb_ok_tac|]. exists to. split.
        -- bits_goal. props_done.
        -- unfold underpromotions, make_promotion_move, DELTA_N. simpl.
           destruct Hpt as [->|[->| ->]]; tauto.
    + apply pawn_capture_ok_white_inv in Hcap; [|assumption|assumption].
      destruct Hcap as [[[Hto Hfile]|[Hto Hfile]] Hc].
      * assert (from = to - 9) by lia. subst from.
        destruct Hpt as [->|Hpt].
        -- left. left.
           apply emit1_In; [bb_ok_tac|]. exists to. split; [|reflexivity].
           bits_goal. props_done.
        -- right. left.
           apply emit_In; [bb_ok_tac|]. exists to. split.
           ++ bits_goal. props_done.
           ++ unfold underpromotions, make_promotion_move, DELTA_NE. simpl.
              destruct Hpt as [->|[->| ->]]; tauto.
      * assert (from = to - 7) by lia. subst from.
        destruct Hpt as [->|Hpt].
        -- left. right. right. left. left.
           apply emit1_In; [bb_ok_tac|]. exists to. split; [|reflexivity].
           bits_goal. props_done.
        -- right. right. left.
           apply emit_In; [bb_ok_tac|]. exists to. split.
           ++ bits_goal. props_done.
           ++ unfold underpromotions, make_promotion_move, DELTA_NW. simpl.
              destruct Hpt as [->|[->| ->]]; tauto.
  - (* en passant *)
    destruct Hk as [_ [Hto Ha]]. subst to.
    left. right. right. right. right.
    destruct (Z.eqb_spec (ep_square pos) SQ_NONE) as [E|_];
      [unfold SQ_NONE in E; lia|]. cbn [negb].
    apply emit1_In; [bb_ok_tac|]. exists from. split; [|reflexivity].
    apply bit_and_iff. split; [apply bit_pawns; split; assumption|].
    unfold black_pawn_attacks, pawn_attacks in *.
    rewrite (pawn_attacks_sym BLACK) by assumption. exact Ha.
  - (* castles start on the king *)
    destruct Hk as [_ [Hfrom _]]. destruct (is_ok_king pos WHITE Hok) as [_ [Hking _]].
    rewrite <- Hfrom in Hking. congruence.
  - destruct Hk as [_ [Hfrom _]]. destruct (is_ok_king pos WHITE Hok) as [_ [Hking _]].
    rewrite <- Hfrom in Hking. congruence.
Qed.
Lemma black_pawn_complete pos m :
  side_to_move pos = BLACK -> is_ok pos = true ->
  pseudo_legal pos m -> piece_on pos (move_from m) = Pc BLACK PAWN ->
  In m (generate_black_pawn_captures pos) \/ In m (generate_black_pawn_noncaptures pos).
Proof.
  intros Hstm Hok Hpl Hp. destruct m as [from to kind].
  unfold pseudo_legal in Hpl. cbn [move_from move_to move_kind] in *.
  rewrite Hstm in Hpl. cbv zeta in Hpl. destruct Hpl as [Hf [Ht Hk]].
  unfold generate_black_pawn_captures, generate_black_pawn_noncaptures. cbv zeta.
  rewrite !in_app_iff.
  destruct kind as [|pt| | |].
  - (* normal moves *)
    rewrite Hp in Hk. destruct Hk as [_ [Hrr [Hpush|[Hdbl|Hcap]]]].
    + destruct Hpush as [Hto He]. unfold pawn_push, DELTA_S in Hto.
      assert (from = to + 8) by lia. subst from.
      right. right. right. right. left.
      apply emit1_In; [bb_ok_tac|]. exists to. split; [|reflexivity].
      bits_goal. props_done.
    + destruct Hdbl as [Hto [Hr2 [He1 He2]]]. unfold pawn_push, DELTA_S in Hto, He1.
      assert (from = to + 8 + 8) by lia. subst from.
      replace (to + 8 + 8 + -8) with (to + 8) in He1 by lia.
      right. right. right. right. right.
      apply emit1_In; [bb_ok_tac|]. exists to. split; [|reflexivity].
      bits_goal. props_done.
    + apply pawn_capture_ok_black_inv in Hcap; [|assumption|assumption].
      destruct Hcap as [[[Hto Hfile]|[Hto Hfile]] Hc].
      * assert (from = to + 7) by lia. subst from.
        left. right. left.
        apply emit1_In; [bb_ok_tac|]. exists to. split; [|reflexivity].
        bits_goal. props_done.
      * assert (from = to + 9) by lia. subst from.
        left. right. right. left. right.
        apply emit1_In; [bb_ok_tac|]. exists to. split; [|reflexivity].
        bits_goal. props_done.
  - (* promotions *)
    destruct Hk as [_ [Hpt [Hrr [Hpush|Hcap]]]].
    + destruct Hpush as [Hto He]. unfold pawn_push, DELTA_S in Hto.
      assert (from = to + 8) by lia. subst from.
      destruct Hpt as [->|Hpt].
      * left. right. right. right. left.
        apply emit1_In; [bb_ok_tac|]. exists to. split; [|reflexivity].
        bits_goal. props_done.
      * right. right. right. left.
        apply emit_In; [bb_ok_tac|]. exists to. split.
        -- bits_goal. props_done.
        -- unfold underpromotions, make_promotion_move, DELTA_S. simpl.
           destruct Hpt as [->|[->| ->]]; tauto.
    + apply pawn_capture_ok_black_inv in Hcap; [|assumption|assumption].
      destruct Hcap as [[[Hto Hfile]|[Hto Hfile]] Hc].
      * assert (from = to + 7) by lia. subst from.
        destruct Hpt as [->|Hpt].
        -- left. left.
           apply emit1_In; [bb_ok_tac|]. exists to. split; [|reflexivity].
           bits_goal. props_done.
        -- right. left.
           apply emit_In; [bb_ok_tac|]. exists to. split.
           ++ bits_goal. props_done.
           ++ unfold underpromotions, make_promotion_move, DELTA_SE. simpl.
              destruct Hpt as [->|[->| ->]]; tauto.
      * assert (from = to + 9) by lia. subst from.
        destruct Hpt as [->|Hpt].
        -- left. right. right. left. left.
           apply emit1_In; [bb_ok_tac|]. exists to. split; [|reflexivity].
           bits_goal. props_done.
        -- right. right. left.
           apply emit_In; [bb_ok_tac|]. exists to. split.
           ++ bits_goal. props_done.
           ++ unfold underpromotions, make_promotion_move, DELTA_SW. simpl.
              destruct Hpt as [->|[->| ->]]; tauto.
  - (* en passant *)
    destruct Hk as [_ [Hto Ha]]. subst to.
    left. right. right. right. right.
    destruct (Z.eqb_spec (ep_square pos) SQ_NONE) as [E|_];
      [unfold SQ_NONE in E; lia|]. cbn [negb].
    apply emit1_In; [bb_ok_tac|]. exists from. split; [|reflexivity].
    apply bit_and_iff. split; [apply bit_pawns; split; assumption|].
    unfold white_pawn_attacks, pawn_attacks in *.
    rewrite (pawn_attacks_sym WHITE) by assumption. exact Ha.
  - (* castles start on the king *)
    destruct Hk as [_ [Hfrom _]]. destruct (is_ok_king pos BLACK Hok) as [_ [Hking _]].
    rewrite <- Hfrom in Hking. congruence.
  - destruct Hk as [_ [Hfrom _]]. destruct (is_ok_king pos BLACK Hok) as [_ [Hking _]].
    rewrite <- Hfrom in Hking. congruence.
Qed.

Lemma NoDup_flat_map_keyed {A} (key : Move -> A) (f : A -> list Move) (l : list A) :
  NoDup l ->
  (forall a, In a l -> NoDup (f a)) ->
  (forall a m, In a l -> In m (f a) -> key m = a) ->
  NoDup (flat_map f l).
Proof.
  induction l as [|a l IH]; intros Hl Hf Hkey; simpl; [constructor|].
  inversion Hl as [|? ? Ha Hl']; subst.
  apply NoDup_app.
  - apply Hf. left. reflexivity.
  - apply IH; [assumption| |].
    + intros b Hb. apply Hf. right. assumption.
    + intros b m Hb. apply Hkey. right. assumption.
  - intros m Hm Hin. apply in_flat_map in Hin. destruct Hin as [b [Hb Hmb]].
    assert (key m = a) by (apply Hkey; [left; reflexivity|assumption]).
    assert (key m = b) by (apply Hkey; [right; assumption|assumption]).
    congruence.
Qed.

Lemma emit_NoDup b f :
  bb_ok b ->
  (forall s, NoDup (f s)) ->
  (forall s m, In m (f s) -> move_to m = s) ->
  NoDup (emit b f).
Proof.
  intros Hb Hf Hkey. unfold emit. apply (NoDup_flat_map_keyed move_to).
  - apply bb_squares_NoDup. assumption.
  - intros s _. apply Hf.
  - intros s m _. apply Hkey.
Qed.

Lemma emit1_NoDup b f :
  bb_ok b -> (forall s, move_to (f s) = s) -> NoDup (emit1 b f).
Proof.
  intros Hb Hkey. unfold emit1. apply emit_NoDup; [assumption| |].
  - intros s. constructor; [intros []|constructor].
  - intros s m [<-|[]]. apply Hkey.
Qed.

Lemma tagged_blocks_nil pos : tagged_blocks pos [] [].
Proof. exists []. split; [reflexivity|]. split; [reflexivity|]. intros k b []. Qed.

Lemma tagged_blocks_one pos k b :
  NoDup b -> (forall m, In m b -> move_tag pos m = k) -> tagged_blocks pos [k] b.
Proof.
  intros Hnd Htag. exists [(k, b)]. simpl. rewrite app_nil_r.
  split; [reflexivity|]. split; [reflexivity|].
  intros k' b' [E|[]]. injection E as <- <-. split; assumption.
Qed.

Lemma tagged_blocks_app pos t1 t2 l1 l2 :
  tagged_blocks pos t1 l1 -> tagged_blocks pos t2 l2 ->
  tagged_blocks pos (t1 ++ t2) (l1 ++ l2).
Proof.
  intros [bs1 [E1 [T1 H1]]] [bs2 [E2 [T2 H2]]]. exists (bs1 ++ bs2).
  rewrite !map_app, concat_app, E1, E2, T1, T2.
  split; [reflexivity|]. split; [reflexivity|].
  intros k b Hin. apply in_app_iff in Hin. destruct Hin; [apply H1|apply H2]; assumption.
Qed.

Lemma tagged_blocks_NoDup pos tags l :
  tagged_blocks pos tags l -> NoDup tags -> NoDup l.
Proof.
  intros [bs [-> [<- H]]]. clear -H. induction bs as [|[k b] bs IH]; intros Hnd; simpl.
  - constructor.
  - simpl in Hnd. inversion Hnd as [|? ? Hk Hnd']; subst.
    destruct (H k b (or_introl eq_refl)) as [Hb Htag].
    apply NoDup_app; [assumption| |].
    + apply IH; [|assumption]. intros k' b' Hin. apply H. right. assumption.
    + intros m Hm Hin. apply in_concat in Hin. destruct Hin as [b' [Hb' Hmb']].
      apply in_map_iff in Hb'. destruct Hb' as [[k' b''] [E Hin]]. simpl in E. subst b''.
      destruct (H k' b' (or_intror Hin)) as [_ Htag'].
      apply Hk. apply in_map_iff. exists (k', b'). split; [|assumption]. simpl.
      rewrite <- (Htag m Hm), <- (Htag' m Hmb'). reflexivity.
Qed.

Lemma tagged_blocks_tag pos tags l m :
  tagged_blocks pos tags l -> In m l -> In (move_tag pos m) tags.
Proof.
  intros [bs [-> [<- H]]] Hin. apply in_concat in Hin. destruct Hin as [b [Hb Hm]].
  apply in_map_iff in Hb. destruct Hb as [[k b'] [E Hin]]. simpl in E. subst b'.
  destruct (H k b Hin) as [_ Htag]. rewrite (Htag m Hm).
  apply in_map_iff. exists (k, b). split; [reflexivity|assumption].
Qed.

Ltac tag_delta :=
  try match goal with
  | |- context [delta_class ?e] =>
      first [ replace e with 9 by lia | replace e with 7 by lia | replace e with 8 by lia
            | replace e with 16 by lia | replace e with (-9) by lia
            | replace e with (-7) by lia | replace e with (-8) by lia
            | replace e with (-16) by lia ]
  end.

Ltac tag_solve :=
  unfold move_tag, make_promotion_move, make_move, make_ep_move,
    DELTA_N, DELTA_S, DELTA_NE, DELTA_NW, DELTA_SE, DELTA_SW;
  cbn [move_kind move_from move_to]; norm_neg;
  repeat match goal with Hp : piece_on _ _ = _ |- _ => rewrite Hp end;
  cbv zeta; tag_delta; reflexivity.

Ltac pawn_leaf1 :=
  apply tagged_blocks_one;
  [ apply emit1_NoDup; [bb_ok_tac | reflexivity]
  | let m := fresh "m" in let H := fresh "H" in let to := fresh "to" in
    let Hto := fresh "Hto" in
    intros m H; apply emit1_In in H; [|bb_ok_tac]; destruct H as [to [Hto ->]];
    bits_in Hto; unpack Hto; tag_solve ].

Ltac pawn_leaf3 :=
  apply tagged_blocks_one;
  [ apply emit_NoDup;
    [ bb_ok_tac
    | intros s; unfold underpromotions, make_promotion_move;
      repeat constructor; simpl; intuition discriminate
    | intros s m H; unfold underpromotions in H; cbn [In] in H;
      destruct H as [<-|[<-|[<-|[]]]]; reflexivity ]
  | let m := fresh "m" in let H := fresh "H" in let to := fresh "to" in
    let Hto := fresh "Hto" in
    intros m H; apply emit_In in H; [|bb_ok_tac]; destruct H as [to [Hto H]];
    unfold underpromotions in H; cbn [In] in H;
    bits_in Hto; unpack Hto; destruct H as [<-|[<-|[<-|[]]]]; tag_solve ].

Lemma emit1_NoDup_from b f :
  bb_ok b -> (forall s, move_from (f s) = s) -> NoDup (emit1 b f).
Proof.
  intros Hb Hkey. unfold emit1, emit. apply (NoDup_flat_map_keyed move_from).
  - apply bb_squares_NoDup. assumption.
  - intros s _. constructor; [intros []|constructor].
  - intros s m _ [<-|[]]. apply Hkey.
Qed.

Ltac ep_leaf :=
  apply tagged_blocks_one;
  [ destruct (negb _); [apply emit1_NoDup_from; [bb_ok_tac|reflexivity]|constructor]
  | intros m H; destruct (negb _); [|destruct H];
    apply emit1_In in H; [|bb_ok_tac]; destruct H as [from [_ ->]]; reflexivity ].
Lemma white_pawn_captures_blocks pos :
  tagged_blocks pos ([11] ++ [31] ++ ([12] ++ [32]) ++ [13] ++ [1])
                (generate_white_pawn_captures pos).
Proof.
  unfold generate_white_pawn_captures. cbv zeta.
  repeat apply tagged_blocks_app; first [pawn_leaf1 | ep_leaf].
Qed.

Lemma black_pawn_captures_blocks pos :
  tagged_blocks pos ([12] ++ [32] ++ ([11] ++ [31]) ++ [13] ++ [1])
                (generate_black_pawn_captures pos).
Proof.
  unfold generate_black_pawn_captures. cbv zeta.
  repeat apply tagged_blocks_app; first [pawn_leaf1 | ep_leaf].
Qed.

Lemma white_pawn_noncaptures_blocks pos :
  tagged_blocks pos ([21] ++ [22] ++ [23] ++ [33] ++ [34])
                (generate_white_pawn_noncaptures pos).
Proof.
  unfold generate_white_pawn_noncaptures. cbv zeta.
  repeat apply tagged_blocks_app; first [pawn_leaf1 | pawn_leaf3].
Qed.

Lemma black_pawn_noncaptures_blocks pos :
  tagged_blocks pos ([22] ++ [21] ++ [23] ++ [33] ++ [34])
                (generate_black_pawn_noncaptures pos).
Proof.
  unfold generate_black_pawn_noncaptures. cbv zeta.
  repeat apply tagged_blocks_app; first [pawn_leaf1 | pawn_leaf3].
Qed.

Lemma piece_moves_In pos pce us target m :
  is_ok pos = true ->
  (In m (generate_piece_moves pos pce us target) <->
   exists from to,
     m = make_move from to /\ 0 <= from < 64 /\ piece_on pos from = Pc us pce
     /\ Z.testbit (piece_attacks_fn pos pce from) to = true
     /\ Z.testbit target to = true).
Proof.
  intros Hok. destruct (is_ok_piece_list pos us pce Hok) as [_ Hin].
  unfold generate_piece_moves. rewrite in_flat_map. split.
  - intros [from [Hfrom H]]. apply Hin in Hfrom. destruct Hfrom as [Hfr Hp].
    apply emit1_In in H; [|apply bb_and_ok_l, piece_attacks_fn_ok].
    destruct H as [to [Hto ->]]. apply bit_and_iff in Hto. destruct Hto as [Ha Ht].
    exists from, to. repeat split; assumption || lia.
  - intros [from [to [-> [Hfr [Hp [Ha Ht]]]]]]. exists from. split; [apply Hin; split; assumption|].
    apply emit1_In; [apply bb_and_ok_l, piece_attacks_fn_ok|]. exists to.
    split; [apply bit_and_iff; split; assumption|reflexivity].
Qed.

Lemma move_tag_normal pos from to c pt :
  piece_on pos from = Pc c pt -> pt <> PAWN ->
  move_tag pos (make_move from to) = piece_tag pt + empty_flag pos to.
Proof.
  intros Hp Hpt. unfold move_tag, make_move, empty_flag. cbn [move_kind move_from move_to].
  rewrite Hp. destruct pt; try reflexivity. contradiction.
Qed.

Lemma piece_moves_block pos pce us target e :
  is_ok pos = true -> pce <> PAWN ->
  (forall s, Z.testbit target s = true -> empty_flag pos s = e) ->
  tagged_blocks pos [piece_tag pce + e] (generate_piece_moves pos pce us target).
Proof.
  intros Hok Hpce He. apply tagged_blocks_one.
  - destruct (is_ok_piece_list pos us pce Hok) as [Hnd _].
    unfold generate_piece_moves. apply (NoDup_flat_map_keyed move_from); [assumption| |].
    + intros from _. apply emit1_NoDup; [apply bb_and_ok_l, piece_attacks_fn_ok|reflexivity].
    + intros from m _ H. apply emit1_In in H; [|apply bb_and_ok_l, piece_attacks_fn_ok].
      destruct H as [to [_ ->]]. reflexivity.
  - intros m H. apply piece_moves_In in H; [|assumption].
    destruct H as [from [to [-> [_ [Hp [_ Ht]]]]]].
    rewrite (move_tag_normal pos from to us pce Hp Hpce), (He to Ht). reflexivity.
Qed.

Lemma king_moves_In from target m :
  In m (generate_king_moves from target) <->
  exists to, m = make_move from to
             /\ Z.testbit (king_attacks from) to = true /\ Z.testbit target to = true.
Proof.
  unfold generate_king_moves. rewrite emit1_In by bb_ok_tac. split.
  - intros [to [Hto ->]]. apply bit_and_iff in Hto. exists to. tauto.
  - intros [to [-> Hto]]. exists to. split; [apply bit_and_iff; exact Hto|reflexivity].
Qed.

Lemma king_moves_block pos c from target e :
  piece_on pos from = Pc c KING ->
  (forall s, Z.testbit target s = true -> empty_flag pos s = e) ->
  tagged_blocks pos [80 + e] (generate_king_moves from target).
Proof.
  intros Hp He. apply tagged_blocks_one.
  - unfold generate_king_moves. apply emit1_NoDup; [bb_ok_tac|reflexivity].
  - intros m H. apply king_moves_In in H. destruct H as [to [-> [_ Ht]]].
    rewrite (move_tag_normal pos from to c KING Hp) by discriminate.
    rewrite (He to Ht). reflexivity.
Qed.

Lemma enemy_flag pos c s :
  Z.testbit (pieces_of_color pos c) s = true -> empty_flag pos s = 0.
Proof.
  intros H. apply pieces_of_color_bit in H. destruct H as [_ H].
  unfold empty_flag, square_is_empty. destruct (piece_on pos s); [discriminate|reflexivity].
Qed.

Lemma empty_flag_1 pos s :
  Z.testbit (empty_squares pos) s = true -> empty_flag pos s = 1.
Proof.
  intros H. apply empty_bit in H. destruct H as [_ H]. unfold empty_flag. rewrite H. reflexivity.
Qed.

Lemma existsb_false_iff {A} (f : A -> bool) l :
  existsb f l = false <-> forall x, In x l -> f x = false.
Proof.
  induction l as [|a l IH]; simpl.
  - split; [intros _ x []|reflexivity].
  - rewrite orb_false_iff, IH. split.
    + intros [Ha Hl] x [<-|Hx]; [assumption|apply Hl; assumption].
    + intros H. split; [apply H; left; reflexivity|]. intros x Hx. apply H. right. assumption.
Qed.

Lemma castle_path_illegal_iff pos us ksq rsq kend rend :
  castle_path_illegal pos (opposite_color us) ksq rsq kend rend = false <->
  castle_rule pos us ksq rsq kend rend.
Proof.
  unfold castle_path_illegal, castle_rule. cbv zeta.
  rewrite !flag_loop_existsb. cbn [orb]. rewrite orb_false_iff, !existsb_false_iff.
  assert (Hsq : forall s, negb (s =? ksq) && negb (s =? rsq) && square_is_occupied pos s = false
                          <-> s = ksq \/ s = rsq \/ square_is_empty pos s = true).
  { intros s. unfold square_is_occupied.
    destruct (Z.eqb_spec s ksq) as [->|Hk]; [simpl; tauto|].
    destruct (Z.eqb_spec s rsq) as [->|Hr]; [simpl; tauto|].
    simpl. rewrite negb_false_iff. tauto. }
  split.
  - intros [H1 H2]. split.
    + intros s Hs. specialize (H1 s (proj2 (sq_range_In _ _ s) Hs)).
      apply orb_false_iff in H1. destruct H1 as [H1 Ha]. split; [apply Hsq|]; assumption.
    + intros s Hs. apply Hsq. apply H2. apply sq_range_In. assumption.
  - intros [H1 H2]. split.
    + intros s Hs. apply sq_range_In in Hs. destruct (H1 s Hs) as [Hc Ha].
      apply orb_false_iff. split; [apply Hsq|]; assumption.
    + intros s Hs. apply sq_range_In in Hs. apply Hsq. apply H2. assumption.
Qed.

Lemma corner_test_iff pos them rsq a1 :
  (square_file rsq =? FILE_B)
  && (Piece_eqb (piece_on pos a1) (rook_of_color them)
      || Piece_eqb (piece_on pos a1) (queen_of_color them)) = false <->
  (square_file rsq = FILE_B -> no_rook_or_queen pos them a1).
Proof.
  unfold no_rook_or_queen. rewrite andb_false_iff, orb_false_iff, Z.eqb_neq. split.
  - intros [H|[H1 H2]] Hf; [contradiction|].
    split; intros E; rewrite E, Piece_eqb_refl in *; discriminate.
  - intros H. destruct (Z.eq_dec (square_file rsq) FILE_B) as [E|E]; [|left; assumption].
    right. destruct (H E) as [H1 H2]. split.
    + destruct (Piece_eqb _ _) eqn:Eq; [|reflexivity]. apply Piece_eqb_eq in Eq. contradiction.
    + destruct (Piece_eqb _ _) eqn:Eq; [|reflexivity]. apply Piece_eqb_eq in Eq. contradiction.
Qed.

Lemma generate_castle_moves_In pos us m :
  is_ok pos = true ->
  (In m (generate_castle_moves pos us) <->
   (can_castle_kingside pos us = true
    /\ m = mkMove (king_square pos us) (initial_kr_square pos us) MK_SHORT_CASTLE
    /\ castle_rule pos us (king_square pos us) (initial_kr_square pos us)
                   (relative_square us SQ_G1) (relative_square us SQ_F1))
   \/ (can_castle_queenside pos us = true
       /\ m = mkMove (king_square pos us) (initial_qr_square pos us) MK_LONG_CASTLE
       /\ castle_rule pos us (king_square pos us) (initial_qr_square pos us)
                      (relative_square us SQ_C1) (relative_square us SQ_D1)
       /\ (square_file (initial_qr_square pos us) = FILE_B ->
           no_rook_or_queen pos (opposite_color us) (relative_square us SQ_A1)))).
Proof.
  intros Hok. destruct (is_ok_castle pos us Hok) as [Hks Hqs].
  unfold generate_castle_moves, can_castle. cbv zeta.
  destruct (can_castle_kingside pos us) eqn:Ek, (can_castle_queenside pos us) eqn:Eq;
    cbn [orb]; rewrite ?in_app_iff.
  all: repeat match goal with
       | H : true = true -> _ |- _ => specialize (H eq_refl)
       end.
  all: unfold make_castle_move.
  all: try (replace (king_square pos us <? initial_kr_square pos us) with true
             by (symmetry; apply Z.ltb_lt; assumption)).
  all: try (replace (king_square pos us <? initial_qr_square pos us) with false
             by (symmetry; apply Z.ltb_ge; lia)).
  all: rewrite <- ?castle_path_illegal_iff, <- ?corner_test_iff.
  all: repeat match goal with
       | |- context [castle_path_illegal ?a ?b ?c ?d ?e ?f] =>
           destruct (castle_path_illegal a b c d e f)
       end.
  all: repeat match goal with
       | |- context [(square_file ?r =? FILE_B) && ?x] =>
           destruct ((square_file r =? FILE_B) && x)
       end.
  all: cbn [negb In]; intuition (try discriminate; auto).
Qed.

Lemma castle_moves_block pos us :
  is_ok pos = true -> tagged_blocks pos [2] (generate_castle_moves pos us).
Proof.
  intros Hok. apply tagged_blocks_one.
  - unfold generate_castle_moves. cbv zeta.
    destruct (is_ok_castle pos us Hok) as [Hks Hqs].
    destruct (can_castle pos us); [|constructor].
    destruct (can_castle_kingside pos us), (can_castle_queenside pos us);
      repeat match goal with
        | |- context [if ?b then _ else _] => destruct b
        end; simpl; repeat constructor; simpl; try tauto.
    intros [E|[]]. unfold make_castle_move in E.
    specialize (Hks eq_refl). specialize (Hqs eq_refl).
    replace (king_square pos us <? initial_kr_square pos us) with true in E
      by (symmetry; apply Z.ltb_lt; assumption).
    replace (king_square pos us <? initial_qr_square pos us) with false in E
      by (symmetry; apply Z.ltb_ge; lia).
    discriminate.
  - intros m H. apply generate_castle_moves_In in H; [|assumption].
    destruct H as [[_ [-> _]]|[_ [-> _]]]; reflexivity.
Qed.

Lemma generate_captures_blocks pos :
  is_ok pos = true ->
  tagged_blocks pos (captures_tags (side_to_move pos)) (generate_captures pos).
Proof.
  intros Hok. unfold generate_captures, captures_tags. cbv zeta.
  destruct (is_ok_king pos (side_to_move pos) Hok) as [_ [Hking _]].
  cbn [flat_map piece_types_knight_to_queen].
  repeat apply tagged_blocks_app.
  - destruct (side_to_move pos);
      [apply white_pawn_captures_blocks|apply black_pawn_captures_blocks].
  - apply piece_moves_block; [assumption|discriminate|apply enemy_flag].
  - apply piece_moves_block; [assumption|discriminate|apply enemy_flag].
  - apply piece_moves_block; [assumption|discriminate|apply enemy_flag].
  - apply piece_moves_block; [assumption|discriminate|apply enemy_flag].
  - apply tagged_blocks_nil.
  - eapply king_moves_block; [eassumption|apply enemy_flag].
Qed.

Lemma generate_noncaptures_blocks pos :
  is_ok pos = true ->
  tagged_blocks pos (noncaptures_tags (side_to_move pos)) (generate_noncaptures pos).
Proof.
  intros Hok. unfold generate_noncaptures, noncaptures_tags. cbv zeta.
  destruct (is_ok_king pos (side_to_move pos) Hok) as [_ [Hking _]].
  cbn [flat_map piece_types_knight_to_queen].
  repeat apply tagged_blocks_app.
  - destruct (side_to_move pos);
      [apply white_pawn_noncaptures_blocks|apply black_pawn_noncaptures_blocks].
  - apply piece_moves_block; [assumption|discriminate|apply empty_flag_1].
  - apply piece_moves_block; [assumption|discriminate|apply empty_flag_1].
  - apply piece_moves_block; [assumption|discriminate|apply empty_flag_1].
  - apply piece_moves_block; [assumption|discriminate|apply empty_flag_1].
  - apply tagged_blocks_nil.
  - eapply king_moves_block; [eassumption|apply empty_flag_1].
  - apply castle_moves_block. assumption.
Qed.

Lemma pseudo_legal_tags_NoDup us : NoDup (captures_tags us ++ noncaptures_tags us).
Proof. apply nodupb_NoDup. destruct us; vm_compute; reflexivity. Qed.

Lemma pseudo_legal_moves_NoDup pos :
  is_ok pos = true -> NoDup (generate_captures pos ++ generate_noncaptures pos).
Proof.
  intros Hok. eapply tagged_blocks_NoDup.
  - apply tagged_blocks_app;
      [apply generate_captures_blocks|apply generate_noncaptures_blocks]; assumption.
  - apply pseudo_legal_tags_NoDup.
Qed.
Lemma piece_move_pseudo_legal pos from to pce target :
  pce <> PAWN ->
  0 <= from < 64 ->
  piece_on pos from = Pc (side_to_move pos) pce ->
  Z.testbit (piece_attacks_fn pos pce from) to = true ->
  Z.testbit target to = true ->
  (target = pieces_of_color pos (opposite_color (side_to_move pos))
   \/ target = empty_squares pos) ->
  pseudo_legal pos (make_move from to).
Proof.
  intros Hpce Hfr Hp Ha Ht Htarget.
  assert (Hto : 0 <= to < 64 /\ color_of_piece_on pos to <> Some (side_to_move pos)).
  { unfold color_of_piece_on. destruct Htarget as [-> | ->].
    - apply pieces_of_color_bit in Ht. destruct Ht as [Hr Hc]. split; [assumption|].
      rewrite Hc. destruct (side_to_move pos); discriminate.
    - apply empty_bit in Ht. destruct Ht as [Hr He]. split; [assumption|].
      unfold square_is_empty in He. apply Piece_eqb_eq in He. rewrite He. discriminate. }
  destruct Hto as [Hto Hc].
  unfold pseudo_legal, make_move. cbn [move_from move_to move_kind]. cbv zeta.
  split; [assumption|]. split; [assumption|]. rewrite Hp.
  destruct pce; try contradiction; (split; [reflexivity|split; assumption]).
Qed.

Lemma pieces_sound pos target m :
  is_ok pos = true ->
  (target = pieces_of_color pos (opposite_color (side_to_move pos))
   \/ target = empty_squares pos) ->
  In m (flat_map (fun pce => generate_piece_moves pos pce (side_to_move pos) target)
                 piece_types_knight_to_queen
        ++ generate_king_moves (king_square pos (side_to_move pos)) target) ->
  pseudo_legal pos m.
Proof.
  intros Hok Htarget H. apply in_app_iff in H. destruct H as [H|H].
  - apply in_flat_map in H. destruct H as [pce [Hpce H]].
    apply piece_moves_In in H; [|assumption].
    destruct H as [from [to [-> [Hfr [Hp [Ha Ht]]]]]].
    apply (piece_move_pseudo_legal pos from to pce target); try assumption.
    simpl in Hpce. intuition (subst; discriminate).
  - apply king_moves_In in H. destruct H as [to [-> [Ha Ht]]].
    destruct (is_ok_king pos (side_to_move pos) Hok) as [Hkr [Hking _]].
    apply (piece_move_pseudo_legal pos _ to KING target); try assumption. discriminate.
Qed.

Lemma castle_moves_sound pos m :
  is_ok pos = true ->
  In m (generate_castle_moves pos (side_to_move pos)) -> pseudo_legal pos m.
Proof.
  intros Hok H. apply generate_castle_moves_In in H; [|assumption].
  destruct (is_ok_king pos (side_to_move pos) Hok) as [Hkr _].
  destruct (is_ok_castle_squares pos (side_to_move pos) Hok) as [Hks Hqs].
  unfold pseudo_legal. cbv zeta.
  destruct H as [[Hc [-> Hrule]]|[Hc [-> [Hrule Hcorner]]]]; cbn [move_from move_to move_kind].
  - split; [assumption|]. split; [apply Hks; assumption|].
    split; [assumption|]. split; [reflexivity|]. split; [reflexivity|]. assumption.
  - split; [assumption|]. split; [apply Hqs; assumption|].
    split; [assumption|]. split; [reflexivity|]. split; [reflexivity|].
    split; assumption.
Qed.

Lemma pseudo_legal_sound pos m :
  is_ok pos = true ->
  In m (generate_captures pos ++ generate_noncaptures pos) -> pseudo_legal pos m.
Proof.
  intros Hok H. apply in_app_iff in H.
  unfold generate_captures, generate_noncaptures in H. cbv zeta in H.
  destruct H as [H|H]; apply in_app_iff in H; destruct H as [H|H].
  - destruct (side_to_move pos) eqn:Hstm.
    + apply white_pawn_captures_sound in H; tauto.
    + apply black_pawn_captures_sound in H; tauto.
  - eapply pieces_sound; [assumption| |exact H]. left. reflexivity.
  - destruct (side_to_move pos) eqn:Hstm.
    + apply white_pawn_noncaptures_sound in H; tauto.
    + apply black_pawn_noncaptures_sound in H; tauto.
  - rewrite app_assoc in H. apply in_app_iff in H. destruct H as [H|H].
    + eapply pieces_sound; [assumption| |exact H]. right. reflexivity.
    + apply castle_moves_sound; assumption.
Qed.

Lemma piece_move_generated pos m pce target :
  In pce piece_types_knight_to_queen ->
  (target = pieces_of_color pos (opposite_color (side_to_move pos))
   /\ In m (generate_piece_moves pos pce (side_to_move pos) target))
  \/ (target = empty_squares pos
      /\ In m (generate_piece_moves pos pce (side_to_move pos) target)) ->
  In m (generate_captures pos ++ generate_noncaptures pos).
Proof.
  intros Hpce H. apply in_or_app.
  destruct H as [[-> H]|[-> H]]; [left; unfold generate_captures|right; unfold generate_noncaptures];
    cbv zeta; apply in_or_app; right; apply in_or_app; left;
    apply in_flat_map; exists pce; split; assumption.
Qed.

Lemma king_move_generated pos m target :
  (target = pieces_of_color pos (opposite_color (side_to_move pos))
   /\ In m (generate_king_moves (king_square pos (side_to_move pos)) target))
  \/ (target = empty_squares pos
      /\ In m (generate_king_moves (king_square pos (side_to_move pos)) target)) ->
  In m (generate_captures pos ++ generate_noncaptures pos).
Proof.
  intros H. apply in_or_app.
  destruct H as [[-> H]|[-> H]]; [left; unfold generate_captures|right; unfold generate_noncaptures];
    cbv zeta; apply in_or_app; right; apply in_or_app; right.
  - assumption.
  - apply in_or_app. left. assumption.
Qed.

Lemma pseudo_legal_complete pos m :
  is_ok pos = true ->
  pseudo_legal pos m -> In m (generate_captures pos ++ generate_noncaptures pos).
Proof.
  intros Hok Hpl.
  assert (Hpawn : piece_on pos (move_from m) = Pc (side_to_move pos) PAWN ->
                  In m (generate_captures pos ++ generate_noncaptures pos)).
  { intros Hp. unfold generate_captures, generate_noncaptures. cbv zeta.
    rewrite !in_app_iff. destruct (side_to_move pos) eqn:Hstm.
    - destruct (white_pawn_complete pos m Hstm Hok Hpl Hp); [left|right]; left; assumption.
    - destruct (black_pawn_complete pos m Hstm Hok Hpl Hp); [left|right]; left; assumption. }
  pose proof Hpl as Hpl'. unfold pseudo_legal in Hpl'. cbv zeta in Hpl'.
  destruct Hpl' as [Hfr [Hto Hk]].
  destruct m as [from to kind]. cbn [move_from move_to move_kind] in *.
  destruct kind as [|pt| | |].
  - (* normal moves *)
    destruct (piece_on pos from) as [|c pt] eqn:Hp; [destruct Hk|].
    assert (Hc : c = side_to_move pos) by (destruct pt; apply Hk). subst c.
    destruct (PieceType_eqb pt PAWN) eqn:Epawn.
    { apply PieceType_eqb_eq in Epawn. subst pt. apply Hpawn. reflexivity. }
    assert (Hk' : Z.testbit (piece_attacks_fn pos pt from) to = true
                  /\ color_of_piece_on pos to <> Some (side_to_move pos)).
    { destruct pt; try discriminate; apply Hk. }
    clear Hk. destruct Hk' as [Ha Hcol].
    assert (Htarget :
           Z.testbit (pieces_of_color pos (opposite_color (side_to_move pos))) to = true
           \/ Z.testbit (empty_squares pos) to = true).
    { unfold color_of_piece_on in Hcol.
      destruct (piece_on pos to) as [|c' pt'] eqn:Hpt.
      - right. apply empty_bit. split; [assumption|].
        unfold square_is_empty. rewrite Hpt. reflexivity.
      - left. apply pieces_of_color_bit. split; [assumption|]. rewrite Hpt.
        simpl in Hcol |- *.
        destruct c', (side_to_move pos); try reflexivity; congruence. }
    destruct (PieceType_eqb pt KING) eqn:Eking.
    + (* the king *)
      apply PieceType_eqb_eq in Eking. subst pt.
      destruct (is_ok_king pos (side_to_move pos) Hok) as [_ [_ Huniq]].
      assert (Hgen : forall target, Z.testbit target to = true ->
                 In (mkMove from to MK_NORMAL)
                    (generate_king_moves (king_square pos (side_to_move pos)) target)).
      { intros target Ht. rewrite <- (Huniq from Hfr Hp).
        apply king_moves_In. exists to. split; [reflexivity|]. split; assumption. }
      destruct Htarget as [Ht|Ht].
      * apply (king_move_generated pos _
                 (pieces_of_color pos (opposite_color (side_to_move pos)))).
        left. split; [reflexivity|apply Hgen; assumption].
      * apply (king_move_generated pos _ (empty_squares pos)).
        right. split; [reflexivity|apply Hgen; assumption].
    + (* knights, bishops, rooks and queens *)
      assert (Hpce : In pt piece_types_knight_to_queen).
      { destruct pt; try discriminate; simpl; auto. }
      assert (Hgen : forall target, Z.testbit target to = true ->
                 In (mkMove from to MK_NORMAL)
                    (generate_piece_moves pos pt (side_to_move pos) target)).
      { intros target Ht. apply piece_moves_In; [assumption|].
        exists from, to. split; [reflexivity|]. split; [lia|].
        split; [assumption|]. split; assumption. }
      destruct Htarget as [Ht|Ht].
      * apply (piece_move_generated pos _ pt
                 (pieces_of_color pos (opposite_color (side_to_move pos)))); [assumption|].
        left. split; [reflexivity|apply Hgen; assumption].
      * apply (piece_move_generated pos _ pt (empty_squares pos)); [assumption|].
        right. split; [reflexivity|apply Hgen; assumption].
  - apply Hpawn. apply Hk.
  - apply Hpawn. apply Hk.
  - destruct Hk as [Hc [Hf [Ht Hrule]]]. subst from to.
    apply in_or_app. right. unfold generate_noncaptures. cbv zeta.
    apply in_or_app. right. apply in_or_app. right. apply in_or_app. right.
    apply generate_castle_moves_In; [assumption|].
    left. split; [assumption|]. split; [reflexivity|]. assumption.
  - destruct Hk as [Hc [Hf [Ht [Hrule Hcorner]]]]. subst from to.
    apply in_or_app. right. unfold generate_noncaptures. cbv zeta.
    apply in_or_app. right. apply in_or_app. right. apply in_or_app. right.
    apply generate_castle_moves_In; [assumption|].
    right. split; [assumption|]. split; [reflexivity|]. split; assumption.
Qed.


Lemma delta_class_range d : 0 <= delta_class d <= 4.
Proof.
  unfold delta_class.
  repeat match goal with |- context [if ?b then _ else _] => destruct b end; lia.
Qed.

Lemma captures_promote_to_queen pos m pt :
  is_ok pos = true ->
  In m (generate_captures pos) -> move_promotion m = Some pt -> pt = QUEEN.
Proof.
  intros Hok Hin Hpt.
  pose proof (tagged_blocks_tag _ _ _ m (generate_captures_blocks pos Hok) Hin) as Htag.
  unfold move_promotion in Hpt. unfold move_tag in Htag. cbv zeta in Htag.
  pose proof (delta_class_range (move_to m - move_from m)) as Hd.
  destruct (move_kind m) as [|pt'| | |]; try discriminate. injection Hpt as ->.
  destruct pt; try reflexivity; exfalso;
    destruct (side_to_move pos);
    cbv beta iota zeta delta [In captures_tags app piece_tag] in Htag; lia.
Qed.

Lemma noncaptures_underpromote pos m pt :
  is_ok pos = true ->
  In m (generate_noncaptures pos) -> move_promotion m = Some pt ->
  pt = ROOK \/ pt = BISHOP \/ pt = KNIGHT.
Proof.
  intros Hok Hin Hpt.
  pose proof (tagged_blocks_tag _ _ _ m (generate_noncaptures_blocks pos Hok) Hin) as Htag.
  pose proof (pseudo_legal_sound pos m Hok (in_or_app _ _ _ (or_intror Hin))) as Hpl.
  unfold move_promotion in Hpt. unfold move_tag in Htag. cbv zeta in Htag.
  unfold pseudo_legal in Hpl. cbv zeta in Hpl.
  pose proof (delta_class_range (move_to m - move_from m)) as Hd.
  destruct (move_kind m) as [|pt'| | |]; try discriminate. injection Hpt as ->.
  destruct Hpl as [_ [_ [_ [[->|H] _]]]]; [|exact H].
  exfalso. destruct (side_to_move pos);
    cbv beta iota zeta delta [In noncaptures_tags app piece_tag] in Htag; lia.
Qed.

(** C3. In a well-formed position the capture list and the non-capture
    list have no move in common, together they hold no move twice, and the
    moves they hold are exactly the pseudo-legal moves: every pseudo-legal
    move is written exactly once.  A promotion in the capture list is a
    queen promotion; a promotion in the non-capture list is an
    under-promotion (rook, bishop or knight), whether it captures or not;
    so queen promotions are only in the first list and under-promotions
    only in the second. *)
Theorem captures_noncaptures_partition (pos : Position) :
  is_ok pos = true ->
  (forall m, In m (generate_captures pos) -> ~ In m (generate_noncaptures pos))
  /\ NoDup (generate_captures pos ++ generate_noncaptures pos)
  /\ (forall m, In m (generate_captures pos ++ generate_noncaptures pos)
                <-> pseudo_legal pos m)
  /\ (forall m, pseudo_legal pos m ->
                count_occ Move_eq_dec
                          (generate_captures pos ++ generate_noncaptures pos) m = 1%nat)
  /\ (forall m pt, In m (generate_captures pos) ->
                   move_promotion m = Some pt -> pt = QUEEN)
  /\ (forall m pt, In m (generate_noncaptures pos) ->
                   move_promotion m = Some pt -> pt = ROOK \/ pt = BISHOP \/ pt = KNIGHT)
  /\ (forall m pt, pseudo_legal pos m -> move_promotion m = Some pt ->
                   if PieceType_eqb pt QUEEN
                   then In m (generate_captures pos)
                   else In m (generate_noncaptures pos)).
Proof.
  intros Hok.
  pose proof (pseudo_legal_moves_NoDup pos Hok) as Hnd.
  assert (Hiff : forall m, In m (generate_captures pos ++ generate_noncaptures pos)
                           <-> pseudo_legal pos m).
  { intros m. split; [apply pseudo_legal_sound|apply pseudo_legal_complete]; assumption. }
  split.
  { intros m Hc Hn. apply in_split in Hc. destruct Hc as [l1 [l2 E]]. rewrite E in Hnd.
    rewrite <- app_assoc in Hnd. apply NoDup_app_remove_l in Hnd.
    simpl in Hnd. inversion Hnd as [|? ? Hnotin _]; subst.
    apply Hnotin. apply in_or_app. right. assumption. }
  split; [assumption|]. split; [assumption|].
  split.
  { intros m Hpl. apply (proj1 (NoDup_count_occ' Move_eq_dec _) Hnd). apply Hiff. assumption. }
  split; [intros m pt; apply captures_promote_to_queen; assumption|].
  split; [intros m pt; apply noncaptures_underpromote; assumption|].
  intros m pt Hpl Hpt. apply Hiff in Hpl. apply in_app_iff in Hpl.
  destruct (PieceType_eqb pt QUEEN) eqn:Eq.
  - apply PieceType_eqb_eq in Eq. subst pt. destruct Hpl as [H|H]; [assumption|].
    destruct (noncaptures_underpromote pos m QUEEN Hok H Hpt) as [E|[E|E]]; discriminate.
  - destruct Hpl as [H|H]; [|assumption].
    rewrite (captures_promote_to_queen pos m pt Hok H Hpt) in Eq. discriminate.
Qed.

Lemma captures_noncaptures_partition_witness :
  is_ok pos_start = true
  /\ NoDup (generate_captures pos_start ++ generate_noncaptures pos_start).
Proof.
  assert (Hok : is_ok pos_start = true) by (vm_compute; reflexivity).
  split; [exact Hok|].
  exact (proj1 (proj2 (captures_noncaptures_partition pos_start Hok))).
Defined.

Lemma not_pinned_bit b pinned s :
  bb_ok b -> Z.testbit (b & ~~ pinned) s = true -> Z.testbit pinned s = false.
Proof.
  intros Hb H. apply bit_and_iff in H. destruct H as [H1 H2].
  apply bit_not_any_iff in H2; [assumption|]. eapply bb_ok_bit_range; eassumption.
Qed.

Lemma capture_checker_answer pos us ksq checksq pinned m :
  In m (evasions_capture_checker pos us checksq pinned) ->
  evasion_answer pos ksq checksq pinned m.
Proof.
  unfold evasions_capture_checker. rewrite !in_app_iff.
  intros [H|[H|[H|H]]].
  - apply emit_In in H; [|bb_ok_tac]. destruct H as [s [Hs Hm]].
    apply not_pinned_bit in Hs; [|bb_ok_tac].
    destruct (relative_rank us checksq =? RANK_8).
    + simpl in Hm. destruct Hm as [<-|[<-|[<-|[<-|[]]]]]; (split; [exact Hs|left; reflexivity]).
    + destruct Hm as [<-|[]]. split; [exact Hs|left; reflexivity].
  - apply emit1_In in H; [|bb_ok_tac]. destruct H as [s [Hs ->]].
    apply not_pinned_bit in Hs; [|bb_ok_tac]. split; [exact Hs|left; reflexivity].
  - apply emit1_In in H; [|bb_ok_tac]. destruct H as [s [Hs ->]].
    apply not_pinned_bit in Hs; [|bb_ok_tac]. split; [exact Hs|left; reflexivity].
  - apply emit1_In in H; [|bb_ok_tac]. destruct H as [s [Hs ->]].
    apply not_pinned_bit in Hs; [|bb_ok_tac]. split; [exact Hs|left; reflexivity].
Qed.

Lemma block_piece_answer pos ksq checksq b1 pinned attacks m :
  bb_ok b1 -> (forall s, bb_ok (attacks s)) ->
  In m (evasions_block_piece (b1 & ~~ pinned) attacks (squares_between checksq ksq)) ->
  evasion_answer pos ksq checksq pinned m.
Proof.
  intros Hb Hok H. unfold evasions_block_piece in H.
  apply emit_In in H; [|bb_ok_tac]. destruct H as [from [Hfrom Hm]].
  apply emit1_In in Hm; [|apply bb_and_ok_l, Hok]. destruct Hm as [to [Hto ->]].
  apply not_pinned_bit in Hfrom; [|assumption].
  apply bit_and_iff in Hto. destruct Hto as [_ Hto].
  split; [exact Hfrom|]. right. left. exact Hto.
Qed.

Lemma block_pawn_answer pos us ksq checksq pinned m :
  In m (evasions_block_pawn pos us pinned (squares_between checksq ksq)) ->
  evasion_answer pos ksq checksq pinned m.
Proof.
  unfold evasions_block_pawn. destruct us; rewrite in_app_iff; intros [H|H].
  - apply emit_In in H; [|bb_ok_tac]. destruct H as [to [Hto Hm]].
    apply bit_and_iff in Hto. destruct Hto as [Hfrom Hto].
    apply bit_shl_iff in Hfrom; [|lia]. destruct Hfrom as [Hfrom _].
    apply not_pinned_bit in Hfrom; [|bb_ok_tac].
    destruct (square_rank to =? RANK_8).
    + simpl in Hm. destruct Hm as [<-|[<-|[<-|[<-|[]]]]];
        (split; [exact Hfrom|right; left; exact Hto]).
    + destruct Hm as [<-|[]]. split; [exact Hfrom|right; left; exact Hto].
  - apply emit1_In in H; [|bb_ok_tac]. destruct H as [to [Hto ->]].
    apply bit_and_iff in Hto. destruct Hto as [Hfrom Hto].
    apply bit_shl_iff in Hfrom; [|lia]. destruct Hfrom as [Hfrom _].
    rewrite !bit_and_iff in Hfrom. destruct Hfrom as [[Hfrom _] _].
    apply bit_shl_iff in Hfrom; [|lia]. destruct Hfrom as [Hfrom _].
    apply not_pinned_bit in Hfrom; [|bb_ok_tac].
    split; [exact Hfrom|right; left; exact Hto].
  - apply emit_In in H; [|bb_ok_tac]. destruct H as [to [Hto Hm]].
    apply bit_and_iff in Hto. destruct Hto as [Hfrom Hto].
    apply bit_shr_iff in Hfrom. destruct Hfrom as [Hfrom _].
    apply not_pinned_bit in Hfrom; [|bb_ok_tac].
    assert (E : to - DELTA_S = to + 8) by (unfold DELTA_S; lia).
    destruct (square_rank to =? RANK_1).
    + simpl in Hm. destruct Hm as [<-|[<-|[<-|[<-|[]]]]];
        (split; [cbn [move_from make_promotion_move]; rewrite E; exact Hfrom
                |right; left; exact Hto]).
    + destruct Hm as [<-|[]].
      split; [cbn [move_from make_move]; rewrite E; exact Hfrom|right; left; exact Hto].
  - apply emit1_In in H; [|bb_ok_tac]. destruct H as [to [Hto ->]].
    apply bit_and_iff in Hto. destruct Hto as [Hfrom Hto].
    apply bit_shr_iff in Hfrom. destruct Hfrom as [Hfrom _].
    rewrite !bit_and_iff in Hfrom. destruct Hfrom as [[Hfrom _] _].
    apply bit_shr_iff in Hfrom. destruct Hfrom as [Hfrom _].
    apply not_pinned_bit in Hfrom; [|bb_ok_tac].
    assert (E : to - DELTA_S - DELTA_S = to + 8 + 8) by (unfold DELTA_S; lia).
    split; [cbn [move_from make_move]; rewrite E; exact Hfrom|right; left; exact Hto].
Qed.

Lemma evasions_block_answer pos us ksq checksq pinned m :
  In m (evasions_block pos us ksq checksq pinned) ->
  evasion_answer pos ksq checksq pinned m.
Proof.
  unfold evasions_block. destruct (negb _); [|intros []].
  rewrite !in_app_iff. intros [H|[H|[H|[H|H]]]].
  - eapply block_pawn_answer; eassumption.
  - eapply block_piece_answer; [| |exact H]; [bb_ok_tac|intros; bb_ok_tac].
  - eapply block_piece_answer; [| |exact H]; [bb_ok_tac|intros; bb_ok_tac].
  - eapply block_piece_answer; [| |exact H]; [bb_ok_tac|intros; bb_ok_tac].
  - eapply block_piece_answer; [| |exact H]; [bb_ok_tac|intros; bb_ok_tac].
Qed.

Lemma evasions_ep_answer pos us ksq checksq pinned m :
  In m (evasions_ep pos us ksq checksq pinned) ->
  evasion_answer pos ksq checksq pinned m.
Proof.
  intros H. apply evasions_ep_In in H. destruct H as [_ [_ [from [-> [Hfrom _]]]]].
  apply not_pinned_bit in Hfrom; [|bb_ok_tac].
  split; [exact Hfrom|]. right. right. split; reflexivity.
Qed.

(** The anatomy of the evasion list: a move is a step of the king to a
    square next to it that holds no piece of his own side, or -- only
    when a single piece gives check -- a move of a piece outside [pinned]
    that takes the checker, interposes on [squares_between(checksq, ksq)]
    or takes en passant. *)
Theorem generate_evasions_anatomy (pos : Position) (m : Move) :
  let us := side_to_move pos in
  let ksq := king_square pos us in
  let checksq := first_1 (checkers pos) in
  In m (generate_evasions pos) ->
  (m = make_move ksq (move_to m)
   /\ Z.testbit (king_attacks ksq) (move_to m) = true
   /\ color_of_piece_on pos (move_to m) <> Some us)
  \/ (checkers pos & (checkers pos - 1) = 0
      /\ evasion_answer pos ksq checksq (pinned_pieces pos us) m).
Proof.
  intros us ksq checksq H. unfold generate_evasions in H. fold us in H. fold ksq in H.
  apply in_app_iff in H. destruct H as [H|H].
  - left. apply evasions_king_In in H. destruct H as [to [-> [Hto _]]].
    apply bit_and_iff in Hto. destruct Hto as [Hk Hown]. cbn [move_to make_move].
    split; [reflexivity|]. split; [exact Hk|].
    pose proof (bb_ok_bit_range _ _ (king_attacks_bb_ok ksq) Hk) as Hr.
    apply bit_not_any_iff in Hown; [|assumption].
    intros Hc. assert (Hb : Z.testbit (pieces_of_color pos us) to = true)
      by (apply pieces_of_color_bit; split; assumption).
    congruence.
  - right. destruct (Z.eqb_spec (checkers pos & (checkers pos - 1)) 0) as [E|E];
      [|destruct H].
    split; [exact E|]. fold checksq in H. rewrite !in_app_iff in H.
    destruct H as [H|[H|H]].
    + eapply capture_checker_answer; eassumption.
    + eapply evasions_block_answer; eassumption.
    + eapply evasions_ep_answer; eassumption.
Qed.

(** In double check ([checkers] has more than one bit) the evasion
    generator writes king moves only: every move is a normal move that
    starts on the king square. *)
Theorem generate_evasions_double_check (pos : Position) (m : Move) :
  checkers pos & (checkers pos - 1) <> 0 ->
  In m (generate_evasions pos) ->
  m = make_move (king_square pos (side_to_move pos)) (move_to m).
Proof.
  intros Hd H. unfold generate_evasions in H.
  apply in_app_iff in H. destruct H as [H|H].
  - apply evasions_king_In in H. destruct H as [to [-> _]]. reflexivity.
  - destruct (Z.eqb_spec (checkers pos & (checkers pos - 1)) 0) as [E|E];
      [contradiction|destruct H].
Qed.

Lemma generate_evasions_double_check_witness :
  checkers pos_double_check & (checkers pos_double_check - 1) <> 0
  /\ In (make_move 4 5) (generate_evasions pos_double_check)
  /\ make_move 4 5 = make_move (king_square pos_double_check (side_to_move pos_double_check))
                               (move_to (make_move 4 5)).
Proof.
  assert (Hd : checkers pos_double_check & (checkers pos_double_check - 1) <> 0)
    by (vm_compute; discriminate).
  assert (Hin : In (make_move 4 5) (generate_evasions pos_double_check))
    by (vm_compute; auto).
  split; [exact Hd|]. split; [exact Hin|].
  exact (generate_evasions_double_check pos_double_check (make_move 4 5) Hd Hin).
Defined.

Lemma not_us_is_them (o : option Color) us :
  o <> None -> o <> Some us -> o = Some (opposite_color us).
Proof. destruct o as [[|]|], us; simpl; congruence. Qed.

Lemma not_empty_color pos s :
  square_is_empty pos s = false -> color_of_piece_on pos s <> None.
Proof.
  unfold square_is_empty, color_of_piece_on.
  destruct (piece_on pos s); simpl; [discriminate|discriminate].
Qed.

Lemma delta_class_push us from : delta_class (from + pawn_push us - from) = 3.
Proof.
  destruct us.
  - replace (from + _ - from) with (pawn_push WHITE) by lia. reflexivity.
  - replace (from + _ - from) with (pawn_push BLACK) by lia. reflexivity.
Qed.

Lemma delta_class_double us from : delta_class (from + 2 * pawn_push us - from) = 4.
Proof.
  destruct us.
  - replace (from + _ - from) with (2 * pawn_push WHITE) by lia. reflexivity.
  - replace (from + _ - from) with (2 * pawn_push BLACK) by lia. reflexivity.
Qed.

(** What the capture generator writes: an en passant capture, a queen
    promotion, or a normal move that lands on a piece of the other side. *)
Theorem generate_captures_anatomy (pos : Position) (m : Move) :
  is_ok pos = true ->
  In m (generate_captures pos) ->
  move_kind m = MK_EP
  \/ move_kind m = MK_PROMOTION QUEEN
  \/ (move_kind m = MK_NORMAL
      /\ color_of_piece_on pos (move_to m) = Some (opposite_color (side_to_move pos))).
Proof.
  intros Hok Hin.
  pose proof (tagged_blocks_tag _ _ _ m (generate_captures_blocks pos Hok) Hin) as Htag.
  pose proof (pseudo_legal_sound pos m Hok (in_or_app _ _ _ (or_introl Hin))) as Hpl.
  pose proof (captures_promote_to_queen pos m) as Hq. unfold move_promotion in Hq.
  unfold move_tag in Htag. cbv zeta in Htag.
  unfold pseudo_legal in Hpl. cbv zeta in Hpl.
  pose proof (delta_class_range (move_to m - move_from m)) as Hd.
  destruct Hpl as [_ [_ Hpl]].
  destruct (move_kind m) as [|pt| | |].
  - right. right. split; [reflexivity|].
    destruct (piece_on pos (move_from m)) as [|c pt] eqn:Hp; [destruct Hpl|].
    assert (Hfull :
      (pt = PAWN /\ (pawn_push_ok pos (side_to_move pos) (move_from m) (move_to m)
                     \/ pawn_double_ok pos (side_to_move pos) (move_from m) (move_to m)
                     \/ pawn_capture_ok pos (side_to_move pos) (move_from m) (move_to m)))
      \/ (pt <> PAWN /\ color_of_piece_on pos (move_to m) <> Some (side_to_move pos))).
    { destruct pt; [left; split; [reflexivity|apply Hpl]|..];
        (right; split; [discriminate|apply Hpl]). }
    clear Hpl. destruct Hfull as [[-> [Hpush|[Hdbl|Hcap]]]|[Hpt Hcol]].
    + exfalso. destruct Hpush as [E _]. rewrite E, delta_class_push in Htag.
      destruct (side_to_move pos);
        cbv beta iota zeta delta [In captures_tags app piece_tag] in Htag; lia.
    + exfalso. destruct Hdbl as [E _]. rewrite E, delta_class_double in Htag.
      destruct (side_to_move pos);
        cbv beta iota zeta delta [In captures_tags app piece_tag] in Htag; lia.
    + apply Hcap.
    + apply not_us_is_them; [|assumption]. apply not_empty_color.
      destruct (square_is_empty pos (move_to m)); [exfalso|reflexivity].
      destruct pt; try contradiction; destruct (side_to_move pos);
        cbv beta iota zeta delta [In captures_tags app piece_tag] in Htag; lia.
  - right. left. rewrite (Hq pt Hok Hin eq_refl). reflexivity.
  - left. reflexivity.
  - exfalso. destruct (side_to_move pos);
      cbv beta iota zeta delta [In captures_tags app piece_tag] in Htag; lia.
  - exfalso. destruct (side_to_move pos);
      cbv beta iota zeta delta [In captures_tags app piece_tag] in Htag; lia.
Qed.

Lemma generate_captures_anatomy_witness :
  is_ok pos_middle = true
  /\ In (make_move 35 42) (generate_captures pos_middle)
  /\ (move_kind (make_move 35 42) = MK_EP
      \/ move_kind (make_move 35 42) = MK_PROMOTION QUEEN
      \/ (move_kind (make_move 35 42) = MK_NORMAL
          /\ color_of_piece_on pos_middle (move_to (make_move 35 42))
             = Some (opposite_color (side_to_move pos_middle)))).
Proof.
  assert (Hok : is_ok pos_middle = true) by (vm_compute; reflexivity).
  assert (Hin : In (make_move 35 42) (generate_captures pos_middle)) by (vm_compute; auto).
  split; [exact Hok|]. split; [exact Hin|].
  exact (generate_captures_anatomy pos_middle (make_move 35 42) Hok Hin).
Defined.

Lemma delta_class_capture pos us from to :
  0 <= from < 64 -> 0 <= to < 64 ->
  pawn_capture_ok pos us from to -> 1 <= delta_class (to - from) <= 2.
Proof.
  intros Hf Ht H.
  assert (E : to - from = 9 \/ to - from = 7 \/ to - from = -7 \/ to - from = -9).
  { destruct us.
    - apply pawn_capture_ok_white_inv in H; [|assumption..]. lia.
    - apply pawn_capture_ok_black_inv in H; [|assumption..]. lia. }
  destruct E as [E | [E | [E | E]]]; rewrite E; cbv; split; discriminate.
Qed.

(** What the non-capture generator writes: a castle, an under-promotion
    (to rook, bishop or knight, capturing or not), or a normal move onto
    an empty square. *)
Theorem generate_noncaptures_anatomy (pos : Position) (m : Move) :
  is_ok pos = true ->
  In m (generate_noncaptures pos) ->
  (move_kind m = MK_SHORT_CASTLE \/ move_kind m = MK_LONG_CASTLE)
  \/ (exists pt, move_kind m = MK_PROMOTION pt /\ (pt = ROOK \/ pt = BISHOP \/ pt = KNIGHT))
  \/ (move_kind m = MK_NORMAL /\ square_is_empty pos (move_to m) = true).
Proof.
  intros Hok Hin.
  pose proof (tagged_blocks_tag _ _ _ m (generate_noncaptures_blocks pos Hok) Hin) as Htag.
  pose proof (pseudo_legal_sound pos m Hok (in_or_app _ _ _ (or_intror Hin))) as Hpl.
  pose proof (noncaptures_underpromote pos m) as Hq. unfold move_promotion in Hq.
  unfold move_tag in Htag. cbv zeta in Htag.
  unfold pseudo_legal in Hpl. cbv zeta in Hpl.
  destruct Hpl as [Hfr [Hto Hpl]].
  destruct (move_kind m) as [|pt| | |].
  - right. right. split; [reflexivity|].
    destruct (piece_on pos (move_from m)) as [|c pt] eqn:Hp; [destruct Hpl|].
    assert (Hfull :
      (pt = PAWN /\ (pawn_push_ok pos (side_to_move pos) (move_from m) (move_to m)
                     \/ pawn_double_ok pos (side_to_move pos) (move_from m) (move_to m)
                     \/ pawn_capture_ok pos (side_to_move pos) (move_from m) (move_to m)))
      \/ pt <> PAWN).
    { destruct pt; [left; split; [reflexivity|apply Hpl]|..]; (right; discriminate). }
    clear Hpl. destruct Hfull as [[-> [Hpush|[Hdbl|Hcap]]]|Hpt].
    + apply Hpush.
    + apply Hdbl.
    + exfalso. apply delta_class_capture in Hcap; [|assumption..].
      destruct (side_to_move pos);
        cbv beta iota zeta delta [In noncaptures_tags app piece_tag] in Htag; lia.
    + destruct (square_is_empty pos (move_to m)); [reflexivity|exfalso].
      destruct pt; try contradiction; destruct (side_to_move pos);
        cbv beta iota zeta delta [In noncaptures_tags app piece_tag] in Htag; lia.
  - right. left. exists pt. split; [reflexivity|]. exact (Hq pt Hok Hin eq_refl).
  - exfalso. destruct (side_to_move pos);
      cbv beta iota zeta delta [In noncaptures_tags app piece_tag] in Htag; lia.
  - left. left. reflexivity.
  - left. right. reflexivity.
Qed.

Lemma generate_noncaptures_anatomy_witness :
  is_ok pos_middle = true
  /\ In (make_promotion_move 48 57 KNIGHT) (generate_noncaptures pos_middle)
  /\ ((move_kind (make_promotion_move 48 57 KNIGHT) = MK_SHORT_CASTLE
       \/ move_kind (make_promotion_move 48 57 KNIGHT) = MK_LONG_CASTLE)
      \/ (exists pt, move_kind (make_promotion_move 48 57 KNIGHT) = MK_PROMOTION pt
                     /\ (pt = ROOK \/ pt = BISHOP \/ pt = KNIGHT))
      \/ (move_kind (make_promotion_move 48 57 KNIGHT) = MK_NORMAL
          /\ square_is_empty pos_middle (move_to (make_promotion_move 48 57 KNIGHT)) = true)).
Proof.
  assert (Hok : is_ok pos_middle = true) by (vm_compute; reflexivity).
  assert (Hin : In (make_promotion_move 48 57 KNIGHT) (generate_noncaptures pos_middle))
    by (vm_compute; auto 40).
  split; [exact Hok|]. split; [exact Hin|].
  exact (generate_noncaptures_anatomy pos_middle (make_promotion_move 48 57 KNIGHT) Hok Hin).
Defined.

(** A pseudo-legal normal move onto an empty square is written by the
    non-capture generator. *)
Lemma quiet_move_in_noncaptures pos m :
  is_ok pos = true -> pseudo_legal pos m -> move_kind m = MK_NORMAL ->
  square_is_empty pos (move_to m) = true -> In m (generate_noncaptures pos).
Proof.
  intros Hok Hpl Hk He.
  pose proof (pseudo_legal_complete pos m Hok Hpl) as Hin.
  apply in_app_iff in Hin. destruct Hin as [Hin|Hin]; [exfalso|exact Hin].
  pose proof (tagged_blocks_tag _ _ _ m (generate_captures_blocks pos Hok) Hin) as Htag.
  unfold move_tag in Htag. cbv zeta in Htag.
  unfold pseudo_legal in Hpl. cbv zeta in Hpl. destruct Hpl as [Hfr [Hto Hpl]].
  rewrite Hk, He in *.
  destruct (piece_on pos (move_from m)) as [|c pt] eqn:Hp; [destruct Hpl|].
  assert (Hfull :
    (pt = PAWN /\ (pawn_push_ok pos (side_to_move pos) (move_from m) (move_to m)
                   \/ pawn_double_ok pos (side_to_move pos) (move_from m) (move_to m)
                   \/ pawn_capture_ok pos (side_to_move pos) (move_from m) (move_to m)))
    \/ pt <> PAWN).
  { destruct pt; [left; split; [reflexivity|apply Hpl]|..]; (right; discriminate). }
  clear Hpl. destruct Hfull as [[-> [Hpush|[Hdbl|Hcap]]]|Hpt].
  - destruct Hpush as [E _]. rewrite E, delta_class_push in Htag.
    destruct (side_to_move pos);
      cbv beta iota zeta delta [In captures_tags app piece_tag] in Htag; lia.
  - destruct Hdbl as [E _]. rewrite E, delta_class_double in Htag.
    destruct (side_to_move pos);
      cbv beta iota zeta delta [In captures_tags app piece_tag] in Htag; lia.
  - destruct Hcap as [_ Hc]. unfold color_of_piece_on in Hc.
    unfold square_is_empty in He. apply Piece_eqb_eq in He. rewrite He in Hc. discriminate.
  - destruct pt; try contradiction; destruct (side_to_move pos);
      cbv beta iota zeta delta [In captures_tags app piece_tag] in Htag; lia.
Qed.

Lemma checks_white_pawn_quiet pos ksq dc m :
  side_to_move pos = WHITE -> 0 <= ksq < 64 ->
  In m (checks_white_pawn_discovered pos ksq dc (empty_squares pos)
        ++ checks_white_pawn_direct_single pos ksq dc (empty_squares pos)
        ++ checks_white_pawn_direct_double pos ksq dc (empty_squares pos)) ->
  quiet_pseudo_legal pos m.
Proof.
  intros Hstm Hk H.
  unfold checks_white_pawn_discovered, checks_white_pawn_direct_single,
    checks_white_pawn_direct_double in H. cbv zeta in H.
  rewrite !in_app_iff in H. unfold quiet_pseudo_legal.
  destruct H as [[H|H]|[H|H]].
  - pawn_block Hstm H to Hto. split; [|split; [reflexivity|assumption]]. pl_pawn Hstm.
    split; [lia|]. split; [lia|].
    split; [reflexivity|]. split; [sq_arith|]. left. split; [sq_arith|assumption].
  - pawn_block Hstm H to Hto. split; [|split; [reflexivity|assumption]]. pl_pawn Hstm.
    split; [lia|]. split; [lia|].
    split; [reflexivity|]. split; [sq_arith|]. right. left.
    split; [sq_arith|]. split; [sq_arith|].
    unfold pawn_push. replace (to - 8 - 8 + DELTA_N) with (to - 8) by (unfold DELTA_N; lia).
    split; assumption.
  - pawn_block Hstm H to Hto. split; [|split; [reflexivity|assumption]].
    unfold black_pawn_attacks in *.
    match goal with Ha : Z.testbit (pawn_attacks_bb BLACK ksq) to = true |- _ =>
      apply bit_pawn_attacks in Ha; [|assumption]; destruct Ha as [_ Ha];
      apply pawn_attack_arith_black in Ha end.
    pl_pawn Hstm.
    split; [lia|]. split; [lia|].
    split; [reflexivity|]. split; [sq_arith|]. left. split; [sq_arith|assumption].
  - pawn_block Hstm H to Hto. split; [|split; [reflexivity|assumption]]. pl_pawn Hstm.
    split; [lia|]. split; [lia|].
    split; [reflexivity|]. split; [sq_arith|]. right. left.
    split; [sq_arith|]. split; [sq_arith|].
    unfold pawn_push. replace (to - 8 - 8 + DELTA_N) with (to - 8) by (unfold DELTA_N; lia).
    split; assumption.
Qed.

Lemma checks_black_pawn_quiet pos ksq dc m :
  side_to_move pos = BLACK -> 0 <= ksq < 64 ->
  In m (checks_black_pawn_discovered pos ksq dc (empty_squares pos)
        ++ checks_black_pawn_direct_single pos ksq dc (empty_squares pos)
        ++ checks_black_pawn_direct_double pos ksq dc (empty_squares pos)) ->
  quiet_pseudo_legal pos m.
Proof.
  intros Hstm Hk H.
  unfold checks_black_pawn_discovered, checks_black_pawn_direct_single,
    checks_black_pawn_direct_double in H. cbv zeta in H.
  rewrite !in_app_iff in H. unfold quiet_pseudo_legal.
  destruct H as [[H|H]|[H|H]].
  - pawn_block Hstm H to Hto. split; [|split; [reflexivity|assumption]]. pl_pawn_b Hstm.
    split; [lia|]. split; [lia|].
    split; [reflexivity|]. split; [sq_arith|]. left. split; [sq_arith|assumption].
  - pawn_block Hstm H to Hto. split; [|split; [reflexivity|assumption]]. pl_pawn_b Hstm.
    split; [lia|]. split; [lia|].
    split; [reflexivity|]. split; [sq_arith|]. right. left.
    split; [sq_arith|]. split; [sq_arith|].
    unfold pawn_push. replace (to + 8 + 8 + DELTA_S) with (to + 8) by (unfold DELTA_S; lia).
    split; assumption.
  - pawn_block Hstm H to Hto. split; [|split; [reflexivity|assumption]].
    unfold white_pawn_attacks in *.
    match goal with Ha : Z.testbit (pawn_attacks_bb WHITE ksq) to = true |- _ =>
      apply bit_pawn_attacks in Ha; [|assumption]; destruct Ha as [_ Ha];
      apply pawn_attack_arith_white in Ha end.
    pl_pawn_b Hstm.
    split; [lia|]. split; [lia|].
    split; [reflexivity|]. split; [sq_arith|]. left. split; [sq_arith|assumption].
  - pawn_block Hstm H to Hto. split; [|split; [reflexivity|assumption]]. pl_pawn_b Hstm.
    split; [lia|]. split; [lia|].
    split; [reflexivity|]. split; [sq_arith|]. right. left.
    split; [sq_arith|]. split; [sq_arith|].
    unfold pawn_push. replace (to + 8 + 8 + DELTA_S) with (to + 8) by (unfold DELTA_S; lia).
    split; assumption.
Qed.

Lemma quiet_piece_move pos pce from to :
  pce <> PAWN ->
  Z.testbit (pieces_of_color_and_type pos (side_to_move pos) pce) from = true ->
  Z.testbit (piece_attacks_fn pos pce from) to = true ->
  Z.testbit (empty_squares pos) to = true ->
  quiet_pseudo_legal pos (make_move from to).
Proof.
  intros Hpce Hfrom Ha He. apply piece_bit in Hfrom. destruct Hfrom as [Hfr Hp].
  split; [|split; [reflexivity|apply empty_bit in He; apply He]].
  apply (piece_move_pseudo_legal pos from to pce (empty_squares pos)); try assumption.
  right. reflexivity.
Qed.

Lemma checks_piece_quiet pos pce ksq dc m :
  pce <> PAWN ->
  In m (checks_piece (pieces_of_color_and_type pos (side_to_move pos) pce)
                     (piece_attacks_fn pos pce) ksq dc (empty_squares pos)) ->
  quiet_pseudo_legal pos m.
Proof.
  intros Hpce H. unfold checks_piece in H. destruct (negb _); [|destruct H].
  apply in_app_iff in H. destruct H as [H|H].
  - apply emit_In in H; [|bb_ok_tac]. destruct H as [from [Hfrom H]].
    apply emit1_In in H; [|apply bb_and_ok_l, piece_attacks_fn_ok].
    destruct H as [to [Hto ->]].
    apply bit_and_iff in Hfrom. destruct Hfrom as [Hfrom _].
    apply bit_and_iff in Hto. destruct Hto as [Ha He].
    apply (quiet_piece_move pos pce); assumption.
  - cbv zeta in H. apply emit_In in H; [|bb_ok_tac]. destruct H as [from [Hfrom H]].
    apply emit1_In in H; [|apply bb_and_ok_l, piece_attacks_fn_ok].
    destruct H as [to [Hto ->]].
    apply bit_and_iff in Hfrom. destruct Hfrom as [Hfrom _].
    rewrite !bit_and_iff in Hto. destruct Hto as [Ha [_ He]].
    apply (quiet_piece_move pos pce); assumption.
Qed.

Lemma checks_queen_quiet pos ksq m :
  In m (checks_queen pos (queens pos (side_to_move pos)) ksq (empty_squares pos)) ->
  quiet_pseudo_legal pos m.
Proof.
  intros H. unfold checks_queen in H. destruct (negb _); [|destruct H].
  cbv zeta in H. apply emit_In in H; [|bb_ok_tac]. destruct H as [from [Hfrom H]].
  apply emit1_In in H; [|apply bb_and_ok_l; bb_ok_tac].
  destruct H as [to [Hto ->]].
  rewrite !bit_and_iff in Hto. destruct Hto as [Ha [_ He]].
  apply (quiet_piece_move pos QUEEN); [discriminate|assumption..].
Qed.

Lemma checks_king_quiet pos ksq dc m :
  is_ok pos = true ->
  In m (checks_king pos (side_to_move pos) ksq dc (empty_squares pos)) ->
  quiet_pseudo_legal pos m.
Proof.
  intros Hok H. unfold checks_king in H. cbv zeta in H.
  destruct (bit_is_set _ _); [|destruct H].
  apply emit1_In in H; [|bb_ok_tac]. destruct H as [to [Hto ->]].
  rewrite !bit_and_iff in Hto. destruct Hto as [[Ha He] _].
  destruct (is_ok_king pos (side_to_move pos) Hok) as [Hkr [Hking _]].
  apply (quiet_piece_move pos KING); [discriminate| |assumption..].
  apply piece_bit. split; assumption.
Qed.


(** Every move written by the check generator is also written by the
    non-capture generator: it is a normal move (neither a promotion, an
    en passant capture nor a castle) onto an empty square that obeys the
    movement rules. *)
Theorem generate_checks_in_noncaptures (pos : Position) (dc : Bitboard) (m : Move) :
  is_ok pos = true ->
  In m (generate_checks pos dc) ->
  In m (generate_noncaptures pos)
  /\ move_kind m = MK_NORMAL /\ square_is_empty pos (move_to m) = true.
Proof.
  intros Hok H.
  assert (Hq : quiet_pseudo_legal pos m).
  { unfold generate_checks in H. cbv zeta in H.
    destruct (is_ok_king pos (opposite_color (side_to_move pos)) Hok) as [Hkr _].
    rewrite !app_assoc in H. rewrite <- !app_assoc in H.
    apply in_app_iff in H. destruct H as [H|H];
      [|apply in_app_iff in H; destruct H as [H|H];
        [|apply in_app_iff in H; destruct H as [H|H]]].
    - destruct (side_to_move pos) eqn:Hstm.
      + eapply (checks_white_pawn_quiet pos _ _ m Hstm Hkr).
        apply in_or_app. left. exact H.
      + eapply (checks_black_pawn_quiet pos _ _ m Hstm Hkr).
        apply in_or_app. left. exact H.
    - destruct (side_to_move pos) eqn:Hstm.
      + eapply (checks_white_pawn_quiet pos _ _ m Hstm Hkr).
        apply in_or_app. right. apply in_or_app. left. exact H.
      + eapply (checks_black_pawn_quiet pos _ _ m Hstm Hkr).
        apply in_or_app. right. apply in_or_app. left. exact H.
    - destruct (side_to_move pos) eqn:Hstm.
      + eapply (checks_white_pawn_quiet pos _ _ m Hstm Hkr).
        apply in_or_app. right. apply in_or_app. right. exact H.
      + eapply (checks_black_pawn_quiet pos _ _ m Hstm Hkr).
        apply in_or_app. right. apply in_or_app. right. exact H.
    - rewrite !in_app_iff in H. destruct H as [H|[H|[H|[H|H]]]].
      + eapply (checks_piece_quiet pos KNIGHT _ _ m); [discriminate|exact H].
      + eapply (checks_piece_quiet pos BISHOP _ _ m); [discriminate|exact H].
      + eapply (checks_piece_quiet pos ROOK _ _ m); [discriminate|exact H].
      + eapply (checks_queen_quiet pos _ m). exact H.
      + eapply (checks_king_quiet pos _ _ m Hok). exact H. }
  destruct Hq as [Hpl [Hk He]].
  split; [|split; assumption].
  apply quiet_move_in_noncaptures; assumption.
Qed.

Lemma generate_checks_in_noncaptures_witness :
  is_ok pos_checks = true
  /\ In (make_move 28 45) (generate_checks pos_checks 0)
  /\ In (make_move 28 45) (generate_noncaptures pos_checks)
  /\ move_kind (make_move 28 45) = MK_NORMAL
  /\ square_is_empty pos_checks (move_to (make_move 28 45)) = true.
Proof.
  assert (Hok : is_ok pos_checks = true) by (vm_compute; reflexivity).
  assert (Hin : In (make_move 28 45) (generate_checks pos_checks 0)) by (vm_compute; auto).
  split; [exact Hok|]. split; [exact Hin|].
  exact (generate_checks_in_noncaptures pos_checks 0 (make_move 28 45) Hok Hin).
Defined.

Lemma Color_eqb_refl c : Color_eqb c c = true.
Proof. destruct c; reflexivity. Qed.

Lemma Color_eqb_opp c : Color_eqb (opposite_color c) c = false.
Proof. destruct c; reflexivity. Qed.

Lemma empty_piece pos s : square_is_empty pos s = true -> piece_on pos s = EMPTY.
Proof. unfold square_is_empty. apply Piece_eqb_eq. Qed.

Lemma color_eqb_of pos s c :
  color_of_piece_on pos s = Some c -> option_Color_eqb (color_of_piece_on pos s) c = true.
Proof. intros ->. apply Color_eqb_refl. Qed.

Lemma color_eqb_them pos s c :
  color_of_piece_on pos s = Some (opposite_color c) ->
  option_Color_eqb (color_of_piece_on pos s) c = false.
Proof. intros ->. apply Color_eqb_opp. Qed.

Lemma color_eqb_empty pos s c :
  square_is_empty pos s = true -> option_Color_eqb (color_of_piece_on pos s) c = false.
Proof. intros H. unfold color_of_piece_on. rewrite (empty_piece _ _ H). reflexivity. Qed.

Lemma color_eqb_not pos s c :
  color_of_piece_on pos s <> Some c -> option_Color_eqb (color_of_piece_on pos s) c = false.
Proof.
  intros H. destruct (color_of_piece_on pos s) as [c'|]; [|reflexivity].
  simpl. destruct (Color_eqb c' c) eqn:E; [|reflexivity].
  apply Color_eqb_eq in E. subst. contradiction.
Qed.

(** The pawn branch of the probe on a pseudo-legal pawn move. *)
Lemma probe_pawn_step pos us from to (promo : bool) :
  0 <= from < 64 -> 0 <= to < 64 ->
  (relative_rank us to = RANK_8 -> promo = true) ->
  pawn_push_ok pos us from to \/ pawn_double_ok pos us from to
  \/ pawn_capture_ok pos us from to ->
  option_Color_eqb (color_of_piece_on pos to) us = false
  /\ (((square_rank to =? RANK_8) && Color_eqb us WHITE)
      || ((square_rank to =? RANK_1) && negb (Color_eqb us WHITE))) && negb promo = false
  /\ (let delta := to - from in
      if (delta =? DELTA_NW) || (delta =? DELTA_NE)
         || (delta =? DELTA_SW) || (delta =? DELTA_SE) then
        option_Color_eqb (color_of_piece_on pos to) (opposite_color us)
      else if (delta =? DELTA_N) || (delta =? DELTA_S) then
        square_is_empty pos to
      else if delta =? DELTA_NN then
        negb (negb (square_rank to =? RANK_4)
              || negb (square_is_empty pos to)
              || negb (square_is_empty pos (from + DELTA_N)))
      else if delta =? DELTA_SS then
        negb (negb (square_rank to =? RANK_5)
              || negb (square_is_empty pos to)
              || negb (square_is_empty pos (from + DELTA_S)))
      else false) = true.
Proof.
  intros Hfr Hto Hpromo Hmove. split; [|split].
  - destruct Hmove as [[_ He]|[[_ [_ [_ He]]]|[_ Hc]]].
    + apply color_eqb_empty; assumption.
    + apply color_eqb_empty; assumption.
    + apply color_eqb_them; assumption.
  - destruct promo; [apply andb_false_r|]. rewrite andb_true_r.
    assert (Hrr : relative_rank us to <> RANK_8) by (intros E; specialize (Hpromo E); discriminate).
    destruct us; cbn [Color_eqb negb]; rewrite andb_true_r, andb_false_r.
    + rewrite orb_false_r. apply Z.eqb_neq. exact Hrr.
    + cbn [orb]. apply Z.eqb_neq. unfold relative_rank, RANK_8 in Hrr.
      unfold RANK_1. lia.
  - cbv zeta. destruct Hmove as [[E He]|[[E [Hr [He1 He2]]]|Hc]].
    + subst to. destruct us.
      * replace (from + pawn_push WHITE - from) with 8 by (unfold pawn_push, DELTA_N; lia).
        cbn. exact He.
      * replace (from + pawn_push BLACK - from) with (-8) by (unfold pawn_push, DELTA_S; lia).
        cbn. exact He.
    + subst to. destruct us.
      * replace (from + 2 * pawn_push WHITE - from) with 16
          by (unfold pawn_push, DELTA_N; lia).
        cbn [Z.eqb DELTA_NW DELTA_NE DELTA_SW DELTA_SE DELTA_N DELTA_S DELTA_NN Pos.eqb orb].
        unfold pawn_push in *. rewrite He1, He2. cbn [negb orb].
        rewrite !orb_false_r. rewrite negb_involutive. apply Z.eqb_eq. sq_arith.
      * replace (from + 2 * pawn_push BLACK - from) with (-16)
          by (unfold pawn_push, DELTA_S; lia).
        cbn [Z.eqb DELTA_NW DELTA_NE DELTA_SW DELTA_SE DELTA_N DELTA_S DELTA_NN DELTA_SS
             Pos.eqb orb].
        unfold pawn_push in *. rewrite He1, He2. cbn [negb orb].
        rewrite !orb_false_r. rewrite negb_involutive. apply Z.eqb_eq. sq_arith.
    + assert (E : to - from = 9 \/ to - from = 7 \/ to - from = -7 \/ to - from = -9).
      { destruct us.
        - apply pawn_capture_ok_white_inv in Hc; [|assumption..]. lia.
        - apply pawn_capture_ok_black_inv in Hc; [|assumption..]. lia. }
      destruct Hc as [_ Hc].
      destruct E as [E | [E | [E | E]]]; rewrite E; cbn; apply color_eqb_of; exact Hc.
Qed.


Lemma probe_castle_loops pos us from to kend rend :
  castle_rule pos us from to kend rend ->
  flag_loop (fun s => (negb (s =? from)) && (negb (s =? to))
                      && negb (square_is_empty pos s))
            (sq_range (Z.min to rend) (Z.max to rend))
    (flag_loop (fun s => ((negb (s =? from)) && (negb (s =? to))
                          && negb (square_is_empty pos s))
                         || square_is_attacked pos s (opposite_color us))
               (sq_range (Z.min from kend) (Z.max from kend)) false) = false.
Proof.
  intros H. apply castle_path_illegal_iff in H. exact H.
Qed.

Lemma probe_accepts_pseudo_legal pos m pinned :
  is_ok pos = true ->
  (move_kind m = MK_LONG_CASTLE -> queen_rook_home pos (side_to_move pos)) ->
  pseudo_legal pos m -> move_is_legal pos m = true ->
  generate_move_if_legal pos m pinned = m.
Proof.
  intros Hok Hhome Hpl Hlegal.
  destruct (is_ok_king pos (side_to_move pos) Hok) as [Hkr [Hking _]].
  unfold pseudo_legal in Hpl. cbv zeta in Hpl. destruct Hpl as [Hfr [Hto Hpl]].
  unfold generate_move_if_legal, move_is_ep, move_is_short_castle, move_is_long_castle,
    move_is_promotion, move_promotion. cbv zeta.
  destruct m as [from to kind]. cbn [move_from move_to move_kind] in *.
  destruct kind as [|pt| | |].
  - (* normal moves *)
    destruct (piece_on pos from) as [|c pc] eqn:Hp; [destruct Hpl|].
    assert (Hc : c = side_to_move pos) by (destruct pc; apply Hpl). subst c.
    cbn [color_of_piece type_of_piece option_Color_eqb option_PieceType_eqb].
    rewrite Color_eqb_refl. cbn [negb].
    destruct (PieceType_eqb pc PAWN) eqn:Epawn.
    + apply PieceType_eqb_eq in Epawn. subst pc. destruct Hpl as [_ [Hrr Hmove]].
      destruct (probe_pawn_step pos (side_to_move pos) from to false Hfr Hto) as [H1 [H2 H3]];
        [intros E; contradiction|exact Hmove|].
      cbv zeta in H3. rewrite H1. cbn [negb] in H2 |- *. rewrite H2, H3, Hlegal. reflexivity.
    + assert (Hk' : Z.testbit (piece_attacks_fn pos pc from) to = true
                    /\ color_of_piece_on pos to <> Some (side_to_move pos)).
      { destruct pc; try discriminate; apply Hpl. }
      destruct Hk' as [Ha Hcol]. rewrite (color_eqb_not _ _ _ Hcol).
      assert (Hatt : piece_attacks_square pos from to = true).
      { unfold piece_attacks_square. rewrite Hp.
        destruct pc; try discriminate; exact Ha. }
      rewrite Hatt, Hlegal. reflexivity.
  - (* promotions *)
    destruct Hpl as [Hp [_ [Hrr Hmove]]]. rewrite Hp.
    cbn [color_of_piece type_of_piece option_Color_eqb option_PieceType_eqb PieceType_eqb].
    rewrite Color_eqb_refl. cbn [negb].
    destruct (probe_pawn_step pos (side_to_move pos) from to true Hfr Hto) as [H1 [H2 H3]];
      [reflexivity|destruct Hmove as [H|H]; [left|right; right]; exact H|].
    cbv zeta in H3. rewrite H1. cbn [negb] in H2 |- *. rewrite H2, H3, Hlegal. reflexivity.
  - (* en passant *)
    destruct Hpl as [Hp [Hep _]]. rewrite Hp.
    cbn [color_of_piece type_of_piece option_Color_eqb option_PieceType_eqb PieceType_eqb].
    rewrite Color_eqb_refl. cbn [negb orb].
    replace (to =? ep_square pos) with true by (symmetry; apply Z.eqb_eq; exact Hep).
    cbn [negb]. rewrite Hlegal. reflexivity.
  - (* kingside castle *)
    destruct Hpl as [Hcan [Hfrom [_ Hrule]]]. subst from. rewrite Hking.
    cbn [color_of_piece type_of_piece option_Color_eqb option_PieceType_eqb PieceType_eqb].
    rewrite Color_eqb_refl, Hcan. cbn [negb orb].
    rewrite (probe_castle_loops _ _ _ _ _ _ Hrule). reflexivity.
  - (* queenside castle *)
    destruct Hpl as [Hcan [Hfrom [Hrsq [Hrule Hcorner]]]]. subst from. rewrite Hking.
    cbn [color_of_piece type_of_piece option_Color_eqb option_PieceType_eqb PieceType_eqb].
    rewrite Color_eqb_refl, Hcan. cbn [negb orb].
    rewrite (probe_castle_loops _ _ _ _ _ _ Hrule).
    assert (Hct : (square_file to =? FILE_B)
                  && (Piece_eqb (piece_on pos (to + DELTA_W))
                                (rook_of_color (opposite_color (side_to_move pos)))
                      || Piece_eqb (piece_on pos (to + DELTA_W))
                                   (queen_of_color (opposite_color (side_to_move pos))))
                  = false).
    { apply corner_test_iff. intros Hf.
      specialize (Hhome eq_refl Hcan). rewrite <- Hrsq in Hhome.
      replace (to + DELTA_W) with (relative_square (side_to_move pos) SQ_A1);
        [apply Hcorner; exact Hf|].
      clear - Hhome Hf Hto.
      destruct (side_to_move pos); unfold relative_square, SQ_A1 in *;
        [|change (Z.lxor 0 56) with 56 in *];
        unfold FILE_B, DELTA_W, square_file, square_rank in *;
        Z.div_mod_to_equations; lia. }
    rewrite Hct. reflexivity.
Qed.

Lemma generate_legal_moves_In pos m :
  is_check pos = false ->
  (In m (generate_legal_moves pos) <->
   In m (generate_captures pos ++ generate_noncaptures pos)
   /\ move_is_legal pos m = true).
Proof.
  intros Hc. unfold generate_legal_moves, move_is_legal. rewrite Hc. cbv zeta.
  set (legal := fun m => move_is_legal_pinned pos m (pinned_pieces pos (side_to_move pos))).
  set (l := generate_captures pos ++ generate_noncaptures pos).
  replace (length (generate_captures pos) + length (generate_noncaptures pos))%nat
    with (length l) by (unfold l; rewrite length_app; reflexivity).
  pose proof (compact_loop_filter legal l) as Hperm. cbv zeta in Hperm.
  destruct (compact_loop legal (length l) l 0 (length l)) as [ml n]. simpl in Hperm.
  split; intros H.
  - apply (filter_In legal). eapply Permutation_in; eassumption.
  - apply (filter_In legal) in H.
    eapply Permutation_in; [apply Permutation_sym|]; eassumption.
Qed.

(** The probe accepts every move of the legal move list: out of check,
    with the queen's rook on its first rank when the side may castle
    queenside, [generate_move_if_legal] returns [m] for every [m] that
    [generate_legal_moves] writes, whatever bitboard is passed as
    [pinned]. *)
Theorem generate_move_if_legal_accepts_legal_moves
        (pos : Position) (m : Move) (pinned : Bitboard) :
  is_ok pos = true -> is_check pos = false ->
  queen_rook_home pos (side_to_move pos) ->
  In m (generate_legal_moves pos) ->
  generate_move_if_legal pos m pinned = m.
Proof.
  intros Hok Hc Hhome Hin. apply generate_legal_moves_In in Hin; [|assumption].
  destruct Hin as [Hin Hlegal].
  apply probe_accepts_pseudo_legal; [assumption|intros _; assumption| |assumption].
  apply pseudo_legal_sound; assumption.
Qed.

Lemma generate_move_if_legal_accepts_legal_moves_witness :
  is_ok pos_start = true /\ is_check pos_start = false
  /\ queen_rook_home pos_start (side_to_move pos_start)
  /\ In (make_move 6 21) (generate_legal_moves pos_start)
  /\ generate_move_if_legal pos_start (make_move 6 21) 0 = make_move 6 21.
Proof.
  assert (Hok : is_ok pos_start = true) by (vm_compute; reflexivity).
  assert (Hc : is_check pos_start = false) by (vm_compute; reflexivity).
  assert (Hhome : queen_rook_home pos_start (side_to_move pos_start))
    by (intros _; vm_compute; reflexivity).
  assert (Hin : In (make_move 6 21) (generate_legal_moves pos_start))
    by (vm_compute; auto 30).
  split; [exact Hok|]. split; [exact Hc|]. split; [exact Hhome|]. split; [exact Hin|].
  exact (generate_move_if_legal_accepts_legal_moves pos_start (make_move 6 21) 0
           Hok Hc Hhome Hin).
Defined.

(** For the moves of knights, bishops, rooks, queens and the king the
    probe and the legal move list agree: out of check, a normal move
    other than the null move whose from-square holds such a piece is
    returned by [generate_move_if_legal] if and only if
    [generate_legal_moves] writes it. *)
Theorem generate_move_if_legal_piece_move_iff
        (pos : Position) (m : Move) (pinned : Bitboard) (c : Color) (pt : PieceType) :
  is_ok pos = true -> is_check pos = false ->
  0 <= move_from m < 64 ->
  piece_on pos (move_from m) = Pc c pt -> pt <> PAWN ->
  move_kind m = MK_NORMAL -> m <> MOVE_NONE ->
  (generate_move_if_legal pos m pinned = m <-> In m (generate_legal_moves pos)).
Proof.
  intros Hok Hc Hfr Hp Hpt Hk Hne. split.
  - intros H. apply generate_legal_moves_In; [assumption|].
    unfold generate_move_if_legal, move_is_ep, move_is_short_castle, move_is_long_castle,
      move_is_promotion, move_promotion in H. cbv zeta in H.
    rewrite Hk, Hp in H.
    cbn [color_of_piece type_of_piece option_Color_eqb option_PieceType_eqb] in H.
    destruct (Color_eqb c (side_to_move pos)) eqn:Ec; cbn [negb] in H;
      [|symmetry in H; contradiction].
    apply Color_eqb_eq in Ec. subst c.
    destruct (option_Color_eqb (color_of_piece_on pos (move_to m)) (side_to_move pos)) eqn:Eto;
      [symmetry in H; contradiction|].
    replace (PieceType_eqb pt PAWN) with false in H
      by (destruct pt; try reflexivity; contradiction).
    destruct (piece_attacks_square pos (move_from m) (move_to m)) eqn:Ea;
      [|symmetry in H; contradiction].
    destruct (move_is_legal pos m) eqn:El; [|symmetry in H; contradiction].
    split; [|reflexivity]. apply pseudo_legal_complete; [assumption|].
    assert (Ha : Z.testbit (piece_attacks_fn pos pt (move_from m)) (move_to m) = true).
    { unfold piece_attacks_square in Ea. rewrite Hp in Ea.
      destruct pt; try contradiction; exact Ea. }
    pose proof (bb_ok_bit_range _ _ (piece_attacks_fn_ok pos pt (move_from m)) Ha) as Hto.
    unfold pseudo_legal. cbv zeta. rewrite Hk, Hp.
    split; [assumption|]. split; [assumption|].
    assert (Hcol : color_of_piece_on pos (move_to m) <> Some (side_to_move pos)).
    { intros E. rewrite (color_eqb_of _ _ _ E) in Eto. discriminate. }
    destruct pt; try contradiction; (split; [reflexivity|split; assumption]).
  - intros H. apply generate_legal_moves_In in H; [|assumption].
    destruct H as [Hin Hlegal].
    apply probe_accepts_pseudo_legal;
      [assumption|intros E; rewrite Hk in E; discriminate| |assumption].
    apply pseudo_legal_sound; assumption.
Qed.

Lemma generate_move_if_legal_piece_move_iff_witness :
  is_ok pos_middle = true /\ is_check pos_middle = false
  /\ 0 <= move_from (make_move 21 36) < 64
  /\ piece_on pos_middle (move_from (make_move 21 36)) = Pc WHITE KNIGHT
  /\ KNIGHT <> PAWN
  /\ move_kind (make_move 21 36) = MK_NORMAL /\ make_move 21 36 <> MOVE_NONE
  /\ (generate_move_if_legal pos_middle (make_move 21 36) 0 = make_move 21 36
      <-> In (make_move 21 36) (generate_legal_moves pos_middle)).
Proof.
  assert (Hok : is_ok pos_middle = true) by (vm_compute; reflexivity).
  assert (Hc : is_check pos_middle = false) by (vm_compute; reflexivity).
  assert (Hfr : 0 <= move_from (make_move 21 36) < 64) by (simpl; lia).
  assert (Hp : piece_on pos_middle (move_from (make_move 21 36)) = Pc WHITE KNIGHT)
    by (vm_compute; reflexivity).
  assert (Hpt : KNIGHT <> PAWN) by discriminate.
  assert (Hk : move_kind (make_move 21 36) = MK_NORMAL) by reflexivity.
  assert (Hne : make_move 21 36 <> MOVE_NONE) by discriminate.
  split; [exact Hok|]. split; [exact Hc|]. split; [exact Hfr|]. split; [exact Hp|].
  split; [exact Hpt|]. split; [exact Hk|]. split; [exact Hne|].
  exact (generate_move_if_legal_piece_move_iff pos_middle (make_move 21 36) 0
           WHITE KNIGHT Hok Hc Hfr Hp Hpt Hk Hne).
Defined.


(** Out of check the legal move list holds no move twice. *)
Theorem generate_legal_moves_NoDup (pos : Position) :
  is_ok pos = true -> is_check pos = false -> NoDup (generate_legal_moves pos).
Proof.
  intros Hok Hc. unfold generate_legal_moves. rewrite Hc. cbv zeta.
  set (legal := fun m => move_is_legal_pinned pos m (pinned_pieces pos (side_to_move pos))).
  set (l := generate_captures pos ++ generate_noncaptures pos).
  replace (length (generate_captures pos) + length (generate_noncaptures pos))%nat
    with (length l) by (unfold l; rewrite length_app; reflexivity).
  pose proof (compact_loop_filter legal l) as Hperm. cbv zeta in Hperm.
  destruct (compact_loop legal (length l) l 0 (length l)) as [ml n]. simpl in Hperm.
  eapply Permutation_NoDup; [apply Permutation_sym; exact Hperm|].
  apply NoDup_filter. apply pseudo_legal_moves_NoDup. assumption.
Qed.

Lemma generate_legal_moves_NoDup_witness :
  is_ok pos_middle = true /\ is_check pos_middle = false
  /\ NoDup (generate_legal_moves pos_middle).
Proof.
  assert (Hok : is_ok pos_middle = true) by (vm_compute; reflexivity).
  assert (Hc : is_check pos_middle = false) by (vm_compute; reflexivity).
  split; [exact Hok|]. split; [exact Hc|].
  exact (generate_legal_moves_NoDup pos_middle Hok Hc).
Defined.

Lemma generate_evasions_anatomy_witness :
  In (make_move 16 20) (generate_evasions pos_block_check)
  /\ ((make_move 16 20
       = make_move (king_square pos_block_check (side_to_move pos_block_check))
                   (move_to (make_move 16 20))
       /\ Z.testbit (king_attacks (king_square pos_block_check (side_to_move pos_block_check)))
                    (move_to (make_move 16 20)) = true
       /\ color_of_piece_on pos_block_check (move_to (make_move 16 20))
          <> Some (side_to_move pos_block_check))
      \/ (checkers pos_block_check & (checkers pos_block_check - 1) = 0
          /\ evasion_answer pos_block_check
               (king_square pos_block_check (side_to_move pos_block_check))
               (first_1 (checkers pos_block_check))
               (pinned_pieces pos_block_check (side_to_move pos_block_check))
               (make_move 16 20))).
Proof.
  assert (Hin : In (make_move 16 20) (generate_evasions pos_block_check))
    by (vm_compute; auto 20).
  split; [exact Hin|].
  exact (generate_evasions_anatomy pos_block_check (make_move 16 20) Hin).
Defined.

Lemma steps_upto_In k j : In j (steps_upto k) <-> 1 <= j <= k.
Proof.
  unfold steps_upto. rewrite in_map_iff. split.
  - intros [n [<- Hn]]. apply in_seq in Hn. lia.
  - intros Hj. exists (Z.to_nat j). split; [lia|]. apply in_seq. lia.
Qed.

Lemma Direction_eqb_eq a b : Direction_eqb a b = true <-> a = b.
Proof.
  unfold Direction_eqb. destruct a as [a1 a2], b as [b1 b2]. simpl.
  rewrite andb_true_iff, !Z.eqb_eq. split; [intros [-> ->]; reflexivity|].
  intros E. injection E as -> ->. split; reflexivity.
Qed.

Lemma ray_reverse_table :
  forallb (fun s => forallb (fun d => forallb (ray_reverse_ok s d) (steps_upto 7)) queen_dirs)
          all_squares = true.
Proof. vm_compute. reflexivity. Qed.

Lemma ray_unique_table :
  forallb (fun s => forallb (fun d => forallb (ray_unique_ok s d) (steps_upto 7)) queen_dirs)
          all_squares = true.
Proof. vm_compute. reflexivity. Qed.

Lemma ray_reverse s d k :
  0 <= s < 64 -> In d queen_dirs -> 1 <= k <= 7 -> ray_valid s d k = true ->
  let t := ray_target s d k in
  0 <= t < 64 /\ t <> s
  /\ ray_valid t (opp_dir d) k = true /\ ray_target t (opp_dir d) k = s
  /\ forall j, 1 <= j < k ->
       ray_valid s d j = true
       /\ ray_target t (opp_dir d) (k - j) = ray_target s d j
       /\ 0 <= ray_target s d j < 64
       /\ ray_target s d j <> t /\ ray_target s d j <> s.
Proof.
  intros Hs Hd Hk Hv.
  pose proof (forall_squares _ ray_reverse_table s Hs) as H. cbv beta in H.
  rewrite forallb_forall in H. specialize (H d Hd).
  rewrite forallb_forall in H. specialize (H k (proj2 (steps_upto_In 7 k) Hk)).
  unfold ray_reverse_ok in H. rewrite Hv in H. cbn [negb orb] in H. cbv zeta in H |- *.
  rewrite !andb_true_iff in H. destruct H as [[[[Hb Hne] Hv'] Hback] Hall].
  unfold on_board in Hb. rewrite andb_true_iff, Z.leb_le, Z.ltb_lt in Hb.
  rewrite negb_true_iff, Z.eqb_neq in Hne. rewrite Z.eqb_eq in Hback.
  split; [lia|]. split; [assumption|]. split; [assumption|]. split; [assumption|].
  intros j Hj. rewrite forallb_forall in Hall.
  specialize (Hall j (proj2 (steps_upto_In (k - 1) j) ltac:(lia))).
  rewrite !andb_true_iff in Hall. destruct Hall as [[[[H1 H2] H3] H4] H5].
  unfold on_board in H3. rewrite andb_true_iff, Z.leb_le, Z.ltb_lt in H3.
  rewrite negb_true_iff, Z.eqb_neq in H4, H5. rewrite Z.eqb_eq in H2.
  split; [assumption|]. split; [assumption|]. split; [lia|]. split; assumption.
Qed.

Lemma ray_unique s d k d' k' :
  0 <= s < 64 -> In d queen_dirs -> 1 <= k <= 7 -> ray_valid s d k = true ->
  In d' queen_dirs -> 1 <= k' <= 7 -> ray_valid s d' k' = true ->
  ray_target s d' k' = ray_target s d k -> d' = d /\ k' = k.
Proof.
  intros Hs Hd Hk Hv Hd' Hk' Hv' E.
  pose proof (forall_squares _ ray_unique_table s Hs) as H. cbv beta in H.
  rewrite forallb_forall in H. specialize (H d Hd).
  rewrite forallb_forall in H. specialize (H k (proj2 (steps_upto_In 7 k) Hk)).
  unfold ray_unique_ok in H. rewrite Hv in H. cbn [negb orb] in H.
  rewrite forallb_forall in H. specialize (H d' Hd').
  rewrite forallb_forall in H. specialize (H k' (proj2 (steps_upto_In 7 k') Hk')).
  rewrite Hv', E, Z.eqb_refl in H. cbn [andb negb orb] in H.
  apply andb_true_iff in H. destruct H as [H1 H2].
  apply Direction_eqb_eq in H1. apply Z.eqb_eq in H2. split; assumption.
Qed.

Lemma opp_dir_queen d : In d queen_dirs -> In (opp_dir d) queen_dirs.
Proof. cbn. intros H. repeat (destruct H as [<-|H]; [cbn; tauto|]). destruct H. Qed.

Lemma opp_dir_bishop d : In d bishop_dirs -> In (opp_dir d) bishop_dirs.
Proof. cbn. intros H. repeat (destruct H as [<-|H]; [cbn; tauto|]). destruct H. Qed.

Lemma opp_dir_rook d : In d rook_dirs -> In (opp_dir d) rook_dirs.
Proof. cbn. intros H. repeat (destruct H as [<-|H]; [cbn; tauto|]). destruct H. Qed.

Lemma opp_dir_involutive d : opp_dir (opp_dir d) = d.
Proof. destruct d as [a b]. unfold opp_dir. simpl. f_equal; lia. Qed.

Lemma bishop_dirs_queen d : In d bishop_dirs -> In d queen_dirs.
Proof. intros H. apply in_or_app. left. exact H. Qed.

Lemma rook_dirs_queen d : In d rook_dirs -> In d queen_dirs.
Proof. intros H. apply in_or_app. right. exact H. Qed.

(** [slides_to], as a proposition. *)
Lemma slides_to_iff occ s d t :
  slides_to occ s d t = true <->
  exists k, 1 <= k <= 7 /\ ray_valid s d k = true /\ ray_target s d k = t
            /\ forall j, 1 <= j < k -> Z.testbit occ (ray_target s d j) = false.
Proof.
  unfold slides_to, ray_clear. rewrite existsb_exists. split.
  - intros [k [Hk H]]. apply steps_upto_In in Hk.
    rewrite !andb_true_iff, Z.eqb_eq, forallb_forall in H. destruct H as [[Hv Ht] Hc].
    exists k. split; [assumption|]. split; [assumption|]. split; [assumption|].
    intros j Hj. apply negb_true_iff. apply Hc. apply steps_upto_In. lia.
  - intros [k [Hk [Hv [Ht Hc]]]]. exists k. split; [apply steps_upto_In; assumption|].
    rewrite !andb_true_iff, Z.eqb_eq, forallb_forall. split; [split; assumption|].
    intros j Hj. apply steps_upto_In in Hj. apply negb_true_iff. apply Hc. lia.
Qed.

(** A slider's path can be read from either end, and only the squares
    strictly inside it matter. *)
Lemma slides_to_reverse occ occ2 s d t :
  0 <= s < 64 -> In d queen_dirs ->
  (forall x, x <> s -> x <> t -> Z.testbit occ2 x = true -> Z.testbit occ x = true) ->
  slides_to occ s d t = true -> slides_to occ2 t (opp_dir d) s = true.
Proof.
  intros Hs Hd Hsub H. apply slides_to_iff in H. destruct H as [k [Hk [Hv [Ht Hc]]]].
  destruct (ray_reverse s d k Hs Hd Hk Hv) as [Htr [Hne [Hv' [Hback Hin]]]].
  cbv zeta in *. rewrite Ht in *.
  apply slides_to_iff. exists k. split; [assumption|]. split; [assumption|].
  split; [assumption|]. intros j Hj.
  destruct (Hin (k - j) ltac:(lia)) as [_ [E [_ [N1 N2]]]].
  replace (k - (k - j)) with j in E by lia. rewrite E.
  destruct (Z.testbit occ2 (ray_target s d (k - j))) eqn:Eb; [|reflexivity].
  rewrite <- (Hc (k - j) ltac:(lia)). symmetry. apply Hsub; assumption.
Qed.

Lemma slider_reaches_reverse dirs occ occ2 s t :
  (forall d, In d dirs -> In d queen_dirs /\ In (opp_dir d) dirs) ->
  0 <= s < 64 ->
  (forall x, x <> s -> x <> t -> Z.testbit occ2 x = true -> Z.testbit occ x = true) ->
  slider_reaches dirs occ s t = true -> slider_reaches dirs occ2 t s = true.
Proof.
  intros Hdirs Hs Hsub H. unfold slider_reaches in *. apply existsb_exists in H.
  destruct H as [d [Hd H]]. destruct (Hdirs d Hd) as [Hq Ho].
  apply existsb_exists. exists (opp_dir d). split; [assumption|].
  eapply slides_to_reverse; eassumption.
Qed.

Lemma bishop_dirs_closed d : In d bishop_dirs -> In d queen_dirs /\ In (opp_dir d) bishop_dirs.
Proof. intros H. split; [apply bishop_dirs_queen|apply opp_dir_bishop]; assumption. Qed.

Lemma rook_dirs_closed d : In d rook_dirs -> In d queen_dirs /\ In (opp_dir d) rook_dirs.
Proof. intros H. split; [apply rook_dirs_queen|apply opp_dir_rook]; assumption. Qed.

Lemma queen_dirs_closed d : In d queen_dirs -> In d queen_dirs /\ In (opp_dir d) queen_dirs.
Proof. intros H. split; [|apply opp_dir_queen]; assumption. Qed.

Lemma slider_attacks_bit dirs s occ t :
  Z.testbit (slider_attacks_bb dirs s occ) t = true <->
  0 <= t < 64 /\ slider_reaches dirs occ s t = true.
Proof. unfold slider_attacks_bb. apply bb_of_pred_true. Qed.

Lemma slider_reaches_queen occ s t :
  slider_reaches queen_dirs occ s t
  = slider_reaches bishop_dirs occ s t || slider_reaches rook_dirs occ s t.
Proof. unfold slider_reaches, queen_dirs. apply existsb_app. Qed.

(** Knight and king steps are symmetric. *)
Lemma knight_step_sym s t :
  0 <= s < 64 -> 0 <= t < 64 ->
  step_reaches knight_steps s t = step_reaches knight_steps t s.
Proof.
  intros Hs Ht. apply eqb_prop. revert s t Hs Ht.
  apply (forall_squares2 (fun s t => eqb (step_reaches knight_steps s t)
                                         (step_reaches knight_steps t s))).
  vm_compute. reflexivity.
Qed.

Lemma king_step_sym s t :
  0 <= s < 64 -> 0 <= t < 64 ->
  step_reaches queen_dirs s t = step_reaches queen_dirs t s.
Proof.
  intros Hs Ht. apply eqb_prop. revert s t Hs Ht.
  apply (forall_squares2 (fun s t => eqb (step_reaches queen_dirs s t)
                                         (step_reaches queen_dirs t s))).
  vm_compute. reflexivity.
Qed.

Lemma bb_of_pred_zero f :
  (forall s, 0 <= s < 64 -> f s = false) -> bb_of_pred f = 0.
Proof.
  intros H. apply Z.bits_inj'. intros i Hi. rewrite Z.bits_0, bb_of_pred_bit.
  unfold on_board. destruct (Z.ltb_spec i 64) as [Hlt|Hge].
  - rewrite H by lia. apply andb_false_r.
  - apply andb_false_r || (rewrite andb_false_r; reflexivity).
Qed.

Lemma and_zero_disjoint a b x :
  ((a & b) =? EmptyBoardBB) = true ->
  Z.testbit a x = true -> Z.testbit b x = true -> False.
Proof.
  intros H Ha Hb. apply Z.eqb_eq in H.
  assert (E : Z.testbit (a & b) x = true) by (apply bit_and_iff; split; assumption).
  rewrite H in E. unfold EmptyBoardBB in E. rewrite Z.bits_0 in E. discriminate.
Qed.

Lemma opposite_color_involutive c : opposite_color (opposite_color c) = c.
Proof. destruct c; reflexivity. Qed.

Lemma option_Color_eqb_eq o c : option_Color_eqb o c = true <-> o = Some c.
Proof.
  destruct o as [c'|]; simpl.
  - rewrite Color_eqb_eq. split; [intros ->; reflexivity|intros E; injection E; auto].
  - split; discriminate.
Qed.

Lemma board_occupied_bit b s :
  Z.testbit (board_occupied b) s = true <-> 0 <= s < 64 /\ b s <> EMPTY.
Proof.
  unfold board_occupied. rewrite bb_of_pred_true, negb_true_iff. split; intros [H1 H2].
  - split; [assumption|]. intros E. rewrite E in H2. discriminate.
  - split; [assumption|]. destruct (Piece_eqb (b s) EMPTY) eqn:E; [|reflexivity].
    apply Piece_eqb_eq in E. contradiction.
Qed.

(** To show that no piece of colour [c] attacks [t]. *)
Lemma not_attacked b c t :
  (forall x pt, 0 <= x < 64 -> b x = Pc c pt ->
                attacks_from (board_occupied b) (Pc c pt) x t = false) ->
  attacked b c t = false.
Proof.
  intros H. unfold attacked, attackers. cbv zeta.
  rewrite bb_of_pred_zero; [reflexivity|].
  intros x Hx. destruct (b x) as [|c' pt] eqn:Hb; [reflexivity|].
  cbn [color_of_piece option_Color_eqb].
  destruct (Color_eqb c' c) eqn:Ec; [|reflexivity].
  apply Color_eqb_eq in Ec. subst c'. cbn [andb]. apply H; assumption.
Qed.

Lemma attacked_witness b c t x :
  0 <= x < 64 -> color_of_piece (b x) = Some c ->
  attacks_from (board_occupied b) (b x) x t = true -> attacked b c t = true.
Proof.
  intros Hx Hc Ha. unfold attacked. apply negb_true_iff. apply Z.eqb_neq. intros E.
  assert (Hbit : Z.testbit (attackers b c t) x = true).
  { unfold attackers. cbv zeta. apply bb_of_pred_true. split; [assumption|].
    rewrite Ha, andb_true_r. apply option_Color_eqb_eq. assumption. }
  rewrite E in Hbit. unfold EmptyBoardBB in Hbit. rewrite Z.bits_0 in Hbit. discriminate.
Qed.

Lemma board_set_eq b s p : board_set b s p s = p.
Proof. unfold board_set. rewrite Z.eqb_refl. reflexivity. Qed.

Lemma board_set_neq b s p t : t <> s -> board_set b s p t = b t.
Proof. intros H. unfold board_set. apply Z.eqb_neq in H. rewrite H. reflexivity. Qed.

Lemma king_attacks_bit s t :
  Z.testbit (king_attacks s) t = true <-> 0 <= t < 64 /\ step_reaches queen_dirs s t = true.
Proof. unfold king_attacks, king_attacks_bb. apply bb_of_pred_true. Qed.

Lemma knight_attacks_bit s t :
  Z.testbit (knight_attacks s) t = true <-> 0 <= t < 64 /\ step_reaches knight_steps s t = true.
Proof. unfold knight_attacks, knight_attacks_bb. apply bb_of_pred_true. Qed.

Lemma bishops_and_queens_bit pos c s :
  Z.testbit (bishops_and_queens pos c) s = true <->
  0 <= s < 64 /\ (piece_on pos s = Pc c BISHOP \/ piece_on pos s = Pc c QUEEN).
Proof.
  unfold bishops_and_queens, bishops, queens. rewrite bit_or_iff, !piece_bit. tauto.
Qed.

Lemma rooks_and_queens_bit pos c s :
  Z.testbit (rooks_and_queens pos c) s = true <->
  0 <= s < 64 /\ (piece_on pos s = Pc c ROOK \/ piece_on pos s = Pc c QUEEN).
Proof.
  unfold rooks_and_queens, rooks, queens. rewrite bit_or_iff, !piece_bit. tauto.
Qed.

(** The king's escape test is the rule: a destination that passes it is
    not attacked once the king stands there. *)
Lemma king_escape_safe pos us ksq to :
  0 <= ksq < 64 -> piece_on pos ksq = Pc us KING ->
  Z.testbit (king_attacks ksq) to = true ->
  king_escape_ok pos us (clear_bit (occupied_squares pos) ksq) to = true ->
  leaves_king_safe (piece_on pos) us ksq (make_move ksq to) = true.
Proof.
  intros Hk Hking Hto Hesc. set (them := opposite_color us).
  apply king_attacks_bit in Hto. destruct Hto as [Hto Hstep].
  assert (Hne : to <> ksq).
  { intros E. rewrite E in Hstep.
    pose proof (forall_squares (fun s => negb (step_reaches queen_dirs s s))
                  ltac:(vm_compute; reflexivity) ksq Hk) as H.
    cbv beta in H. rewrite Hstep in H. discriminate. }
  unfold king_escape_ok in Hesc. cbv zeta in Hesc. fold them in Hesc.
  rewrite !andb_true_iff in Hesc. destruct Hesc as [[[[Hp Hn] Hkg] Hb] Hr].
  unfold leaves_king_safe, king_square_after, apply_move, make_move.
  cbn [move_from move_to move_kind]. rewrite Z.eqb_refl. fold them.
  apply negb_true_iff. apply not_attacked. intros x pt Hx Hbx.
  assert (Hxto : x <> to).
  { intros ->. rewrite board_set_eq, Hking in Hbx. injection Hbx as Hc _.
    unfold them in Hc. destruct us; discriminate. }
  rewrite board_set_neq in Hbx by assumption.
  assert (Hxk : x <> ksq).
  { intros ->. rewrite board_set_eq in Hbx. discriminate. }
  rewrite board_set_neq in Hbx by assumption.
  set (b' := board_set (board_set (piece_on pos) ksq EMPTY) to (piece_on pos ksq)).
  assert (Hocc : forall y, y <> to -> y <> x ->
            Z.testbit (clear_bit (occupied_squares pos) ksq) y = true ->
            Z.testbit (board_occupied b') y = true).
  { intros y Hy _ Hbit. rewrite clear_bit_bit in Hbit by (lia || apply occupied_squares_ok).
    apply andb_true_iff in Hbit. destruct Hbit as [Hb1 Hb2].
    apply negb_true_iff, Z.eqb_neq in Hb2. apply occupied_bit in Hb1.
    apply board_occupied_bit. split; [apply Hb1|].
    unfold b'. rewrite board_set_neq by assumption.
    rewrite board_set_neq by (intros E; apply Hb2; symmetry; exact E). apply Hb1. }
  assert (Hrev : forall dirs,
            (forall d, In d dirs -> In d queen_dirs /\ In (opp_dir d) dirs) ->
            slider_reaches dirs (board_occupied b') x to = true ->
            Z.testbit (slider_attacks_bb dirs to (clear_bit (occupied_squares pos) ksq)) x
            = true).
  { intros dirs Hd H. apply slider_attacks_bit. split; [assumption|].
    eapply (slider_reaches_reverse dirs (board_occupied b')); [exact Hd|exact Hx| |exact H].
    intros y Hy1 Hy2. apply Hocc; assumption. }
  destruct (attacks_from (board_occupied b') (Pc them pt) x to) eqn:Ha; [exfalso|reflexivity].
  destruct pt; cbn [attacks_from] in Ha.
  - (* pawn *)
    apply (and_zero_disjoint _ _ x Hp).
    + unfold pawn_attacks. rewrite pawn_attacks_sym by assumption.
      rewrite pawn_attacks_steps, on_board_true by assumption.
      unfold them in Ha. destruct us; exact Ha.
    + apply bit_pawns. split; assumption.
  - (* knight *)
    apply (and_zero_disjoint _ _ x Hn).
    + apply knight_attacks_bit. split; [assumption|].
      rewrite knight_step_sym by assumption. exact Ha.
    + apply piece_bit. split; assumption.
  - (* bishop *)
    apply (and_zero_disjoint _ _ x Hb).
    + apply (Hrev bishop_dirs bishop_dirs_closed Ha).
    + apply bishops_and_queens_bit. split; [assumption|]. left. assumption.
  - (* rook *)
    apply (and_zero_disjoint _ _ x Hr).
    + apply (Hrev rook_dirs rook_dirs_closed Ha).
    + apply rooks_and_queens_bit. split; [assumption|]. left. assumption.
  - (* queen *)
    rewrite slider_reaches_queen in Ha. apply orb_true_iff in Ha. destruct Ha as [Ha|Ha].
    + apply (and_zero_disjoint _ _ x Hb).
      * apply (Hrev bishop_dirs bishop_dirs_closed Ha).
      * apply bishops_and_queens_bit. split; [assumption|]. right. assumption.
    + apply (and_zero_disjoint _ _ x Hr).
      * apply (Hrev rook_dirs rook_dirs_closed Ha).
      * apply rooks_and_queens_bit. split; [assumption|]. right. assumption.
  - (* king *)
    apply (and_zero_disjoint _ _ x Hkg).
    + apply king_attacks_bit. split; [assumption|].
      rewrite king_step_sym by assumption. exact Ha.
    + apply piece_bit. split; assumption.
Qed.

Lemma knight_off_ray_table :
  forallb (fun s => forallb (fun d => forallb (knight_off_ray_ok s d) (steps_upto 7)) queen_dirs)
          all_squares = true.
Proof. vm_compute. reflexivity. Qed.

Lemma knight_off_ray s d k :
  0 <= s < 64 -> In d queen_dirs -> 1 <= k <= 7 -> ray_valid s d k = true ->
  step_reaches knight_steps s (ray_target s d k) = false.
Proof.
  intros Hs Hd Hk Hv.
  pose proof (forall_squares _ knight_off_ray_table s Hs) as H. cbv beta in H.
  rewrite forallb_forall in H. specialize (H d Hd).
  rewrite forallb_forall in H. specialize (H k (proj2 (steps_upto_In 7 k) Hk)).
  unfold knight_off_ray_ok in H. rewrite Hv in H. cbn [negb orb] in H.
  apply negb_true_iff in H. exact H.
Qed.

(** A single bit: when [b & (b - 1)] is zero, the only set bit of [b] is
    its lowest. *)
Lemma single_bit b x :
  0 < b -> b & (b - 1) = 0 -> Z.testbit b x = true -> x = first_1 b.
Proof.
  intros Hb Hz Hx.
  pose proof (pop_1st_bit_bit b x Hb) as H. unfold pop_1st_bit in H. cbn [snd fst] in H.
  unfold bb_and in Hz. rewrite Hz, Z.bits_0, Hx in H. cbn [andb] in H.
  symmetry in H. apply negb_false_iff, Z.eqb_eq in H. congruence.
Qed.

Lemma squares_between_iff a b t :
  Z.testbit (squares_between a b) t = true <->
  0 <= t < 64
  /\ exists d k j, In d queen_dirs /\ 1 <= k <= 7 /\ ray_valid a d k = true
                   /\ ray_target a d k = b /\ 1 <= j < k /\ ray_target a d j = t.
Proof.
  unfold squares_between. rewrite bb_of_pred_true. split.
  - intros [Ht H]. split; [assumption|].
    apply existsb_exists in H. destruct H as [d [Hd H]].
    apply existsb_exists in H. destruct H as [k [Hk H]]. apply steps_upto_In in Hk.
    rewrite !andb_true_iff in H. destruct H as [[Hv Hb] H].
    apply existsb_exists in H. destruct H as [j [Hj H]]. apply steps_upto_In in Hj.
    apply Z.eqb_eq in Hb, H. exists d, k, j.
    repeat split; try assumption; lia.
  - intros [Ht [d [k [j [Hd [Hk [Hv [Hb [Hj H]]]]]]]]]. split; [assumption|].
    apply existsb_exists. exists d. split; [assumption|].
    apply existsb_exists. exists k. split; [apply steps_upto_In; assumption|].
    rewrite !andb_true_iff. split; [split; [assumption|apply Z.eqb_eq; assumption]|].
    apply existsb_exists. exists j. split; [apply steps_upto_In; lia|apply Z.eqb_eq; assumption].
Qed.

Lemma step_reaches_iff steps s t :
  step_reaches steps s t = true <->
  exists d, In d steps /\ ray_valid s d 1 = true /\ ray_target s d 1 = t.
Proof.
  unfold step_reaches. rewrite existsb_exists. split.
  - intros [d [Hd H]]. apply andb_true_iff in H. destruct H as [Hv H].
    apply Z.eqb_eq in H. exists d. repeat split; assumption.
  - intros [d [Hd [Hv H]]]. exists d. split; [assumption|].
    rewrite Hv. apply Z.eqb_eq. assumption.
Qed.

(** Nothing stands between a stepping piece (pawn, knight, king) and the
    square it attacks. *)
Lemma step_no_between steps x t y :
  0 <= x < 64 ->
  (steps = knight_steps \/ forall d, In d steps -> In d queen_dirs) ->
  step_reaches steps x t = true ->
  Z.testbit (squares_between x t) y = true -> False.
Proof.
  intros Hx Hsteps Hstep Hb. apply squares_between_iff in Hb.
  destruct Hb as [_ [d [k [j [Hd [Hk [Hv [Ht [Hj _]]]]]]]]].
  destruct Hsteps as [-> | Hq].
  - rewrite <- Ht in Hstep. rewrite knight_off_ray in Hstep by assumption. discriminate.
  - apply step_reaches_iff in Hstep. destruct Hstep as [d' [Hd' [Hv' Ht']]].
    destruct (ray_unique x d k d' 1 Hx Hd Hk Hv (Hq d' Hd') ltac:(lia) Hv'
                ltac:(congruence)) as [_ E]. lia.
Qed.

Lemma attacks_from_cases occ c pt x t :
  attacks_from occ (Pc c pt) x t
  = step_reaches (stepper_steps c pt) x t || slider_reaches (slider_dirs pt) occ x t.
Proof.
  destruct pt; cbn [attacks_from stepper_steps slider_dirs];
    unfold slider_reaches; cbn [existsb]; rewrite ?orb_false_r; reflexivity.
Qed.

Lemma stepper_steps_ok c pt :
  stepper_steps c pt = knight_steps \/ forall d, In d (stepper_steps c pt) -> In d queen_dirs.
Proof.
  destruct pt; cbn [stepper_steps].
  - right. destruct c; cbn; intros d H; repeat (destruct H as [<-|H]; [tauto|]); destruct H.
  - left. reflexivity.
  - right. intros d [].
  - right. intros d [].
  - right. intros d [].
  - right. intros d H. exact H.
Qed.

Lemma slider_dirs_ok c pt d :
  In d (slider_dirs pt) ->
  In d queen_dirs /\ slider_along (Pc c pt) c (opp_dir d) = true.
Proof.
  destruct pt; cbn [slider_dirs]; intros H.
  - destruct H.
  - destruct H.
  - split; [apply bishop_dirs_queen; assumption|].
    cbn [slider_along]. rewrite Color_eqb_refl.
    cbn in H. repeat (destruct H as [<-|H]; [reflexivity|]). destruct H.
  - split; [apply rook_dirs_queen; assumption|].
    cbn [slider_along]. rewrite Color_eqb_refl.
    cbn in H. repeat (destruct H as [<-|H]; [reflexivity|]). destruct H.
  - split; [assumption|]. cbn [slider_along]. apply Color_eqb_refl.
  - destruct H.
Qed.

Lemma board_empty_bit b s :
  0 <= s < 64 -> Z.testbit (board_occupied b) s = false -> b s = EMPTY.
Proof.
  intros Hs H. destruct (b s) eqn:E; [reflexivity|exfalso].
  assert (Hb : Z.testbit (board_occupied b) s = true).
  { apply board_occupied_bit. split; [assumption|]. rewrite E. discriminate. }
  congruence.
Qed.

Lemma attackers_bit b c t x :
  Z.testbit (attackers b c t) x = true <->
  0 <= x < 64 /\ color_of_piece (b x) = Some c
  /\ attacks_from (board_occupied b) (b x) x t = true.
Proof.
  unfold attackers. cbv zeta. rewrite bb_of_pred_true, andb_true_iff, option_Color_eqb_eq.
  tauto.
Qed.

Lemma sole_blockers_bit b xc sc ksq x :
  Z.testbit (sole_blockers b xc sc ksq) x = true <->
  0 <= x < 64 /\ color_of_piece (b x) = Some xc
  /\ exists d k, In d queen_dirs /\ 1 <= k <= 7 /\ ray_valid ksq d k = true
                 /\ slider_along (b (ray_target ksq d k)) sc d = true
                 /\ sole_blocker b ksq d k x = true.
Proof.
  unfold sole_blockers. rewrite bb_of_pred_true, andb_true_iff, option_Color_eqb_eq.
  split.
  - intros [Hx [Hc H]]. split; [assumption|]. split; [assumption|].
    apply existsb_exists in H. destruct H as [d [Hd H]].
    apply existsb_exists in H. destruct H as [k [Hk H]]. apply steps_upto_In in Hk.
    rewrite !andb_true_iff in H. destruct H as [[Hv Hs] Hsb].
    exists d, k. repeat split; try assumption; lia.
  - intros [Hx [Hc [d [k [Hd [Hk [Hv [Hs Hsb]]]]]]]]. split; [assumption|].
    split; [assumption|].
    apply existsb_exists. exists d. split; [assumption|].
    apply existsb_exists. exists k. split; [apply steps_upto_In; assumption|].
    rewrite Hv, Hs, Hsb. reflexivity.
Qed.

(** A slider's ray that a move opens was held shut by the moved piece
    alone: that piece is a sole blocker of the ray. *)
Lemma opened_ray_sole_blocker b us ksq x ptx d k from :
  0 <= x < 64 -> 0 <= from < 64 ->
  color_of_piece (b from) = Some us ->
  b x = Pc (opposite_color us) ptx -> In d (slider_dirs ptx) ->
  1 <= k <= 7 -> ray_valid x d k = true -> ray_target x d k = ksq ->
  (exists j, 1 <= j < k /\ ray_target x d j = from) ->
  (forall j, 1 <= j < k -> ray_target x d j = from \/ b (ray_target x d j) = EMPTY) ->
  Z.testbit (sole_blockers b us (opposite_color us) ksq) from = true.
Proof.
  intros Hx Hfrom Hc Hbx Hd Hk Hv Ht [j0 [Hj0 Ej0]] Hall.
  destruct (slider_dirs_ok (opposite_color us) ptx d Hd) as [Hq Hsl].
  destruct (ray_reverse x d k Hx Hq Hk Hv) as [Htr [Hne [Hv' [Hback Hin]]]].
  cbv zeta in *. rewrite Ht in *.
  apply sole_blockers_bit. split; [assumption|]. split; [assumption|].
  exists (opp_dir d), k. split; [apply opp_dir_queen; assumption|].
  split; [assumption|]. split; [assumption|]. rewrite Hback, Hbx.
  split; [assumption|]. unfold sole_blocker. apply andb_true_iff. split.
  - apply existsb_exists. exists (k - j0). split; [apply steps_upto_In; lia|].
    destruct (Hin j0 Hj0) as [_ [E _]]. rewrite E, Ej0. apply Z.eqb_refl.
  - apply forallb_forall. intros j Hj. apply steps_upto_In in Hj.
    destruct (Hin (k - j) ltac:(lia)) as [_ [E _]].
    replace (k - (k - j)) with j in E by lia. rewrite E.
    destruct (Hall (k - j) ltac:(lia)) as [-> | ->].
    + rewrite Z.eqb_refl. reflexivity.
    + rewrite Piece_eqb_refl. apply orb_true_r.
Qed.

(** After a piece that is no sole blocker has moved from [from] to the
    checker's square or to a square between the checker and the king, no
    piece of the other side attacks the king. *)
Lemma nonking_move_safe b b' us ksq checksq from to :
  0 <= ksq < 64 -> 0 <= from < 64 -> 0 <= to < 64 ->
  color_of_piece (b from) = Some us ->
  color_of_piece (b' to) = Some us ->
  (forall y, y <> to -> b' y = board_set b from EMPTY y) ->
  (forall x, Z.testbit (attackers b (opposite_color us) ksq) x = true -> x = checksq) ->
  Z.testbit (sole_blockers b us (opposite_color us) ksq) from = false ->
  to = checksq \/ Z.testbit (squares_between checksq ksq) to = true ->
  attacked b' (opposite_color us) ksq = false.
Proof.
  intros Hk Hfrom Hto Hcf Hct Hrest Hsingle Hpin Hanswer.
  set (them := opposite_color us) in *.
  apply not_attacked. intros x ptx Hx Hb'x.
  assert (Hxto : x <> to).
  { intros ->. rewrite Hb'x in Hct. cbn in Hct. injection Hct as Hc.
    unfold them in Hc. destruct us; discriminate. }
  rewrite (Hrest x Hxto) in Hb'x.
  assert (Hxfrom : x <> from).
  { intros ->. rewrite board_set_eq in Hb'x. discriminate. }
  rewrite board_set_neq in Hb'x by assumption.
  assert (Hocc_to : Z.testbit (board_occupied b') to = true).
  { apply board_occupied_bit. split; [assumption|]. intros E. rewrite E in Hct. discriminate. }
  (* an attack that already stood on the old board *)
  assert (Hold : attacks_from (board_occupied b) (b x) x ksq = true ->
                 Z.testbit (squares_between x ksq) to = true).
  { intros Ha.
    assert (E : x = checksq).
    { apply Hsingle. apply attackers_bit. split; [assumption|].
      split; [rewrite Hb'x; reflexivity|assumption]. }
    subst checksq. destruct Hanswer as [E|H]; [congruence|exact H]. }
  destruct (attacks_from (board_occupied b') (Pc them ptx) x ksq) eqn:Ha;
    [exfalso|reflexivity].
  rewrite attacks_from_cases in Ha. apply orb_true_iff in Ha. destruct Ha as [Ha|Ha].
  - (* pawn, knight, king *)
    assert (Hb : Z.testbit (squares_between x ksq) to = true).
    { apply Hold. rewrite Hb'x, attacks_from_cases, Ha. reflexivity. }
    exact (step_no_between _ x ksq to Hx (stepper_steps_ok them ptx) Ha Hb).
  - (* sliders *)
    unfold slider_reaches in Ha. apply existsb_exists in Ha. destruct Ha as [d [Hd Ha]].
    apply slides_to_iff in Ha. destruct Ha as [k [Hkr [Hv [Ht Hclear]]]].
    destruct (slider_dirs_ok them ptx d Hd) as [Hq _].
    destruct (ray_reverse x d k Hx Hq Hkr Hv) as [_ [_ [_ [_ Hin]]]]. cbv zeta in Hin.
    assert (Hinner : forall j, 1 <= j < k ->
              ray_target x d j <> to
              /\ (ray_target x d j = from \/ b (ray_target x d j) = EMPTY)).
    { intros j Hj. destruct (Hin j Hj) as [_ [_ [Hr _]]].
      assert (Hnt : ray_target x d j <> to).
      { intros E. rewrite <- E in Hocc_to. rewrite (Hclear j Hj) in Hocc_to. discriminate. }
      split; [assumption|].
      destruct (Z.eq_dec (ray_target x d j) from) as [E|E]; [left; assumption|right].
      pose proof (board_empty_bit b' _ Hr (Hclear j Hj)) as He.
      rewrite (Hrest _ Hnt), board_set_neq in He by assumption. exact He. }
    destruct (existsb (fun j => ray_target x d j =? from) (steps_upto (k - 1))) eqn:Eblk.
    + (* the moved piece stood on the ray: it was a sole blocker *)
      apply existsb_exists in Eblk. destruct Eblk as [j0 [Hj0 Ej0]].
      apply steps_upto_In in Hj0. apply Z.eqb_eq in Ej0.
      assert (Hsb : Z.testbit (sole_blockers b us them ksq) from = true).
      { apply (opened_ray_sole_blocker b us ksq x ptx d k from); try assumption.
        - exists j0. split; [lia|assumption].
        - intros j Hj. apply Hinner. assumption. }
      congruence.
    + (* the ray was open before: its slider is the checker *)
      assert (Hfree : forall j, 1 <= j < k -> b (ray_target x d j) = EMPTY).
      { intros j Hj. destruct (Hinner j Hj) as [_ [E|E]]; [|assumption].
        exfalso. rewrite <- not_true_iff_false in Eblk. apply Eblk.
        apply existsb_exists. exists j. split; [apply steps_upto_In; lia|].
        apply Z.eqb_eq. assumption. }
      assert (Hb : Z.testbit (squares_between x ksq) to = true).
      { apply Hold. rewrite Hb'x, attacks_from_cases. apply orb_true_iff. right.
        unfold slider_reaches. apply existsb_exists. exists d. split; [assumption|].
        apply slides_to_iff. exists k. split; [assumption|]. split; [assumption|].
        split; [assumption|]. intros j Hj.
        destruct (Z.testbit (board_occupied b) (ray_target x d j)) eqn:Eb; [|reflexivity].
        apply board_occupied_bit in Eb. destruct Eb as [_ Eb].
        exfalso. apply Eb. apply Hfree. assumption. }
      apply squares_between_iff in Hb.
      destruct Hb as [_ [d2 [k2 [j2 [Hd2 [Hk2 [Hv2 [Ht2 [Hj2 Hto2]]]]]]]]].
      destruct (ray_unique x d k d2 k2 Hx Hq Hkr Hv Hd2 Hk2 Hv2 ltac:(congruence))
        as [-> ->].
      destruct (Hinner j2 Hj2) as [Hnt _]. contradiction.
Qed.

Lemma mover_of_bit pos us pt from m :
  pt <> KING -> move_from m = from ->
  Z.testbit (pieces_of_color_and_type pos us pt) from = true -> evasion_mover pos us m.
Proof.
  intros Hpt Hm Hbit. apply piece_bit in Hbit. exists pt. rewrite Hm.
  split; [assumption|]. exact Hbit.
Qed.

Lemma mover_of_promotions pos us from to m :
  Z.testbit (pawns pos us) from = true -> In m (all_promotions from to) ->
  evasion_mover pos us m.
Proof.
  intros Hbit Hm. apply (mover_of_bit pos us PAWN from); [discriminate| |exact Hbit].
  simpl in Hm. destruct Hm as [<-|[<-|[<-|[<-|[]]]]]; reflexivity.
Qed.

Lemma capture_checker_mover pos us checksq pinned m :
  In m (evasions_capture_checker pos us checksq pinned) -> evasion_mover pos us m.
Proof.
  unfold evasions_capture_checker. rewrite !in_app_iff.
  intros [H|[H|[H|H]]].
  - apply emit_In in H; [|bb_ok_tac]. destruct H as [s [Hs Hm]]. split_bits.
    destruct (relative_rank us checksq =? RANK_8).
    + eapply mover_of_promotions; eassumption.
    + destruct Hm as [<-|[]].
      eapply (mover_of_bit pos us PAWN); [discriminate|reflexivity|eassumption].
  - apply emit1_In in H; [|bb_ok_tac]. destruct H as [s [Hs ->]]. split_bits.
    eapply (mover_of_bit pos us KNIGHT); [discriminate|reflexivity|eassumption].
  - apply emit1_In in H; [|bb_ok_tac]. destruct H as [s [Hs ->]]. split_bits.
    match goal with
    | Hb : Z.testbit (bishops_and_queens _ _) _ = true |- _ =>
        unfold bishops_and_queens in Hb; rewrite bb_or_bit in Hb;
        apply orb_true_iff in Hb; destruct Hb as [Hb|Hb]
    end.
    + eapply (mover_of_bit pos us BISHOP); [discriminate|reflexivity|eassumption].
    + eapply (mover_of_bit pos us QUEEN); [discriminate|reflexivity|eassumption].
  - apply emit1_In in H; [|bb_ok_tac]. destruct H as [s [Hs ->]]. split_bits.
    match goal with
    | Hb : Z.testbit (rooks_and_queens _ _) _ = true |- _ =>
        unfold rooks_and_queens in Hb; rewrite bb_or_bit in Hb;
        apply orb_true_iff in Hb; destruct Hb as [Hb|Hb]
    end.
    + eapply (mover_of_bit pos us ROOK); [discriminate|reflexivity|eassumption].
    + eapply (mover_of_bit pos us QUEEN); [discriminate|reflexivity|eassumption].
Qed.

Lemma block_piece_mover pos us pt attacks pinned blockSquares m :
  pt <> KING ->
  (forall s, bb_ok (attacks s)) ->
  In m (evasions_block_piece (pieces_of_color_and_type pos us pt & ~~ pinned)
                             attacks blockSquares) ->
  evasion_mover pos us m.
Proof.
  intros Hpt Hok H. unfold evasions_block_piece in H.
  apply emit_In in H; [|bb_ok_tac]. destruct H as [from [Hfrom Hm]].
  apply emit1_In in Hm; [|apply bb_and_ok_l, Hok]. destruct Hm as [to [_ ->]].
  split_bits. eapply (mover_of_bit pos us pt); [assumption|reflexivity|eassumption].
Qed.

Lemma block_pawn_mover pos us pinned blockSquares m :
  In m (evasions_block_pawn pos us pinned blockSquares) -> evasion_mover pos us m.
Proof.
  unfold evasions_block_pawn. destruct us; rewrite in_app_iff; intros [H|H].
  - apply emit_In in H; [|bb_ok_tac]. destruct H as [to [Hto Hm]]. split_bits.
    destruct (square_rank to =? RANK_8).
    + eapply mover_of_promotions; eassumption.
    + destruct Hm as [<-|[]].
      eapply (mover_of_bit pos WHITE PAWN); [discriminate|reflexivity|eassumption].
  - apply emit1_In in H; [|bb_ok_tac]. destruct H as [to [Hto ->]]. split_bits.
    eapply (mover_of_bit pos WHITE PAWN); [discriminate|reflexivity|eassumption].
  - apply emit_In in H; [|bb_ok_tac]. destruct H as [to [Hto Hm]]. split_bits.
    assert (E : to - DELTA_S = to + 8) by (unfold DELTA_S; lia). rewrite E in Hm.
    destruct (square_rank to =? RANK_1).
    + eapply mover_of_promotions; eassumption.
    + destruct Hm as [<-|[]].
      eapply (mover_of_bit pos BLACK PAWN); [discriminate|reflexivity|eassumption].
  - apply emit1_In in H; [|bb_ok_tac]. destruct H as [to [Hto ->]]. split_bits.
    assert (E : to - DELTA_S - DELTA_S = to + 8 + 8) by (unfold DELTA_S; lia). rewrite E.
    eapply (mover_of_bit pos BLACK PAWN); [discriminate|reflexivity|eassumption].
Qed.

Lemma evasions_block_mover pos us ksq checksq pinned m :
  In m (evasions_block pos us ksq checksq pinned) -> evasion_mover pos us m.
Proof.
  unfold evasions_block. destruct (negb _); [|intros []].
  rewrite !in_app_iff. intros [H|[H|[H|[H|H]]]].
  - eapply block_pawn_mover; eassumption.
  - eapply (block_piece_mover pos us KNIGHT); [discriminate| |exact H]. intros; bb_ok_tac.
  - eapply (block_piece_mover pos us BISHOP); [discriminate| |exact H]. intros; bb_ok_tac.
  - eapply (block_piece_mover pos us ROOK); [discriminate| |exact H]. intros; bb_ok_tac.
  - eapply (block_piece_mover pos us QUEEN); [discriminate| |exact H]. intros; bb_ok_tac.
Qed.

Lemma answer_move_safe pos us ksq checksq pinned m :
  0 <= ksq < 64 -> piece_on pos ksq = Pc us KING -> 0 <= checksq < 64 ->
  (forall x, Z.testbit (attackers (piece_on pos) (opposite_color us) ksq) x = true ->
             x = checksq) ->
  (forall x, Z.testbit (sole_blockers (piece_on pos) us (opposite_color us) ksq) x = true ->
             Z.testbit pinned x = true) ->
  evasion_mover pos us m -> normal_or_promotion m ->
  Z.testbit pinned (move_from m) = false ->
  move_to m = checksq \/ Z.testbit (squares_between checksq ksq) (move_to m) = true ->
  leaves_king_safe (piece_on pos) us ksq m = true.
Proof.
  intros Hk Hking Hcs Hsingle Hpins [pt [Hpt [Hfr Hp]]] Hkind Hpin Hanswer.
  assert (Hto : 0 <= move_to m < 64).
  { destruct Hanswer as [->|H]; [assumption|].
    eapply bb_ok_bit_range; [apply squares_between_ok|exact H]. }
  assert (Hfk : move_from m <> ksq).
  { intros E. rewrite E, Hking in Hp. injection Hp as E'. congruence. }
  unfold leaves_king_safe. apply negb_true_iff.
  replace (king_square_after us ksq m) with ksq.
  2:{ unfold king_square_after, normal_or_promotion in *.
      apply Z.eqb_neq in Hfk. destruct (move_kind m); try contradiction; rewrite Hfk;
        reflexivity. }
  apply (nonking_move_safe (piece_on pos) _ us ksq checksq (move_from m) (move_to m));
    try assumption.
  - rewrite Hp. reflexivity.
  - unfold apply_move, normal_or_promotion in *.
    destruct (move_kind m); try contradiction; rewrite board_set_eq.
    + rewrite Hp. reflexivity.
    + reflexivity.
  - intros y Hy. unfold apply_move, normal_or_promotion in *.
    destruct (move_kind m); try contradiction; rewrite board_set_neq by assumption;
      reflexivity.
  - destruct (Z.testbit (sole_blockers _ _ _ _) (move_from m)) eqn:E; [|reflexivity].
    apply Hpins in E. congruence.
Qed.

Lemma slider_dirs_closed pt d :
  In d (slider_dirs pt) -> In d queen_dirs /\ In (opp_dir d) (slider_dirs pt).
Proof.
  destruct pt; cbn [slider_dirs]; intros H; try (destruct H; fail).
  - apply bishop_dirs_closed. assumption.
  - apply rook_dirs_closed. assumption.
  - apply queen_dirs_closed. assumption.
Qed.

(** The en passant test is the rule, when the checking pawn is the one
    that is taken. *)
Lemma ep_move_safe pos us ksq checksq from :
  0 <= ksq < 64 -> piece_on pos ksq = Pc us KING ->
  0 <= from < 64 -> piece_on pos from = Pc us PAWN ->
  0 <= checksq < 64 -> 0 <= ep_square pos < 64 ->
  ep_square pos = checksq + pawn_push us ->
  (forall x, Z.testbit (attackers (piece_on pos) (opposite_color us) ksq) x = true ->
             x = checksq) ->
  ep_evasion_ok pos us ksq checksq from = true ->
  leaves_king_safe (piece_on pos) us ksq (make_ep_move from (ep_square pos)) = true.
Proof.
  intros Hk Hking Hfr Hp Hcs Hep Hpush Hsingle Htest.
  set (them := opposite_color us) in *. set (to := ep_square pos) in *.
  assert (Hfk : from <> ksq).
  { intros E. rewrite E, Hking in Hp. discriminate. }
  unfold ep_evasion_ok in Htest. cbv zeta in Htest. fold them in Htest.
  apply andb_true_iff in Htest. destruct Htest as [Hb Hr].
  unfold leaves_king_safe, king_square_after, apply_move, make_ep_move.
  cbn [move_from move_to move_kind].
  apply Z.eqb_neq in Hfk. rewrite Hfk. apply Z.eqb_neq in Hfk.
  replace (to - pawn_push us) with checksq by lia. fold them.
  apply negb_true_iff. apply not_attacked. intros x ptx Hx Hbx.
  set (b' := board_set (board_set (board_set (piece_on pos) from EMPTY) checksq EMPTY)
                       to (piece_on pos from)) in *.
  assert (Hxto : x <> to).
  { intros ->. unfold b' in Hbx. rewrite board_set_eq, Hp in Hbx. injection Hbx as Hc _.
    unfold them in Hc. destruct us; discriminate. }
  assert (Hxc : x <> checksq).
  { intros ->. unfold b' in Hbx.
    rewrite board_set_neq, board_set_eq in Hbx by assumption. discriminate. }
  assert (Hxf : x <> from).
  { intros ->. unfold b' in Hbx.
    rewrite !board_set_neq, board_set_eq in Hbx by assumption. discriminate. }
  assert (Hbx' : piece_on pos x = Pc them ptx).
  { unfold b' in Hbx. rewrite !board_set_neq in Hbx by assumption. exact Hbx. }
  set (occ2 := clear_bit (clear_bit (occupied_squares pos) from) checksq) in *.
  assert (Hocc : forall y, y <> ksq -> y <> x ->
            Z.testbit occ2 y = true -> Z.testbit (board_occupied b') y = true).
  { intros y _ _ Hbit. unfold occ2 in Hbit.
    rewrite !clear_bit_bit in Hbit
      by (lia || apply occupied_squares_ok || apply clear_bit_ok, occupied_squares_ok).
    rewrite !andb_true_iff in Hbit. destruct Hbit as [[Hb1 Hb2] Hb3].
    apply negb_true_iff, Z.eqb_neq in Hb2, Hb3. apply occupied_bit in Hb1.
    apply board_occupied_bit. split; [apply Hb1|].
    destruct (Z.eq_dec y to) as [->|Hyt].
    - unfold b'. rewrite board_set_eq, Hp. discriminate.
    - unfold b'. rewrite !board_set_neq by congruence. apply Hb1. }
  assert (Hrev : forall dirs,
            (forall d, In d dirs -> In d queen_dirs /\ In (opp_dir d) dirs) ->
            slider_reaches dirs (board_occupied b') x ksq = true ->
            Z.testbit (slider_attacks_bb dirs ksq occ2) x = true).
  { intros dirs Hd H. apply slider_attacks_bit. split; [assumption|].
    eapply (slider_reaches_reverse dirs (board_occupied b')); [exact Hd|exact Hx| |exact H].
    intros y Hy1 Hy2. apply Hocc; assumption. }
  destruct (attacks_from (board_occupied b') (Pc them ptx) x ksq) eqn:Ha;
    [exfalso|reflexivity].
  assert (Hold : attacks_from (board_occupied (piece_on pos)) (Pc them ptx) x ksq = true ->
                 False).
  { intros H. apply Hxc. apply Hsingle. apply attackers_bit.
    split; [assumption|]. rewrite Hbx'. split; [reflexivity|exact H]. }
  destruct ptx; cbn [attacks_from] in Ha, Hold.
  - apply Hold. exact Ha.
  - apply Hold. exact Ha.
  - apply (and_zero_disjoint _ _ x Hb).
    + apply (Hrev bishop_dirs bishop_dirs_closed Ha).
    + apply bishops_and_queens_bit. split; [assumption|]. left. assumption.
  - apply (and_zero_disjoint _ _ x Hr).
    + apply (Hrev rook_dirs rook_dirs_closed Ha).
    + apply rooks_and_queens_bit. split; [assumption|]. left. assumption.
  - rewrite slider_reaches_queen in Ha. apply orb_true_iff in Ha. destruct Ha as [Ha|Ha].
    + apply (and_zero_disjoint _ _ x Hb).
      * apply (Hrev bishop_dirs bishop_dirs_closed Ha).
      * apply bishops_and_queens_bit. split; [assumption|]. right. assumption.
    + apply (and_zero_disjoint _ _ x Hr).
      * apply (Hrev rook_dirs rook_dirs_closed Ha).
      * apply rooks_and_queens_bit. split; [assumption|]. right. assumption.
  - apply Hold. exact Ha.
Qed.

Lemma attackers_ok b c t : bb_ok (attackers b c t).
Proof. unfold attackers. cbv zeta. apply bb_of_pred_ok. Qed.

(** Every move written by the evasion generator is legal: in a
    well-formed position in check whose [checkers] and [pinned_pieces]
    are what the board gives, and where a checking pawn next to an en
    passant square is the pawn that has just been pushed, the king of
    the side to move is not attacked after any move of
    [generate_evasions]. *)
Theorem generate_evasions_leave_king_safe (pos : Position) (m : Move) :
  let us := side_to_move pos in
  is_ok pos = true -> is_check pos = true ->
  checkers_on_board pos -> pinned_on_board pos -> ep_checker_pushed pos ->
  In m (generate_evasions pos) ->
  leaves_king_safe (piece_on pos) us (king_square pos us) m = true.
Proof.
  intros us Hok Hcheck Hch Hpin Hep Hin.
  destruct (is_ok_king pos us Hok) as [Hk [Hking _]].
  unfold generate_evasions in Hin. cbv zeta in Hin. fold us in Hin.
  apply in_app_iff in Hin. destruct Hin as [Hin|Hin].
  - (* king moves *)
    apply evasions_king_In in Hin. destruct Hin as [to [-> [Hto Hesc]]].
    apply bit_and_iff in Hto. destruct Hto as [Hto _].
    apply king_escape_safe; assumption.
  - destruct (Z.eqb_spec (checkers pos & (checkers pos - 1)) 0) as [Hone|Hmany];
      [|destruct Hin].
    (* a single checker *)
    unfold checkers_on_board in Hch. cbv zeta in Hch. fold us in Hch.
    unfold pinned_on_board in Hpin. cbv zeta in Hpin. fold us in Hpin.
    assert (Hpos : 0 < checkers pos).
    { unfold is_check in Hcheck. apply negb_true_iff, Z.eqb_neq in Hcheck.
      unfold EmptyBoardBB in Hcheck.
      pose proof (attackers_ok (piece_on pos) (opposite_color us) (king_square pos us)) as Hb.
      rewrite <- Hch in Hb. unfold bb_ok in Hb. lia. }
    set (checksq := first_1 (checkers pos)) in *.
    assert (Hcs : 0 <= checksq < 64).
    { apply (bb_ok_bit_range (checkers pos)); [rewrite Hch; apply attackers_ok|].
      apply first_1_set. assumption. }
    assert (Hsingle : forall x,
              Z.testbit (attackers (piece_on pos) (opposite_color us) (king_square pos us)) x
              = true -> x = checksq).
    { intros x Hx. rewrite <- Hch in Hx. apply single_bit; assumption. }
    assert (Hpins : forall x,
              Z.testbit (sole_blockers (piece_on pos) us (opposite_color us)
                                       (king_square pos us)) x = true ->
              Z.testbit (pinned_pieces pos us) x = true).
    { intros x Hx. rewrite Hpin. exact Hx. }
    rewrite !in_app_iff in Hin. destruct Hin as [Hin|[Hin|Hin]].
    + destruct (capture_checker_answer pos us (king_square pos us) _ _ _ Hin) as [Hnp Hans].
      apply (answer_move_safe pos us _ checksq (pinned_pieces pos us)); try assumption.
      * eapply capture_checker_mover; eassumption.
      * eapply capture_checker_kind; eassumption.
      * destruct Hans as [H|[H|[H _]]]; [left; assumption|right; assumption|].
        apply capture_checker_kind in Hin. unfold normal_or_promotion in Hin.
        rewrite H in Hin. contradiction.
    + destruct (evasions_block_answer pos us _ _ _ _ Hin) as [Hnp Hans].
      apply (answer_move_safe pos us _ checksq (pinned_pieces pos us)); try assumption.
      * eapply evasions_block_mover; eassumption.
      * eapply evasions_block_kind; eassumption.
      * destruct Hans as [H|[H|[H _]]]; [left; assumption|right; assumption|].
        apply evasions_block_kind in Hin. unfold normal_or_promotion in Hin.
        rewrite H in Hin. contradiction.
    + apply evasions_ep_In in Hin.
      destruct Hin as [Hset [Hpawn [from [-> [Hfrom Htest]]]]].
      rewrite !bit_and_iff in Hfrom. destruct Hfrom as [[_ Hfrom] _].
      apply bit_pawns in Hfrom. destruct Hfrom as [Hfr Hp].
      destruct (is_ok_ep pos Hok) as [E|Hepr]; [contradiction|].
      apply (ep_move_safe pos us _ checksq from); try assumption.
      apply Hep; assumption.
Qed.


(** The position built on a board has the [checkers] and [pinned_pieces]
    of that board. *)
Lemma position_of_board_checkers stm b ep cs :
  checkers_on_board (position_of_board stm b ep cs).
Proof. reflexivity. Qed.

Lemma position_of_board_pinned stm b ep cs :
  pinned_on_board (position_of_board stm b ep cs).
Proof. reflexivity. Qed.

Lemma generate_evasions_leave_king_safe_witness :
  is_ok pos_ep_check = true /\ is_check pos_ep_check = true
  /\ checkers_on_board pos_ep_check /\ pinned_on_board pos_ep_check
  /\ ep_checker_pushed pos_ep_check
  /\ In (make_ep_move 35 42) (generate_evasions pos_ep_check)
  /\ leaves_king_safe (piece_on pos_ep_check) (side_to_move pos_ep_check)
       (king_square pos_ep_check (side_to_move pos_ep_check)) (make_ep_move 35 42) = true.
Proof.
  assert (Hok : is_ok pos_ep_check = true) by (vm_compute; reflexivity).
  assert (Hc : is_check pos_ep_check = true) by (vm_compute; reflexivity).
  assert (Hch : checkers_on_board pos_ep_check) by apply position_of_board_checkers.
  assert (Hpin : pinned_on_board pos_ep_check) by apply position_of_board_pinned.
  assert (Hep : ep_checker_pushed pos_ep_check) by (intros _ _; vm_compute; reflexivity).
  assert (Hin : In (make_ep_move 35 42) (generate_evasions pos_ep_check))
    by (vm_compute; auto 20).
  split; [exact Hok|]. split; [exact Hc|]. split; [exact Hch|]. split; [exact Hpin|].
  split; [exact Hep|]. split; [exact Hin|].
  exact (generate_evasions_leave_king_safe pos_ep_check (make_ep_move 35 42)
           Hok Hc Hch Hpin Hep Hin).
Defined.

(** ** Discovered and direct checks *)

Lemma ray_target_coords s d k :
  ray_valid s d k = true ->
  square_file (ray_target s d k) = square_file s + k * fst d
  /\ square_rank (ray_target s d k) = square_rank s + k * snd d.
Proof.
  unfold ray_valid, ray_target, coord_ok, make_square, square_file, square_rank.
  rewrite !andb_true_iff, !Z.leb_le.
  set (F := s mod 8 + k * fst d). set (R := s / 8 + k * snd d).
  intros [[H1 H2] [H3 H4]]. split.
  - Z.div_mod_to_equations. lia.
  - Z.div_mod_to_equations. lia.
Qed.

Lemma square_of_coords s t :
  square_file s = square_file t -> square_rank s = square_rank t -> s = t.
Proof.
  unfold square_file, square_rank. intros H1 H2. Z.div_mod_to_equations. lia.
Qed.

Lemma queen_dirs_unit d :
  In d queen_dirs -> -1 <= fst d <= 1 /\ -1 <= snd d <= 1 /\ (fst d <> 0 \/ snd d <> 0).
Proof.
  cbn. intros H. repeat (destruct H as [<-|H]; [cbn; lia|]). destruct H.
Qed.

Lemma bishop_dirs_unit d :
  In d bishop_dirs -> (fst d = 1 \/ fst d = -1) /\ (snd d = 1 \/ snd d = -1).
Proof.
  cbn. intros H. repeat (destruct H as [<-|H]; [cbn; lia|]). destruct H.
Qed.

Lemma rook_dirs_unit d :
  In d rook_dirs ->
  ((fst d = 1 \/ fst d = -1) /\ snd d = 0) \/ (fst d = 0 /\ (snd d = 1 \/ snd d = -1)).
Proof.
  cbn. intros H. repeat (destruct H as [<-|H]; [cbn; lia|]). destruct H.
Qed.

Lemma knight_steps_shape d :
  In d knight_steps ->
  (Z.abs (fst d) = 1 /\ Z.abs (snd d) = 2) \/ (Z.abs (fst d) = 2 /\ Z.abs (snd d) = 1).
Proof.
  cbn. intros H. repeat (destruct H as [<-|H]; [cbn; lia|]). destruct H.
Qed.

(** A slider that moves along [d] has [d] and its opposite among its
    directions. *)
Lemma slider_along_dirs p c d :
  In d queen_dirs -> slider_along p c d = true ->
  exists pt, p = Pc c pt /\ In d (slider_dirs pt) /\ In (opp_dir d) (slider_dirs pt).
Proof.
  intros Hd H. destruct p as [|c' pt]; [discriminate|].
  destruct pt; cbn [slider_along] in H; try discriminate.
  - apply andb_true_iff in H. destruct H as [Hc Hdiag]. apply Color_eqb_eq in Hc. subst c'.
    exists BISHOP. split; [reflexivity|]. cbn [slider_dirs].
    cbn in Hd. repeat (destruct Hd as [<-|Hd]; [cbn in Hdiag |- *; try discriminate; tauto|]).
    destruct Hd.
  - apply andb_true_iff in H. destruct H as [Hc Hdiag]. apply Color_eqb_eq in Hc. subst c'.
    exists ROOK. split; [reflexivity|]. cbn [slider_dirs].
    cbn in Hd. repeat (destruct Hd as [<-|Hd]; [cbn in Hdiag |- *; try discriminate; tauto|]).
    destruct Hd.
  - apply Color_eqb_eq in H. subst c'. exists QUEEN. split; [reflexivity|].
    cbn [slider_dirs]. split; [assumption|apply opp_dir_queen; assumption].
Qed.

Lemma sole_blocker_iff b ksq d k x :
  sole_blocker b ksq d k x = true <->
  (exists j, 1 <= j < k /\ ray_target ksq d j = x)
  /\ forall j, 1 <= j < k -> ray_target ksq d j = x \/ b (ray_target ksq d j) = EMPTY.
Proof.
  unfold sole_blocker. rewrite andb_true_iff, existsb_exists, forallb_forall. split.
  - intros [[j [Hj E]] Hall]. apply steps_upto_In in Hj. apply Z.eqb_eq in E. split.
    + exists j. split; [lia|assumption].
    + intros i Hi. specialize (Hall i (proj2 (steps_upto_In (k - 1) i) ltac:(lia))).
      apply orb_true_iff in Hall. destruct Hall as [H|H].
      * left. apply Z.eqb_eq. assumption.
      * right. apply Piece_eqb_eq. assumption.
  - intros [[j [Hj E]] Hall]. split.
    + exists j. split; [apply steps_upto_In; lia|apply Z.eqb_eq; assumption].
    + intros i Hi. apply steps_upto_In in Hi. apply orb_true_iff.
      destruct (Hall i ltac:(lia)) as [H|H].
      * left. apply Z.eqb_eq. assumption.
      * right. apply Piece_eqb_eq. assumption.
Qed.

(** A discovered check: when a sole blocker of a ray from the king [ksq]
    to a slider of colour [c] leaves the ray for an empty square off it,
    the slider attacks the king. *)
Lemma discovered_check b c ksq from to p :
  0 <= ksq < 64 -> 0 <= to < 64 -> b to = EMPTY -> p <> EMPTY ->
  Z.testbit (sole_blockers b c c ksq) from = true ->
  (forall d j0 j1, In d queen_dirs -> 1 <= j0 <= 7 -> 1 <= j1 <= 7 ->
                   ray_valid ksq d j0 = true -> ray_valid ksq d j1 = true ->
                   ray_target ksq d j0 = from -> ray_target ksq d j1 = to -> False) ->
  attacked (board_set (board_set b from EMPTY) to p) c ksq = true.
Proof.
  intros Hk Hto Hempty Hp Hdc Hoff.
  apply sole_blockers_bit in Hdc.
  destruct Hdc as [Hfrom [Hcf [d [k [Hd [Hkr [Hv [Hsl Hsb]]]]]]]].
  apply sole_blocker_iff in Hsb. destruct Hsb as [[j0 [Hj0 Ej0]] Hall].
  destruct (ray_reverse ksq d k Hk Hd Hkr Hv) as [Hy [Hyk [Hv' [Hback Hin]]]].
  cbv zeta in *. set (y := ray_target ksq d k) in *.
  destruct (slider_along_dirs _ _ _ Hd Hsl) as [pt [Hby [_ Hopp]]].
  set (b' := board_set (board_set b from EMPTY) to p).
  assert (Hyto : y <> to) by (intros E; rewrite E in Hby; congruence).
  assert (Hyfrom : y <> from).
  { intros E. destruct (Hin j0 Hj0) as [_ [_ [_ [N _]]]]. congruence. }
  assert (Hb'y : b' y = Pc c pt).
  { unfold b'. rewrite !board_set_neq by assumption. exact Hby. }
  apply (attacked_witness b' c ksq y Hy); [rewrite Hb'y; reflexivity|].
  rewrite Hb'y, attacks_from_cases. apply orb_true_iff. right.
  unfold slider_reaches. apply existsb_exists. exists (opp_dir d). split; [assumption|].
  apply slides_to_iff. exists k. split; [assumption|]. split; [assumption|].
  split; [assumption|]. intros j Hj.
  destruct (Hin (k - j) ltac:(lia)) as [Hvj [E [Hr [N1 N2]]]].
  replace (k - (k - j)) with j in E by lia. fold y in E. rewrite E.
  destruct (Z.testbit (board_occupied b') (ray_target ksq d (k - j))) eqn:Eb; [|reflexivity].
  exfalso. apply board_occupied_bit in Eb. destruct Eb as [_ Eb]. apply Eb.
  assert (Hnt : ray_target ksq d (k - j) <> to).
  { intros Et. destruct (Hin j0 Hj0) as [Hv0 _].
    exact (Hoff d j0 (k - j) Hd ltac:(lia) ltac:(lia) Hv0 Hvj Ej0 Et). }
  unfold b'. rewrite board_set_neq by assumption.
  destruct (Hall (k - j) ltac:(lia)) as [Ef|Ee].
  - rewrite Ef, board_set_eq. reflexivity.
  - destruct (Z.eq_dec (ray_target ksq d (k - j)) from) as [Ef|Nf].
    + rewrite Ef, board_set_eq. reflexivity.
    + rewrite board_set_neq by assumption. exact Ee.
Qed.

Lemma occupied_squares_board pos : occupied_squares pos = board_occupied (piece_on pos).
Proof. reflexivity. Qed.

Lemma file_bb_bit ksq s :
  Z.testbit (file_bb ksq) s = true <-> 0 <= s < 64 /\ square_file s = square_file ksq.
Proof. unfold file_bb. rewrite bb_of_pred_true, Z.eqb_eq. reflexivity. Qed.

Lemma file_bb_ok ksq : bb_ok (file_bb ksq).
Proof. apply bb_of_pred_ok. Qed.

(** Two squares of one file are not on a common ray from a square of
    another file. *)
Lemma off_ray_same_file ksq from to d j0 j1 :
  square_file from <> square_file ksq -> square_file to = square_file from -> to <> from ->
  In d queen_dirs -> ray_valid ksq d j0 = true -> ray_valid ksq d j1 = true ->
  ray_target ksq d j0 = from -> ray_target ksq d j1 = to -> False.
Proof.
  intros Hfile Hsame Hne Hd Hv0 Hv1 E0 E1.
  destruct (ray_target_coords ksq d j0 Hv0) as [F0 R0].
  destruct (ray_target_coords ksq d j1 Hv1) as [F1 R1].
  rewrite E0 in F0, R0. rewrite E1 in F1, R1.
  destruct (queen_dirs_unit d Hd) as [Hdf [Hdr _]].
  destruct d as [df dr]. cbn [fst snd] in *.
  assert (Hcase : df = -1 \/ df = 0 \/ df = 1) by lia.
  apply Hne. apply square_of_coords; [assumption|].
  destruct Hcase as [-> | [-> | ->]]; nia.
Qed.

(** A knight's move never stays on a ray. *)
Lemma off_ray_knight ksq from to d j0 j1 :
  step_reaches knight_steps from to = true ->
  In d queen_dirs -> ray_valid ksq d j0 = true -> ray_valid ksq d j1 = true ->
  ray_target ksq d j0 = from -> ray_target ksq d j1 = to -> False.
Proof.
  intros Hstep Hd Hv0 Hv1 E0 E1.
  apply step_reaches_iff in Hstep. destruct Hstep as [dk [Hdk [Hvk Ek]]].
  destruct (ray_target_coords ksq d j0 Hv0) as [F0 R0].
  destruct (ray_target_coords ksq d j1 Hv1) as [F1 R1].
  destruct (ray_target_coords from dk 1 Hvk) as [Fk Rk].
  rewrite E0 in F0, R0. rewrite E1 in F1, R1. rewrite Ek in Fk, Rk.
  destruct (queen_dirs_unit d Hd) as [Hdf [Hdr _]].
  pose proof (knight_steps_shape dk Hdk) as Hshape.
  destruct d as [df dr], dk as [kf kr]. cbn [fst snd] in *.
  assert (Hcf : df = -1 \/ df = 0 \/ df = 1) by lia.
  assert (Hcr : dr = -1 \/ dr = 0 \/ dr = 1) by lia.
  destruct Hcf as [-> | [-> | ->]], Hcr as [-> | [-> | ->]]; lia.
Qed.

(** A move along a diagonal never stays on a file or a rank, and a move
    along a file or a rank never stays on a diagonal. *)
Lemma off_ray_cross ksq from to d j0 j1 d' k' :
  (In d rook_dirs /\ In d' bishop_dirs) \/ (In d bishop_dirs /\ In d' rook_dirs) ->
  1 <= k' ->
  ray_valid from d' k' = true -> ray_target from d' k' = to ->
  ray_valid ksq d j0 = true -> ray_valid ksq d j1 = true ->
  ray_target ksq d j0 = from -> ray_target ksq d j1 = to -> False.
Proof.
  intros Hdirs Hk' Hv' E' Hv0 Hv1 E0 E1.
  destruct (ray_target_coords ksq d j0 Hv0) as [F0 R0].
  destruct (ray_target_coords ksq d j1 Hv1) as [F1 R1].
  destruct (ray_target_coords from d' k' Hv') as [Fk Rk].
  rewrite E0 in F0, R0. rewrite E1 in F1, R1. rewrite E' in Fk, Rk.
  destruct d as [df dr], d' as [df' dr'].
  destruct Hdirs as [[Hr Hb]|[Hb Hr]].
  - apply rook_dirs_unit in Hr. apply bishop_dirs_unit in Hb. cbn [fst snd] in *.
    destruct Hr as [[[-> | ->] ->]|[-> [-> | ->]]], Hb as [[-> | ->] [-> | ->]]; lia.
  - apply rook_dirs_unit in Hr. apply bishop_dirs_unit in Hb. cbn [fst snd] in *.
    destruct Hr as [[[-> | ->] ->]|[-> [-> | ->]]], Hb as [[-> | ->] [-> | ->]]; lia.
Qed.

(** A sole blocker that slides along the ray it blocks attacks the
    square the ray starts from. *)
Lemma blocker_on_own_line b c ksq from pt d j0 :
  0 <= ksq < 64 ->
  Z.testbit (sole_blockers b c c ksq) from = true ->
  b from = Pc c pt -> In d (slider_dirs pt) ->
  1 <= j0 <= 7 -> ray_valid ksq d j0 = true -> ray_target ksq d j0 = from ->
  attacked b c ksq = true.
Proof.
  intros Hk Hdc Hp Hd Hj0 Hv0 E0.
  destruct (slider_dirs_closed pt d Hd) as [Hq Hopp].
  apply sole_blockers_bit in Hdc.
  destruct Hdc as [Hfrom [_ [d1 [k1 [Hd1 [Hk1 [Hv1 [_ Hsb]]]]]]]].
  apply sole_blocker_iff in Hsb. destruct Hsb as [[j1 [Hj1 Ej1]] Hall].
  destruct (ray_reverse ksq d1 k1 Hk Hd1 Hk1 Hv1) as [_ [_ [_ [_ Hin1]]]]. cbv zeta in Hin1.
  destruct (Hin1 j1 Hj1) as [Hvj1 _].
  destruct (ray_unique ksq d j0 d1 j1 Hk Hq Hj0 Hv0 Hd1 ltac:(lia) Hvj1 ltac:(congruence))
    as [-> ->].
  destruct (ray_reverse ksq d j0 Hk Hq Hj0 Hv0) as [_ [_ [Hv' [Hback Hin]]]].
  cbv zeta in *. rewrite E0 in *.
  apply (attacked_witness b c ksq from Hfrom); [rewrite Hp; reflexivity|].
  rewrite Hp, attacks_from_cases. apply orb_true_iff. right.
  unfold slider_reaches. apply existsb_exists. exists (opp_dir d). split; [assumption|].
  apply slides_to_iff. exists j0. split; [assumption|]. split; [assumption|].
  split; [assumption|]. intros j Hj.
  destruct (Hin (j0 - j) ltac:(lia)) as [_ [E [_ [N1 _]]]].
  replace (j0 - (j0 - j)) with j in E by lia. rewrite E.
  destruct (Z.testbit (board_occupied b) (ray_target ksq d (j0 - j))) eqn:Eb; [|reflexivity].
  exfalso. apply board_occupied_bit in Eb. destruct Eb as [_ Eb]. apply Eb.
  destruct (Hall (j0 - j) ltac:(lia)) as [Ef|Ee]; [contradiction|exact Ee].
Qed.

(** A direct check: a piece that lands on a square from which its kind
    attacks the king attacks the king. *)
Lemma direct_check pos us pt ksq from to :
  0 <= ksq < 64 -> 0 <= to < 64 ->
  In pt piece_types_knight_to_queen ->
  Z.testbit (piece_attacks_fn pos pt ksq) to = true ->
  attacked (board_set (board_set (piece_on pos) from EMPTY) to (Pc us pt)) us ksq = true.
Proof.
  intros Hk Hto Hpt Ha.
  set (b' := board_set (board_set (piece_on pos) from EMPTY) to (Pc us pt)).
  assert (Hb' : b' to = Pc us pt) by (unfold b'; apply board_set_eq).
  apply (attacked_witness b' us ksq to Hto); [rewrite Hb'; reflexivity|].
  rewrite Hb'.
  assert (Hocc : forall x, x <> ksq -> x <> to ->
            Z.testbit (board_occupied b') x = true ->
            Z.testbit (occupied_squares pos) x = true).
  { intros x _ Hx Hbit. apply board_occupied_bit in Hbit. destruct Hbit as [Hr Hbit].
    apply occupied_bit. split; [assumption|]. unfold b' in Hbit.
    rewrite board_set_neq in Hbit by assumption.
    destruct (Z.eq_dec x from) as [->|Hf].
    - rewrite board_set_eq in Hbit. contradiction.
    - rewrite board_set_neq in Hbit by assumption. exact Hbit. }
  assert (Hrev : forall dirs,
            (forall d, In d dirs -> In d queen_dirs /\ In (opp_dir d) dirs) ->
            Z.testbit (slider_attacks_bb dirs ksq (occupied_squares pos)) to = true ->
            slider_reaches dirs (board_occupied b') to ksq = true).
  { intros dirs Hd H. apply slider_attacks_bit in H. destruct H as [_ H].
    eapply (slider_reaches_reverse dirs (occupied_squares pos)); [exact Hd|exact Hk| |exact H].
    intros x Hx1 Hx2. apply Hocc; assumption. }
  cbn in Hpt. destruct Hpt as [<-|[<-|[<-|[<-|[]]]]]; cbn [piece_attacks_fn attacks_from] in *.
  - apply knight_attacks_bit in Ha. destruct Ha as [_ Ha].
    rewrite knight_step_sym by assumption. exact Ha.
  - apply (Hrev bishop_dirs bishop_dirs_closed Ha).
  - apply (Hrev rook_dirs rook_dirs_closed Ha).
  - rewrite slider_reaches_queen. apply orb_true_iff.
    unfold queen_attacks, queen_attacks_bb in Ha. apply bit_or_iff in Ha.
    destruct Ha as [Ha|Ha].
    + left. apply (Hrev bishop_dirs bishop_dirs_closed Ha).
    + right. apply (Hrev rook_dirs rook_dirs_closed Ha).
Qed.

(** A pawn that lands on a square from which it attacks the king. *)
Lemma direct_pawn_check pos us ksq from to :
  0 <= ksq < 64 -> 0 <= to < 64 ->
  Z.testbit (pawn_attacks (opposite_color us) ksq) to = true ->
  attacked (board_set (board_set (piece_on pos) from EMPTY) to (Pc us PAWN)) us ksq = true.
Proof.
  intros Hk Hto Ha.
  set (b' := board_set (board_set (piece_on pos) from EMPTY) to (Pc us PAWN)).
  assert (Hb' : b' to = Pc us PAWN) by (unfold b'; apply board_set_eq).
  apply (attacked_witness b' us ksq to Hto); [rewrite Hb'; reflexivity|].
  rewrite Hb'. cbn [attacks_from].
  unfold pawn_attacks in Ha. rewrite pawn_attacks_sym in Ha by assumption.
  rewrite opposite_color_involutive, pawn_attacks_steps in Ha.
  apply andb_true_iff in Ha. destruct Ha as [_ Ha]. destruct us; exact Ha.
Qed.

Lemma not_file_bit ksq s :
  Z.testbit (~~ file_bb ksq) s = true -> 0 <= s < 64 /\ square_file s <> square_file ksq.
Proof.
  intros H. apply bit_not_iff in H; [|apply file_bb_ok]. destruct H as [Hs H].
  split; [assumption|]. intros E.
  assert (Hb : Z.testbit (file_bb ksq) s = true) by (apply file_bb_bit; split; assumption).
  congruence.
Qed.

Lemma pawn_discovered_check pos us ksq from to :
  0 <= ksq < 64 ->
  Z.testbit (pawns pos us) from = true ->
  Z.testbit (~~ file_bb ksq) from = true ->
  Z.testbit (sole_blockers (piece_on pos) us us ksq) from = true ->
  Z.testbit (empty_squares pos) to = true ->
  square_file to = square_file from -> to <> from ->
  attacked (apply_move (piece_on pos) us (make_move from to)) us ksq = true.
Proof.
  intros Hk Hp Hfile Hdc He Hsame Hne.
  apply bit_pawns in Hp. destruct Hp as [Hfr Hp].
  apply not_file_bit in Hfile. destruct Hfile as [_ Hfile].
  apply empty_bit in He. destruct He as [Hto He].
  unfold apply_move, make_move. cbn [move_from move_to move_kind].
  apply discovered_check; try assumption.
  - apply empty_piece. assumption.
  - rewrite Hp. discriminate.
  - intros d j0 j1 Hd _ _ Hv0 Hv1 E0 E1.
    exact (off_ray_same_file ksq from to d j0 j1 Hfile Hsame Hne Hd Hv0 Hv1 E0 E1).
Qed.

Lemma pawn_direct_check pos us ksq from to :
  0 <= ksq < 64 ->
  Z.testbit (pawns pos us) from = true ->
  Z.testbit (empty_squares pos) to = true ->
  Z.testbit (pawn_attacks (opposite_color us) ksq) to = true ->
  attacked (apply_move (piece_on pos) us (make_move from to)) us ksq = true.
Proof.
  intros Hk Hp He Ha.
  apply bit_pawns in Hp. destruct Hp as [Hfr Hp].
  apply empty_bit in He. destruct He as [Hto He].
  unfold apply_move, make_move. cbn [move_from move_to move_kind]. rewrite Hp.
  apply direct_pawn_check; assumption.
Qed.

Lemma checks_white_pawn_give_check pos ksq m :
  side_to_move pos = WHITE -> 0 <= ksq < 64 ->
  In m (checks_white_pawn_discovered pos ksq
          (sole_blockers (piece_on pos) WHITE WHITE ksq) (empty_squares pos)
        ++ checks_white_pawn_direct_single pos ksq
             (sole_blockers (piece_on pos) WHITE WHITE ksq) (empty_squares pos)
        ++ checks_white_pawn_direct_double pos ksq
             (sole_blockers (piece_on pos) WHITE WHITE ksq) (empty_squares pos)) ->
  attacked (apply_move (piece_on pos) WHITE m) WHITE ksq = true.
Proof.
  intros Hstm Hk H.
  unfold checks_white_pawn_discovered, checks_white_pawn_direct_single,
    checks_white_pawn_direct_double in H. cbv zeta in H.
  rewrite !in_app_iff in H. destruct H as [[H|H]|[H|H]].
  - apply emit1_In in H; [|bb_ok_tac]. destruct H as [to [Hto ->]].
    rewrite !bit_and_iff in Hto. destruct Hto as [[Hfrom _] He].
    apply bit_shl_iff in Hfrom; [|lia]. destruct Hfrom as [Hfrom _].
    rewrite !bit_and_iff in Hfrom. destruct Hfrom as [[Hp Hfile] Hdc].
    unfold DELTA_N. apply pawn_discovered_check; try assumption; [|lia].
    apply bit_pawns in Hp. apply empty_bit in He. sq_arith.
  - apply emit1_In in H; [|bb_ok_tac]. destruct H as [to [Hto ->]].
    rewrite !bit_and_iff in Hto. destruct Hto as [Hmid He].
    apply bit_shl_iff in Hmid; [|lia]. destruct Hmid as [Hmid _].
    rewrite !bit_and_iff in Hmid. destruct Hmid as [[[Hfrom _] _] _].
    apply bit_shl_iff in Hfrom; [|lia]. destruct Hfrom as [Hfrom _].
    rewrite !bit_and_iff in Hfrom. destruct Hfrom as [[Hp Hfile] Hdc].
    unfold DELTA_N. apply pawn_discovered_check; try assumption; [|lia].
    apply bit_pawns in Hp. apply empty_bit in He. sq_arith.
  - apply emit1_In in H; [|bb_ok_tac]. destruct H as [to [Hto ->]].
    rewrite !bit_and_iff in Hto. destruct Hto as [[Hfrom He] Ha].
    apply bit_shl_iff in Hfrom; [|lia]. destruct Hfrom as [Hfrom _].
    rewrite !bit_and_iff in Hfrom. destruct Hfrom as [[Hp _] _].
    unfold DELTA_N. apply pawn_direct_check; assumption.
  - apply emit1_In in H; [|bb_ok_tac]. destruct H as [to [Hto ->]].
    rewrite !bit_and_iff in Hto. destruct Hto as [[Hmid He] Ha].
    apply bit_shl_iff in Hmid; [|lia]. destruct Hmid as [Hmid _].
    rewrite !bit_and_iff in Hmid. destruct Hmid as [[Hfrom _] _].
    apply bit_shl_iff in Hfrom; [|lia]. destruct Hfrom as [Hfrom _].
    rewrite !bit_and_iff in Hfrom. destruct Hfrom as [[Hp _] _].
    unfold DELTA_N. apply pawn_direct_check; assumption.
Qed.

Lemma checks_black_pawn_give_check pos ksq m :
  side_to_move pos = BLACK -> 0 <= ksq < 64 ->
  attacked (piece_on pos) BLACK ksq = false ->
  In m (checks_black_pawn_discovered pos ksq
          (sole_blockers (piece_on pos) BLACK BLACK ksq) (empty_squares pos)
        ++ checks_black_pawn_direct_single pos ksq
             (sole_blockers (piece_on pos) BLACK BLACK ksq) (empty_squares pos)
        ++ checks_black_pawn_direct_double pos ksq
             (sole_blockers (piece_on pos) BLACK BLACK ksq) (empty_squares pos)) ->
  attacked (apply_move (piece_on pos) BLACK m) BLACK ksq = true.
Proof.
  intros Hstm Hk Hsafe H.
  unfold checks_black_pawn_discovered, checks_black_pawn_direct_single,
    checks_black_pawn_direct_double in H. cbv zeta in H.
  rewrite !in_app_iff in H. destruct H as [[H|H]|[H|H]].
  - apply emit1_In in H; [|bb_ok_tac]. destruct H as [to [Hto ->]].
    rewrite !bit_and_iff in Hto. destruct Hto as [[Hfrom _] He].
    apply bit_shr_iff in Hfrom. destruct Hfrom as [Hfrom _].
    rewrite !bit_and_iff in Hfrom. destruct Hfrom as [[Hp Hfile] Hdc].
    replace (to - DELTA_S) with (to + 8) by (unfold DELTA_S; lia).
    apply pawn_discovered_check; try assumption; [|lia].
    apply bit_pawns in Hp. apply empty_bit in He. sq_arith.
  - apply emit1_In in H; [|bb_ok_tac]. destruct H as [to [Hto ->]].
    rewrite !bit_and_iff in Hto. destruct Hto as [Hmid He].
    apply bit_shr_iff in Hmid. destruct Hmid as [Hmid _].
    rewrite !bit_and_iff in Hmid. destruct Hmid as [[[Hfrom _] _] _].
    apply bit_shr_iff in Hfrom. destruct Hfrom as [Hfrom _].
    rewrite !bit_and_iff in Hfrom. destruct Hfrom as [[Hp Hfile] Hdc].
    replace (to - DELTA_S - DELTA_S) with (to + 8 + 8) by (unfold DELTA_S; lia).
    apply pawn_discovered_check; try assumption; [|lia].
    apply bit_pawns in Hp. apply empty_bit in He. sq_arith.
  - apply emit1_In in H; [|bb_ok_tac]. destruct H as [to [Hto ->]].
    rewrite !bit_and_iff in Hto. destruct Hto as [[Hfrom He] Ha].
    apply bit_shr_iff in Hfrom. destruct Hfrom as [Hfrom _].
    rewrite !bit_and_iff in Hfrom. destruct Hfrom as [[Hp _] _].
    replace (to - DELTA_S) with (to + 8) by (unfold DELTA_S; lia).
    apply pawn_direct_check; assumption.
  - (* the double-push loop tests the attack set of a black pawn on the
       king's square: a pawn that passes the test already attacks the king *)
    exfalso.
    apply emit1_In in H; [|bb_ok_tac]. destruct H as [to [Hto ->]].
    rewrite !bit_and_iff in Hto. destruct Hto as [[Hmid He] Ha].
    apply bit_shr_iff in Hmid. destruct Hmid as [Hmid _].
    rewrite !bit_and_iff in Hmid. destruct Hmid as [[Hfrom _] _].
    apply bit_shr_iff in Hfrom. destruct Hfrom as [Hfrom _].
    rewrite !bit_and_iff in Hfrom. destruct Hfrom as [[Hp _] _].
    apply bit_pawns in Hp. destruct Hp as [Hfr Hp].
    unfold black_pawn_attacks in Ha. apply bit_pawn_attacks in Ha; [|assumption].
    destruct Ha as [Hto Ha]. apply pawn_attack_arith_black in Ha.
    assert (Hatt : attacked (piece_on pos) BLACK ksq = true).
    { apply (attacked_witness _ BLACK ksq (to + 8 + 8) Hfr); [rewrite Hp; reflexivity|].
      rewrite Hp. cbn [attacks_from].
      change [(1, -1); (-1, -1)] with (pawn_steps BLACK).
      rewrite pawn_steps_arith by assumption.
      apply pawn_attack_arith_black. clear - Ha Hk Hto Hfr. sq_arith. }
    congruence.
Qed.

Lemma bishop_to_iff pos from to :
  Z.testbit (bishop_attacks pos from) to = true ->
  exists d k, In d bishop_dirs /\ 1 <= k /\ ray_valid from d k = true
              /\ ray_target from d k = to.
Proof.
  intros H. unfold bishop_attacks, bishop_attacks_bb in H.
  apply slider_attacks_bit in H. destruct H as [_ H].
  unfold slider_reaches in H. apply existsb_exists in H. destruct H as [d [Hd H]].
  apply slides_to_iff in H. destruct H as [k [Hk [Hv [Ht _]]]].
  exists d, k. repeat split; try assumption; lia.
Qed.

Lemma rook_to_iff pos from to :
  Z.testbit (rook_attacks pos from) to = true ->
  exists d k, In d rook_dirs /\ 1 <= k /\ ray_valid from d k = true
              /\ ray_target from d k = to.
Proof.
  intros H. unfold rook_attacks, rook_attacks_bb in H.
  apply slider_attacks_bit in H. destruct H as [_ H].
  unfold slider_reaches in H. apply existsb_exists in H. destruct H as [d [Hd H]].
  apply slides_to_iff in H. destruct H as [k [Hk [Hv [Ht _]]]].
  exists d, k. repeat split; try assumption; lia.
Qed.

(** Knights, bishops and rooks in [dc] leave the ray they block. *)
Lemma piece_off_ray pos us pt ksq from to d j0 j1 :
  0 <= ksq < 64 ->
  In pt [KNIGHT; BISHOP; ROOK] ->
  attacked (piece_on pos) us ksq = false ->
  Z.testbit (pieces_of_color_and_type pos us pt) from = true ->
  Z.testbit (sole_blockers (piece_on pos) us us ksq) from = true ->
  Z.testbit (piece_attacks_fn pos pt from) to = true ->
  In d queen_dirs -> 1 <= j0 <= 7 -> 1 <= j1 <= 7 ->
  ray_valid ksq d j0 = true -> ray_valid ksq d j1 = true ->
  ray_target ksq d j0 = from -> ray_target ksq d j1 = to -> False.
Proof.
  intros Hk Hpt Hsafe Hp Hdc Ha Hd Hj0 Hj1 Hv0 Hv1 E0 E1.
  apply piece_bit in Hp. destruct Hp as [Hfr Hp].
  cbn in Hpt. destruct Hpt as [<-|[<-|[<-|[]]]]; cbn [piece_attacks_fn] in Ha.
  - apply knight_attacks_bit in Ha. destruct Ha as [_ Ha].
    exact (off_ray_knight ksq from to d j0 j1 Ha Hd Hv0 Hv1 E0 E1).
  - apply bishop_to_iff in Ha. destruct Ha as [d' [k' [Hd' [Hk' [Hv' E']]]]].
    apply in_app_iff in Hd. destruct Hd as [Hd|Hd].
    + pose proof (blocker_on_own_line _ us ksq from BISHOP d j0 Hk Hdc Hp Hd Hj0 Hv0 E0).
      congruence.
    + apply (off_ray_cross ksq from to d j0 j1 d' k'); try assumption. left. tauto.
  - apply rook_to_iff in Ha. destruct Ha as [d' [k' [Hd' [Hk' [Hv' E']]]]].
    apply in_app_iff in Hd. destruct Hd as [Hd|Hd].
    + apply (off_ray_cross ksq from to d j0 j1 d' k'); try assumption. right. tauto.
    + pose proof (blocker_on_own_line _ us ksq from ROOK d j0 Hk Hdc Hp Hd Hj0 Hv0 E0).
      congruence.
Qed.

Lemma checks_piece_give_check pos us pt ksq m :
  0 <= ksq < 64 ->
  In pt [KNIGHT; BISHOP; ROOK] ->
  attacked (piece_on pos) us ksq = false ->
  In m (checks_piece (pieces_of_color_and_type pos us pt) (piece_attacks_fn pos pt) ksq
                     (sole_blockers (piece_on pos) us us ksq) (empty_squares pos)) ->
  attacked (apply_move (piece_on pos) us m) us ksq = true.
Proof.
  intros Hk Hpt Hsafe H. unfold checks_piece in H. destruct (negb _); [|destruct H].
  apply in_app_iff in H. destruct H as [H|H].
  - (* discovered checks *)
    apply emit_In in H; [|bb_ok_tac]. destruct H as [from [Hfrom H]].
    apply emit1_In in H; [|apply bb_and_ok_l, piece_attacks_fn_ok].
    destruct H as [to [Hto ->]].
    apply bit_and_iff in Hfrom. destruct Hfrom as [Hp Hdc].
    apply bit_and_iff in Hto. destruct Hto as [Ha He].
    apply empty_bit in He. destruct He as [Hto He].
    unfold apply_move, make_move. cbn [move_from move_to move_kind].
    apply discovered_check; try assumption.
    + apply empty_piece. assumption.
    + apply piece_bit in Hp. destruct Hp as [_ Hp]. rewrite Hp. discriminate.
    + intros d j0 j1 Hd Hj0 Hj1 Hv0 Hv1 E0 E1.
      exact (piece_off_ray pos us pt ksq from to d j0 j1 Hk Hpt Hsafe Hp Hdc Ha
               Hd Hj0 Hj1 Hv0 Hv1 E0 E1).
  - (* direct checks *)
    cbv zeta in H. apply emit_In in H; [|bb_ok_tac]. destruct H as [from [Hfrom H]].
    apply emit1_In in H; [|apply bb_and_ok_l, piece_attacks_fn_ok].
    destruct H as [to [Hto ->]].
    apply bit_and_iff in Hfrom. destruct Hfrom as [Hp _].
    rewrite !bit_and_iff in Hto. destruct Hto as [_ [Ha He]].
    apply empty_bit in He. destruct He as [Hto He].
    apply piece_bit in Hp. destruct Hp as [_ Hp].
    unfold apply_move, make_move. cbn [move_from move_to move_kind]. rewrite Hp.
    apply direct_check; try assumption.
    cbn in Hpt |- *. tauto.
Qed.

Lemma checks_queen_give_check pos us ksq m :
  0 <= ksq < 64 ->
  In m (checks_queen pos (queens pos us) ksq (empty_squares pos)) ->
  attacked (apply_move (piece_on pos) us m) us ksq = true.
Proof.
  intros Hk H. unfold checks_queen in H. destruct (negb _); [|destruct H].
  cbv zeta in H. apply emit_In in H; [|bb_ok_tac]. destruct H as [from [Hp H]].
  apply emit1_In in H; [|apply bb_and_ok_l; bb_ok_tac].
  destruct H as [to [Hto ->]].
  rewrite !bit_and_iff in Hto. destruct Hto as [_ [Ha He]].
  apply empty_bit in He. destruct He as [Hto He].
  apply piece_bit in Hp. destruct Hp as [_ Hp].
  unfold apply_move, make_move. cbn [move_from move_to move_kind]. rewrite Hp.
  apply direct_check; try assumption. cbn. tauto.
Qed.

Lemma checks_king_give_check pos us ksq m :
  0 <= ksq < 64 -> piece_on pos (king_square pos us) = Pc us KING ->
  In m (checks_king pos us ksq (sole_blockers (piece_on pos) us us ksq) (empty_squares pos)) ->
  attacked (apply_move (piece_on pos) us m) us ksq = true.
Proof.
  intros Hk Hking H. unfold checks_king in H. cbv zeta in H.
  destruct (bit_is_set _ _) eqn:Hdc; [|destruct H]. unfold bit_is_set in Hdc.
  apply emit1_In in H; [|bb_ok_tac]. destruct H as [to [Hto ->]].
  rewrite !bit_and_iff in Hto. destruct Hto as [[_ He] Hoff].
  apply empty_bit in He. destruct He as [Hto He].
  apply bit_not_any_iff in Hoff; [|assumption].
  unfold apply_move, make_move. cbn [move_from move_to move_kind].
  apply discovered_check; try assumption.
  - apply empty_piece. assumption.
  - rewrite Hking. discriminate.
  - intros d j0 j1 Hd _ Hj1 _ Hv1 _ E1.
    assert (Hq : Z.testbit (QueenPseudoAttacks ksq) to = true).
    { unfold QueenPseudoAttacks, queen_attacks_bb. apply bit_or_iff.
      assert (Hs : slides_to EmptyBoardBB ksq d to = true).
      { apply slides_to_iff. exists j1. split; [assumption|]. split; [assumption|].
        split; [assumption|]. intros j _. apply Z.bits_0. }
      apply in_app_iff in Hd. destruct Hd as [Hd|Hd]; [left|right];
        (apply slider_attacks_bit; split; [assumption|]);
        unfold slider_reaches; apply existsb_exists; exists d; split; assumption. }
    congruence.
Qed.


Lemma position_of_board_dc stm b ep cs : dc_on_board (position_of_board stm b ep cs).
Proof. reflexivity. Qed.

(** Every move written by the check generator gives check: in a
    well-formed position whose [discovered_check_candidates] are the ones
    the board gives and where the king of the other side is not attacked,
    that king is attacked after any move of [generate_checks].  (The
    black double-push loop, which tests the wrong attack table, writes
    nothing in such a position.) *)
Theorem generate_checks_give_check (pos : Position) (dc : Bitboard) (m : Move) :
  let us := side_to_move pos in
  let ksq := king_square pos (opposite_color us) in
  is_ok pos = true -> dc_on_board pos ->
  attacked (piece_on pos) us ksq = false ->
  In m (generate_checks pos dc) ->
  gives_check pos m = true.
Proof.
  intros us ksq Hok Hdc Hsafe H. unfold gives_check. cbv zeta. fold us. fold ksq.
  destruct (is_ok_king pos (opposite_color us) Hok) as [Hk _]. fold ksq in Hk.
  destruct (is_ok_king pos us Hok) as [_ [Hking _]].
  unfold generate_checks in H. cbv zeta in H. fold us in H. fold ksq in H.
  unfold dc_on_board in Hdc. cbv zeta in Hdc. fold us in Hdc. fold ksq in Hdc.
  rewrite Hdc in H.
  rewrite !app_assoc in H. rewrite <- !app_assoc in H.
  rewrite app_assoc in H. rewrite (app_assoc (_ ++ _)) in H.
  apply in_app_iff in H. destruct H as [H|H].
  - (* pawns *)
    rewrite <- !app_assoc in H. subst us.
    destruct (side_to_move pos) eqn:Hstm.
    + apply checks_white_pawn_give_check; assumption.
    + apply checks_black_pawn_give_check; assumption.
  - rewrite !in_app_iff in H. destruct H as [H|[H|[H|[H|H]]]].
    + apply (checks_piece_give_check pos us KNIGHT); try assumption. cbn. tauto.
    + apply (checks_piece_give_check pos us BISHOP); try assumption. cbn. tauto.
    + apply (checks_piece_give_check pos us ROOK); try assumption. cbn. tauto.
    + apply checks_queen_give_check; assumption.
    + apply checks_king_give_check; assumption.
Qed.

Lemma generate_checks_give_check_witness :
  is_ok pos_checks = true /\ dc_on_board pos_checks
  /\ attacked (piece_on pos_checks) (side_to_move pos_checks)
       (king_square pos_checks (opposite_color (side_to_move pos_checks))) = false
  /\ In (make_move 28 45) (generate_checks pos_checks 0)
  /\ gives_check pos_checks (make_move 28 45) = true.
Proof.
  assert (Hok : is_ok pos_checks = true) by (vm_compute; reflexivity).
  assert (Hdc : dc_on_board pos_checks) by apply position_of_board_dc.
  assert (Hsafe : attacked (piece_on pos_checks) (side_to_move pos_checks)
                    (king_square pos_checks (opposite_color (side_to_move pos_checks)))
                  = false) by (vm_compute; reflexivity).
  assert (Hin : In (make_move 28 45) (generate_checks pos_checks 0)) by (vm_compute; auto).
  split; [exact Hok|]. split; [exact Hdc|]. split; [exact Hsafe|]. split; [exact Hin|].
  exact (generate_checks_give_check pos_checks 0 (make_move 28 45) Hok Hdc Hsafe Hin).
Defined.

(** ** The evasion generator writes every legal move *)

Lemma attacked_false b c t x :
  attacked b c t = false -> 0 <= x < 64 -> color_of_piece (b x) = Some c ->
  attacks_from (board_occupied b) (b x) x t = false.
Proof.
  intros H Hx Hc. destruct (attacks_from _ _ x t) eqn:E; [|reflexivity].
  rewrite (attacked_witness b c t x Hx Hc E) in H. discriminate.
Qed.

Lemma only_bit A :
  0 < A -> (forall x, Z.testbit A x = true -> x = first_1 A) -> A & (A - 1) = 0.
Proof.
  intros Hpos Huniq. apply Z.bits_inj'. intros i Hi. rewrite Z.bits_0.
  pose proof (pop_1st_bit_bit A i Hpos) as H. unfold pop_1st_bit in H. cbn [snd] in H.
  unfold bb_and. rewrite H. destruct (Z.testbit A i) eqn:E; [|reflexivity].
  rewrite (Huniq i E), Z.eqb_refl. reflexivity.
Qed.

(** What a slider's attack is made of. *)
Lemma slider_attack_ray occ c pt x t :
  slider_reaches (slider_dirs pt) occ x t = true ->
  exists d k, In d (slider_dirs pt) /\ In d queen_dirs /\ 1 <= k <= 7
              /\ ray_valid x d k = true /\ ray_target x d k = t
              /\ (forall j, 1 <= j < k -> Z.testbit occ (ray_target x d j) = false)
              /\ slider_along (Pc c pt) c (opp_dir d) = true.
Proof.
  intros H. unfold slider_reaches in H. apply existsb_exists in H.
  destruct H as [d [Hd H]]. apply slides_to_iff in H.
  destruct H as [k [Hk [Hv [Ht Hc]]]].
  destruct (slider_dirs_ok c pt d Hd) as [Hq Hs].
  exists d, k. split; [assumption|]. split; [assumption|]. split; [assumption|].
  split; [assumption|]. split; [assumption|]. split; assumption.
Qed.

(** After a move of a piece of [us] that is not the king, every piece
    that gave check is either taken or shut off by the moved piece. *)
Lemma checker_neutralised b b' us ksq from to x :
  0 <= to < 64 ->
  color_of_piece (b from) = Some us ->
  color_of_piece (b' to) = Some us ->
  (forall y, y <> to -> b' y = board_set b from EMPTY y) ->
  attacked b' (opposite_color us) ksq = false ->
  Z.testbit (attackers b (opposite_color us) ksq) x = true ->
  x = to \/ Z.testbit (squares_between x ksq) to = true.
Proof.
  intros Hto Hcf Hct Hrest Hsafe Hx. set (them := opposite_color us) in *.
  apply attackers_bit in Hx. destruct Hx as [Hx [Hcx Ha]].
  destruct (Z.eq_dec x to) as [E|Hxto]; [left; assumption|right].
  assert (Hxf : x <> from).
  { intros E. rewrite E, Hcf in Hcx. injection Hcx as Hc. unfold them in Hc.
    destruct us; discriminate. }
  assert (Hb'x : b' x = b x).
  { rewrite (Hrest x Hxto). apply board_set_neq. assumption. }
  pose proof (attacked_false b' them ksq x Hsafe Hx ltac:(rewrite Hb'x; assumption)) as Hna.
  rewrite Hb'x in Hna. destruct (b x) as [|c pt] eqn:Hbx; [discriminate|].
  rewrite attacks_from_cases in Ha, Hna.
  apply orb_false_iff in Hna. destruct Hna as [Hn1 Hn2].
  rewrite Hn1 in Ha. cbn [orb] in Ha.
  destruct (slider_attack_ray _ c pt x ksq Ha) as [d [k [Hd [Hq [Hk [Hv [Ht [Hclear _]]]]]]]].
  (* the ray is shut on the new board: one of its squares is [to] *)
  destruct (forallb (fun j => negb (Z.testbit (board_occupied b') (ray_target x d j)))
                    (steps_upto (k - 1))) eqn:Eall.
  - exfalso. rewrite <- not_true_iff_false in Hn2. apply Hn2.
    unfold slider_reaches. apply existsb_exists. exists d. split; [assumption|].
    apply slides_to_iff. exists k. split; [assumption|]. split; [assumption|].
    split; [assumption|]. intros j Hj. rewrite forallb_forall in Eall.
    apply negb_true_iff. apply Eall. apply steps_upto_In. lia.
  - rewrite <- not_true_iff_false in Eall.
    assert (Hex : exists j, 1 <= j < k /\ ray_target x d j = to).
    { destruct (existsb (fun j => ray_target x d j =? to) (steps_upto (k - 1))) eqn:Eex.
      - apply existsb_exists in Eex. destruct Eex as [j [Hj Ej]].
        apply steps_upto_In in Hj. apply Z.eqb_eq in Ej. exists j. split; [lia|assumption].
      - exfalso. apply Eall. apply forallb_forall. intros j Hj.
        apply negb_true_iff.
        destruct (Z.testbit (board_occupied b') (ray_target x d j)) eqn:Eb; [|reflexivity].
        exfalso. apply board_occupied_bit in Eb. destruct Eb as [Hr Eb].
        assert (Hnt : ray_target x d j <> to).
        { intros E. rewrite <- not_true_iff_false in Eex. apply Eex.
          apply existsb_exists. exists j. split; [assumption|apply Z.eqb_eq; assumption]. }
        apply steps_upto_In in Hj. rewrite (Hrest _ Hnt) in Eb.
        assert (Hocc : Z.testbit (board_occupied b) (ray_target x d j) = true).
        { apply board_occupied_bit. split; [assumption|].
          destruct (Z.eq_dec (ray_target x d j) from) as [E|N].
          - rewrite E, board_set_eq in Eb. contradiction.
          - rewrite board_set_neq in Eb by assumption. exact Eb. }
        rewrite (Hclear j ltac:(lia)) in Hocc. discriminate. }
    destruct Hex as [j [Hj Ej]]. apply squares_between_iff. split; [assumption|].
    exists d, k, j. repeat split; try assumption; lia.
Qed.

(** A piece that attacks [ksq] from [x] leaves every square between
    [x] and [ksq] empty. *)
Lemma attacker_between_empty b c ksq x y :
  0 <= x < 64 -> color_of_piece (b x) = Some c ->
  attacks_from (board_occupied b) (b x) x ksq = true ->
  Z.testbit (squares_between x ksq) y = true ->
  b y = EMPTY
  /\ exists pt, b x = Pc c pt /\ slider_reaches (slider_dirs pt) (board_occupied b) x ksq = true.
Proof.
  intros Hx Hc Ha Hy. destruct (b x) as [|c' pt] eqn:Hbx; [discriminate|].
  cbn in Hc. injection Hc as ->.
  rewrite attacks_from_cases in Ha. apply orb_true_iff in Ha. destruct Ha as [Ha|Ha].
  - exfalso. exact (step_no_between _ x ksq y Hx (stepper_steps_ok c pt) Ha Hy).
  - split; [|exists pt; split; [reflexivity|assumption]].
    destruct (slider_attack_ray _ c pt x ksq Ha) as [d [k [Hd [Hq [Hk [Hv [Ht [Hclear _]]]]]]]].
    apply squares_between_iff in Hy.
    destruct Hy as [Hyr [d2 [k2 [j2 [Hd2 [Hk2 [Hv2 [Ht2 [Hj2 Ey]]]]]]]]].
    destruct (ray_unique x d k d2 k2 Hx Hq Hk Hv Hd2 Hk2 Hv2 ltac:(congruence)) as [-> ->].
    apply board_empty_bit; [assumption|]. rewrite <- Ey. apply Hclear. assumption.
Qed.

(** The squares between [x] and [ksq], seen from [ksq]. *)
Lemma between_from_king x ksq y :
  0 <= x < 64 -> Z.testbit (squares_between x ksq) y = true ->
  exists e k i, In e queen_dirs /\ 1 <= k <= 7 /\ 1 <= i < k
                /\ 0 <= ksq < 64
                /\ ray_valid ksq e k = true /\ ray_target ksq e k = x
                /\ ray_valid ksq e i = true /\ ray_target ksq e i = y.
Proof.
  intros Hx H. apply squares_between_iff in H.
  destruct H as [_ [d [k [j [Hd [Hk [Hv [Ht [Hj Ey]]]]]]]]].
  destruct (ray_reverse x d k Hx Hd Hk Hv) as [Hkr [_ [Hv' [Hback Hin]]]].
  cbv zeta in *. rewrite Ht in *.
  destruct (Hin j Hj) as [_ [E _]].
  destruct (ray_reverse ksq (opp_dir d) k Hkr (opp_dir_queen d Hd) Hk Hv')
    as [_ [_ [_ [_ Hin']]]]. cbv zeta in Hin'.
  destruct (Hin' (k - j) ltac:(lia)) as [Hvi _].
  exists (opp_dir d), k, (k - j).
  split; [apply opp_dir_queen; assumption|]. split; [assumption|]. split; [lia|].
  split; [assumption|]. split; [assumption|]. split; [assumption|].
  split; [assumption|]. congruence.
Qed.

Lemma between_of_king_ray ksq e k i :
  0 <= ksq < 64 -> In e queen_dirs -> 1 <= k <= 7 -> 1 <= i < k ->
  ray_valid ksq e k = true ->
  Z.testbit (squares_between (ray_target ksq e k) ksq) (ray_target ksq e i) = true.
Proof.
  intros Hk He Hkr Hi Hv.
  destruct (ray_reverse ksq e k Hk He Hkr Hv) as [Hx [_ [Hv' [Hback Hin]]]].
  cbv zeta in *. destruct (Hin i Hi) as [_ [E [Hr _]]].
  apply squares_between_iff. split; [assumption|].
  exists (opp_dir e), k, (k - i). split; [apply opp_dir_queen; assumption|].
  split; [assumption|]. split; [assumption|]. split; [assumption|].
  split; [lia|assumption].
Qed.

(** Two pieces that give check cannot both be answered by one move of a
    piece other than the king. *)
Lemma one_answer_one_checker b c ksq x1 x2 to :
  Z.testbit (attackers b c ksq) x1 = true ->
  Z.testbit (attackers b c ksq) x2 = true ->
  x1 = to \/ Z.testbit (squares_between x1 ksq) to = true ->
  x2 = to \/ Z.testbit (squares_between x2 ksq) to = true ->
  x1 = x2.
Proof.
  intros H1 H2 Q1 Q2.
  apply attackers_bit in H1. destruct H1 as [Hx1 [Hc1 Ha1]].
  apply attackers_bit in H2. destruct H2 as [Hx2 [Hc2 Ha2]].
  assert (Hocc : forall x y, 0 <= x < 64 -> color_of_piece (b x) = Some c ->
            attacks_from (board_occupied b) (b x) x ksq = true ->
            Z.testbit (squares_between x ksq) y = true ->
            color_of_piece (b y) = Some c -> False).
  { intros x y Hx Hc Ha Hy Hcy.
    destruct (attacker_between_empty b c ksq x y Hx Hc Ha Hy) as [E _].
    rewrite E in Hcy. discriminate. }
  destruct Q1 as [E1|B1], Q2 as [E2|B2].
  - congruence.
  - exfalso. subst to. exact (Hocc x2 x1 Hx2 Hc2 Ha2 B2 Hc1).
  - exfalso. subst to. exact (Hocc x1 x2 Hx1 Hc1 Ha1 B1 Hc2).
  - destruct (between_from_king x1 ksq to Hx1 B1)
      as [e1 [k1 [i1 [He1 [Hk1 [Hi1 [Hk [Hv1 [Ex1 [Hvi1 Ei1]]]]]]]]]].
    destruct (between_from_king x2 ksq to Hx2 B2)
      as [e2 [k2 [i2 [He2 [Hk2 [Hi2 [_ [Hv2 [Ex2 [Hvi2 Ei2]]]]]]]]]].
    destruct (ray_unique ksq e1 i1 e2 i2 Hk He1 ltac:(lia) Hvi1 He2 ltac:(lia) Hvi2
                ltac:(congruence)) as [-> ->].
    destruct (Z.lt_trichotomy k1 k2) as [Hlt|[Heq|Hgt]].
    + exfalso. apply (Hocc x2 x1 Hx2 Hc2 Ha2); [|assumption].
      rewrite <- Ex2, <- Ex1. apply between_of_king_ray; try assumption. lia.
    + congruence.
    + exfalso. apply (Hocc x1 x2 Hx1 Hc1 Ha1); [|assumption].
      rewrite <- Ex2, <- Ex1. apply between_of_king_ray; try assumption. lia.
Qed.

(** A sole blocker cannot answer a check. *)
Lemma pinned_cannot_answer b b' us ksq c from to :
  0 <= ksq < 64 -> 0 <= to < 64 -> to <> from ->
  color_of_piece (b' to) = Some us ->
  (forall y, y <> to -> b' y = board_set b from EMPTY y) ->
  attacked b' (opposite_color us) ksq = false ->
  Z.testbit (attackers b (opposite_color us) ksq) c = true ->
  c = to \/ Z.testbit (squares_between c ksq) to = true ->
  Z.testbit (sole_blockers b us (opposite_color us) ksq) from = true ->
  False.
Proof.
  intros Hk Hto Hne Hct Hrest Hsafe Hc Hans Hpin. set (them := opposite_color us) in *.
  apply sole_blockers_bit in Hpin.
  destruct Hpin as [Hfrom [Hcf [e [k [He [Hkr [Hv [Hsl Hsb]]]]]]]].
  apply sole_blocker_iff in Hsb. destruct Hsb as [[j0 [Hj0 Ej0]] Hall].
  destruct (ray_reverse ksq e k Hk He Hkr Hv) as [HS [_ [Hv' [Hback Hin]]]].
  cbv zeta in *. set (S := ray_target ksq e k) in *.
  destruct (slider_along_dirs _ _ _ He Hsl) as [pt [HbS [_ Hopp]]].
  apply attackers_bit in Hc. destruct Hc as [Hcr [Hcc Hca]].
  assert (Hinner_empty : forall j, 1 <= j < k -> j <> j0 -> b (ray_target ksq e j) = EMPTY).
  { intros j Hj Hjj. destruct (Hall j Hj) as [E|E]; [|assumption].
    exfalso. destruct (Hin j Hj) as [Hvj _]. destruct (Hin j0 Hj0) as [Hvj0 _].
    destruct (ray_unique ksq e j0 e j Hk He ltac:(lia) Hvj0 He ltac:(lia) Hvj
                ltac:(congruence)) as [_ E']. contradiction. }
  (* the pinning slider still stands after the move *)
  assert (HSto : S <> to).
  { intros E. destruct Hans as [Ec|Hb].
    - (* the checker would be the pinning slider, behind the blocker *)
      assert (Hbt : Z.testbit (squares_between c ksq) from = true).
      { rewrite Ec, <- E, <- Ej0. unfold S. apply between_of_king_ray; assumption. }
      destruct (attacker_between_empty b them ksq c from Hcr Hcc Hca Hbt) as [Ee _].
      rewrite Ee in Hcf. discriminate.
    - destruct (attacker_between_empty b them ksq c to Hcr Hcc Hca Hb) as [Ee _].
      rewrite <- E, HbS in Ee. discriminate. }
  assert (HSfrom : S <> from).
  { intros E. destruct (Hin j0 Hj0) as [_ [_ [_ [N _]]]]. congruence. }
  assert (Hb'S : b' S = Pc them pt).
  { rewrite (Hrest S HSto), board_set_neq by assumption. exact HbS. }
  pose proof (attacked_false b' them ksq S Hsafe HS ltac:(rewrite Hb'S; reflexivity)) as Hna.
  rewrite Hb'S, attacks_from_cases in Hna. apply orb_false_iff in Hna.
  destruct Hna as [_ Hna].
  (* so [to] stands on the pin ray *)
  assert (Hex : exists j1, 1 <= j1 < k /\ ray_target ksq e j1 = to).
  { destruct (existsb (fun j => ray_target ksq e j =? to) (steps_upto (k - 1))) eqn:Eex.
    - apply existsb_exists in Eex. destruct Eex as [j [Hj Ej]].
      apply steps_upto_In in Hj. apply Z.eqb_eq in Ej. exists j. split; [lia|assumption].
    - exfalso. rewrite <- not_true_iff_false in Hna. apply Hna.
      unfold slider_reaches. apply existsb_exists. exists (opp_dir e). split; [assumption|].
      apply slides_to_iff. exists k. split; [assumption|]. split; [assumption|].
      split; [assumption|]. intros j Hj.
      destruct (Hin (k - j) ltac:(lia)) as [Hvj [E [Hr _]]].
      replace (k - (k - j)) with j in E by lia. fold S in E. rewrite E.
      destruct (Z.testbit (board_occupied b') (ray_target ksq e (k - j))) eqn:Eb;
        [|reflexivity].
      exfalso. apply board_occupied_bit in Eb. destruct Eb as [_ Eb]. apply Eb.
      assert (Hnt : ray_target ksq e (k - j) <> to).
      { intros Et. rewrite <- not_true_iff_false in Eex. apply Eex.
        apply existsb_exists. exists (k - j). split; [apply steps_upto_In; lia|].
        apply Z.eqb_eq. assumption. }
      rewrite (Hrest _ Hnt).
      destruct (Z.eq_dec (k - j) j0) as [Ej|Nj].
      + rewrite Ej, Ej0, board_set_eq. reflexivity.
      + rewrite board_set_neq.
        * apply Hinner_empty; [lia|assumption].
        * intros Ef. destruct (Hin (k - j) ltac:(lia)) as [Hvj' _].
          destruct (Hin j0 Hj0) as [Hvj0 _].
          destruct (ray_unique ksq e j0 e (k - j) Hk He ltac:(lia) Hvj0 He ltac:(lia) Hvj'
                      ltac:(congruence)) as [_ E']. contradiction. }
  destruct Hex as [j1 [Hj1 Ej1]].
  assert (Hj10 : j1 <> j0) by (intros E; apply Hne; congruence).
  assert (Hto_empty : b to = EMPTY).
  { rewrite <- Ej1. apply Hinner_empty; assumption. }
  destruct Hans as [Ec|Hb].
  - rewrite Ec, Hto_empty in Hcc. discriminate.
  - destruct (between_from_king c ksq to Hcr Hb)
      as [e' [k' [i' [He' [Hk' [Hi' [_ [Hvc [Ec [Hvi Ei]]]]]]]]]].
    destruct (Hin j1 Hj1) as [Hvj1 _].
    destruct (ray_unique ksq e j1 e' i' Hk He ltac:(lia) Hvj1 He' ltac:(lia) Hvi
                ltac:(congruence)) as [-> ->].
    (* the blocker is not between the checker and the king *)
    assert (Hk'j0 : k' < j0).
    { destruct (Z.lt_trichotomy j0 k') as [Hlt|[Heq|Hgt]]; [exfalso|exfalso|assumption].
      - assert (Hbt : Z.testbit (squares_between c ksq) from = true).
        { rewrite <- Ec, <- Ej0. apply between_of_king_ray; try assumption. lia. }
        destruct (attacker_between_empty b them ksq c from Hcr Hcc Hca Hbt) as [Ee _].
        rewrite Ee in Hcf. discriminate.
      - assert (E : c = from) by congruence.
        rewrite E, Hcf in Hcc. injection Hcc as Hcc. unfold them in Hcc.
        destruct us; discriminate. }
    assert (Hce : b c = EMPTY).
    { rewrite <- Ec. apply Hinner_empty; lia. }
    rewrite Hce in Hcc. discriminate.
Qed.

Lemma and_zero_intro a b :
  (forall x, Z.testbit a x = true -> Z.testbit b x = true -> False) ->
  ((a & b) =? EmptyBoardBB) = true.
Proof.
  intros H. apply Z.eqb_eq. unfold EmptyBoardBB. apply Z.bits_inj'. intros i _.
  rewrite Z.bits_0, bb_and_bit.
  destruct (Z.testbit a i) eqn:Ea, (Z.testbit b i) eqn:Eb; try reflexivity.
  exfalso. exact (H i Ea Eb).
Qed.

Lemma step_not_self steps s :
  0 <= s < 64 -> (steps = knight_steps \/ forall d, In d steps -> In d queen_dirs) ->
  step_reaches steps s s = false.
Proof.
  intros Hs Hsteps. destruct (step_reaches steps s s) eqn:E; [exfalso|reflexivity].
  apply step_reaches_iff in E. destruct E as [d [Hd [Hv Ht]]].
  destruct Hsteps as [-> | Hq].
  - pose proof (forall_squares (fun s => negb (step_reaches knight_steps s s))
                  ltac:(vm_compute; reflexivity) s Hs) as H. cbv beta in H.
    apply negb_true_iff in H. rewrite <- not_true_iff_false in H. apply H.
    apply step_reaches_iff. exists d. repeat split; assumption.
  - destruct (ray_reverse s d 1 Hs (Hq d Hd) ltac:(lia) Hv) as [_ [N _]]. cbv zeta in N.
    contradiction.
Qed.

(** The converse of [king_escape_safe]: a king move that leaves the
    king safe passes the escape test. *)
Lemma king_escape_complete pos us ksq to :
  0 <= ksq < 64 -> piece_on pos ksq = Pc us KING ->
  Z.testbit (king_attacks ksq) to = true ->
  leaves_king_safe (piece_on pos) us ksq (make_move ksq to) = true ->
  king_escape_ok pos us (clear_bit (occupied_squares pos) ksq) to = true.
Proof.
  intros Hk Hking Hto Hsafe. set (them := opposite_color us).
  apply king_attacks_bit in Hto. destruct Hto as [Hto Hstep].
  unfold leaves_king_safe, king_square_after, apply_move, make_move in Hsafe.
  cbn [move_from move_to move_kind] in Hsafe. rewrite Z.eqb_refl in Hsafe.
  fold them in Hsafe. apply negb_true_iff in Hsafe.
  set (b' := board_set (board_set (piece_on pos) ksq EMPTY) to (piece_on pos ksq)) in *.
  (* an enemy piece that attacks [to] on the new board *)
  assert (Hno : forall x pt, 0 <= x < 64 -> x <> to -> piece_on pos x = Pc them pt ->
                  attacks_from (board_occupied b') (Pc them pt) x to = true -> False).
  { intros x pt Hx Hxto Hp Ha.
    assert (Hxk : x <> ksq).
    { intros E. rewrite E, Hking in Hp. injection Hp as Hc _. unfold them in Hc.
      destruct us; discriminate. }
    assert (Hb'x : b' x = Pc them pt).
    { unfold b'. rewrite !board_set_neq by assumption. exact Hp. }
    pose proof (attacked_witness b' them to x Hx ltac:(rewrite Hb'x; reflexivity)
                  ltac:(rewrite Hb'x; exact Ha)) as H.
    congruence. }
  assert (Hocc : forall x y, y <> to -> y <> x ->
            Z.testbit (board_occupied b') y = true ->
            Z.testbit (clear_bit (occupied_squares pos) ksq) y = true).
  { intros x y Hy _ Hbit. apply board_occupied_bit in Hbit. destruct Hbit as [Hr Hbit].
    unfold b' in Hbit. rewrite board_set_neq in Hbit by assumption.
    rewrite clear_bit_bit by (lia || apply occupied_squares_ok).
    destruct (Z.eq_dec y ksq) as [E|N].
    - rewrite E, board_set_eq in Hbit. contradiction.
    - rewrite board_set_neq in Hbit by assumption. apply andb_true_iff. split.
      + apply occupied_bit. split; assumption.
      + apply negb_true_iff, Z.eqb_neq. congruence. }
  assert (Hrev : forall dirs x,
            (forall d, In d dirs -> In d queen_dirs /\ In (opp_dir d) dirs) ->
            Z.testbit (slider_attacks_bb dirs to (clear_bit (occupied_squares pos) ksq)) x
            = true ->
            x <> to /\ slider_reaches dirs (board_occupied b') x to = true).
  { intros dirs x Hd H. apply slider_attacks_bit in H. destruct H as [Hx H]. split.
    - unfold slider_reaches in H. apply existsb_exists in H. destruct H as [d [Hdd H]].
      apply slides_to_iff in H. destruct H as [k [Hkr [Hv [Ht _]]]].
      destruct (ray_reverse to d k Hto (proj1 (Hd d Hdd)) Hkr Hv) as [_ [N _]].
      cbv zeta in N. congruence.
    - eapply (slider_reaches_reverse dirs (clear_bit (occupied_squares pos) ksq));
        [exact Hd|exact Hto| |exact H].
      intros y Hy1 Hy2. apply (Hocc x); assumption. }
  unfold king_escape_ok. cbv zeta. fold them. rewrite !andb_true_iff.
  split; [split; [split; [split|]|]|]; apply and_zero_intro; intros x Ha Hb.
  - (* pawns *)
    apply bit_pawns in Hb. destruct Hb as [Hx Hp].
    unfold pawn_attacks in Ha.
    assert (Hxto : x <> to).
    { intros E. rewrite E, pawn_attacks_steps in Ha. apply andb_true_iff in Ha.
      destruct Ha as [_ Ha]. rewrite step_not_self in Ha; [discriminate|assumption|].
      right. destruct us; cbn; intros d H; repeat (destruct H as [<-|H]; [tauto|]);
        destruct H. }
    apply (Hno x PAWN Hx Hxto Hp). cbn [attacks_from].
    rewrite pawn_attacks_sym in Ha by assumption. fold them in Ha.
    rewrite pawn_attacks_steps in Ha. apply andb_true_iff in Ha. destruct Ha as [_ Ha].
    destruct them; exact Ha.
  - (* knights *)
    apply piece_bit in Hb. destruct Hb as [Hx Hp].
    apply knight_attacks_bit in Ha. destruct Ha as [_ Ha].
    assert (Hxto : x <> to).
    { intros E. rewrite E, step_not_self in Ha; [discriminate|assumption|]. left. reflexivity. }
    apply (Hno x KNIGHT Hx Hxto Hp). cbn [attacks_from].
    rewrite knight_step_sym by assumption. exact Ha.
  - (* the king *)
    apply piece_bit in Hb. destruct Hb as [Hx Hp].
    apply king_attacks_bit in Ha. destruct Ha as [_ Ha].
    assert (Hxto : x <> to).
    { intros E. rewrite E, step_not_self in Ha; [discriminate|assumption|].
      right. intros d H. exact H. }
    apply (Hno x KING Hx Hxto Hp). cbn [attacks_from].
    rewrite king_step_sym by assumption. exact Ha.
  - (* bishops and queens *)
    apply bishops_and_queens_bit in Hb. destruct Hb as [Hx Hp].
    destruct (Hrev bishop_dirs x bishop_dirs_closed Ha) as [Hxto Hs].
    destruct Hp as [Hp|Hp].
    + apply (Hno x BISHOP Hx Hxto Hp). exact Hs.
    + apply (Hno x QUEEN Hx Hxto Hp). cbn [attacks_from].
      rewrite slider_reaches_queen, Hs. reflexivity.
  - (* rooks and queens *)
    apply rooks_and_queens_bit in Hb. destruct Hb as [Hx Hp].
    destruct (Hrev rook_dirs x rook_dirs_closed Ha) as [Hxto Hs].
    destruct Hp as [Hp|Hp].
    + apply (Hno x ROOK Hx Hxto Hp). exact Hs.
    + apply (Hno x QUEEN Hx Hxto Hp). cbn [attacks_from].
      rewrite slider_reaches_queen, Hs. apply orb_true_r.
Qed.

Lemma slider_attacks_sym dirs occ s t :
  (forall d, In d dirs -> In d queen_dirs /\ In (opp_dir d) dirs) ->
  0 <= s < 64 ->
  Z.testbit (slider_attacks_bb dirs s occ) t = true ->
  Z.testbit (slider_attacks_bb dirs t occ) s = true.
Proof.
  intros Hd Hs H. apply slider_attacks_bit in H. destruct H as [Ht H].
  apply slider_attacks_bit. split; [assumption|].
  eapply (slider_reaches_reverse dirs occ); [exact Hd|exact Hs| |exact H]. auto.
Qed.

Lemma not_pinned_goal pinned s :
  0 <= s < 64 -> Z.testbit pinned s = false -> Z.testbit (~~ pinned) s = true.
Proof. intros Hs H. apply bit_not_any_iff; assumption. Qed.

Lemma in_all_promotions from to pt :
  pt = QUEEN \/ pt = ROOK \/ pt = BISHOP \/ pt = KNIGHT ->
  In (mkMove from to (MK_PROMOTION pt)) (all_promotions from to).
Proof.
  unfold all_promotions, make_promotion_move. cbn [In].
  intros [->|[->|[->| ->]]]; tauto.
Qed.

(** A pseudo-legal move of a piece that is not pinned onto the checker's
    square is written by the capture block. *)
Lemma capture_checker_complete pos c pinned m :
  0 <= c < 64 ->
  pseudo_legal pos m -> normal_or_promotion m -> move_to m = c ->
  color_of_piece_on pos c = Some (opposite_color (side_to_move pos)) ->
  piece_on pos (move_from m) <> Pc (side_to_move pos) KING ->
  Z.testbit pinned (move_from m) = false ->
  In m (evasions_capture_checker pos (side_to_move pos) c pinned).
Proof.
  intros Hc Hpl Hkind Hto Hcol Hnk Hnp. destruct m as [from to kind].
  unfold pseudo_legal in Hpl. cbn [move_from move_to move_kind] in *. subst to.
  cbv zeta in Hpl. destruct Hpl as [Hfr [_ Hpl]].
  set (us := side_to_move pos) in *.
  unfold normal_or_promotion in Hkind. cbn [move_kind] in Hkind.
  assert (Hne : square_is_empty pos c = true -> False).
  { intros E. apply empty_piece in E. unfold color_of_piece_on in Hcol.
    rewrite E in Hcol. discriminate. }
  assert (Hpb : Z.testbit (~~ pinned) from = true) by (apply not_pinned_goal; assumption).
  unfold evasions_capture_checker. rewrite !in_app_iff.
  destruct kind as [|pt| | |]; try contradiction.
  - (* normal moves *)
    destruct (piece_on pos from) as [|c' pt] eqn:Hp; [contradiction|].
    assert (Hc' : c' = us) by (destruct pt; apply Hpl). subst c'.
    destruct pt.
    + (* pawn *)
      destruct Hpl as [_ [Hrr [[_ He]|[[_ [_ [_ He]]]|[Ha _]]]]];
        [destruct (Hne He)|destruct (Hne He)|].
      left. apply emit_In; [bb_ok_tac|]. exists from. split.
      * rewrite !bit_and_iff. split; [split|assumption].
        -- unfold pawn_attacks in *. rewrite pawn_attacks_sym by assumption.
           rewrite opposite_color_involutive. exact Ha.
        -- apply bit_pawns. split; assumption.
      * replace (relative_rank us c =? RANK_8) with false
          by (symmetry; apply Z.eqb_neq; assumption).
        left. reflexivity.
    + (* knight *)
      destruct Hpl as [_ [Ha _]]. cbn [piece_attacks_fn] in Ha.
      right. left. apply emit1_In; [bb_ok_tac|]. exists from. split; [|reflexivity].
      rewrite !bit_and_iff. split; [split|assumption].
      * apply knight_attacks_bit in Ha. destruct Ha as [_ Ha].
        apply knight_attacks_bit. split; [assumption|].
        rewrite knight_step_sym by assumption. exact Ha.
      * apply piece_bit. split; assumption.
    + (* bishop *)
      destruct Hpl as [_ [Ha _]]. cbn [piece_attacks_fn] in Ha.
      right. right. left. apply emit1_In; [bb_ok_tac|]. exists from. split; [|reflexivity].
      rewrite !bit_and_iff. split; [split|assumption].
      * unfold bishop_attacks, bishop_attacks_bb in *.
        apply (slider_attacks_sym bishop_dirs _ from c bishop_dirs_closed Hfr Ha).
      * apply bishops_and_queens_bit. split; [assumption|]. left. assumption.
    + (* rook *)
      destruct Hpl as [_ [Ha _]]. cbn [piece_attacks_fn] in Ha.
      right. right. right. apply emit1_In; [bb_ok_tac|]. exists from. split; [|reflexivity].
      rewrite !bit_and_iff. split; [split|assumption].
      * unfold rook_attacks, rook_attacks_bb in *.
        apply (slider_attacks_sym rook_dirs _ from c rook_dirs_closed Hfr Ha).
      * apply rooks_and_queens_bit. split; [assumption|]. left. assumption.
    + (* queen *)
      destruct Hpl as [_ [Ha _]]. cbn [piece_attacks_fn] in Ha.
      unfold queen_attacks, queen_attacks_bb in Ha. apply bit_or_iff in Ha.
      destruct Ha as [Ha|Ha].
      * right. right. left. apply emit1_In; [bb_ok_tac|]. exists from.
        split; [|reflexivity].
        rewrite !bit_and_iff. split; [split|assumption].
        -- unfold bishop_attacks, bishop_attacks_bb in *.
           apply (slider_attacks_sym bishop_dirs _ from c bishop_dirs_closed Hfr Ha).
        -- apply bishops_and_queens_bit. split; [assumption|]. right. assumption.
      * right. right. right. apply emit1_In; [bb_ok_tac|]. exists from.
        split; [|reflexivity].
        rewrite !bit_and_iff. split; [split|assumption].
        -- unfold rook_attacks, rook_attacks_bb in *.
           apply (slider_attacks_sym rook_dirs _ from c rook_dirs_closed Hfr Ha).
        -- apply rooks_and_queens_bit. split; [assumption|]. right. assumption.
    + (* king *)
      contradiction.
  - (* promotions *)
    destruct Hpl as [Hp [Hpt [Hrr [[_ He]|[Ha _]]]]]; [destruct (Hne He)|].
    left. apply emit_In; [bb_ok_tac|]. exists from. split.
    + rewrite !bit_and_iff. split; [split|assumption].
      * unfold pawn_attacks in *. rewrite pawn_attacks_sym by assumption.
        rewrite opposite_color_involutive. exact Ha.
      * apply bit_pawns. split; assumption.
    + replace (relative_rank us c =? RANK_8) with true
        by (symmetry; apply Z.eqb_eq; assumption).
      apply in_all_promotions. assumption.
Qed.

Lemma block_piece_complete pos us pt pinned block from to :
  0 <= from < 64 -> piece_on pos from = Pc us pt ->
  Z.testbit pinned from = false ->
  Z.testbit (piece_attacks_fn pos pt from) to = true ->
  Z.testbit block to = true ->
  In (make_move from to)
     (evasions_block_piece (pieces_of_color_and_type pos us pt & ~~ pinned)
                           (piece_attacks_fn pos pt) block).
Proof.
  intros Hfr Hp Hnp Ha Hb. unfold evasions_block_piece.
  apply emit_In; [bb_ok_tac|]. exists from. split.
  - apply bit_and_iff. split; [apply piece_bit; split; assumption|].
    apply not_pinned_goal; assumption.
  - apply emit1_In; [apply bb_and_ok_l, piece_attacks_fn_ok|]. exists to.
    split; [|reflexivity]. apply bit_and_iff. split; assumption.
Qed.

(** A pseudo-legal move of a piece that is not pinned onto an empty
    square between the checker and the king is written by the
    interposition block. *)
Lemma block_complete pos ksq c pinned m :
  pseudo_legal pos m -> normal_or_promotion m ->
  Z.testbit (squares_between c ksq) (move_to m) = true ->
  square_is_empty pos (move_to m) = true ->
  piece_on pos (move_from m) <> Pc (side_to_move pos) KING ->
  Z.testbit pinned (move_from m) = false ->
  checkers pos & sliders pos <> 0 ->
  In m (evasions_block pos (side_to_move pos) ksq c pinned).
Proof.
  intros Hpl Hkind Hbt He Hnk Hnp Hsl. destruct m as [from to kind].
  unfold pseudo_legal in Hpl. cbn [move_from move_to move_kind] in *.
  cbv zeta in Hpl. destruct Hpl as [Hfr [Hto Hpl]].
  unfold normal_or_promotion in Hkind. cbn [move_kind] in Hkind.
  assert (Hnc : color_of_piece_on pos to = Some (opposite_color (side_to_move pos)) -> False).
  { intros E. apply empty_piece in He. unfold color_of_piece_on in E.
    rewrite He in E. discriminate. }
  assert (Hpb : Z.testbit (~~ pinned) from = true) by (apply not_pinned_goal; assumption).
  unfold evasions_block.
  replace (checkers pos & sliders pos =? 0) with false by (symmetry; apply Z.eqb_neq; assumption).
  cbn [negb]. rewrite !in_app_iff.
  destruct kind as [|pt| | |]; try contradiction.
  - (* normal moves *)
    destruct (piece_on pos from) as [|c' pt] eqn:Hp; [contradiction|].
    assert (Hc' : c' = side_to_move pos) by (destruct pt; apply Hpl). subst c'.
    destruct pt.
    + (* pawn *)
      left. destruct Hpl as [_ [Hrr [Hpush|[Hdbl|[_ Hc]]]]]; [| |destruct (Hnc Hc)].
      * destruct Hpush as [Et _]. unfold evasions_block_pawn.
        destruct (side_to_move pos) eqn:Hstm; unfold pawn_push, DELTA_N, DELTA_S in Et.
        -- assert (from = to - 8) by lia. subst from.
           apply in_or_app. left. apply emit_In; [bb_ok_tac|]. exists to. split.
           ++ bits_goal. props_done.
           ++ replace (square_rank to =? RANK_8) with false
                by (symmetry; apply Z.eqb_neq; exact Hrr).
              left. reflexivity.
        -- assert (from = to + 8) by lia. subst from.
           apply in_or_app. left. apply emit_In; [bb_ok_tac|]. exists to. split.
           ++ bits_goal. props_done.
           ++ replace (square_rank to =? RANK_1) with false
                by (symmetry; apply Z.eqb_neq; unfold relative_rank, RANK_8 in Hrr;
                    unfold RANK_1; lia).
              left. unfold make_move, DELTA_S. f_equal; lia.
      * destruct Hdbl as [Et [Hr2 [He1 _]]]. unfold evasions_block_pawn.
        destruct (side_to_move pos) eqn:Hstm; unfold pawn_push, DELTA_N, DELTA_S in Et, He1.
        -- assert (from = to - 8 - 8) by lia. subst from.
           replace (to - 8 - 8 + 8) with (to - 8) in He1 by lia.
           apply in_or_app. right. apply emit1_In; [bb_ok_tac|]. exists to.
           split; [|reflexivity]. bits_goal. props_done.
        -- assert (from = to + 8 + 8) by lia. subst from.
           replace (to + 8 + 8 + -8) with (to + 8) in He1 by lia.
           apply in_or_app. right. apply emit1_In; [bb_ok_tac|]. exists to.
           split; [|unfold make_move, DELTA_S; f_equal; lia]. bits_goal. props_done.
    + right. left. destruct Hpl as [_ [Ha _]].
      apply (block_piece_complete pos _ KNIGHT); assumption.
    + right. right. left. destruct Hpl as [_ [Ha _]].
      apply (block_piece_complete pos _ BISHOP); assumption.
    + right. right. right. left. destruct Hpl as [_ [Ha _]].
      apply (block_piece_complete pos _ ROOK); assumption.
    + right. right. right. right. destruct Hpl as [_ [Ha _]].
      apply (block_piece_complete pos _ QUEEN); assumption.
    + contradiction.
  - (* promotions *)
    left. destruct Hpl as [Hp [Hpt [Hrr [[Et _]|[_ Hc]]]]]; [|destruct (Hnc Hc)].
    unfold evasions_block_pawn.
    destruct (side_to_move pos) eqn:Hstm; unfold pawn_push, DELTA_N, DELTA_S in Et.
    + assert (from = to - 8) by lia. subst from.
      apply in_or_app. left. apply emit_In; [bb_ok_tac|]. exists to. split.
      * bits_goal. props_done.
      * replace (square_rank to =? RANK_8) with true
          by (symmetry; apply Z.eqb_eq; exact Hrr).
        apply in_all_promotions. assumption.
    + assert (from = to + 8) by lia. subst from.
      apply in_or_app. left. apply emit_In; [bb_ok_tac|]. exists to. split.
      * bits_goal. props_done.
      * replace (square_rank to =? RANK_1) with true
          by (symmetry; apply Z.eqb_eq; unfold relative_rank, RANK_8 in Hrr;
              unfold RANK_1; lia).
        replace (to - DELTA_S) with (to + 8) by (unfold DELTA_S; lia).
        apply in_all_promotions. assumption.
Qed.

Lemma position_of_board_attacked stm b ep cs :
  attacked_on_board (position_of_board stm b ep cs).
Proof. intros s c. reflexivity. Qed.

Lemma slider_piece_bit pos c pt s occ t :
  0 <= s < 64 -> piece_on pos s = Pc c pt ->
  slider_reaches (slider_dirs pt) occ s t = true ->
  Z.testbit (sliders pos) s = true.
Proof.
  intros Hs Hp H. unfold sliders. apply bb_of_pred_true. split; [assumption|].
  rewrite Hp. destruct pt; try reflexivity; cbn in H; discriminate.
Qed.

(** In check, the checked king cannot castle. *)
Lemma no_castle_in_check pos ksq rsq kend rend :
  attacked_on_board pos ->
  attacked (piece_on pos) (opposite_color (side_to_move pos)) ksq = true ->
  castle_rule pos (side_to_move pos) ksq rsq kend rend -> False.
Proof.
  intros Hag Hatt [Hrule _].
  destruct (Hrule ksq ltac:(lia)) as [_ H]. rewrite Hag in H. congruence.
Qed.

(** The evasion generator is complete: in a well-formed position in
    check whose [checkers], [pinned_pieces] and [square_is_attacked] are
    what the board gives, every pseudo-legal move other than an en
    passant capture that leaves the king of the side to move safe is
    written by [generate_evasions]. *)
Theorem generate_evasions_complete (pos : Position) (m : Move) :
  let us := side_to_move pos in
  is_ok pos = true -> is_check pos = true ->
  checkers_on_board pos -> pinned_on_board pos -> attacked_on_board pos ->
  pseudo_legal pos m -> move_kind m <> MK_EP ->
  leaves_king_safe (piece_on pos) us (king_square pos us) m = true ->
  In m (generate_evasions pos).
Proof.
  intros us Hok Hcheck Hch Hpin Hag Hpl Hnep Hsafe.
  destruct (is_ok_king pos us Hok) as [Hk [Hking Huniq]].
  set (ksq := king_square pos us) in *. set (them := opposite_color us) in *.
  unfold checkers_on_board in Hch. cbv zeta in Hch. fold us in Hch. fold ksq in Hch.
  fold them in Hch.
  unfold pinned_on_board in Hpin. cbv zeta in Hpin. fold us in Hpin. fold ksq in Hpin.
  fold them in Hpin.
  assert (Hpos : 0 < checkers pos).
  { unfold is_check in Hcheck. apply negb_true_iff, Z.eqb_neq in Hcheck.
    unfold EmptyBoardBB in Hcheck.
    pose proof (attackers_ok (piece_on pos) them ksq) as Hb.
    rewrite <- Hch in Hb. unfold bb_ok in Hb. lia. }
  assert (Hatt : attacked (piece_on pos) them ksq = true).
  { unfold attacked. rewrite <- Hch. apply negb_true_iff. apply Z.eqb_neq.
    unfold EmptyBoardBB. lia. }
  pose proof Hpl as Hpl'. unfold pseudo_legal in Hpl'. cbv zeta in Hpl'.
  fold us in Hpl'. fold them in Hpl'. destruct Hpl' as [Hfr [Hto Hrule]].
  unfold generate_evasions. cbv zeta. fold us. fold ksq. apply in_or_app.
  (* castles are ruled out, king moves go to the first block *)
  assert (Hcases :
    (move_from m = ksq /\ move_kind m = MK_NORMAL
     /\ Z.testbit (king_attacks ksq) (move_to m) = true
     /\ color_of_piece_on pos (move_to m) <> Some us)
    \/ (normal_or_promotion m /\ piece_on pos (move_from m) <> Pc us KING
        /\ color_of_piece (piece_on pos (move_from m)) = Some us)).
  { unfold normal_or_promotion. destruct (move_kind m) as [|pt| | |] eqn:Hkind.
    - destruct (piece_on pos (move_from m)) as [|c' pt] eqn:Hp; [contradiction|].
      assert (Hc' : c' = us) by (destruct pt; apply Hrule). subst c'.
      destruct (PieceType_eqb pt KING) eqn:Eking.
      + apply PieceType_eqb_eq in Eking. subst pt. left.
        assert (E : move_from m = ksq) by (apply Huniq; assumption).
        rewrite E in Hrule.
        split; [assumption|]. split; [reflexivity|]. exact (proj2 Hrule).
      + right. split; [exact I|]. split; [|reflexivity].
        intros E. injection E as ->. discriminate.
    - right. destruct Hrule as [Hp _]. rewrite Hp.
      split; [exact I|]. split; [discriminate|reflexivity].
    - contradiction.
    - exfalso. destruct Hrule as [_ [Hfrom [_ Hcr]]].
      refine (no_castle_in_check pos _ _ _ _ Hag _ Hcr). rewrite Hfrom. exact Hatt.
    - exfalso. destruct Hrule as [_ [Hfrom [_ [Hcr _]]]].
      refine (no_castle_in_check pos _ _ _ _ Hag _ Hcr). rewrite Hfrom. exact Hatt. }
  destruct Hcases as [[Hfrom [Hkind [Ha Hcol]]]|[Hkind [Hnk Hcf]]].
  - (* the king *)
    left. destruct m as [from to kind]. cbn [move_from move_to move_kind] in *. subst.
    apply evasions_king_In. exists to. split; [reflexivity|]. split.
    + apply bit_and_iff. split; [assumption|]. apply bit_not_any_iff; [assumption|].
      destruct (Z.testbit (pieces_of_color pos us) to) eqn:E; [|reflexivity].
      apply pieces_of_color_bit in E. destruct E as [_ E]. contradiction.
    + apply king_escape_complete; assumption.
  - (* the other pieces *)
    right.
    assert (Hfk : move_from m <> ksq).
    { intros E. apply Hnk. rewrite E. exact Hking. }
    set (b' := apply_move (piece_on pos) us m) in *.
    assert (Hsafe' : attacked b' them ksq = false).
    { unfold leaves_king_safe in Hsafe. apply negb_true_iff in Hsafe.
      replace (king_square_after us ksq m) with ksq in Hsafe; [exact Hsafe|].
      unfold king_square_after, normal_or_promotion in *.
      apply Z.eqb_neq in Hfk. destruct (move_kind m); try contradiction; rewrite Hfk;
        reflexivity. }
    assert (Hct : color_of_piece (b' (move_to m)) = Some us).
    { unfold b', apply_move, normal_or_promotion in *.
      destruct (move_kind m); try contradiction; rewrite board_set_eq;
        [assumption|reflexivity]. }
    assert (Hrest : forall y, y <> move_to m ->
              b' y = board_set (piece_on pos) (move_from m) EMPTY y).
    { intros y Hy. unfold b', apply_move, normal_or_promotion in *.
      destruct (move_kind m); try contradiction; rewrite board_set_neq by assumption;
        reflexivity. }
    assert (HQ : forall x, Z.testbit (attackers (piece_on pos) them ksq) x = true ->
              x = move_to m \/ Z.testbit (squares_between x ksq) (move_to m) = true).
    { intros x Hx.
      exact (checker_neutralised _ b' us ksq (move_from m) (move_to m) x
               Hto Hcf Hct Hrest Hsafe' Hx). }
    set (c := first_1 (checkers pos)).
    assert (Hc : Z.testbit (attackers (piece_on pos) them ksq) c = true).
    { rewrite <- Hch. apply first_1_set. assumption. }
    assert (Hone : checkers pos & (checkers pos - 1) = 0).
    { apply only_bit; [assumption|]. intros x Hx. rewrite Hch in Hx.
      exact (one_answer_one_checker _ them ksq x c (move_to m) Hx Hc (HQ x Hx) (HQ c Hc)). }
    rewrite Hone. cbn [Z.eqb]. fold c.
    pose proof Hc as Hc'. apply attackers_bit in Hc'. destruct Hc' as [Hcr [Hcc Hca]].
    assert (Hne : move_to m <> move_from m).
    { intros E. destruct (HQ c Hc) as [Ec|Hb].
      - rewrite Ec, E, Hcf in Hcc. injection Hcc as Hcc. unfold them in Hcc.
        destruct us; discriminate.
      - destruct (attacker_between_empty _ them ksq c _ Hcr Hcc Hca Hb) as [Ee _].
        rewrite E in Ee. rewrite Ee in Hcf. discriminate. }
    assert (Hnp : Z.testbit (pinned_pieces pos us) (move_from m) = false).
    { destruct (Z.testbit (pinned_pieces pos us) (move_from m)) eqn:E; [exfalso|reflexivity].
      rewrite Hpin in E.
      exact (pinned_cannot_answer _ b' us ksq c (move_from m) (move_to m)
               Hk Hto Hne Hct Hrest Hsafe' Hc (HQ c Hc) E). }
    rewrite !in_app_iff. destruct (HQ c Hc) as [Ec|Hb].
    + left. apply capture_checker_complete; try assumption. symmetry. assumption.
    + right. left.
      destruct (attacker_between_empty _ them ksq c _ Hcr Hcc Hca Hb) as [Ee [pt [Hp Hs]]].
      apply block_complete; try assumption.
      * unfold square_is_empty. rewrite Ee. reflexivity.
      * intros E.
        assert (Hbit : Z.testbit (checkers pos & sliders pos) c = true).
        { apply bit_and_iff. split; [rewrite Hch; assumption|].
          eapply slider_piece_bit; eassumption. }
        rewrite E, Z.bits_0 in Hbit. discriminate.
Qed.

Lemma generate_evasions_complete_witness :
  is_ok pos_block_check = true /\ is_check pos_block_check = true
  /\ checkers_on_board pos_block_check /\ pinned_on_board pos_block_check
  /\ attacked_on_board pos_block_check
  /\ pseudo_legal pos_block_check (make_move 16 20)
  /\ move_kind (make_move 16 20) <> MK_EP
  /\ leaves_king_safe (piece_on pos_block_check) (side_to_move pos_block_check)
       (king_square pos_block_check (side_to_move pos_block_check)) (make_move 16 20) = true
  /\ In (make_move 16 20) (generate_evasions pos_block_check).
Proof.
  assert (Hok : is_ok pos_block_check = true) by (vm_compute; reflexivity).
  assert (Hc : is_check pos_block_check = true) by (vm_compute; reflexivity).
  assert (Hch : checkers_on_board pos_block_check) by apply position_of_board_checkers.
  assert (Hpin : pinned_on_board pos_block_check) by apply position_of_board_pinned.
  assert (Hag : attacked_on_board pos_block_check) by apply position_of_board_attacked.
  assert (Hpl : pseudo_legal pos_block_check (make_move 16 20)).
  { unfold pseudo_legal. cbv zeta. cbn [move_from move_to move_kind make_move].
    split; [lia|]. split; [lia|].
    change (piece_on pos_block_check 16) with (Pc WHITE ROOK). cbv iota.
    split; [reflexivity|]. split; [vm_compute; reflexivity|vm_compute; discriminate]. }
  assert (Hk : move_kind (make_move 16 20) <> MK_EP) by discriminate.
  assert (Hs : leaves_king_safe (piece_on pos_block_check) (side_to_move pos_block_check)
                 (king_square pos_block_check (side_to_move pos_block_check))
                 (make_move 16 20) = true) by (vm_compute; reflexivity).
  split; [exact Hok|]. split; [exact Hc|]. split; [exact Hch|]. split; [exact Hpin|].
  split; [exact Hag|]. split; [exact Hpl|]. split; [exact Hk|]. split; [exact Hs|].
  exact (generate_evasions_complete pos_block_check (make_move 16 20)
           Hok Hc Hch Hpin Hag Hpl Hk Hs).
Defined.

(** ** The evasions obey the movement rules *)

Lemma pawn_capture_pseudo_legal pos us from c m :
  side_to_move pos = us ->
  0 <= c < 64 -> color_of_piece_on pos c = Some (opposite_color us) ->
  Z.testbit (pawn_attacks (opposite_color us) c) from = true ->
  Z.testbit (pawns pos us) from = true ->
  In m (if relative_rank us c =? RANK_8 then all_promotions from c else [make_move from c]) ->
  pseudo_legal pos m.
Proof.
  intros Hstm Hc Hcol Ha Hp Hm. apply bit_pawns in Hp. destruct Hp as [Hfr Hp].
  assert (Hcap : pawn_capture_ok pos us from c).
  { split; [|exact Hcol]. unfold pawn_attacks in *. rewrite pawn_attacks_sym by assumption.
    exact Ha. }
  destruct (Z.eqb_spec (relative_rank us c) RANK_8) as [Hrr|Hrr].
  - unfold all_promotions, make_promotion_move in Hm. cbn [In] in Hm.
    destruct Hm as [<-|[<-|[<-|[<-|[]]]]];
      (unfold pseudo_legal; cbv zeta; cbn [move_from move_to move_kind]; rewrite Hstm;
       split; [assumption|]; split; [assumption|]; split; [assumption|];
       split; [tauto|]; split; [assumption|]; right; assumption).
  - destruct Hm as [<-|[]].
    unfold pseudo_legal, make_move. cbv zeta. cbn [move_from move_to move_kind].
    rewrite Hstm, Hp. split; [assumption|]. split; [assumption|].
    split; [reflexivity|]. split; [assumption|]. right. right. assumption.
Qed.

Lemma capture_checker_pseudo_legal pos c pinned m :
  0 <= c < 64 ->
  color_of_piece_on pos c = Some (opposite_color (side_to_move pos)) ->
  In m (evasions_capture_checker pos (side_to_move pos) c pinned) ->
  pseudo_legal pos m.
Proof.
  intros Hc Hcol H. set (us := side_to_move pos) in *.
  assert (Hnot : color_of_piece_on pos c <> Some us).
  { rewrite Hcol. destruct us; discriminate. }
  assert (Htarget : Z.testbit (pieces_of_color pos (opposite_color us)) c = true).
  { apply pieces_of_color_bit. split; assumption. }
  unfold evasions_capture_checker in H. rewrite !in_app_iff in H.
  destruct H as [H|[H|[H|H]]].
  - apply emit_In in H; [|bb_ok_tac]. destruct H as [from [Hfrom Hm]].
    rewrite !bit_and_iff in Hfrom. destruct Hfrom as [[Ha Hp] _].
    eapply (pawn_capture_pseudo_legal pos us); try eassumption. reflexivity.
  - apply emit1_In in H; [|bb_ok_tac]. destruct H as [from [Hfrom ->]].
    rewrite !bit_and_iff in Hfrom. destruct Hfrom as [[Ha Hp] _].
    apply piece_bit in Hp. destruct Hp as [Hfr Hp].
    apply (piece_move_pseudo_legal pos from c KNIGHT (pieces_of_color pos (opposite_color us)));
      try assumption; [discriminate| |left; reflexivity].
    cbn [piece_attacks_fn]. apply knight_attacks_bit in Ha. destruct Ha as [_ Ha].
    apply knight_attacks_bit. split; [assumption|].
    rewrite knight_step_sym by assumption. exact Ha.
  - apply emit1_In in H; [|bb_ok_tac]. destruct H as [from [Hfrom ->]].
    rewrite !bit_and_iff in Hfrom. destruct Hfrom as [[Ha Hp] _].
    apply bishops_and_queens_bit in Hp. destruct Hp as [Hfr Hp].
    unfold bishop_attacks, bishop_attacks_bb in Ha.
    pose proof (slider_attacks_sym bishop_dirs _ c from bishop_dirs_closed Hc Ha) as Ha'.
    destruct Hp as [Hp|Hp].
    + apply (piece_move_pseudo_legal pos from c BISHOP
               (pieces_of_color pos (opposite_color us)));
        try assumption; [discriminate|left; reflexivity].
    + apply (piece_move_pseudo_legal pos from c QUEEN
               (pieces_of_color pos (opposite_color us)));
        try assumption; [discriminate| |left; reflexivity].
      cbn [piece_attacks_fn]. unfold queen_attacks, queen_attacks_bb.
      apply bit_or_iff. left. exact Ha'.
  - apply emit1_In in H; [|bb_ok_tac]. destruct H as [from [Hfrom ->]].
    rewrite !bit_and_iff in Hfrom. destruct Hfrom as [[Ha Hp] _].
    apply rooks_and_queens_bit in Hp. destruct Hp as [Hfr Hp].
    unfold rook_attacks, rook_attacks_bb in Ha.
    pose proof (slider_attacks_sym rook_dirs _ c from rook_dirs_closed Hc Ha) as Ha'.
    destruct Hp as [Hp|Hp].
    + apply (piece_move_pseudo_legal pos from c ROOK
               (pieces_of_color pos (opposite_color us)));
        try assumption; [discriminate|left; reflexivity].
    + apply (piece_move_pseudo_legal pos from c QUEEN
               (pieces_of_color pos (opposite_color us)));
        try assumption; [discriminate| |left; reflexivity].
      cbn [piece_attacks_fn]. unfold queen_attacks, queen_attacks_bb.
      apply bit_or_iff. right. exact Ha'.
Qed.

Lemma block_piece_pseudo_legal pos pt pinned block m :
  pt <> PAWN ->
  (forall y, Z.testbit block y = true -> Z.testbit (empty_squares pos) y = true) ->
  In m (evasions_block_piece (pieces_of_color_and_type pos (side_to_move pos) pt & ~~ pinned)
                             (piece_attacks_fn pos pt) block) ->
  pseudo_legal pos m.
Proof.
  intros Hpt Hempty H. unfold evasions_block_piece in H.
  apply emit_In in H; [|bb_ok_tac]. destruct H as [from [Hfrom H]].
  apply emit1_In in H; [|apply bb_and_ok_l, piece_attacks_fn_ok].
  destruct H as [to [Hto ->]].
  apply bit_and_iff in Hfrom. destruct Hfrom as [Hp _].
  apply piece_bit in Hp. destruct Hp as [Hfr Hp].
  apply bit_and_iff in Hto. destruct Hto as [Ha Hb].
  apply (piece_move_pseudo_legal pos from to pt (empty_squares pos)); try assumption.
  - apply Hempty. assumption.
  - right. reflexivity.
Qed.

Lemma block_pawn_pseudo_legal pos pinned block m :
  (forall y, Z.testbit block y = true -> Z.testbit (empty_squares pos) y = true) ->
  In m (evasions_block_pawn pos (side_to_move pos) pinned block) ->
  pseudo_legal pos m.
Proof.
  intros Hempty H. unfold evasions_block_pawn in H.
  destruct (side_to_move pos) eqn:Hstm; apply in_app_iff in H; destruct H as [H|H].
  - apply emit_In in H; [|bb_ok_tac]. destruct H as [to [Hto Hm]].
    apply bit_and_iff in Hto. destruct Hto as [Hfrom Hb]. apply Hempty in Hb.
    bits_in Hfrom. bits_in Hb. unpack Hfrom. unpack Hb.
    destruct (Z.eqb_spec (square_rank to) RANK_8) as [Hrr|Hrr].
    + unfold all_promotions in Hm. cbn [In] in Hm.
      destruct Hm as [<-|[<-|[<-|[<-|[]]]]]; pl_pawn Hstm;
        (split; [lia|]; split; [lia|]; split; [reflexivity|]; split; [tauto|];
         split; [assumption|]; left; split; [sq_arith|assumption]).
    + destruct Hm as [<-|[]]. pl_pawn Hstm.
      split; [lia|]. split; [lia|]. split; [reflexivity|]. split; [assumption|].
      left. split; [sq_arith|assumption].
  - apply emit1_In in H; [|bb_ok_tac]. destruct H as [to [Hto ->]].
    apply bit_and_iff in Hto. destruct Hto as [Hfrom Hb]. apply Hempty in Hb.
    bits_in Hfrom. bits_in Hb. unpack Hfrom. unpack Hb. pl_pawn Hstm.
    split; [lia|]. split; [lia|]. split; [reflexivity|]. split; [sq_arith|].
    right. left. split; [sq_arith|]. split; [sq_arith|].
    unfold pawn_push. replace (to - 8 - 8 + DELTA_N) with (to - 8) by (unfold DELTA_N; lia).
    split; assumption.
  - apply emit_In in H; [|bb_ok_tac]. destruct H as [to [Hto Hm]].
    apply bit_and_iff in Hto. destruct Hto as [Hfrom Hb]. apply Hempty in Hb.
    bits_in Hfrom. bits_in Hb. unpack Hfrom. unpack Hb.
    destruct (Z.eqb_spec (square_rank to) RANK_1) as [Hrr|Hrr].
    + unfold all_promotions in Hm. cbn [In] in Hm.
      destruct Hm as [<-|[<-|[<-|[<-|[]]]]]; pl_pawn_b Hstm;
        (split; [lia|]; split; [lia|]; split; [reflexivity|]; split; [tauto|];
         split; [sq_arith|]; left; split; [sq_arith|assumption]).
    + destruct Hm as [<-|[]]. pl_pawn_b Hstm.
      split; [lia|]. split; [lia|]. split; [reflexivity|]. split; [sq_arith|].
      left. split; [sq_arith|assumption].
  - apply emit1_In in H; [|bb_ok_tac]. destruct H as [to [Hto ->]].
    apply bit_and_iff in Hto. destruct Hto as [Hfrom Hb]. apply Hempty in Hb.
    bits_in Hfrom. bits_in Hb. unpack Hfrom. unpack Hb. pl_pawn_b Hstm.
    split; [lia|]. split; [lia|]. split; [reflexivity|]. split; [sq_arith|].
    right. left. split; [sq_arith|]. split; [sq_arith|].
    unfold pawn_push. replace (to + 8 + 8 + DELTA_S) with (to + 8) by (unfold DELTA_S; lia).
    split; assumption.
Qed.


(** Every move written by the evasion generator obeys the movement
    rules: in a well-formed position in check whose [checkers] are what
    the board gives, the moves of [generate_evasions] are pseudo-legal
    (the interposition squares are empty because the checker sees the
    king through them). *)
Theorem generate_evasions_pseudo_legal (pos : Position) (m : Move) :
  is_ok pos = true -> is_check pos = true -> checkers_on_board pos ->
  In m (generate_evasions pos) -> pseudo_legal pos m.
Proof.
  intros Hok Hcheck Hch Hin. set (us := side_to_move pos) in *.
  destruct (is_ok_king pos us Hok) as [Hk [Hking _]].
  set (ksq := king_square pos us) in *. set (them := opposite_color us) in *.
  unfold checkers_on_board in Hch. cbv zeta in Hch. fold us in Hch. fold ksq in Hch.
  fold them in Hch.
  unfold generate_evasions in Hin. cbv zeta in Hin. fold us in Hin. fold ksq in Hin.
  apply in_app_iff in Hin. destruct Hin as [Hin|Hin].
  - (* king moves *)
    apply evasions_king_In in Hin. destruct Hin as [to [-> [Hto _]]].
    apply bit_and_iff in Hto. destruct Hto as [Ha Hown].
    pose proof (bb_ok_bit_range _ _ (king_attacks_bb_ok ksq) Ha) as Hr.
    apply bit_not_any_iff in Hown; [|assumption].
    unfold pseudo_legal, make_move. cbv zeta. cbn [move_from move_to move_kind].
    fold us. fold ksq. rewrite Hking.
    split; [assumption|]. split; [assumption|]. split; [reflexivity|].
    split; [exact Ha|]. intros Hc.
    assert (Hb : Z.testbit (pieces_of_color pos us) to = true)
      by (apply pieces_of_color_bit; split; assumption).
    congruence.
  - destruct (Z.eqb_spec (checkers pos & (checkers pos - 1)) 0) as [Hone|Hmany];
      [|destruct Hin].
    assert (Hpos : 0 < checkers pos).
    { unfold is_check in Hcheck. apply negb_true_iff, Z.eqb_neq in Hcheck.
      unfold EmptyBoardBB in Hcheck.
      pose proof (attackers_ok (piece_on pos) them ksq) as Hb.
      rewrite <- Hch in Hb. unfold bb_ok in Hb. lia. }
    set (c := first_1 (checkers pos)) in *.
    assert (Hc : Z.testbit (attackers (piece_on pos) them ksq) c = true).
    { rewrite <- Hch. apply first_1_set. assumption. }
    apply attackers_bit in Hc. destruct Hc as [Hcr [Hcc Hca]].
    assert (Hempty : forall y, Z.testbit (squares_between c ksq) y = true ->
              Z.testbit (empty_squares pos) y = true).
    { intros y Hy. destruct (attacker_between_empty _ them ksq c y Hcr Hcc Hca Hy) as [E _].
      apply empty_bit. split; [eapply bb_ok_bit_range; [apply squares_between_ok|exact Hy]|].
      unfold square_is_empty. rewrite E. reflexivity. }
    rewrite !in_app_iff in Hin. destruct Hin as [Hin|[Hin|Hin]].
    + apply (capture_checker_pseudo_legal pos c (pinned_pieces pos us)); assumption.
    + unfold evasions_block in Hin. destruct (negb _); [|destruct Hin].
      rewrite !in_app_iff in Hin. destruct Hin as [H|[H|[H|[H|H]]]].
      * eapply block_pawn_pseudo_legal; eassumption.
      * eapply (block_piece_pseudo_legal pos KNIGHT); [discriminate|exact Hempty|exact H].
      * eapply (block_piece_pseudo_legal pos BISHOP); [discriminate|exact Hempty|exact H].
      * eapply (block_piece_pseudo_legal pos ROOK); [discriminate|exact Hempty|exact H].
      * eapply (block_piece_pseudo_legal pos QUEEN); [discriminate|exact Hempty|exact H].
    + apply evasions_ep_In in Hin.
      destruct Hin as [Hset [_ [from [-> [Hfrom _]]]]].
      rewrite !bit_and_iff in Hfrom. destruct Hfrom as [[Ha Hp] _].
      apply bit_pawns in Hp. destruct Hp as [Hfr Hp].
      destruct (is_ok_ep pos Hok) as [E|Hepr]; [contradiction|].
      unfold pseudo_legal, make_ep_move. cbv zeta. cbn [move_from move_to move_kind].
      fold us. split; [assumption|]. split; [assumption|].
      split; [assumption|]. split; [reflexivity|].
      unfold pawn_attacks in *. rewrite pawn_attacks_sym by assumption. exact Ha.
Qed.

Lemma generate_evasions_pseudo_legal_witness :
  is_ok pos_block_check = true /\ is_check pos_block_check = true
  /\ checkers_on_board pos_block_check
  /\ In (make_move 39 60) (generate_evasions pos_block_check)
  /\ pseudo_legal pos_block_check (make_move 39 60).
Proof.
  assert (Hok : is_ok pos_block_check = true) by (vm_compute; reflexivity).
  assert (Hc : is_check pos_block_check = true) by (vm_compute; reflexivity).
  assert (Hch : checkers_on_board pos_block_check) by apply position_of_board_checkers.
  assert (Hin : In (make_move 39 60) (generate_evasions pos_block_check))
    by (vm_compute; auto 20).
  split; [exact Hok|]. split; [exact Hc|]. split; [exact Hch|]. split; [exact Hin|].
  exact (generate_evasions_pseudo_legal pos_block_check (make_move 39 60) Hok Hc Hch Hin).
Defined.

(** ** The compaction loop on a list that needs no compaction *)

Lemma compact_loop_all_legal (legal : Move -> bool) fuel :
  forall A T B : list Move,
    (length T <= fuel)%nat -> (forall m, In m T -> legal m = true) ->
    compact_loop legal fuel (A ++ T ++ B) (length A) (length A + length T)
    = (A ++ T ++ B, (length A + length T)%nat).
Proof.
  induction fuel as [|k IH]; intros A T B Hfuel Hall.
  - destruct T; [|simpl in Hfuel; lia]. reflexivity.
  - destruct T as [|x T1].
    + cbn [compact_loop length]. rewrite Nat.add_0_r, Nat.ltb_irrefl. reflexivity.
    + cbn [compact_loop length].
      replace (length A <? length A + S (length T1))%nat with true
        by (symmetry; apply Nat.ltb_lt; lia).
      change ((x :: T1) ++ B) with (x :: (T1 ++ B)).
      rewrite nth_middle_app. rewrite (Hall x (or_introl eq_refl)). cbn [negb].
      simpl in Hfuel.
      pose proof (IH (A ++ [x]) T1 B ltac:(lia) (fun m H => Hall m (or_intror H))) as Hrun.
      rewrite <- !app_assoc in Hrun. simpl in Hrun.
      rewrite length_app in Hrun. simpl in Hrun.
      replace (length A + 1 + length T1)%nat with (length A + S (length T1))%nat
        in Hrun by lia.
      exact Hrun.
Qed.

(** Out of check, when every generated move passes the legality test
    the legal move list is the capture list followed by the non-capture
    list, in the order of generation; when no move passes, it is empty. *)
Theorem generate_legal_moves_edge_cases (pos : Position) :
  is_check pos = false ->
  ((forall m, In m (generate_captures pos ++ generate_noncaptures pos) ->
              move_is_legal pos m = true) ->
   generate_legal_moves pos = generate_captures pos ++ generate_noncaptures pos)
  /\ ((forall m, In m (generate_captures pos ++ generate_noncaptures pos) ->
                 move_is_legal pos m = false) ->
      generate_legal_moves pos = []).
Proof.
  intros Hc. split; intros Hall.
  - unfold generate_legal_moves. rewrite Hc. cbv zeta.
    set (legal := fun m => move_is_legal_pinned pos m (pinned_pieces pos (side_to_move pos))).
    set (l := generate_captures pos ++ generate_noncaptures pos) in *.
    replace (length (generate_captures pos) + length (generate_noncaptures pos))%nat
      with (length l) by (unfold l; rewrite length_app; reflexivity).
    pose proof (compact_loop_all_legal legal (length l) [] l [] (Nat.le_refl _) Hall) as Hrun.
    simpl in Hrun. rewrite app_nil_r in Hrun. rewrite Hrun. apply firstn_all.
  - assert (Hnone : forall m, ~ In m (generate_legal_moves pos)).
    { intros m Hin. apply generate_legal_moves_In in Hin; [|assumption].
      destruct Hin as [Hin Hl]. rewrite (Hall m Hin) in Hl. discriminate. }
    destruct (generate_legal_moves pos) as [|x l]; [reflexivity|].
    exfalso. apply (Hnone x). left. reflexivity.
Qed.

Lemma generate_legal_moves_edge_cases_witness :
  is_check pos_start = false
  /\ (forall m, In m (generate_captures pos_start ++ generate_noncaptures pos_start) ->
                move_is_legal pos_start m = true)
  /\ generate_legal_moves pos_start
     = generate_captures pos_start ++ generate_noncaptures pos_start.
Proof.
  assert (Hc : is_check pos_start = false) by (vm_compute; reflexivity).
  assert (Hall : forall m, In m (generate_captures pos_start ++ generate_noncaptures pos_start)
                           -> move_is_legal pos_start m = true).
  { apply (proj1 (forallb_forall (move_is_legal pos_start)
                     (generate_captures pos_start ++ generate_noncaptures pos_start))).
    vm_compute. reflexivity. }
  split; [exact Hc|]. split; [exact Hall|].
  exact (proj1 (generate_legal_moves_edge_cases pos_start Hc) Hall).
Defined.

(** ** The probe and the castle generator *)

Lemma probe_short_castle pos rsq pinned :
  let us := side_to_move pos in
  let ksq := king_square pos us in
  piece_on pos ksq = Pc us KING ->
  generate_move_if_legal pos (mkMove ksq rsq MK_SHORT_CASTLE) pinned
  = if can_castle_kingside pos us
       && negb (castle_path_illegal pos (opposite_color us) ksq rsq
                  (relative_square us SQ_G1) (relative_square us SQ_F1))
    then mkMove ksq rsq MK_SHORT_CASTLE else MOVE_NONE.
Proof.
  intros us ksq Hking.
  unfold generate_move_if_legal, move_is_ep, move_is_short_castle, castle_path_illegal,
    square_is_occupied.
  cbv zeta. cbn [move_from move_to move_kind]. fold us. fold ksq. rewrite Hking.
  cbn [color_of_piece type_of_piece option_Color_eqb option_PieceType_eqb PieceType_eqb].
  rewrite Color_eqb_refl. cbn [negb orb].
  destruct (can_castle_kingside pos us); reflexivity.
Qed.

Lemma probe_long_castle pos rsq pinned :
  let us := side_to_move pos in
  let ksq := king_square pos us in
  piece_on pos ksq = Pc us KING ->
  generate_move_if_legal pos (mkMove ksq rsq MK_LONG_CASTLE) pinned
  = if can_castle_queenside pos us
       && negb (castle_path_illegal pos (opposite_color us) ksq rsq
                  (relative_square us SQ_C1) (relative_square us SQ_D1))
       && negb ((square_file rsq =? FILE_B)
                && (Piece_eqb (piece_on pos (rsq + DELTA_W))
                              (rook_of_color (opposite_color us))
                    || Piece_eqb (piece_on pos (rsq + DELTA_W))
                                 (queen_of_color (opposite_color us))))
    then mkMove ksq rsq MK_LONG_CASTLE else MOVE_NONE.
Proof.
  intros us ksq Hking.
  unfold generate_move_if_legal, move_is_ep, move_is_short_castle, move_is_long_castle,
    castle_path_illegal, square_is_occupied.
  cbv zeta. cbn [move_from move_to move_kind]. fold us. fold ksq. rewrite Hking.
  cbn [color_of_piece type_of_piece option_Color_eqb option_PieceType_eqb PieceType_eqb].
  rewrite Color_eqb_refl. cbn [negb orb].
  destruct (can_castle_queenside pos us); [|reflexivity]. cbn [negb andb].
  match goal with
  | |- context [flag_loop ?f ?l (flag_loop ?g ?l2 false)] =>
      destruct (flag_loop f l (flag_loop g l2 false))
  end;
  match goal with
  | |- context [(square_file rsq =? FILE_B) && ?x] =>
      destruct ((square_file rsq =? FILE_B) && x)
  end; reflexivity.
Qed.

Lemma b_file_corner us rsq :
  0 <= rsq < 64 ->
  square_rank rsq = square_rank (relative_square us SQ_A1) ->
  square_file rsq = FILE_B -> rsq + DELTA_W = relative_square us SQ_A1.
Proof.
  intros Hr Hhome Hf.
  destruct us; unfold relative_square, SQ_A1 in *;
    [|change (Z.lxor 0 56) with 56 in *];
    unfold FILE_B, DELTA_W, square_file, square_rank in *;
    Z.div_mod_to_equations; lia.
Qed.

(** The probe and the castle generator apply the same rule: for the two
    castle moves of the side to move (king square to the king's rook,
    king square to the queen's rook), [generate_move_if_legal] returns
    the move if and only if [generate_castle_moves] writes it, and
    [MOVE_NONE] otherwise. *)
Theorem generate_move_if_legal_castle_iff (pos : Position) (m : Move) (pinned : Bitboard) :
  let us := side_to_move pos in
  let ksq := king_square pos us in
  is_ok pos = true -> queen_rook_home pos us ->
  m = mkMove ksq (initial_kr_square pos us) MK_SHORT_CASTLE
  \/ m = mkMove ksq (initial_qr_square pos us) MK_LONG_CASTLE ->
  (generate_move_if_legal pos m pinned = m <-> In m (generate_castle_moves pos us))
  /\ (~ In m (generate_castle_moves pos us) ->
      generate_move_if_legal pos m pinned = MOVE_NONE).
Proof.
  intros us ksq Hok Hhome Hm.
  assert (Hiff : generate_move_if_legal pos m pinned = m
                 <-> In m (generate_castle_moves pos us));
    [|split;
      [exact Hiff
      |intros Hn; destruct (generate_move_if_legal_cases pos m pinned) as [E|E];
       [exfalso; apply Hn, Hiff, E|exact E]]].
  destruct (is_ok_king pos us Hok) as [_ [Hking _]]. fold ksq in Hking.
  destruct (is_ok_castle_squares pos us Hok) as [_ Hqr].
  rewrite (generate_castle_moves_In pos us m Hok). fold ksq.
  destruct Hm as [-> | ->].
  - rewrite (probe_short_castle pos _ pinned Hking). fold us. fold ksq.
    rewrite <- castle_path_illegal_iff.
    destruct (can_castle_kingside pos us); cbn [andb].
    + destruct (castle_path_illegal pos (opposite_color us) ksq (initial_kr_square pos us)
                  (relative_square us SQ_G1) (relative_square us SQ_F1)); cbn [negb].
      * split; [discriminate|]. intros [[_ [_ H]]|[_ [H _]]]; discriminate.
      * split; [|reflexivity]. intros _. left. tauto.
    + split; [discriminate|]. intros [[H _]|[_ [H _]]]; discriminate.
  - rewrite (probe_long_castle pos _ pinned Hking). fold us. fold ksq.
    set (rsq := initial_qr_square pos us) in *. set (them := opposite_color us) in *.
    destruct (can_castle_queenside pos us) eqn:Ecan; cbn [andb].
    2:{ split; [discriminate|]. intros [[_ [H _]]|[H _]]; discriminate. }
    assert (Ecorner :
      (square_file rsq =? FILE_B)
      && (Piece_eqb (piece_on pos (rsq + DELTA_W)) (rook_of_color them)
          || Piece_eqb (piece_on pos (rsq + DELTA_W)) (queen_of_color them))
      = (square_file rsq =? FILE_B)
        && (Piece_eqb (piece_on pos (relative_square us SQ_A1)) (rook_of_color them)
            || Piece_eqb (piece_on pos (relative_square us SQ_A1)) (queen_of_color them))).
    { destruct (Z.eqb_spec (square_file rsq) FILE_B) as [Ef|Ef]; [|reflexivity].
      rewrite (b_file_corner us rsq (Hqr eq_refl) (Hhome Ecan) Ef). reflexivity. }
    rewrite Ecorner.
    pose proof (castle_path_illegal_iff pos us ksq rsq (relative_square us SQ_C1)
                  (relative_square us SQ_D1)) as Hpath. fold them in Hpath.
    pose proof (corner_test_iff pos them rsq (relative_square us SQ_A1)) as Hcor.
    remember (castle_path_illegal pos them ksq rsq (relative_square us SQ_C1)
                (relative_square us SQ_D1)) as path eqn:Epath.
    remember ((square_file rsq =? FILE_B)
              && (Piece_eqb (piece_on pos (relative_square us SQ_A1)) (rook_of_color them)
                  || Piece_eqb (piece_on pos (relative_square us SQ_A1))
                               (queen_of_color them))) as corner eqn:Ecor.
    destruct path, corner; cbn [negb andb]; split; try discriminate; try reflexivity.
    + intros [[_ [H _]]|[_ [_ [Hr _]]]]; [discriminate|].
      apply Hpath in Hr. discriminate.
    + intros [[_ [H _]]|[_ [_ [Hr _]]]]; [discriminate|].
      apply Hpath in Hr. discriminate.
    + intros [[_ [H _]]|[_ [_ [_ Hc]]]]; [discriminate|].
      apply Hcor in Hc. discriminate.
    + intros _. right. split; [reflexivity|]. split; [reflexivity|].
      split; [apply Hpath; reflexivity|apply Hcor; reflexivity].
Qed.

Lemma generate_move_if_legal_castle_iff_witness :
  is_ok pos_castle_b = true
  /\ queen_rook_home pos_castle_b (side_to_move pos_castle_b)
  /\ (mkMove 4 1 MK_LONG_CASTLE
      = mkMove (king_square pos_castle_b (side_to_move pos_castle_b))
               (initial_kr_square pos_castle_b (side_to_move pos_castle_b)) MK_SHORT_CASTLE
      \/ mkMove 4 1 MK_LONG_CASTLE
         = mkMove (king_square pos_castle_b (side_to_move pos_castle_b))
                  (initial_qr_square pos_castle_b (side_to_move pos_castle_b)) MK_LONG_CASTLE)
  /\ (generate_move_if_legal pos_castle_b (mkMove 4 1 MK_LONG_CASTLE) 0
      = mkMove 4 1 MK_LONG_CASTLE
      <-> In (mkMove 4 1 MK_LONG_CASTLE)
             (generate_castle_moves pos_castle_b (side_to_move pos_castle_b)))
  /\ (~ In (mkMove 4 1 MK_LONG_CASTLE)
           (generate_castle_moves pos_castle_b (side_to_move pos_castle_b)) ->
      generate_move_if_legal pos_castle_b (mkMove 4 1 MK_LONG_CASTLE) 0 = MOVE_NONE).
Proof.
  assert (Hok : is_ok pos_castle_b = true) by (vm_compute; reflexivity).
  assert (Hhome : queen_rook_home pos_castle_b (side_to_move pos_castle_b))
    by (intros _; vm_compute; reflexivity).
  assert (Hm : mkMove 4 1 MK_LONG_CASTLE
               = mkMove (king_square pos_castle_b (side_to_move pos_castle_b))
                   (initial_kr_square pos_castle_b (side_to_move pos_castle_b))
                   MK_SHORT_CASTLE
               \/ mkMove 4 1 MK_LONG_CASTLE
                  = mkMove (king_square pos_castle_b (side_to_move pos_castle_b))
                      (initial_qr_square pos_castle_b (side_to_move pos_castle_b))
                      MK_LONG_CASTLE)
    by (right; vm_compute; reflexivity).
  split; [exact Hok|]. split; [exact Hhome|]. split; [exact Hm|].
  exact (generate_move_if_legal_castle_iff pos_castle_b (mkMove 4 1 MK_LONG_CASTLE) 0
           Hok Hhome Hm).
Defined.

Lemma keyed_blocks_one key k b :
  NoDup b -> (forall m, In m b -> key m = k) -> keyed_blocks key [k] b.
Proof.
  intros Hnd Htag. exists [(k, b)]. simpl. rewrite app_nil_r.
  split; [reflexivity|]. split; [reflexivity|].
  intros k' b' [E|[]]. injection E as <- <-. split; assumption.
Qed.

Lemma keyed_blocks_nil key : keyed_blocks key [] [].
Proof. exists []. split; [reflexivity|]. split; [reflexivity|]. intros k b []. Qed.

Lemma keyed_blocks_app key t1 t2 l1 l2 :
  keyed_blocks key t1 l1 -> keyed_blocks key t2 l2 ->
  keyed_blocks key (t1 ++ t2) (l1 ++ l2).
Proof.
  intros [bs1 [E1 [T1 H1]]] [bs2 [E2 [T2 H2]]]. exists (bs1 ++ bs2).
  rewrite !map_app, concat_app, E1, E2, T1, T2.
  split; [reflexivity|]. split; [reflexivity|].
  intros k b Hin. apply in_app_iff in Hin. destruct Hin; [apply H1|apply H2]; assumption.
Qed.

Lemma keyed_blocks_NoDup key keys l :
  keyed_blocks key keys l -> NoDup keys -> NoDup l.
Proof.
  intros [bs [-> [<- H]]]. clear -H. induction bs as [|[k b] bs IH]; intros Hnd; simpl.
  - constructor.
  - simpl in Hnd. inversion Hnd as [|? ? Hk Hnd']; subst.
    destruct (H k b (or_introl eq_refl)) as [Hb Htag].
    apply NoDup_app; [assumption| |].
    + apply IH; [|assumption]. intros k' b' Hin. apply H. right. assumption.
    + intros m Hm Hin. apply in_concat in Hin. destruct Hin as [b' [Hb' Hmb']].
      apply in_map_iff in Hb'. destruct Hb' as [[k' b''] [E Hin]]. simpl in E. subst b''.
      destruct (H k' b' (or_intror Hin)) as [_ Htag'].
      apply Hk. apply in_map_iff. exists (k', b'). split; [|assumption]. simpl.
      rewrite <- (Htag m Hm), <- (Htag' m Hmb'). reflexivity.
Qed.

Lemma all_promotions_NoDup from to : NoDup (all_promotions from to).
Proof.
  unfold all_promotions, make_promotion_move.
  repeat constructor; cbn [In]; intuition discriminate.
Qed.

Lemma emit_NoDup_from b f :
  bb_ok b ->
  (forall s, NoDup (f s)) ->
  (forall s m, In m (f s) -> move_from m = s) ->
  NoDup (emit b f).
Proof.
  intros Hb Hf Hkey. unfold emit. apply (NoDup_flat_map_keyed move_from).
  - apply bb_squares_NoDup. assumption.
  - intros s _. apply Hf.
  - intros s m _. apply Hkey.
Qed.

Lemma keyed_blocks_empty key keys : keyed_blocks key keys [].
Proof.
  exists (map (fun k => (k, [])) keys). split; [|split].
  - induction keys as [|k keys IH]; simpl; [reflexivity|assumption].
  - rewrite map_map. simpl. apply map_id.
  - intros k b Hin. apply in_map_iff in Hin. destruct Hin as [k' [E _]].
    injection E as <- <-. split; [constructor|intros m []].
Qed.

(** No square is on a diagonal and on a file or rank of [s] at once. *)
Lemma bishop_rook_disjoint s occ t :
  0 <= s < 64 ->
  Z.testbit (bishop_attacks_bb s occ) t = true ->
  Z.testbit (rook_attacks_bb s occ) t = true -> False.
Proof.
  intros Hs Hb Hr. unfold bishop_attacks_bb in Hb. unfold rook_attacks_bb in Hr.
  apply slider_attacks_bit in Hb. apply slider_attacks_bit in Hr.
  destruct Hb as [_ Hb]. destruct Hr as [_ Hr].
  unfold slider_reaches in Hb, Hr.
  apply existsb_exists in Hb. destruct Hb as [d [Hd Hb]].
  apply existsb_exists in Hr. destruct Hr as [d' [Hd' Hr]].
  apply slides_to_iff in Hb. destruct Hb as [k [Hk [Hv [Ht _]]]].
  apply slides_to_iff in Hr. destruct Hr as [k' [Hk' [Hv' [Ht' _]]]].
  assert (Hq : In d queen_dirs) by (unfold queen_dirs; apply in_or_app; left; assumption).
  assert (Hq' : In d' queen_dirs) by (unfold queen_dirs; apply in_or_app; right; assumption).
  destruct (ray_unique s d k d' k' Hs Hq Hk Hv Hq' Hk' Hv') as [E _]; [congruence|].
  subst d'. clear - Hd Hd'.
  simpl in Hd, Hd'.
  destruct Hd as [<-|[<-|[<-|[<-|[]]]]];
    destruct Hd' as [E|[E|[E|[E|[]]]]]; discriminate.
Qed.

(** A square strictly between two squares is neither of them. *)
Lemma between_not_first a b t :
  0 <= a < 64 -> Z.testbit (squares_between a b) t = true -> t <> a.
Proof.
  intros Ha H. apply squares_between_iff in H.
  destruct H as [_ [d [k [j [Hd [Hk [Hv [_ [Hj Ht]]]]]]]]].
  destruct (ray_reverse a d k Ha Hd Hk Hv) as [_ [_ [_ [_ Hin]]]].
  specialize (Hin j Hj). subst t. apply Hin.
Qed.
Section EvasionTags.
Variable pos : Position.
Variable us : Color.
Variable ksq c : Square.
Hypothesis Hking : piece_on pos ksq = Pc us KING.
Hypothesis Hc : 0 <= c < 64.

Lemma evasion_tag_piece pt from to k :
  Z.testbit (pieces_of_color_and_type pos us pt) from = true ->
  pt <> KING ->
  (let m := make_move from to in
   (if move_to m =? c then
      match pt with
      | PAWN => 10 | KNIGHT => 11 | BISHOP => 12 | ROOK => 13
      | QUEEN => if Z.testbit (bishop_attacks pos c) from then 12 else 13
      | KING => 2
      end
    else
      match pt with
      | PAWN => if Z.abs (to - from) =? 8 then 20 else 21
      | KNIGHT => 22 | BISHOP => 23 | ROOK => 24 | QUEEN => 25
      | KING => 2
      end) = k) ->
  evasion_tag pos ksq c (make_move from to) = k.
Proof.
  intros Hbit Hpt. cbv zeta. intros Hk. apply piece_bit in Hbit. destruct Hbit as [_ Hp].
  unfold evasion_tag. cbn [make_move move_from move_to move_kind] in *.
  destruct (Z.eqb_spec from ksq) as [E|_].
  - subst from. rewrite Hking in Hp. injection Hp as E. symmetry in E. contradiction.
  - rewrite Hp. destruct pt; exact Hk.
Qed.

Lemma evasion_tag_promotion from to m k :
  Z.testbit (pawns pos us) from = true ->
  In m (all_promotions from to) ->
  (if to =? c then 10 else if Z.abs (to - from) =? 8 then 20 else 21) = k ->
  evasion_tag pos ksq c m = k.
Proof.
  intros Hbit Hm Hk. apply piece_bit in Hbit. destruct Hbit as [_ Hp].
  unfold evasion_tag. simpl in Hm.
  destruct Hm as [<-|[<-|[<-|[<-|[]]]]];
    cbn [make_promotion_move move_from move_to move_kind];
    (destruct (Z.eqb_spec from ksq) as [E|_];
     [subst from; rewrite Hking in Hp; discriminate|]);
    rewrite Hp; exact Hk.
Qed.

Lemma evasions_king_keyed :
  keyed_blocks (evasion_tag pos ksq c) [0] (evasions_king pos us ksq).
Proof.
  apply keyed_blocks_one.
  - unfold evasions_king. apply emit_NoDup; [bb_ok_tac| |].
    + intros s. destruct (king_escape_ok pos us _ s); repeat constructor. intros [].
    + intros s m H. destruct (king_escape_ok pos us _ s); [|destruct H].
      destruct H as [<-|[]]. reflexivity.
  - intros m H. unfold evasions_king in H. apply emit_In in H; [|bb_ok_tac].
    destruct H as [to [_ H]]. destruct (king_escape_ok pos us _ to); [|destruct H].
    destruct H as [<-|[]]. unfold evasion_tag. cbn [make_move move_from].
    rewrite Z.eqb_refl. reflexivity.
Qed.

Lemma evasions_capture_checker_keyed pinned :
  keyed_blocks (evasion_tag pos ksq c) [10; 11; 12; 13]
               (evasions_capture_checker pos us c pinned).
Proof.
  unfold evasions_capture_checker.
  apply (keyed_blocks_app _ [10] [11; 12; 13]);
    [|apply (keyed_blocks_app _ [11] [12; 13]);
      [|apply (keyed_blocks_app _ [12] [13])]];
    apply keyed_blocks_one.
  - apply emit_NoDup_from; [bb_ok_tac| |].
    + intros s. destruct (relative_rank us c =? RANK_8);
        [apply all_promotions_NoDup|repeat constructor; intros []].
    + intros s m H. destruct (relative_rank us c =? RANK_8).
      * simpl in H. destruct H as [<-|[<-|[<-|[<-|[]]]]]; reflexivity.
      * destruct H as [<-|[]]. reflexivity.
  - intros m H. apply emit_In in H; [|bb_ok_tac]. destruct H as [from [Hb H]].
    rewrite !bb_and_bit, !andb_true_iff in Hb. destruct Hb as [[_ Hp] _].
    destruct (relative_rank us c =? RANK_8).
    + apply (evasion_tag_promotion from c); [assumption|assumption|].
      rewrite Z.eqb_refl. reflexivity.
    + destruct H as [<-|[]]. apply (evasion_tag_piece PAWN); [assumption|discriminate|].
      cbv zeta. cbn [make_move move_to]. rewrite Z.eqb_refl. reflexivity.
  - apply emit1_NoDup_from; [bb_ok_tac|reflexivity].
  - intros m H. apply emit1_In in H; [|bb_ok_tac]. destruct H as [from [Hb ->]].
    rewrite !bb_and_bit, !andb_true_iff in Hb. destruct Hb as [[_ Hp] _].
    apply (evasion_tag_piece KNIGHT); [assumption|discriminate|].
    cbv zeta. cbn [make_move move_to]. rewrite Z.eqb_refl. reflexivity.
  - apply emit1_NoDup_from; [bb_ok_tac|reflexivity].
  - intros m H. apply emit1_In in H; [|bb_ok_tac]. destruct H as [from [Hb ->]].
    rewrite !bb_and_bit, !andb_true_iff in Hb. destruct Hb as [[Ha Hp] _].
    unfold bishops_and_queens in Hp. rewrite bb_or_bit in Hp.
    apply orb_true_iff in Hp. destruct Hp as [Hp|Hp].
    + apply (evasion_tag_piece BISHOP); [assumption|discriminate|].
      cbv zeta. cbn [make_move move_to]. rewrite Z.eqb_refl. reflexivity.
    + apply (evasion_tag_piece QUEEN); [assumption|discriminate|].
      cbv zeta. cbn [make_move move_to]. rewrite Z.eqb_refl, Ha. reflexivity.
  - apply emit1_NoDup_from; [bb_ok_tac|reflexivity].
  - intros m H. apply emit1_In in H; [|bb_ok_tac]. destruct H as [from [Hb ->]].
    rewrite !bb_and_bit, !andb_true_iff in Hb. destruct Hb as [[Ha Hp] _].
    unfold rooks_and_queens in Hp. rewrite bb_or_bit in Hp.
    apply orb_true_iff in Hp. destruct Hp as [Hp|Hp].
    + apply (evasion_tag_piece ROOK); [assumption|discriminate|].
      cbv zeta. cbn [make_move move_to]. rewrite Z.eqb_refl. reflexivity.
    + apply (evasion_tag_piece QUEEN); [assumption|discriminate|].
      cbv zeta. cbn [make_move move_to]. rewrite Z.eqb_refl.
      destruct (Z.testbit (bishop_attacks pos c) from) eqn:Eb; [exfalso|reflexivity].
      unfold bishop_attacks in Eb. unfold rook_attacks in Ha.
      exact (bishop_rook_disjoint c _ from Hc Eb Ha).
Qed.
End EvasionTags.
Section EvasionBlockTags.
Variable pos : Position.
Variable us : Color.
Variable ksq c : Square.
Hypothesis Hking : piece_on pos ksq = Pc us KING.
Hypothesis Hc : 0 <= c < 64.

Lemma evasions_block_pawn_keyed pinned :
  keyed_blocks (evasion_tag pos ksq c) [20; 21]
               (evasions_block_pawn pos us pinned (squares_between c ksq)).
Proof.
  unfold evasions_block_pawn. destruct us;
    apply (keyed_blocks_app _ [20] [21]); apply keyed_blocks_one.
  - apply emit_NoDup; [bb_ok_tac| |].
    + intros s. destruct (square_rank s =? RANK_8);
        [apply all_promotions_NoDup|repeat constructor; intros []].
    + intros s m H. destruct (square_rank s =? RANK_8).
      * simpl in H. destruct H as [<-|[<-|[<-|[<-|[]]]]]; reflexivity.
      * destruct H as [<-|[]]. reflexivity.
  - intros m H. apply emit_In in H; [|bb_ok_tac]. destruct H as [to [Hb H]].
    apply bit_and_iff in Hb. destruct Hb as [Hp Hbt].
    pose proof (between_not_first c ksq to Hc Hbt) as Hne. split_bits.
    assert (E : (to =? c) = false) by (apply Z.eqb_neq; assumption).
    destruct (square_rank to =? RANK_8).
    + apply (evasion_tag_promotion pos WHITE ksq c Hking (to - DELTA_N) to);
        [assumption|assumption|].
      rewrite E. unfold DELTA_N. replace (to - (to - 8)) with 8 by lia. reflexivity.
    + destruct H as [<-|[]].
      apply (evasion_tag_piece pos WHITE ksq c Hking PAWN); [assumption|discriminate|].
      cbv zeta. cbn [make_move move_to]. rewrite E. unfold DELTA_N.
      replace (to - (to - 8)) with 8 by lia. reflexivity.
  - apply emit1_NoDup; [bb_ok_tac|reflexivity].
  - intros m H. apply emit1_In in H; [|bb_ok_tac]. destruct H as [to [Hb ->]].
    apply bit_and_iff in Hb. destruct Hb as [Hp Hbt].
    pose proof (between_not_first c ksq to Hc Hbt) as Hne. split_bits.
    assert (E : (to =? c) = false) by (apply Z.eqb_neq; assumption).
    apply (evasion_tag_piece pos WHITE ksq c Hking PAWN); [assumption|discriminate|].
    cbv zeta. cbn [make_move move_to]. rewrite E. unfold DELTA_N.
    replace (to - (to - 8 - 8)) with 16 by lia. reflexivity.
  - apply emit_NoDup; [bb_ok_tac| |].
    + intros s. destruct (square_rank s =? RANK_1);
        [apply all_promotions_NoDup|repeat constructor; intros []].
    + intros s m H. destruct (square_rank s =? RANK_1).
      * simpl in H. destruct H as [<-|[<-|[<-|[<-|[]]]]]; reflexivity.
      * destruct H as [<-|[]]. reflexivity.
  - intros m H. apply emit_In in H; [|bb_ok_tac]. destruct H as [to [Hb H]].
    apply bit_and_iff in Hb. destruct Hb as [Hp Hbt].
    pose proof (between_not_first c ksq to Hc Hbt) as Hne. split_bits.
    assert (E : (to =? c) = false) by (apply Z.eqb_neq; assumption).
    destruct (square_rank to =? RANK_1).
    + apply (evasion_tag_promotion pos BLACK ksq c Hking (to - DELTA_S) to);
        [unfold DELTA_S; replace (to - -8) with (to + 8) by lia; assumption|assumption|].
      rewrite E. unfold DELTA_S. replace (to - (to - -8)) with (-8) by lia. reflexivity.
    + destruct H as [<-|[]].
      apply (evasion_tag_piece pos BLACK ksq c Hking PAWN);
        [unfold DELTA_S; replace (to - -8) with (to + 8) by lia; assumption|discriminate|].
      cbv zeta. cbn [make_move move_to]. rewrite E. unfold DELTA_S.
      replace (to - (to - -8)) with (-8) by lia. reflexivity.
  - apply emit1_NoDup; [bb_ok_tac|reflexivity].
  - intros m H. apply emit1_In in H; [|bb_ok_tac]. destruct H as [to [Hb ->]].
    apply bit_and_iff in Hb. destruct Hb as [Hp Hbt].
    pose proof (between_not_first c ksq to Hc Hbt) as Hne. split_bits.
    assert (E : (to =? c) = false) by (apply Z.eqb_neq; assumption).
    apply (evasion_tag_piece pos BLACK ksq c Hking PAWN);
      [unfold DELTA_S; replace (to - -8 - -8) with (to + 8 + 8) by lia; assumption
      |discriminate|].
    cbv zeta. cbn [make_move move_to]. rewrite E. unfold DELTA_S.
    replace (to - (to - -8 - -8)) with (-16) by lia. reflexivity.
Qed.

Lemma evasions_block_piece_keyed pt attacks pinned k :
  pt <> KING -> pt <> PAWN ->
  (forall s, bb_ok (attacks s)) ->
  match pt with KNIGHT => 22 | BISHOP => 23 | ROOK => 24 | _ => 25 end = k ->
  keyed_blocks (evasion_tag pos ksq c) [k]
    (evasions_block_piece (pieces_of_color_and_type pos us pt & ~~ pinned) attacks
                          (squares_between c ksq)).
Proof.
  intros Hk Hpw Hok Ek. apply keyed_blocks_one.
  - unfold evasions_block_piece. apply emit_NoDup_from; [bb_ok_tac| |].
    + intros s. apply emit1_NoDup; [apply bb_and_ok_l, Hok|reflexivity].
    + intros s m H. apply emit1_In in H; [|apply bb_and_ok_l, Hok].
      destruct H as [to [_ ->]]. reflexivity.
  - intros m H. unfold evasions_block_piece in H. apply emit_In in H; [|bb_ok_tac].
    destruct H as [from [Hb H]]. apply emit1_In in H; [|apply bb_and_ok_l, Hok].
    destruct H as [to [Hto ->]].
    apply bit_and_iff in Hb. destruct Hb as [Hp _].
    apply bit_and_iff in Hto. destruct Hto as [_ Hbt].
    pose proof (between_not_first c ksq to Hc Hbt) as Hne.
    assert (E : (to =? c) = false) by (apply Z.eqb_neq; assumption).
    apply (evasion_tag_piece pos us ksq c Hking pt); [assumption|assumption|].
    cbv zeta. cbn [make_move move_to]. rewrite E.
    destruct pt; try exact Ek; exfalso; [apply Hpw|apply Hk]; reflexivity.
Qed.

Lemma evasions_block_keyed pinned :
  keyed_blocks (evasion_tag pos ksq c) [20; 21; 22; 23; 24; 25]
               (evasions_block pos us ksq c pinned).
Proof.
  unfold evasions_block. destruct (negb _); [|apply keyed_blocks_empty].
  apply (keyed_blocks_app _ [20; 21] [22; 23; 24; 25]);
    [apply evasions_block_pawn_keyed|].
  apply (keyed_blocks_app _ [22] [23; 24; 25]);
    [apply (evasions_block_piece_keyed KNIGHT);
     [discriminate|discriminate|intros; bb_ok_tac|reflexivity]|].
  apply (keyed_blocks_app _ [23] [24; 25]);
    [apply (evasions_block_piece_keyed BISHOP);
     [discriminate|discriminate|intros; bb_ok_tac|reflexivity]|].
  apply (keyed_blocks_app _ [24] [25]);
    apply (evasions_block_piece_keyed _);
     [discriminate|discriminate|intros; bb_ok_tac|reflexivity
     |discriminate|discriminate|intros; bb_ok_tac|reflexivity].
Qed.

Lemma evasions_ep_keyed pinned :
  keyed_blocks (evasion_tag pos ksq c) [1] (evasions_ep pos us ksq c pinned).
Proof.
  apply keyed_blocks_one.
  - unfold evasions_ep. destruct (_ && _); [|constructor].
    apply emit_NoDup_from; [bb_ok_tac| |].
    + intros s. destruct (ep_evasion_ok pos us ksq c s); repeat constructor. intros [].
    + intros s m H. destruct (ep_evasion_ok pos us ksq c s); [|destruct H].
      destruct H as [<-|[]]. reflexivity.
  - intros m H. unfold evasions_ep in H. destruct (_ && _); [|destruct H].
    apply emit_In in H; [|bb_ok_tac]. destruct H as [from [Hb H]].
    destruct (ep_evasion_ok pos us ksq c from); [|destruct H]. destruct H as [<-|[]].
    rewrite !bb_and_bit, !andb_true_iff in Hb. destruct Hb as [[_ Hp] _].
    apply piece_bit in Hp. destruct Hp as [_ Hp].
    unfold evasion_tag. cbn [make_ep_move move_from move_kind].
    destruct (Z.eqb_spec from ksq) as [E|_]; [|reflexivity].
    subst from. rewrite Hking in Hp. discriminate.
Qed.
End EvasionBlockTags.

Lemma first_1_range b : bb_ok b -> 0 <= first_1 b < 64.
Proof.
  intros Hb. destruct (Z.eq_dec b 0) as [->|Hne]; [vm_compute; split; [discriminate|reflexivity]|].
  assert (Hpos : 0 < b) by (unfold bb_ok in Hb; lia).
  exact (bb_ok_bit_range b _ Hb (first_1_set b Hpos)).
Qed.

(** [generate_evasions] writes no move twice: a king move, a capture of
    the checker, an interposition and an en passant capture are never
    the same move, and a queen reaches the checker along one line only. *)
Theorem generate_evasions_NoDup (pos : Position) :
  is_ok pos = true -> bb_ok (checkers pos) -> NoDup (generate_evasions pos).
Proof.
  intros Hok Hch.
  destruct (is_ok_king pos (side_to_move pos) Hok) as [_ [Hking _]].
  pose proof (first_1_range _ Hch) as Hc.
  apply (keyed_blocks_NoDup (evasion_tag pos (king_square pos (side_to_move pos))
                                         (first_1 (checkers pos)))
                            ([0] ++ [10; 11; 12; 13] ++ [20; 21; 22; 23; 24; 25] ++ [1])).
  - unfold generate_evasions. cbv zeta.
    apply keyed_blocks_app; [apply evasions_king_keyed; assumption|].
    destruct (_ =? 0); [|apply keyed_blocks_empty].
    apply keyed_blocks_app; [apply evasions_capture_checker_keyed; assumption|].
    apply keyed_blocks_app; [apply evasions_block_keyed; assumption|].
    apply evasions_ep_keyed; assumption.
  - cbn [app]. clear.
    repeat (constructor; [cbn [In]; intuition discriminate|]). constructor.
Qed.

Lemma check_tag_pawn pos dc us from to x d :
  Z.testbit (pawns pos us) from = true ->
  Z.testbit dc from = x ->
  Z.abs (to - from) = d ->
  check_tag pos dc (make_move from to)
  = 10 + 2 * (if x then 0 else 1) + (if d =? 8 then 0 else 1).
Proof.
  intros Hp Hx Hd. apply piece_bit in Hp. destruct Hp as [_ Hp].
  unfold check_tag. cbn [make_move move_from move_to]. rewrite Hp, Hx, Hd. reflexivity.
Qed.

Lemma direct_pawn_bits b dc nb from :
  bb_ok b -> Z.testbit (b & (~~ dc & nb)) from = true ->
  Z.testbit b from = true /\ Z.testbit dc from = false.
Proof.
  intros Hb H. apply bit_and_iff in H. destruct H as [H1 H2].
  apply bit_and_iff in H2. destruct H2 as [H2 _]. split; [assumption|].
  apply bit_not_any_iff in H2; [assumption|]. eapply bb_ok_bit_range; eassumption.
Qed.

Lemma checks_pawn_discovered_keyed pos us ksq dc empty :
  keyed_blocks (check_tag pos dc) [10; 11] (checks_pawn_discovered pos us ksq dc empty).
Proof.
  unfold checks_pawn_discovered, checks_white_pawn_discovered, checks_black_pawn_discovered.
  destruct us; apply (keyed_blocks_app _ [10] [11]); apply keyed_blocks_one;
    try (apply emit1_NoDup; [bb_ok_tac|reflexivity]);
    intros m H; (apply emit1_In in H; [|bb_ok_tac]); destruct H as [to [Hb ->]];
    split_bits.
  - rewrite (check_tag_pawn pos dc WHITE (to - DELTA_N) to true 8); try assumption;
      [reflexivity|unfold DELTA_N; lia].
  - rewrite (check_tag_pawn pos dc WHITE (to - DELTA_N - DELTA_N) to true 16);
      try assumption; [reflexivity|unfold DELTA_N; lia].
  - rewrite (check_tag_pawn pos dc BLACK (to - DELTA_S) to true 8);
      [reflexivity| | |unfold DELTA_S; lia];
      unfold DELTA_S; replace (to - -8) with (to + 8) by lia; assumption.
  - rewrite (check_tag_pawn pos dc BLACK (to - DELTA_S - DELTA_S) to true 16);
      [reflexivity| | |unfold DELTA_S; lia];
      unfold DELTA_S; replace (to - -8 - -8) with (to + 8 + 8) by lia; assumption.
Qed.
Lemma checks_pawn_direct_single_keyed pos us ksq dc empty :
  keyed_blocks (check_tag pos dc) [12] (checks_pawn_direct_single pos us ksq dc empty).
Proof.
  unfold checks_pawn_direct_single, checks_white_pawn_direct_single,
    checks_black_pawn_direct_single.
  destruct us; apply keyed_blocks_one;
    try (apply emit1_NoDup; [bb_ok_tac|reflexivity]);
    intros m H; (apply emit1_In in H; [|bb_ok_tac]); destruct H as [to [Hb ->]];
    split_bits;
    match goal with
    | Hp : Z.testbit (pawns _ _) ?f = true, Hn : Z.testbit (~~ dc) ?f = true |- _ =>
        apply (bit_not_any_iff dc f (proj1 (proj1 (piece_bit _ _ _ _) Hp))) in Hn
    end.
  - rewrite (check_tag_pawn pos dc WHITE (to - DELTA_N) to false 8); try assumption;
      [reflexivity|unfold DELTA_N; lia].
  - rewrite (check_tag_pawn pos dc BLACK (to - DELTA_S) to false 8);
      [reflexivity| | |unfold DELTA_S; lia];
      unfold DELTA_S; replace (to - -8) with (to + 8) by lia; assumption.
Qed.

Lemma checks_pawn_direct_double_keyed pos us ksq dc empty :
  keyed_blocks (check_tag pos dc) [13] (checks_pawn_direct_double pos us ksq dc empty).
Proof.
  unfold checks_pawn_direct_double, checks_white_pawn_direct_double,
    checks_black_pawn_direct_double.
  destruct us; apply keyed_blocks_one;
    try (apply emit1_NoDup; [bb_ok_tac|reflexivity]);
    intros m H; (apply emit1_In in H; [|bb_ok_tac]); destruct H as [to [Hb ->]];
    split_bits;
    match goal with
    | Hp : Z.testbit (pawns _ _) ?f = true, Hn : Z.testbit (~~ dc) ?f = true |- _ =>
        apply (bit_not_any_iff dc f (proj1 (proj1 (piece_bit _ _ _ _) Hp))) in Hn
    end.
  - rewrite (check_tag_pawn pos dc WHITE (to - DELTA_N - DELTA_N) to false 16);
      try assumption; [reflexivity|unfold DELTA_N; lia].
  - rewrite (check_tag_pawn pos dc BLACK (to - DELTA_S - DELTA_S) to false 16);
      [reflexivity| | |unfold DELTA_S; lia];
      unfold DELTA_S; replace (to - -8 - -8) with (to + 8 + 8) by lia; assumption.
Qed.

Lemma checks_piece_keyed pos us pt attacks ksq dc empty k :
  pt <> PAWN -> pt <> QUEEN -> pt <> KING ->
  (forall s, bb_ok (attacks s)) ->
  match pt with KNIGHT => 20 | BISHOP => 30 | _ => 40 end = k ->
  keyed_blocks (check_tag pos dc) [k; k + 1]
    (checks_piece (pieces_of_color_and_type pos us pt) attacks ksq dc empty).
Proof.
  intros Hpw Hq Hk Hok Ek. unfold checks_piece. destruct (negb _); [|apply keyed_blocks_empty].
  apply (keyed_blocks_app _ [k] [k + 1]); apply keyed_blocks_one.
  - apply emit_NoDup_from; [bb_ok_tac| |].
    + intros s. apply emit1_NoDup; [apply bb_and_ok_l, Hok|reflexivity].
    + intros s m H. apply emit1_In in H; [|apply bb_and_ok_l, Hok].
      destruct H as [to [_ ->]]. reflexivity.
  - intros m H. apply emit_In in H; [|bb_ok_tac].
    destruct H as [from [Hb H]]. apply emit1_In in H; [|apply bb_and_ok_l, Hok].
    destruct H as [to [_ ->]]. apply bit_and_iff in Hb. destruct Hb as [Hp Hdc].
    apply piece_bit in Hp. destruct Hp as [_ Hp].
    unfold check_tag. cbn [make_move move_from move_to]. rewrite Hp, Hdc.
    destruct pt; try (subst k; reflexivity); exfalso; auto.
  - apply emit_NoDup_from; [bb_ok_tac| |].
    + intros s. apply emit1_NoDup; [apply bb_and_ok_l, Hok|reflexivity].
    + intros s m H. apply emit1_In in H; [|apply bb_and_ok_l, Hok].
      destruct H as [to [_ ->]]. reflexivity.
  - intros m H. apply emit_In in H; [|bb_ok_tac].
    destruct H as [from [Hb H]]. apply emit1_In in H; [|apply bb_and_ok_l, Hok].
    destruct H as [to [_ ->]].
    assert (Hdc : Z.testbit dc from = false)
      by (eapply not_pinned_bit; [|exact Hb]; bb_ok_tac).
    apply bit_and_iff in Hb. destruct Hb as [Hp _].
    apply piece_bit in Hp. destruct Hp as [_ Hp].
    unfold check_tag. cbn [make_move move_from move_to]. rewrite Hp, Hdc.
    destruct pt; try (subst k; reflexivity); exfalso; auto.
Qed.

Lemma checks_queen_keyed pos us ksq dc empty :
  keyed_blocks (check_tag pos dc) [50] (checks_queen pos (queens pos us) ksq empty).
Proof.
  unfold checks_queen. destruct (negb _); [|apply keyed_blocks_empty].
  apply keyed_blocks_one.
  - apply emit_NoDup_from; [bb_ok_tac| |].
    + intros s. apply emit1_NoDup; [bb_ok_tac|reflexivity].
    + intros s m H. apply emit1_In in H; [|bb_ok_tac].
      destruct H as [to [_ ->]]. reflexivity.
  - intros m H. apply emit_In in H; [|bb_ok_tac].
    destruct H as [from [Hp H]]. apply emit1_In in H; [|bb_ok_tac].
    destruct H as [to [_ ->]].
    apply piece_bit in Hp. destruct Hp as [_ Hp].
    unfold check_tag. cbn [make_move move_from move_to]. rewrite Hp. reflexivity.
Qed.

Lemma checks_king_keyed pos us ksq dc empty :
  piece_on pos (king_square pos us) = Pc us KING ->
  keyed_blocks (check_tag pos dc) [60] (checks_king pos us ksq dc empty).
Proof.
  intros Hking. unfold checks_king. cbv zeta. destruct (bit_is_set _ _);
    [|apply keyed_blocks_empty].
  apply keyed_blocks_one.
  - apply emit1_NoDup; [bb_ok_tac|reflexivity].
  - intros m H. apply emit1_In in H; [|bb_ok_tac]. destruct H as [to [_ ->]].
    unfold check_tag. cbn [make_move move_from move_to]. rewrite Hking. reflexivity.
Qed.

(** [generate_checks] writes no move twice: its loops are told apart by
    the moving piece, by whether that piece is a discovered-check
    candidate, and for pawns by the length of the push. *)
Theorem generate_checks_NoDup (pos : Position) (dc : Bitboard) :
  is_ok pos = true -> NoDup (generate_checks pos dc).
Proof.
  intros Hok.
  destruct (is_ok_king pos (side_to_move pos) Hok) as [_ [Hking _]].
  apply (keyed_blocks_NoDup
           (check_tag pos (discovered_check_candidates pos (side_to_move pos)))
           ([10; 11] ++ [12] ++ [13] ++ [20; 21] ++ [30; 31] ++ [40; 41] ++ [50] ++ [60])).
  - unfold generate_checks. cbv zeta.
    apply keyed_blocks_app; [apply checks_pawn_discovered_keyed|].
    apply keyed_blocks_app; [apply checks_pawn_direct_single_keyed|].
    apply keyed_blocks_app; [apply checks_pawn_direct_double_keyed|].
    apply keyed_blocks_app;
      [apply (checks_piece_keyed pos _ KNIGHT);
       [discriminate|discriminate|discriminate|intros; bb_ok_tac|reflexivity]|].
    apply keyed_blocks_app;
      [apply (checks_piece_keyed pos _ BISHOP);
       [discriminate|discriminate|discriminate|intros; bb_ok_tac|reflexivity]|].
    apply keyed_blocks_app;
      [apply (checks_piece_keyed pos _ ROOK);
       [discriminate|discriminate|discriminate|intros; bb_ok_tac|reflexivity]|].
    apply keyed_blocks_app; [apply checks_queen_keyed|].
    apply checks_king_keyed. assumption.
  - cbn [app]. clear.
    repeat (constructor; [cbn [In]; intuition discriminate|]). constructor.
Qed.

Lemma generate_checks_NoDup_witness :
  is_ok pos_checks = true /\ NoDup (generate_checks pos_checks 0).
Proof.
  assert (Hok : is_ok pos_checks = true) by (vm_compute; reflexivity).
  split; [exact Hok|].
  exact (generate_checks_NoDup pos_checks 0 Hok).
Defined.
Lemma generate_evasions_NoDup_witness :
  is_ok pos_block_check = true /\ bb_ok (checkers pos_block_check)
  /\ NoDup (generate_evasions pos_block_check).
Proof.
  assert (Hok : is_ok pos_block_check = true) by (vm_compute; reflexivity).
  assert (Hch : bb_ok (checkers pos_block_check)).
  { unfold bb_ok. split; [apply Z.leb_le|apply Z.ltb_lt]; vm_compute; reflexivity. }
  split; [exact Hok|]. split; [exact Hch|].
  exact (generate_evasions_NoDup pos_block_check Hok Hch).
Defined.

(** Out of check the legal move list holds exactly the pseudo-legal moves
    that pass [move_is_legal]. *)
Theorem generate_legal_moves_iff_pseudo_legal (pos : Position) (m : Move) :
  is_ok pos = true -> is_check pos = false ->
  (In m (generate_legal_moves pos) <-> pseudo_legal pos m /\ move_is_legal pos m = true).
Proof.
  intros Hok Hc. rewrite (generate_legal_moves_In pos m Hc). split; intros [H Hl].
  - split; [apply pseudo_legal_sound|]; assumption.
  - split; [apply pseudo_legal_complete|]; assumption.
Qed.

Lemma generate_legal_moves_iff_pseudo_legal_witness :
  is_ok pos_middle = true /\ is_check pos_middle = false
  /\ (In (make_move 21 36) (generate_legal_moves pos_middle)
      <-> pseudo_legal pos_middle (make_move 21 36)
          /\ move_is_legal pos_middle (make_move 21 36) = true).
Proof.
  assert (Hok : is_ok pos_middle = true) by (vm_compute; reflexivity).
  assert (Hc : is_check pos_middle = false) by (vm_compute; reflexivity).
  split; [exact Hok|]. split; [exact Hc|].
  exact (generate_legal_moves_iff_pseudo_legal pos_middle (make_move 21 36) Hok Hc).
Defined.

Lemma option_PieceType_eqb_eq p c pt :
  color_of_piece p = Some c ->
  option_PieceType_eqb (type_of_piece p) pt = true -> p = Pc c pt.
Proof.
  destruct p as [|c' pt']; simpl; [discriminate|].
  intros E H. injection E as ->. apply PieceType_eqb_eq in H. subst pt'. reflexivity.
Qed.

(** What the probe never accepts.  A move with distinct squares that
    [generate_move_if_legal] returns starts on a piece of the side to
    move; an en passant capture is made by a pawn onto the en passant
    square and passes [move_is_legal]; a castle is made by the king with
    the matching castling right; any other move does not land on an own
    piece, passes [move_is_legal], and promotes only if the piece is a
    pawn. *)
Theorem generate_move_if_legal_rejects (pos : Position) (m : Move) (pinned : Bitboard) :
  let us := side_to_move pos in
  move_is_ok m = true ->
  generate_move_if_legal pos m pinned = m ->
  color_of_piece_on pos (move_from m) = Some us
  /\ match move_kind m with
     | MK_EP =>
         piece_on pos (move_from m) = Pc us PAWN
         /\ move_to m = ep_square pos
         /\ move_is_legal pos m = true
     | MK_SHORT_CASTLE =>
         piece_on pos (move_from m) = Pc us KING /\ can_castle_kingside pos us = true
     | MK_LONG_CASTLE =>
         piece_on pos (move_from m) = Pc us KING /\ can_castle_queenside pos us = true
     | MK_NORMAL =>
         color_of_piece_on pos (move_to m) <> Some us /\ move_is_legal pos m = true
     | MK_PROMOTION _ =>
         color_of_piece_on pos (move_to m) <> Some us /\ move_is_legal pos m = true
         /\ piece_on pos (move_from m) = Pc us PAWN
     end.
Proof.
  cbv zeta. intros Hmok Hret.
  assert (Hnone : m <> MOVE_NONE).
  { intros ->. vm_compute in Hmok. discriminate. }
  assert (Hnone' : MOVE_NONE <> m) by (intros E; apply Hnone; symmetry; exact E).
  unfold generate_move_if_legal in Hret. cbv zeta in Hret.
  destruct (option_Color_eqb (color_of_piece (piece_on pos (move_from m))) (side_to_move pos))
    eqn:Hcol; cbn [negb] in Hret; [|contradiction].
  apply option_Color_eqb_eq in Hcol. split; [exact Hcol|].
  unfold move_is_ep, move_is_short_castle, move_is_long_castle in Hret.
  destruct (move_kind m) as [|pt| | |] eqn:Hkind.
  - (* normal *)
    destruct (option_Color_eqb (color_of_piece_on pos (move_to m)) (side_to_move pos))
      eqn:Hto; [contradiction|].
    split.
    { intros E. apply option_Color_eqb_eq in E. rewrite E in Hto. discriminate. }
    destruct (option_PieceType_eqb _ PAWN).
    + destruct (_ && negb (move_is_promotion m)); [contradiction|].
      match type of Hret with (if negb ?b then _ else _) = _ => destruct b end;
        cbn [negb] in Hret; [|contradiction].
      destruct (move_is_legal pos m); [reflexivity|contradiction].
    + destruct (piece_attacks_square pos _ _); [|contradiction].
      destruct (move_is_legal pos m); [reflexivity|contradiction].
  - (* promotion *)
    destruct (option_Color_eqb (color_of_piece_on pos (move_to m)) (side_to_move pos))
      eqn:Hto; [contradiction|].
    split.
    { intros E. apply option_Color_eqb_eq in E. rewrite E in Hto. discriminate. }
    destruct (option_PieceType_eqb _ PAWN) eqn:Hpawn.
    + destruct (_ && negb (move_is_promotion m)); [contradiction|].
      match type of Hret with (if negb ?b then _ else _) = _ => destruct b end;
        cbn [negb] in Hret; [|contradiction].
      destruct (move_is_legal pos m); [|contradiction].
      split; [reflexivity|]. apply option_PieceType_eqb_eq; assumption.
    + exfalso. unfold move_is_promotion, move_promotion in Hret. rewrite Hkind in Hret.
      rewrite andb_false_r in Hret. contradiction.
  - (* en passant *)
    destruct (option_PieceType_eqb _ PAWN) eqn:Hpawn; cbn [negb orb] in Hret; [|contradiction].
    destruct (Z.eqb_spec (move_to m) (ep_square pos)) as [E|_]; cbn [negb] in Hret;
      [|contradiction].
    destruct (move_is_legal pos m); [|contradiction].
    split; [apply option_PieceType_eqb_eq; assumption|]. split; [assumption|reflexivity].
  - (* short castle *)
    destruct (option_PieceType_eqb _ KING) eqn:Hk; cbn [negb orb] in Hret; [|contradiction].
    destruct (can_castle_kingside pos (side_to_move pos)); cbn [negb] in Hret; [|contradiction].
    split; [apply option_PieceType_eqb_eq; assumption|reflexivity].
  - (* long castle *)
    destruct (option_PieceType_eqb _ KING) eqn:Hk; cbn [negb orb] in Hret; [|contradiction].
    destruct (can_castle_queenside pos (side_to_move pos)); cbn [negb] in Hret;
      [|contradiction].
    split; [apply option_PieceType_eqb_eq; assumption|reflexivity].
Qed.

Lemma generate_move_if_legal_rejects_witness :
  move_is_ok (make_move 21 36) = true
  /\ generate_move_if_legal pos_middle (make_move 21 36) 0 = make_move 21 36
  /\ color_of_piece_on pos_middle 21 = Some WHITE
  /\ color_of_piece_on pos_middle 36 <> Some WHITE
  /\ move_is_legal pos_middle (make_move 21 36) = true.
Proof.
  assert (Hmok : move_is_ok (make_move 21 36) = true) by (vm_compute; reflexivity).
  assert (Hret : generate_move_if_legal pos_middle (make_move 21 36) 0 = make_move 21 36)
    by (vm_compute; reflexivity).
  split; [exact Hmok|]. split; [exact Hret|].
  destruct (generate_move_if_legal_rejects pos_middle (make_move 21 36) 0 Hmok Hret)
    as [Hfrom [Hto Hlegal]].
  split; [exact Hfrom|]. split; [exact Hto|exact Hlegal].
Defined.

Lemma set_mask_bit_any s i : 0 <= i -> Z.testbit (set_mask s) i = (s =? i).
Proof.
  intros Hi. unfold set_mask. rewrite Z.shiftl_spec by assumption.
  destruct (Z.eqb_spec s i) as [->|Hne].
  - rewrite Z.sub_diag. reflexivity.
  - destruct (i - s) eqn:E; [lia|reflexivity|reflexivity].
Qed.

Lemma clear_bit_bit_any b s i :
  bb_ok b -> Z.testbit (clear_bit b s) i = Z.testbit b i && negb (s =? i).
Proof.
  intros Hb. unfold clear_bit. rewrite Z.land_spec.
  destruct (Z.testbit b i) eqn:E; [|reflexivity]. simpl.
  pose proof (bb_ok_bit_range _ _ Hb E) as Hi.
  rewrite bb_not_bit by assumption.
  rewrite set_mask_bit_any by lia. reflexivity.
Qed.

Lemma occupied_except_bit pos gone i :
  Z.testbit (occupied_except pos gone) i
  = Z.testbit (occupied_squares pos) i && negb (existsb (Z.eqb i) gone).
Proof.
  unfold occupied_except, occupied_squares. rewrite !bb_of_pred_bit.
  apply andb_assoc.
Qed.

(** Clearing the bit of a square takes that square, and no other, off
    the occupancy. *)
Lemma clear_bit_occupied pos s :
  clear_bit (occupied_squares pos) s = occupied_except pos [s].
Proof.
  apply Z.bits_inj'. intros i _.
  rewrite clear_bit_bit_any by apply occupied_squares_ok.
  rewrite occupied_except_bit. cbn [existsb]. rewrite orb_false_r, (Z.eqb_sym s i).
  reflexivity.
Qed.

Lemma clear_bit_occupied2 pos s t :
  clear_bit (clear_bit (occupied_squares pos) s) t = occupied_except pos [s; t].
Proof.
  apply Z.bits_inj'. intros i _.
  rewrite clear_bit_bit_any by (apply clear_bit_ok, occupied_squares_ok).
  rewrite clear_bit_bit_any by apply occupied_squares_ok.
  rewrite occupied_except_bit. cbn [existsb].
  rewrite orb_false_r, negb_orb, (Z.eqb_sym s i), (Z.eqb_sym t i), andb_assoc.
  reflexivity.
Qed.

(** C8. A king move from [ksq] to [to] is among the evasions exactly when
    [to] is in [king_attacks(ksq) & ~own_pieces] and is not attacked with
    the king taken off the occupancy: no enemy pawn, knight or king
    reaches [to], and neither the bishop/queen rays nor the rook/queen
    rays from [to], drawn over the occupied squares other than [ksq], hit
    an enemy bishop or queen, resp. rook or queen. *)
Theorem generate_evasions_king_move_iff (pos : Position) (to : Square) :
  let us := side_to_move pos in
  let them := opposite_color us in
  let ksq := king_square pos us in
  let b2 := occupied_except pos [ksq] in
  is_check pos = true ->
  piece_on pos ksq = king_of_color us ->
  (In (make_move ksq to) (generate_evasions pos) <->
   Z.testbit (king_attacks ksq & ~~ pieces_of_color pos us) to = true
   /\ pawn_attacks us to & pawns pos them = EmptyBoardBB
   /\ knight_attacks to & knights pos them = EmptyBoardBB
   /\ king_attacks to & kings pos them = EmptyBoardBB
   /\ bishop_attacks_bb to b2 & bishops_and_queens pos them = EmptyBoardBB
   /\ rook_attacks_bb to b2 & rooks_and_queens pos them = EmptyBoardBB).
Proof.
  intros us them ksq b2 _ Hking.
  assert (Hesc : king_escape_ok pos us (clear_bit (occupied_squares pos) ksq) to = true <->
                 pawn_attacks us to & pawns pos them = EmptyBoardBB
                 /\ knight_attacks to & knights pos them = EmptyBoardBB
                 /\ king_attacks to & kings pos them = EmptyBoardBB
                 /\ bishop_attacks_bb to b2 & bishops_and_queens pos them = EmptyBoardBB
                 /\ rook_attacks_bb to b2 & rooks_and_queens pos them = EmptyBoardBB).
  { unfold b2. rewrite <- clear_bit_occupied.
    unfold king_escape_ok. fold them. rewrite !andb_true_iff, !Z.eqb_eq. tauto. }
  rewrite <- Hesc. unfold generate_evasions. fold us. fold ksq.
  rewrite in_app_iff, evasions_king_In. split.
  - intros [[to' [Hm H]]|Hrest].
    + injection Hm as <-. exact H.
    + exfalso.
      assert (Hnk : from_nonking pos us (make_move ksq to)).
      { destruct (_ =? 0); [|destruct Hrest].
        rewrite !in_app_iff in Hrest. destruct Hrest as [H|[H|H]].
        - eapply capture_checker_from; eassumption.
        - eapply evasions_block_from; eassumption.
        - apply evasions_ep_kind in H. destruct H as [H _]. discriminate. }
      destruct (Hnk eq_refl) as [pt [Hpt Hon]]. simpl in Hon.
      rewrite Hking in Hon. unfold king_of_color in Hon. congruence.
  - intros H. left. exists to. split; [reflexivity|exact H].
Qed.

Lemma generate_evasions_king_move_iff_witness :
  is_check pos_king_on_file = true
  /\ piece_on pos_king_on_file (king_square pos_king_on_file WHITE) = king_of_color WHITE
  /\ In (make_move 12 3) (generate_evasions pos_king_on_file)
  /\ ~ In (make_move 12 4) (generate_evasions pos_king_on_file)
  /\ rook_attacks_bb 4 (occupied_squares pos_king_on_file)
     & rooks_and_queens pos_king_on_file BLACK = EmptyBoardBB.
Proof.
  assert (Hc : is_check pos_king_on_file = true) by (vm_compute; reflexivity).
  assert (Hk : piece_on pos_king_on_file (king_square pos_king_on_file WHITE)
               = king_of_color WHITE) by (vm_compute; reflexivity).
  split; [exact Hc|]. split; [exact Hk|].
  split; [|split].
  - apply (generate_evasions_king_move_iff pos_king_on_file 3 Hc Hk).
    split; [vm_compute; reflexivity|].
    split; [vm_compute; reflexivity|].
    split; [vm_compute; reflexivity|].
    split; [vm_compute; reflexivity|].
    split; vm_compute; reflexivity.
  - intros Hin.
    pose proof (proj1 (generate_evasions_king_move_iff pos_king_on_file 4 Hc Hk)) as Hdir.
    cbv zeta in Hdir.
    change (king_square pos_king_on_file (side_to_move pos_king_on_file)) with 12 in Hdir.
    destruct (Hdir Hin) as [_ [_ [_ [_ [_ Hrook]]]]]. vm_compute in Hrook. discriminate.
  - vm_compute. reflexivity.
Defined.
(** C9. In check by a single enemy pawn with the en passant square set,
    the en passant capture by a non-pinned own pawn that attacks the ep
    square is among the evasions exactly when, over the occupied squares
    other than the capturing pawn's square and the checker's square, the
    bishop/queen rays from our king reach no enemy bishop or queen and the
    rook/queen rays reach no enemy rook or queen. *)
Theorem generate_evasions_ep_iff (pos : Position) (from : Square) :
  let us := side_to_move pos in
  let them := opposite_color us in
  let ksq := king_square pos us in
  let checksq := first_1 (checkers pos) in
  let to := ep_square pos in
  let b2 := occupied_except pos [from; checksq] in
  is_check pos = true ->
  checkers pos & (checkers pos - 1) = 0 ->
  ep_square pos <> SQ_NONE ->
  checkers pos & pawns pos them <> 0 ->
  Z.testbit (pawn_attacks them to & pawns pos us & ~~ pinned_pieces pos us) from = true ->
  (In (make_ep_move from to) (generate_evasions pos) <->
   bishop_attacks_bb ksq b2 & bishops_and_queens pos them = EmptyBoardBB
   /\ rook_attacks_bb ksq b2 & rooks_and_queens pos them = EmptyBoardBB).
Proof.
  intros us them ksq checksq to b2 _ Hsingle Hep Hpawn Hfrom.
  assert (Hok : ep_evasion_ok pos us ksq checksq from = true <->
                bishop_attacks_bb ksq b2 & bishops_and_queens pos them = EmptyBoardBB
                /\ rook_attacks_bb ksq b2 & rooks_and_queens pos them = EmptyBoardBB).
  { unfold b2. rewrite <- clear_bit_occupied2.
    unfold ep_evasion_ok. fold them. rewrite andb_true_iff, !Z.eqb_eq. tauto. }
  rewrite <- Hok. unfold generate_evasions. fold us. fold ksq.
  rewrite Hsingle, Z.eqb_refl. fold checksq.
  rewrite !in_app_iff, evasions_ep_In. fold them. fold to. split.
  - intros [H|[H|[H|H]]].
    + apply evasions_king_kind in H. destruct H.
    + apply capture_checker_kind in H. destruct H.
    + apply evasions_block_kind in H. destruct H.
    + destruct H as [_ [_ [from' [Hm [_ H]]]]]. injection Hm as <-. exact H.
  - intros H. right. right. right. split; [assumption|]. split; [assumption|].
    exists from. repeat split; assumption.
Qed.

Lemma generate_evasions_ep_iff_witness :
  is_check pos_ep_uncovers = true
  /\ checkers pos_ep_uncovers & (checkers pos_ep_uncovers - 1) = 0
  /\ ep_square pos_ep_uncovers <> SQ_NONE
  /\ checkers pos_ep_uncovers & pawns pos_ep_uncovers BLACK <> 0
  /\ Z.testbit (pawn_attacks BLACK 42 & pawns pos_ep_uncovers WHITE
                & ~~ pinned_pieces pos_ep_uncovers WHITE) 33 = true
  /\ ~ In (make_ep_move 33 42) (generate_evasions pos_ep_uncovers)
  /\ bishop_attacks_bb 27 (occupied_squares pos_ep_uncovers)
     & bishops_and_queens pos_ep_uncovers BLACK = EmptyBoardBB
  /\ In (make_ep_move 35 42) (generate_evasions pos_ep_check).
Proof.
  assert (Hc : is_check pos_ep_uncovers = true) by (vm_compute; reflexivity).
  assert (Hs : checkers pos_ep_uncovers & (checkers pos_ep_uncovers - 1) = 0)
    by (vm_compute; reflexivity).
  assert (He : ep_square pos_ep_uncovers <> SQ_NONE) by (vm_compute; discriminate).
  assert (Hp : checkers pos_ep_uncovers & pawns pos_ep_uncovers BLACK <> 0)
    by (vm_compute; discriminate).
  assert (Hf : Z.testbit (pawn_attacks BLACK 42 & pawns pos_ep_uncovers WHITE
                          & ~~ pinned_pieces pos_ep_uncovers WHITE) 33 = true)
    by (vm_compute; reflexivity).
  split; [exact Hc|]. split; [exact Hs|]. split; [exact He|]. split; [exact Hp|].
  split; [exact Hf|]. split; [|split].
  - intros Hin.
    pose proof (proj1 (generate_evasions_ep_iff pos_ep_uncovers 33 Hc Hs He Hp Hf)) as Hdir.
    cbv zeta in Hdir.
    change (ep_square pos_ep_uncovers) with 42 in Hdir.
    destruct (Hdir Hin) as [Hbishop _]. vm_compute in Hbishop. discriminate.
  - vm_compute. reflexivity.
  - apply (generate_evasions_ep_iff pos_ep_check 35);
      try (vm_compute; reflexivity); try (vm_compute; discriminate).
    split; vm_compute; reflexivity.
Defined.

Lemma keyed_blocks_key key keys l m :
  keyed_blocks key keys l -> In m l -> In (key m) keys.
Proof.
  intros [bs [-> [<- H]]] Hin. apply in_concat in Hin. destruct Hin as [b [Hb Hm]].
  apply in_map_iff in Hb. destruct Hb as [[k b'] [E Hin]]. simpl in E. subst b'.
  destruct (H k b Hin) as [_ Htag]. rewrite (Htag m Hm).
  apply in_map_iff. exists (k, b). split; [reflexivity|assumption].
Qed.

(** The mask of the black double-push loop is the attack set of a black
    pawn on the king's square: a pawn that passes it stands two ranks
    above such a square, where it attacks the king already. *)
Lemma black_double_push_attacks pos ksq dc empty m :
  0 <= ksq < 64 ->
  In m (checks_black_pawn_direct_double pos ksq dc empty) ->
  attacked (piece_on pos) BLACK ksq = true.
Proof.
  intros Hk H. unfold checks_black_pawn_direct_double in H. cbv zeta in H.
  apply emit1_In in H; [|bb_ok_tac]. destruct H as [to [Hto ->]].
  rewrite !bit_and_iff in Hto. destruct Hto as [[Hmid He] Ha].
  apply bit_shr_iff in Hmid. destruct Hmid as [Hmid _].
  rewrite !bit_and_iff in Hmid. destruct Hmid as [[Hfrom _] _].
  apply bit_shr_iff in Hfrom. destruct Hfrom as [Hfrom _].
  rewrite !bit_and_iff in Hfrom. destruct Hfrom as [[Hp _] _].
  apply bit_pawns in Hp. destruct Hp as [Hfr Hp].
  unfold black_pawn_attacks in Ha. apply bit_pawn_attacks in Ha; [|assumption].
  destruct Ha as [Hto Ha]. apply pawn_attack_arith_black in Ha.
  apply (attacked_witness _ BLACK ksq (to + 8 + 8) Hfr); [rewrite Hp; reflexivity|].
  rewrite Hp. cbn [attacks_from].
  change [(1, -1); (-1, -1)] with (pawn_steps BLACK).
  rewrite pawn_steps_arith by assumption.
  apply pawn_attack_arith_black. clear - Ha Hk Hto Hfr. sq_arith.
Qed.

(** C5. In a position where the king of the side not to move is not
    attacked, every push that [generate_checks] writes for a pawn that is
    not a discovered-check candidate, single or double, of either colour,
    lands on an empty square of the pawn-attack set of the other colour
    taken from the enemy king's square, that is on a square from which a
    pawn of the side to move attacks that king.  (The double-push loop of
    Black is masked with the attack set of Black's own pawns; a pawn that
    passes that mask attacks the king before it moves, so in such a
    position the loop writes nothing.) *)
Theorem generate_checks_direct_pawn_target (pos : Position) (dc : Bitboard) (m : Move) :
  let us := side_to_move pos in
  let them := opposite_color us in
  let ksq := king_square pos them in
  is_ok pos = true ->
  attacked (piece_on pos) us ksq = false ->
  In m (generate_checks pos dc) ->
  piece_on pos (move_from m) = Pc us PAWN ->
  Z.testbit (discovered_check_candidates pos us) (move_from m) = false ->
  square_is_empty pos (move_to m) = true
  /\ Z.testbit (pawn_attacks them ksq) (move_to m) = true
  /\ Z.testbit (pawn_attacks us (move_to m)) ksq = true.
Proof.
  intros us them ksq Hok Hsafe Hin Hpawn Hdc.
  destruct (is_ok_king pos them Hok) as [Hk _]. fold ksq in Hk.
  destruct (is_ok_king pos us Hok) as [_ [Hking _]].
  set (dc' := discovered_check_candidates pos us) in *.
  assert (Htag : check_tag pos dc' m = 12 \/ check_tag pos dc' m = 13).
  { unfold check_tag. cbv zeta. rewrite Hpawn, Hdc.
    destruct (Z.abs _ =? 8); [left|right]; reflexivity. }
  assert (Hother : forall keys l, keyed_blocks (check_tag pos dc') keys l ->
                                  ~ In 12 keys -> ~ In 13 keys -> ~ In m l).
  { intros keys l Hkb H12 H13 Hl. apply (keyed_blocks_key _ _ _ m Hkb) in Hl.
    destruct Htag as [E|E]; rewrite E in Hl; contradiction. }
  assert (Hsquare : Z.testbit (empty_squares pos) (move_to m) = true
                    /\ Z.testbit (pawn_attacks them ksq) (move_to m) = true).
  { unfold generate_checks in Hin. cbv zeta in Hin. fold us them ksq dc' in Hin.
    rewrite !in_app_iff in Hin.
    destruct Hin as [H|[H|[H|[H|[H|[H|[H|H]]]]]]].
    - exfalso. revert H. apply (Hother [10; 11]);
        [apply checks_pawn_discovered_keyed| |]; cbn [In]; intuition discriminate.
    - apply checks_pawn_direct_single_target in H. exact H.
    - unfold checks_pawn_direct_double in H. destruct us eqn:Eus.
      + apply checks_white_pawn_direct_double_target in H. exact H.
      + exfalso. apply black_double_push_attacks in H; [|assumption].
        rewrite H in Hsafe. discriminate.
    - exfalso. revert H. apply (Hother [20; 20 + 1]);
        [apply (checks_piece_keyed pos us KNIGHT);
         [discriminate|discriminate|discriminate|intros; bb_ok_tac|reflexivity]| |];
        cbn [In]; intuition discriminate.
    - exfalso. revert H. apply (Hother [30; 30 + 1]);
        [apply (checks_piece_keyed pos us BISHOP);
         [discriminate|discriminate|discriminate|intros; bb_ok_tac|reflexivity]| |];
        cbn [In]; intuition discriminate.
    - exfalso. revert H. apply (Hother [40; 40 + 1]);
        [apply (checks_piece_keyed pos us ROOK);
         [discriminate|discriminate|discriminate|intros; bb_ok_tac|reflexivity]| |];
        cbn [In]; intuition discriminate.
    - exfalso. revert H. apply (Hother [50]);
        [apply checks_queen_keyed| |]; cbn [In]; intuition discriminate.
    - exfalso. revert H. apply (Hother [60]);
        [apply checks_king_keyed; assumption| |]; cbn [In]; intuition discriminate. }
  destruct Hsquare as [He Ha]. apply empty_bit in He. destruct He as [Hto He].
  split; [exact He|]. split; [exact Ha|].
  unfold pawn_attacks in *. rewrite (pawn_attacks_sym us (move_to m) ksq Hto Hk).
  exact Ha.
Qed.

Lemma generate_checks_direct_pawn_target_witness :
  is_ok pos_pawn_double_check = true
  /\ attacked (piece_on pos_pawn_double_check) WHITE 35 = false
  /\ In (make_move 12 28) (generate_checks pos_pawn_double_check 0)
  /\ piece_on pos_pawn_double_check 12 = Pc WHITE PAWN
  /\ Z.testbit (discovered_check_candidates pos_pawn_double_check WHITE) 12 = false
  /\ square_is_empty pos_pawn_double_check 28 = true
  /\ Z.testbit (pawn_attacks BLACK 35) 28 = true
  /\ Z.testbit (pawn_attacks WHITE 28) 35 = true.
Proof.
  assert (Hok : is_ok pos_pawn_double_check = true) by (vm_compute; reflexivity).
  assert (Hsafe : attacked (piece_on pos_pawn_double_check) WHITE 35 = false)
    by (vm_compute; reflexivity).
  assert (Hin : In (make_move 12 28) (generate_checks pos_pawn_double_check 0))
    by (vm_compute; left; reflexivity).
  assert (Hp : piece_on pos_pawn_double_check 12 = Pc WHITE PAWN)
    by (vm_compute; reflexivity).
  assert (Hdc : Z.testbit (discovered_check_candidates pos_pawn_double_check WHITE) 12
                = false) by (vm_compute; reflexivity).
  split; [exact Hok|]. split; [exact Hsafe|]. split; [exact Hin|].
  split; [exact Hp|]. split; [exact Hdc|].
  exact (generate_checks_direct_pawn_target pos_pawn_double_check 0 (make_move 12 28)
           Hok Hsafe Hin Hp Hdc).
Defined.
